(* ===== verification/_CoqProject ===== *)
-Q . S2P
Prelude.v
Utf8.v
RustStr.v
Net.v
F64.v
Json.v
Spi.v
Config.v
Extension.v
HttpProtocol.v
RateLimit.v
WebAuth.v
Web.v
WebThreads.v
WebSystem.v
WebClient.v
SqlParser.v
Privilege.v
Sandbox.v
FunctionExec.v
ProcedureExec.v
LocalWork.v
Outbound.v
HostCheck.v
Pool.v
RuntimeWorker.v
System.v
Stop.v
Drain.v
JobTypes.v
Dashboard.v
CallTables.v
ControlPlane.v
CancelPath.v
CallCustody.v
JobOrigin.v
RuntimeMain.v
Builds.v
Validation.v
AgentSql.v
UnitTests.v
