(* ===== verification/Prelude.v ===== *)
(** * The Allgres native runtime

    Allgres is a PostgreSQL extension that runs agents inside the server.  Its Rust half
    ([src/src/]) is two background workers and a few SQL-callable functions:

    - the _runtime worker_ ([runtime_worker.rs]) owns the only connection to the
      database.  Each turn of its loop serves dashboard requests from a unix socket
      ([rpc.rs], [config.rs]), submits the results its HTTP threads produced, marks
      cancelled calls, and claims new work: outbound HTTP calls for the thread pool
      ([outbound.rs]), agents' SQL ([sandbox.rs]), builds and calls of PL/pgSQL functions
      and procedures ([function_exec.rs], [procedure_exec.rs]);
    - the _web worker_ ([web.rs], [http_protocol.rs]) serves the dashboard: it reads HTTP
      requests, limits rates, checks origin and authorization, and forwards API requests
      to the runtime worker's socket; it never touches the database;
    - [sql_parser.rs] reads the dump of PostgreSQL's own parse tree to tell the control
      plane which relations and functions an agent's statement names; [lib.rs] holds the
      constants, the registration of the workers and the status functions.

    ** Files

    - [Prelude.v]: bytes, notations, tactics, list lemmas.  [Utf8.v], [RustStr.v],
      [F64.v], [Net.v]: the parts of Rust's standard library the sources use (UTF-8
      decoding and truncation; [str] methods, number parsing and printing; [f64]; IP
      addresses and durations).  [Utf8.v] also holds [truncate_utf8] of [lib.rs].
    - [Json.v]: [serde_json]'s values and accessors; the text format is the class
      [SerdeJson], a parameter.
    - [Spi.v]: programs that talk to PostgreSQL.  A Rust function that issues statements
      is a value of [prog]; the server is an arbitrary function from the history of calls
      to the next reply, and an ERROR raised by a statement unwinds as [Throw].
      Monitors and the predicate [wp] reason about all runs at once.
    - [Config.v] ([config.rs]): settings; the socket directory on a model file system.
    - [Extension.v] ([lib.rs]): worker registration, status, host metrics.
    - [HttpProtocol.v] ([http_protocol.rs]): the request reader, its parser and the form
      decoder.
    - [RateLimit.v], [WebAuth.v], [Web.v] ([web.rs]): the sliding windows; tickets,
      tokens, origins and the exposure check; responses, routes, the connection handler,
      the event stream, the accept loop and its thread counter.
    - [WebThreads.v], [WebSystem.v] ([web.rs]): the handler once more, as a program of
      atomic accesses to the shared windows and tickets; and any number of handlers
      interleaved access by access with the accept loop.
    - [WebClient.v]: a client of the web worker, which reads what [web.rs] writes.
    - [SqlParser.v] ([sql_parser.rs]): the dump reader; PostgreSQL's parser and printer are
      parameters of [raw_parse_dump].
    - [Privilege.v]: [drop_privileges] of [runtime_worker.rs], the identifier checks of
      [rpc.rs], [sandbox.rs] and [function_exec.rs], the shape shared by claims and
      completions, and the monitor of privileges.
    - [Sandbox.v], [FunctionExec.v], [ProcedureExec.v]: the executors of the same names.
      [LocalWork.v]: their five pumps as instances of one loop.
    - [Outbound.v] ([outbound.rs]): the address guard, the request a call becomes, the
      cancellation flags, the connector and the transport's wait loops.  The HTTP client is the class
      [HttpClient] with the law the sources rely on (it dials only addresses the
      resolver it was given returned).  [Pool.v]: the pool's threads, its channels and
      the flags they share with the loop, as a step relation.
    - [HostCheck.v] ([src/sql/control_plane.sql]): [is_blocked_host], the control plane's check
      of an address as it is written, against the guard of [outbound.rs].
    - [RuntimeWorker.v] ([runtime_worker.rs], [rpc.rs]): every transaction of the worker,
      the pump and one turn of the loop.
    - [System.v]: turns, pool threads, restarts and stops composed into whole lifetimes;
      [Stop.v]: the way of a cancellation from a turn of the loop to the transport of the
      call; [Drain.v]: the progress of the pool's threads; [JobTypes.v]: the type of the jobs in them.  [Dashboard.v]: the two workers put
      together at the socket they share.  [RuntimeMain.v]: how the worker's process
      starts and ends around its loop.
    - [CallTables.v] ([src/sql/]): the seven tables of calls through which the control
      plane hands work to the worker, as far as the status of a row goes: the SQL
      functions that claim, complete, reclaim, cancel and supersede calls, and a step
      relation for what everybody but the worker does to them.
    - [ControlPlane.v]: the server of [System.v] answering as those tables do
      ([answers], [plane_run]), in place of an arbitrary one; what the worker relies on
      ([honours], distinct ids) is proved there of the SQL.  [CancelPath.v]: a cancelled
      session from the control plane through a turn of the loop to the transport.
    - [CallCustody.v], [JobOrigin.v]: the calls of a lifetime followed from their claim to
      their completion, by an affine ownership judgement over the worker's programs
      ([owns]); and the jobs of the pool followed back to the replies they came from.
    - [Builds.v] ([src/sql/], [function_exec.rs], [procedure_exec.rs]): the build status
      of functions and procedures, the SQL that changes it, and the build pumps against
      it.
    - [Validation.v] ([src/sql/control_plane.sql]): [fn_validate_sql], which decides by the
      analysis of [SqlParser.v] whether an agent's statement may be queued for the sandbox,
      and the permission check it calls.
    - [AgentSql.v]: what is validated, queued in the table [sql_calls], claimed and run in
      the sandbox, put together over whole lifetimes.
    - [UnitTests.v] ([tests.rs]): the crate's own unit tests, run on the model.

    Definitions carry the names of the Rust items.  State that Rust keeps in statics or
    locals is passed explicitly ([Flags], [RateWindows], ticket maps, [LoopState]); what
    comes from outside (clock readings, bytes read, replies, entropy) is an
    argument, so a theorem covers every value of it.  A panic is [None] or the outcome
    [Panicked]; machine integers are [Z] with the width written out where the code
    relies on it ([as_i32], [usize_add], the parsers' overflow checks).

    ** What is proved

    - _Confinement_ ([worker_never_superuser], [sandboxed_sql_confined],
      [routine_build_confined], [routine_call_confined], [run_in_subtransaction_spec],
      [dollar_quote_exact]): over whole lifetimes, unless the operator
      set [ALLGRES_DROP_PRIVILEGES] to 0, no statement but the privilege drop and
      the extension test runs with the connecting superuser's rights; an agent's SQL,
      function or procedure runs only behind the full prologue of role, search path, mode,
      timeout and timer, all of which succeeded; text spliced into DDL is a plain
      identifier or lies inside a dollar quote that ends exactly at the body's end; what
      an ERROR does to a subtransaction.
    - _Nothing is lost_ ([claimed_work_answered], [harvest_answers_results],
      [worker_keeps_books], [pool_answers_everything]): every item a pump claims and every
      result the pool delivers is reported once, in order, under its own id; over whole
      lifetimes the calls sent are the results harvested and the calls still in the pool;
      and the threads never come to a halt before every call has its result, which takes
      four steps for each.
    - _Nothing happens twice_ ([calls_live_once], [no_call_sent_twice],
      [results_reported_once], [cancelled_session_stays_cancelled]): against the call
      tables, with anybody changing them between any two statements, a call is claimed
      once, sent once by one process, reported once and only by who claimed it, and its
      result accepted once; and the calls of a cancelled session are over for good.
    - _Builds_ ([built_is_current]): whatever edits come in between, a function or
      procedure marked built is the one its row's present body describes.
    - _Outbound calls_ ([worker_never_dials_blocked], [is_blocked_ip_ranges], [guards_agree],
      [jobs_well_typed], [cancelled_calls_are_over], [transport_waits_end],
      [stop_reaches_thread], [cancel_reaches_socket]): over whole
      lifetimes no thread connects to a blocked address unless the claimed call allows
      it, the guard is the list of address blocks its comments name and agrees with the
      SQL check on the spellings that one knows but for IPv4-compatible addresses, a thread performs only
      well-formed jobs of their queue's kind, a call's flag is set exactly when the
      server reported it lost, and then the call is over in the control plane; a wait
      ends on time, from the turn that finds a call lost its transport is not asked to
      wait again, and the first turn after a session was cancelled finds its calls lost.
    - _The web worker, one connection_ (the theorems of [HttpProtocol.v], [RateLimit.v],
      [WebAuth.v], [Web.v] and [WebClient.v]): reading is bounded in time and size and
      independent of how the network splits a request; parsing inverts printing; a
      client reads back exactly the responses and events meant; windows, lockout and
      tickets refine a plain log; what a route may ask of the runtime; where a handler
      can panic; where the worker refuses to listen.
    - _Both workers_ ([dashboard_end_to_end]): a dashboard request is one call of
      [dashboard_rpc] with its text, and its response the value that call returns.
    - _The web worker, all threads_ (the theorems of [WebThreads.v] and [WebSystem.v]):
      run alone the interleaved handler is the sequential one ([handler_alone]); under every interleaving
      only admitted requests reach the runtime (with the token or a ticket, where a token is
      configured), tickets are used once, the rate limit
      holds, the lockout is overrun by at most the handlers in flight, and the thread
      counter is the listener's.
    - _SQL analysis_ ([analyze_dump_reports_relation], [analyze_dump_reports_function],
      [literals_name_nothing], [analyze_dump_total]): every relation and function printed
      in a dump is reported, but for names with the characters the reader misreads (a colon, a
      carriage return or form feed, a quote), literals neither add nor hide a name, no dump makes the reader panic.
    - _SQL validation_ ([validated_sql_confined], [permission_decided]): a statement that
      passes is one [SELECT] that writes nothing and names only relations and functions
      the allowlists and the agent's grants admit; the permission query ends.
    - _The sandbox over whole lifetimes_ ([sandbox_runs_validated]): whatever the worker
      runs there was validated for the agent it runs as, behind the whole prologue.
    - _The rest_: only valid JSON of bounded size is forwarded from the RPC socket
      ([rpc_forwards_valid_json]), the socket is private, is where the web worker looks for it
      and survives restarts ([runtime_socket_lifecycle]), the workers are started once
      ([dynamic_start_once]), truncation is the longest valid prefix
      ([truncate_utf8_spec]).

    Theorems named after a defect ([panics_exhaust_threads], [subtransaction_left_open],
    [timer_left_armed], [colon_in_schema_misread], [cr_in_name_misread], [quotes_in_name_misread],
    [literal_tag_reported_as_write], [function_build_unbounded],
    [await_input_repeats_end_of_input], [await_without_timeout_panics],
    [rate_check_keeps_stale], [percent_decode_accepts_sign], [terminator_left],
    [qualified_user_function_accepted]) show where the code departs
    from what it or its comments intend.

    ** Bounds and fuel

    Loops of the sources are structural recursions over the text or over the list of
    events they consume (reads, turns, wait slices), so a theorem about every list is
    about every run.  Six functions take fuel: [host_check], with two calls ([v4_part_again]: the address it calls
    itself with is not one it would take apart again); [create_dir_all], with the
    length of the path ([create_dir_fuel]: a parent is shorter); [chain], with the number of agents (its rows are distinct,
    [chain_ends]); [dollar_tag], with the length of the body
    (each retry lengthens the tag, and a tag longer than the body cannot occur in it;
    [dollar_tag_total] shows this suffices); [radix_digits], with [log2 n + 1] digits
    ([parse_format] reads the result back); [trim_start_matches_fuel], with the length of
    the string.  [read_http_request_bounded] and [transport_waits_end] show that the
    loops that wait for the network end; the former has the time at which a read begins
    and the time at which it is over ([t_now], [t_done]).

    ** What is not modelled

    The SQL control plane ([src/sql/]) is the server of the model.  Outside [ControlPlane.v]
    and the files behind it nothing is assumed of it beyond [honours] (claims keep to
    their limit), [drop_ok] (the privilege drop succeeds), [check_ok] (the check for lost
    calls succeeds) and [typed_reply] (its JSON is well-formed), where a theorem says so.  Of the control plane itself only the status
    of calls and of builds, the validation of SQL, the host check and the roles of agents are
    modelled: not what the agent loop makes of a result, tasks
    beyond their status, accounts, policies, memories, providers, nor the columns of a
    call besides its table, id, task, status and times.
    The jobs claimed in a turn are handed to the pool when the turn ends: in [sys_step] those of
    a turn that raises after sending them reach no thread of the process that dies of it.
    The effects of a claim or a completion count as committed when it is answered; it is
    the last statement of its transaction, so only a failing commit tells the difference.
    (The watchdog and the dispatch before a claim that raises are undone with it; that is
    the run in which they found nothing to do.)  That [gen_random_uuid] hands out no id twice is
    a premise of the step that queues a call ([others_enqueue]).

    In [Validation.v] PostgreSQL's [lower], parser and planner are the class [Engine];
    [\s] of a regular expression is the ASCII white space.
    PostgreSQL's parser, the HTTP client, JSON text ([SerdeJson], with the laws
    [SerdeJsonTyped] and [SerdeJsonLaws] where a theorem needs them) and the operating
    system's sockets are parameters or inputs.  Signal handlers, socket timeouts, memory contexts (calls
    without content), the browser page and what pgrx generates from the
    attributes in [lib.rs] are left out.  A step of a pool thread that drops its guard
    stands for [perform_http] returning: a panic inside the HTTP client, which would end
    the thread, is not represented; nor is a thread that could not be spawned, whose error
    [spawn_http_pool] drops ([pool_answers_everything] holds for any number of threads
    but zero).  The file system of [Config.v] knows a path by one spelling one spelling and has no

    ** Plan

    Modelled: every operation of the Rust sources that keeps state or decides something,
    the status protocols of the call tables and of builds, and the way of SQL from its
    validation to the sandbox.  What is left lies outside the Rust sources: the agent loop
    of the control plane and the payloads of calls, in PL/pgSQL, and the browser page. *)

From Stdlib Require Export ZArith Lia Strings.Byte.
From stdpp Require Export base list gmap strings numbers option.

(** ** Bytes and byte strings

    Rust's [u8] is [Byte.byte]; [&[u8]], [Vec<u8>], [&str] and [String] are
    [list byte] (a Rust string is such a list whose bytes are valid UTF-8, see
    [Utf8.v]). *)

Abbreviation bytes := (list byte).

Declare Scope rust_scope.
Delimit Scope rust_scope with rust.

#[export] Instance byte_eq_decision : EqDecision byte := Byte.byte_eq_dec.

#[export] Program Instance byte_countable : Countable byte :=
  inj_countable Byte.to_N Byte.of_N _.
Next Obligation. exact Byte.of_to_N. Qed.

(** The value of a byte as an integer ([b as u32] and the like). *)
Definition u8 (b : byte) : Z := Z.of_N (Byte.to_N b).

(** A Rust string literal. *)
Definition str (s : string) : bytes := String.list_byte_of_string s.

(** Rust's [==] on bytes, strings and enums without payload. *)
Notation "x == y" := (bool_decide (x = y))
  (at level 70, no associativity) : rust_scope.
Notation "x != y" := (negb (bool_decide (x = y)))
  (at level 70, no associativity) : rust_scope.
Open Scope rust_scope.

(** A byte in an inclusive range, Rust's [(lo..=hi).contains(&b)]. *)
Definition in_range (lo hi : Z) (b : byte) : bool :=
  (lo <=? u8 b)%Z && (u8 b <=? hi)%Z.

(** ** Proof automation *)

Create HintDb allgres.

(** [Is_true]-free boolean reflection of the hypotheses and the goal. *)
Ltac breflect :=
  repeat match goal with
  | H : andb _ _ = true |- _ => apply andb_true_iff in H; destruct H
  | H : orb _ _ = true |- _ => apply orb_true_iff in H
  | H : orb _ _ = false |- _ => apply orb_false_iff in H; destruct H
  | H : negb _ = true |- _ => apply negb_true_iff in H
  | H : negb _ = false |- _ => apply negb_false_iff in H
  | H : bool_decide _ = true |- _ => apply bool_decide_eq_true in H
  | H : bool_decide _ = false |- _ => apply bool_decide_eq_false in H
  | H : (_ <=? _)%Z = true |- _ => apply Z.leb_le in H
  | H : (_ <=? _)%Z = false |- _ => apply Z.leb_gt in H
  | H : (_ <? _)%Z = true |- _ => apply Z.ltb_lt in H
  | H : (_ <? _)%Z = false |- _ => apply Z.ltb_ge in H
  | H : (_ =? _)%Z = true |- _ => apply Z.eqb_eq in H
  | H : (_ =? _)%Z = false |- _ => apply Z.eqb_neq in H
  | H : (_ <=? _)%nat = true |- _ => apply Nat.leb_le in H
  | H : (_ <=? _)%nat = false |- _ => apply Nat.leb_gt in H
  | H : (_ <? _)%nat = true |- _ => apply Nat.ltb_lt in H
  | H : (_ <? _)%nat = false |- _ => apply Nat.ltb_ge in H
  | H : (_ =? _)%nat = true |- _ => apply Nat.eqb_eq in H
  | H : (_ =? _)%nat = false |- _ => apply Nat.eqb_neq in H
  end.

(** Case analysis on the condition of the first [if] or [match] of the goal. *)
Ltac case_cond :=
  match goal with
  | |- context [if ?c then _ else _] => destruct c eqn:?
  end; breflect.

(** Split the conjunctions the goal shows, without unfolding definitions. *)
Ltac ands := repeat match goal with |- _ /\ _ => split end.

(** A fact about one byte, decided on its 256 values. *)
Ltac by_byte b := destruct b; vm_compute; reflexivity.

Lemma u8_range (b : byte) : (0 <= u8 b < 256)%Z.
Proof. unfold u8. pose proof (Byte.to_N_bounded b). lia. Qed.

Lemma u8_inj (a b : byte) : u8 a = u8 b -> a = b.
Proof.
  unfold u8. intros H%N2Z.inj.
  pose proof (Byte.of_to_N a) as Ha. rewrite H, Byte.of_to_N in Ha. congruence.
Qed.

Lemma in_range_spec lo hi b : in_range lo hi b = true <-> (lo <= u8 b <= hi)%Z.
Proof. unfold in_range. rewrite andb_true_iff, !Z.leb_le. done. Qed.

Lemma in_range_false lo hi b :
  in_range lo hi b = false <-> (u8 b < lo \/ hi < u8 b)%Z.
Proof. unfold in_range. rewrite andb_false_iff, !Z.leb_gt. done. Qed.

(** ** Lists *)

(** Well-founded induction on the length of a list. *)
Lemma list_length_ind {A} (P : list A -> Prop) :
  (forall l, (forall l', (length l' < length l)%nat -> P l') -> P l) ->
  forall l, P l.
Proof.
  intros H l. remember (length l) as n eqn:Hn. revert l Hn.
  induction n as [n IH] using lt_wf_ind. intros l ->.
  apply H. intros l' Hl. by eapply IH.
Qed.

(** Rust's [Iterator::filter_map], [find] and [position]. *)
Definition filter_map {A B} (f : A -> option B) (l : list A) : list B := omap f l.

Fixpoint find_first {A} (p : A -> bool) (l : list A) : option A :=
  match l with
  | [] => None
  | x :: l' => if p x then Some x else find_first p l'
  end.

Fixpoint take_while {A} (p : A -> bool) (l : list A) : list A :=
  match l with
  | [] => []
  | x :: l' => if p x then x :: take_while p l' else []
  end.

Fixpoint drop_while {A} (p : A -> bool) (l : list A) : list A :=
  match l with
  | [] => []
  | x :: l' => if p x then drop_while p l' else l
  end.

Lemma take_drop_while {A} (p : A -> bool) l : take_while p l ++ drop_while p l = l.
Proof. induction l as [|x l IH]; simpl; [done|]. destruct (p x); simpl; congruence. Qed.

Lemma take_while_Forall {A} (p : A -> bool) l : Forall (fun x => p x = true) (take_while p l).
Proof. induction l as [|x l IH]; simpl; [done|]. destruct (p x) eqn:?; constructor; auto. Qed.

Lemma take_while_all {A} (p : A -> bool) l :
  Forall (fun x => p x = true) l -> take_while p l = l.
Proof. induction 1 as [|x l Hx _ IH]; simpl; [done|]. by rewrite Hx, IH. Qed.

Lemma take_while_stop {A} (p : A -> bool) l x r :
  Forall (fun x => p x = true) l -> p x = false -> take_while p (l ++ x :: r) = l.
Proof. intros H Hx. induction H as [|y l Hy _ IH]; simpl; [by rewrite Hx|]. by rewrite Hy, IH. Qed.

Lemma drop_while_none {A} (p : A -> bool) l :
  Forall (fun x => p x = false) l -> drop_while p l = l.
Proof. destruct 1 as [|x l Hx _]; simpl; [done|]. by rewrite Hx. Qed.

Lemma find_first_Some {A} (p : A -> bool) l x :
  find_first p l = Some x -> x ∈ l /\ p x = true.
Proof.
  induction l as [|y l IH]; simpl; [done|]. destruct (p y) eqn:Hy.
  - intros [= <-]. split; [left|done].
  - intros [? ?]%IH. split; [by right|done].
Qed.

Lemma find_first_None {A} (p : A -> bool) l :
  find_first p l = None -> Forall (fun x => p x = false) l.
Proof.
  induction l as [|y l IH]; simpl; [done|]. destruct (p y) eqn:Hy; [done|].
  constructor; auto.
Qed.

Lemma filter_length_mono {A} (p q : A -> bool) l :
  (forall x, p x = true -> q x = true) ->
  (length (List.filter p l) <= length (List.filter q l))%nat.
Proof.
  intros H. induction l as [|x l IH]; simpl; [done|].
  destruct (p x) eqn:Hp.
  - rewrite (H x Hp). simpl. lia.
  - destruct (q x); simpl; lia.
Qed.
