(* ===== verification/Utf8.v ===== *)
(** * UTF-8 and Rust's [str]

    Rust guarantees that a [str] holds valid UTF-8, and the program moves
    between raw bytes and strings with [String::from_utf8_lossy],
    [str::from_utf8] and byte-indexed slicing.  This file models that part of
    the standard library the way [core::str::lossy] scans ([utf8_chunks]), and
    the one helper of [src/lib.rs] that slices a string at a byte offset,
    [truncate_utf8]. *)

From S2P Require Import Prelude.

(** ** Scanning *)

(** One step of the scan: a complete character, or a maximal invalid sequence. *)
Inductive chunk :=
| Valid (c : bytes)
| Invalid (c : bytes).

Definition chunk_bytes (k : chunk) : bytes :=
  match k with Valid c => c | Invalid c => c end.

Definition is_valid_chunk (k : chunk) : bool :=
  match k with Valid _ => true | Invalid _ => false end.

(** A continuation byte: [b & 0xC0 == 0x80]. *)
Definition is_cont (b : byte) : bool := (Z.land (u8 b) 192 =? 128)%Z.

(** [core::str::utf8_char_width]: 0 for a byte that starts no character. *)
Definition utf8_char_width (b : byte) : nat :=
  if (u8 b <? 128)%Z then 1
  else if in_range 194 223 b then 2
  else if in_range 224 239 b then 3
  else if in_range 240 244 b then 4
  else 0.

(** The second byte of a three-byte character (no surrogate, no overlong form). *)
Definition second3 (b0 b1 : byte) : bool :=
  if (u8 b0 =? 224)%Z then in_range 160 191 b1
  else if (u8 b0 =? 237)%Z then in_range 128 159 b1
  else in_range 128 191 b1.

(** The second byte of a four-byte character (at most U+10FFFF, no overlong form). *)
Definition second4 (b0 b1 : byte) : bool :=
  if (u8 b0 =? 240)%Z then in_range 144 191 b1
  else if (u8 b0 =? 244)%Z then in_range 128 143 b1
  else in_range 128 191 b1.

(** The first chunk of [b0 :: r]. *)
Definition utf8_first (b0 : byte) (r : bytes) : chunk :=
  match utf8_char_width b0 with
  | 1 => Valid [b0]
  | 2 => match r with
         | b1 :: _ => if is_cont b1 then Valid [b0; b1] else Invalid [b0]
         | [] => Invalid [b0]
         end
  | 3 => match r with
         | b1 :: r1 =>
           if second3 b0 b1 then
             match r1 with
             | b2 :: _ => if is_cont b2 then Valid [b0; b1; b2] else Invalid [b0; b1]
             | [] => Invalid [b0; b1]
             end
           else Invalid [b0]
         | [] => Invalid [b0]
         end
  | 4 => match r with
         | b1 :: r1 =>
           if second4 b0 b1 then
             match r1 with
             | b2 :: r2 =>
               if is_cont b2 then
                 match r2 with
                 | b3 :: _ =>
                   if is_cont b3 then Valid [b0; b1; b2; b3] else Invalid [b0; b1; b2]
                 | [] => Invalid [b0; b1; b2]
                 end
               else Invalid [b0; b1]
             | [] => Invalid [b0; b1]
             end
           else Invalid [b0]
         | [] => Invalid [b0]
         end
  | _ => Invalid [b0]
  end.

(** The scan itself.  [skip] bytes of the current chunk are already emitted. *)
Fixpoint chunks_from (skip : nat) (s : bytes) : list chunk :=
  match s with
  | [] => []
  | b :: r =>
    match skip with
    | S k => chunks_from k r
    | O => let c := utf8_first b r in c :: chunks_from (pred (length (chunk_bytes c))) r
    end
  end.

Definition utf8_chunks (s : bytes) : list chunk := chunks_from 0 s.

(** [str::from_utf8(s).is_ok()]. *)
Definition utf8_valid (s : bytes) : bool := forallb is_valid_chunk (utf8_chunks s).

#[global] Arguments utf8_chunks : simpl never.
#[global] Arguments utf8_valid : simpl never.

Definition replacement_char : bytes := [xef; xbf; xbd].

(** [String::from_utf8_lossy]. *)
Definition from_utf8_lossy (s : bytes) : bytes :=
  concat (map (fun k => match k with Valid c => c | Invalid _ => replacement_char end)
              (utf8_chunks s)).

(** The characters of a string, each as its UTF-8 encoding. *)
Definition chars (s : bytes) : list bytes := map chunk_bytes (utf8_chunks s).

(** The scalar value of an encoded character ([char as u32]). *)
Definition char_code (c : bytes) : Z :=
  match c with
  | [b0] => u8 b0
  | [b0; b1] => Z.lor (Z.shiftl (Z.land (u8 b0) 31) 6) (Z.land (u8 b1) 63)
  | [b0; b1; b2] =>
    Z.lor (Z.shiftl (Z.land (u8 b0) 15) 12)
          (Z.lor (Z.shiftl (Z.land (u8 b1) 63) 6) (Z.land (u8 b2) 63))
  | [b0; b1; b2; b3] =>
    Z.lor (Z.shiftl (Z.land (u8 b0) 7) 18)
          (Z.lor (Z.shiftl (Z.land (u8 b1) 63) 12)
                 (Z.lor (Z.shiftl (Z.land (u8 b2) 63) 6) (Z.land (u8 b3) 63)))
  | _ => 65533
  end.

(** [char::encode_utf8] for the scalar values a byte cast to [char] has
    ([b as char]: U+0000 to U+00FF). *)
Definition latin1_char (b : byte) : bytes :=
  if (u8 b <? 128)%Z then [b]
  else if (u8 b <? 192)%Z then [xc2; b]
  else match Byte.of_N (Z.to_N (u8 b - 64)) with
       | Some b' => [xc3; b']
       | None => replacement_char
       end.

(** [str::is_char_boundary]. *)
Definition is_char_boundary (s : bytes) (i : nat) : bool :=
  if (i =? 0)%nat then true
  else match s !! i with
       | Some b => negb (is_cont b)
       | None => (i =? length s)%nat
       end.

(** ** [src/lib.rs]: [truncate_utf8]

    [let mut end = max; while end > 0 && !s.is_char_boundary(end) { end -= 1 }] *)
Fixpoint boundary_at_or_below (s : bytes) (end_ : nat) : nat :=
  match end_ with
  | O => O
  | S e => if is_char_boundary s end_ then end_ else boundary_at_or_below s e
  end.

Definition truncate_utf8 (s : bytes) (max : nat) : bytes :=
  if (length s <=? max)%nat then s
  else take (boundary_at_or_below s max) s.

(** ** Lemmas on one chunk *)

Lemma is_cont_range b : is_cont b = in_range 128 191 b.
Proof. by_byte b. Qed.

Lemma width_of_cont b : is_cont b = true -> utf8_char_width b = 0%nat.
Proof. destruct b; vm_compute; congruence. Qed.

Lemma second3_cont b0 b1 : second3 b0 b1 = true -> is_cont b1 = true.
Proof.
  rewrite is_cont_range. unfold second3. repeat case_match; rewrite !in_range_spec; lia.
Qed.

Lemma second4_cont b0 b1 : second4 b0 b1 = true -> is_cont b1 = true.
Proof.
  rewrite is_cont_range. unfold second4. repeat case_match; rewrite !in_range_spec; lia.
Qed.

(** A chunk is a nonempty prefix of what is scanned. *)
Lemma utf8_first_prefix b r : exists t u, b :: r = chunk_bytes (utf8_first b r) ++ u
                                          /\ chunk_bytes (utf8_first b r) = b :: t.
Proof. unfold utf8_first. repeat case_match; simplify_eq; simpl; by do 2 eexists. Qed.

Lemma utf8_first_length b r : (0 < length (chunk_bytes (utf8_first b r)) <= S (length r))%nat.
Proof.
  destruct (utf8_first_prefix b r) as (t & u & H & H').
  apply (f_equal length) in H. rewrite length_app, H' in H. rewrite H'. simpl in *. lia.
Qed.

(** A complete character stays complete when more bytes follow. *)
Lemma utf8_first_app b r c t : utf8_first b r = Valid c -> utf8_first b (r ++ t) = Valid c.
Proof.
  unfold utf8_first. intros H.
  destruct r as [|b1 [|b2 [|b3 r]]]; simpl in *; repeat case_match; simplify_eq; done.
Qed.

(** The shape of a complete character: a starting byte, then continuations. *)
Lemma utf8_first_valid b r c :
  utf8_first b r = Valid c ->
  exists t, c = b :: t /\ is_cont b = false /\ Forall (fun x => is_cont x = true) t
            /\ (length c <= 4)%nat.
Proof.
  intros H. assert (is_cont b = false) as Hb.
  { destruct (is_cont b) eqn:Hb; [|done]. unfold utf8_first in H.
    by rewrite width_of_cont in H. }
  unfold utf8_first in H.
  repeat case_match; simplify_eq; eexists; (split; [done|]); (split; [done|]);
    repeat (simpl; split_and?; constructor || lia); eauto using second3_cont, second4_cont.
Qed.

Lemma chunks_from_all k s : (length s <= k)%nat -> chunks_from k s = [].
Proof.
  revert k. induction s as [|b s IH]; intros [|k] Hk; simpl in *; try done; [lia|].
  apply IH. lia.
Qed.

Lemma utf8_first_self b r c : utf8_first b r = Valid c -> utf8_chunks c = [Valid c].
Proof.
  intros H. unfold utf8_chunks.
  destruct (utf8_first_valid _ _ _ H) as (t & -> & _ & _ & _). simpl.
  assert (utf8_first b t = Valid (b :: t)) as ->.
  { revert H. unfold utf8_first.
    repeat match goal with
    | |- match ?x with _ => _ end = _ -> _ => destruct x eqn:?
    | |- (if ?x then _ else _) = _ -> _ => destruct x eqn:?
    end; intros ?; simplify_eq; repeat case_match; congruence. }
  simpl. by rewrite chunks_from_all.
Qed.

(** ** Lemmas on the whole scan *)

Lemma chunks_from_drop k s : chunks_from k s = chunks_from 0 (drop k s).
Proof. revert k. induction s as [|b s IH]; intros [|k]; simpl; done || apply IH. Qed.

(** The scan as a recursive equation. *)
Lemma utf8_chunks_cons b r :
  utf8_chunks (b :: r) =
  utf8_first b r :: utf8_chunks (drop (length (chunk_bytes (utf8_first b r))) (b :: r)).
Proof.
  unfold utf8_chunks. simpl. f_equal.
  pose proof (utf8_first_length b r).
  destruct (length (chunk_bytes (utf8_first b r))) as [|n]; [lia|].
  simpl. apply chunks_from_drop.
Qed.

(** A string whose scan starts with a complete character, cut there. *)
Lemma utf8_chunks_valid b r c :
  utf8_first b r = Valid c ->
  exists u, b :: r = c ++ u /\ utf8_chunks (b :: r) = Valid c :: utf8_chunks u.
Proof.
  intros H. destruct (utf8_first_prefix b r) as (t & u & Hu & Ht). rewrite H in Hu. simpl in Hu.
  exists u. split; [done|]. rewrite utf8_chunks_cons, H. simpl. f_equal.
  rewrite Hu. by rewrite drop_app_length.
Qed.

Lemma utf8_valid_cons b r :
  utf8_valid (b :: r) = true ->
  exists c u, utf8_first b r = Valid c /\ b :: r = c ++ u /\ utf8_valid u = true
              /\ (length u < length (b :: r))%nat.
Proof.
  unfold utf8_valid. intros H. destruct (utf8_first b r) as [c|c] eqn:Hf.
  - destruct (utf8_chunks_valid _ _ _ Hf) as (u & Hu & Hc). rewrite Hc in H.
    exists c, u. split_and!; [done..|].
    destruct (utf8_first_valid _ _ _ Hf) as (t & -> & _).
    apply (f_equal length) in Hu. rewrite length_app in Hu. simpl in *. lia.
  - rewrite utf8_chunks_cons, Hf in H. done.
Qed.

(** The scan of a concatenation whose left part is a string. *)
Lemma utf8_chunks_app a t :
  utf8_valid a = true -> utf8_chunks (a ++ t) = utf8_chunks a ++ utf8_chunks t.
Proof.
  revert t. induction a as [[|b a] IH] using list_length_ind; intros t Ha; [done|].
  destruct (utf8_valid_cons _ _ Ha) as (c & u & Hf & Hu & Hv & Hl).
  destruct (utf8_chunks_valid _ _ _ (utf8_first_app _ _ _ t Hf)) as (w & Hw & Hc).
  assert (w = u ++ t) as ->.
  { change (b :: a ++ t) with ((b :: a) ++ t) in Hw. rewrite Hu, <- app_assoc in Hw.
    by apply app_inv_head in Hw. }
  change ((b :: a) ++ t) with (b :: a ++ t).
  destruct (utf8_chunks_valid _ _ _ Hf) as (u' & Hu' & ->).
  rewrite Hu in Hu'. apply app_inv_head in Hu' as <-.
  by rewrite Hc, (IH u Hl t Hv).
Qed.

Lemma utf8_valid_app a t :
  utf8_valid a = true -> utf8_valid (a ++ t) = utf8_valid t.
Proof.
  intros Ha. unfold utf8_valid. rewrite (utf8_chunks_app _ _ Ha), forallb_app.
  unfold utf8_valid in Ha. by rewrite Ha.
Qed.

Lemma utf8_valid_app_2 a t :
  utf8_valid a = true -> utf8_valid t = true -> utf8_valid (a ++ t) = true.
Proof. intros Ha Ht. by rewrite utf8_valid_app. Qed.

Lemma utf8_valid_concat l :
  Forall (fun s => utf8_valid s = true) l -> utf8_valid (concat l) = true.
Proof. induction 1; simpl; [done|]. by rewrite utf8_valid_app. Qed.

(** ASCII text is UTF-8. *)
Definition is_ascii (b : byte) : bool := (u8 b <? 128)%Z.

Lemma utf8_valid_ascii_cons b s : is_ascii b = true -> utf8_valid (b :: s) = utf8_valid s.
Proof.
  intros Hb. apply (utf8_valid_app [b] s). unfold is_ascii in Hb.
  unfold utf8_valid, utf8_chunks. simpl. unfold utf8_first, utf8_char_width. by rewrite Hb.
Qed.

Lemma utf8_valid_ascii s : Forall (fun b => is_ascii b = true) s -> utf8_valid s = true.
Proof. induction 1; [done|]. by rewrite utf8_valid_ascii_cons. Qed.

(** The chunks of a scan concatenate to what was scanned. *)
Lemma utf8_chunks_concat s : concat (map chunk_bytes (utf8_chunks s)) = s.
Proof.
  induction s as [[|b r] IH] using list_length_ind; [done|].
  rewrite utf8_chunks_cons. simpl map. simpl concat.
  destruct (utf8_first_prefix b r) as (t & u & Hu & Ht).
  rewrite IH.
  - set (c := chunk_bytes (utf8_first b r)) in *. clearbody c. by rewrite Hu, drop_app_length.
  - rewrite length_drop. pose proof (utf8_first_length b r). simpl. lia.
Qed.

Lemma from_utf8_lossy_valid_eq s : utf8_valid s = true -> from_utf8_lossy s = s.
Proof.
  intros H. unfold from_utf8_lossy. rewrite <- (utf8_chunks_concat s) at 2. f_equal.
  apply map_ext_in. unfold utf8_valid in H. rewrite forallb_forall in H.
  intros k Hk. specialize (H k Hk). by destruct k.
Qed.

(** Every chunk the scan reports complete is a string of one character. *)
Lemma utf8_chunks_Valid s c : Valid c ∈ utf8_chunks s -> utf8_chunks c = [Valid c].
Proof.
  induction s as [[|b r] IH] using list_length_ind; [by intros ?%not_elem_of_nil|].
  rewrite utf8_chunks_cons. intros [H|H]%elem_of_cons.
  - eapply utf8_first_self. symmetry. exact H.
  - eapply IH; [|exact H]. rewrite length_drop. pose proof (utf8_first_length b r). simpl. lia.
Qed.

Lemma from_utf8_lossy_valid s : utf8_valid (from_utf8_lossy s) = true.
Proof.
  unfold from_utf8_lossy. apply utf8_valid_concat. apply Forall_forall.
  intros x (k & <- & Hk%list_elem_of_In)%in_map_iff.
  destruct k as [c|c]; [|done].
  unfold utf8_valid. by rewrite (utf8_chunks_Valid s c).
Qed.

(** ** Character boundaries *)

Lemma is_char_boundary_0 s : is_char_boundary s 0 = true.
Proof. done. Qed.

(** At a byte offset of a string, the bytes before it form a string exactly
    when the offset is a character boundary. *)
Lemma char_boundary_take s i :
  utf8_valid s = true -> (i <= length s)%nat ->
  is_char_boundary s i = true -> utf8_valid (take i s) = true.
Proof.
  revert i. induction s as [[|b r] IH] using list_length_ind; intros i Hs Hi Hb.
  { by destruct i. }
  destruct i as [|i]; [done|].
  destruct (utf8_valid_cons _ _ Hs) as (c & u & Hf & Hu & Hv & Hl).
  destruct (utf8_first_valid _ _ _ Hf) as (t & Hc & _ & Ht & _).
  destruct (decide (S i < length c)%nat) as [Hlt|Hge].
  - exfalso. unfold is_char_boundary in Hb. simpl Nat.eqb in Hb.
    rewrite Hu, lookup_app_l in Hb by lia. rewrite Hc in Hb, Hlt. simpl in Hb, Hlt.
    destruct (lookup_lt_is_Some_2 t i ltac:(lia)) as [x Hx]. rewrite Hx in Hb.
    rewrite Forall_lookup in Ht. rewrite (Ht _ _ Hx) in Hb. done.
  - rewrite Hu, take_app_ge by lia.
    apply utf8_valid_app_2.
    + unfold utf8_valid. by rewrite (utf8_first_self _ _ _ Hf).
    + apply IH; [done..| |].
      * rewrite Hu, length_app in Hi. lia.
      * rewrite Hu in Hb. unfold is_char_boundary in *.
        rewrite lookup_app_r, length_app in Hb by lia.
        change (S i =? 0)%nat with false in Hb.
        destruct (S i - length c =? 0)%nat; [done|].
        destruct (u !! (S i - length c)%nat); [done|].
        apply Nat.eqb_eq in Hb. apply Nat.eqb_eq. lia.
Qed.

Lemma char_boundary_of_take s i :
  utf8_valid s = true -> (i <= length s)%nat ->
  utf8_valid (take i s) = true -> is_char_boundary s i = true.
Proof.
  intros Hs Hi Ht. unfold is_char_boundary. destruct (i =? 0)%nat eqn:Hi0; [done|].
  destruct (s !! i) as [b|] eqn:Hb.
  - apply negb_true_iff. destruct (is_cont b) eqn:Hc; [|done]. exfalso.
    rewrite <- (take_drop i s), utf8_valid_app in Hs by done.
    rewrite (drop_S s b i Hb) in Hs.
    destruct (utf8_valid_cons _ _ Hs) as (c & u & Hf & _).
    destruct (utf8_first_valid _ _ _ Hf) as (t & _ & Hn & _). congruence.
  - apply lookup_ge_None in Hb. apply Nat.eqb_eq. lia.
Qed.

(** The rest of a string after a boundary is a string. *)
Lemma char_boundary_drop s i :
  utf8_valid s = true -> (i <= length s)%nat ->
  is_char_boundary s i = true -> utf8_valid (drop i s) = true.
Proof.
  intros Hs Hi Hb. pose proof (char_boundary_take s i Hs Hi Hb) as Ht.
  rewrite <- (utf8_valid_app (take i s)) by done. by rewrite take_drop.
Qed.

#[export] Hint Resolve from_utf8_lossy_valid utf8_valid_app_2 utf8_valid_concat
  char_boundary_take char_boundary_drop : allgres.

(** ** [truncate_utf8] *)

(** Characters are at most four bytes long, so some boundary is at most three
    bytes below any offset. *)
Lemma boundary_nearby s i :
  utf8_valid s = true -> (i <= length s)%nat ->
  exists j, (j <= i <= j + 3)%nat /\ utf8_valid (take j s) = true.
Proof.
  revert i. induction s as [[|b r] IH] using list_length_ind; intros i Hs Hi.
  { exists 0%nat. split; [simpl in Hi; lia|done]. }
  destruct (utf8_valid_cons _ _ Hs) as (c & u & Hf & Hu & Hv & Hl).
  destruct (utf8_first_valid _ _ _ Hf) as (t & _ & _ & _ & H4).
  destruct (decide (i < length c)%nat) as [Hlt|Hge].
  { exists 0%nat. split; [lia|done]. }
  rewrite Hu, length_app in Hi.
  destruct (IH u Hl (i - length c)%nat Hv ltac:(lia)) as (j & Hj & Hjv).
  exists (length c + j)%nat. split; [lia|].
  rewrite Hu, take_app_add. apply utf8_valid_app_2; [|done].
  unfold utf8_valid. by rewrite (utf8_first_self _ _ _ Hf).
Qed.

Lemma boundary_at_or_below_spec s i :
  (i <= length s)%nat ->
  let e := boundary_at_or_below s i in
  (e <= i)%nat /\ is_char_boundary s e = true /\
  forall j, (j <= i)%nat -> is_char_boundary s j = true -> (j <= e)%nat.
Proof.
  induction i as [|i IH]; intros Hi; simpl.
  { split_and!; [lia|done|lia]. }
  destruct (is_char_boundary s (S i)) eqn:Hb.
  { split_and!; [lia|done|]. lia. }
  destruct IH as (Hle & He & Hmax); [lia|]. split_and!; [lia|done|].
  intros j Hj Hjb. destruct (decide (j = S i)) as [->|]; [congruence|].
  apply Hmax; [lia|done].
Qed.

Lemma truncate_utf8_valid s max :
  utf8_valid s = true ->
  utf8_valid (truncate_utf8 s max) = true /\ truncate_utf8 s max `prefix_of` s
  /\ (length (truncate_utf8 s max) <= max)%nat.
Proof.
  intros Hs. unfold truncate_utf8. destruct (length s <=? max)%nat eqn:Hm; breflect; [done|].
  destruct (boundary_at_or_below_spec s max) as (Hle & Hb & _); [lia|].
  rewrite length_take, Nat.min_l by lia. split_and!; [|apply prefix_take|done].
  apply char_boundary_take; [done|lia|done].
Qed.

(** For every Rust string [s], [truncate_utf8 s max] is valid UTF-8, is a
    prefix of [s], is at most [max] bytes long, is the longest such prefix, loses
    at most three bytes against [max] when it cuts, and is [s] itself when [s]
    already fits. *)
Theorem truncate_utf8_spec s max :
  utf8_valid s = true ->
  let t := truncate_utf8 s max in
  utf8_valid t = true /\ t `prefix_of` s /\ (length t <= max)%nat /\
  (forall p, p `prefix_of` s -> (length p <= max)%nat -> utf8_valid p = true ->
             (length p <= length t)%nat) /\
  ((length s <= max)%nat -> t = s) /\
  ((max < length s)%nat -> (max <= length t + 3)%nat).
Proof.
  intros Hs. unfold truncate_utf8. destruct (length s <=? max)%nat eqn:Hm; breflect; cbv zeta.
  { split_and!; [done|done|done| |done|lia]. intros p Hp _ _. by apply prefix_length. }
  destruct (boundary_at_or_below_spec s max) as (Hle & Hb & Hmax); [lia|].
  set (e := boundary_at_or_below s max) in *. clearbody e.
  rewrite length_take, Nat.min_l by lia.
  assert (forall j, (j <= max)%nat -> utf8_valid (take j s) = true -> (j <= e)%nat) as Hlong.
  { intros j Hj Hv. apply Hmax; [done|]. apply char_boundary_of_take; [done|lia|done]. }
  split_and!.
  - apply char_boundary_take; [done|lia|done].
  - apply prefix_take.
  - done.
  - intros p [k Hk] Hpl Hpv. apply Hlong; [done|]. by rewrite Hk, take_app_length.
  - lia.
  - intros _. destruct (boundary_nearby s max Hs) as (j & Hj & Hjv); [lia|].
    specialize (Hlong j ltac:(lia) Hjv). lia.
Qed.

(** "h\u{e9}llo" cut at two bytes keeps only the "h". *)
Lemma truncate_utf8_spec_witness :
  let s := str "h" ++ [xc3; xa9] ++ str "llo" in
  truncate_utf8 s 2 = str "h" /\ utf8_valid (truncate_utf8 s 2) = true.
Proof.
  cbv zeta. split; [vm_compute; reflexivity|].
  apply (truncate_utf8_spec (str "h" ++ [xc3; xa9] ++ str "llo") 2). vm_compute. reflexivity.
Defined.

(** ** Cutting a string next to an ASCII byte *)

Lemma ascii_not_cont b : is_ascii b = true -> is_cont b = false.
Proof. unfold is_ascii. rewrite is_cont_range, Z.ltb_lt, in_range_false. lia. Qed.

Lemma utf8_valid_around a b t :
  is_ascii b = true -> utf8_valid (a ++ b :: t) = true ->
  utf8_valid a = true /\ utf8_valid t = true.
Proof.
  intros Hb Hv. assert (is_char_boundary (a ++ b :: t) (length a) = true) as Hc.
  { unfold is_char_boundary. destruct (length a =? 0)%nat; [done|].
    rewrite list_lookup_middle by done. by rewrite ascii_not_cont. }
  assert (length a <= length (a ++ b :: t))%nat as Hl by (rewrite length_app; lia).
  pose proof (char_boundary_take _ _ Hv Hl Hc) as H1. rewrite take_app_length in H1.
  pose proof (char_boundary_drop _ _ Hv Hl Hc) as H2. rewrite drop_app_length in H2.
  rewrite utf8_valid_ascii_cons in H2 by done. done.
Qed.

(** The same for an occurrence of a nonempty ASCII string. *)
Lemma utf8_valid_after_ascii a n t :
  n <> [] -> Forall (fun b => is_ascii b = true) n -> utf8_valid (a ++ n ++ t) = true ->
  utf8_valid t = true.
Proof.
  intros Hne Hn Hv. destruct (exists_last Hne) as (m & b & ->).
  apply Forall_app in Hn as [_ Hb]. apply Forall_cons_iff in Hb as [Hb _].
  rewrite <- app_assoc, app_assoc in Hv. simpl in Hv. by eapply utf8_valid_around in Hv as [_ ?].
Qed.

(** Removing NUL characters leaves valid text. *)
Lemma utf8_valid_without_nul s :
  utf8_valid s = true -> utf8_valid (List.filter (fun b => b != x00) s) = true.
Proof.
  induction s as [[|b r] IH] using list_length_ind; intros Hs; [done|].
  destruct (utf8_valid_cons _ _ Hs) as (c & u & Hf & Hu & Hv & Hl). rewrite Hu, filter_app.
  apply utf8_valid_app_2; [|by apply IH].
  destruct (utf8_first_valid _ _ _ Hf) as (t & -> & Hb & Ht & _).
  assert (List.filter (fun b => b != x00) t = t) as Et.
  { clear -Ht. induction Ht as [|x t Hx _ IH]; [done|]. cbn [List.filter].
    rewrite bool_decide_eq_false_2 by (by intros ->). cbn [negb]. by rewrite IH. }
  cbn [List.filter]. rewrite Et. case_bool_decide as Hn; cbn [negb].
  - subst b. vm_compute in Hf. injection Hf as <-. done.
  - unfold utf8_valid. by rewrite (utf8_first_self _ _ _ Hf).
Qed.
