(* ===== verification/RustStr.v ===== *)
(** * The string operations of Rust's standard library the program uses

    Byte classes, searching, splitting, trimming and integer parsing, as
    [core::str], [core::num] and [u8::is_ascii_*] define them.  Strings are
    [bytes]; the character-based operations ([trim], [split_whitespace]) go
    through [Utf8.chars]. *)

From S2P Require Import Prelude Utf8.

(** ** Byte classes *)

Definition is_ascii_digit (b : byte) : bool := in_range 48 57 b.
Definition is_ascii_upper (b : byte) : bool := in_range 65 90 b.
Definition is_ascii_lower (b : byte) : bool := in_range 97 122 b.
Definition is_ascii_alphanumeric (b : byte) : bool :=
  is_ascii_digit b || is_ascii_upper b || is_ascii_lower b.
Definition is_ascii_hexdigit (b : byte) : bool :=
  is_ascii_digit b || in_range 65 70 b || in_range 97 102 b.

(** [u8::is_ascii_whitespace]: space, tab, line feed, form feed, carriage
    return (not vertical tab). *)
Definition is_ascii_whitespace (b : byte) : bool :=
  (b == x20) || (b == x09) || (b == x0a) || (b == x0c) || (b == x0d).

Definition byte_shift (b : byte) (d : Z) : byte :=
  default b (Byte.of_N (Z.to_N (u8 b + d))).

Definition to_lower (b : byte) : byte := if is_ascii_upper b then byte_shift b 32 else b.
Definition to_upper (b : byte) : byte := if is_ascii_lower b then byte_shift b (-32) else b.
Definition to_ascii_lowercase (s : bytes) : bytes := map to_lower s.
Definition to_ascii_uppercase (s : bytes) : bytes := map to_upper s.
Definition eq_ignore_ascii_case (a b : bytes) : bool :=
  to_ascii_lowercase a == to_ascii_lowercase b.

(** ** Searching and splitting *)

Fixpoint starts_with (p s : bytes) : bool :=
  match p, s with
  | [], _ => true
  | _ :: _, [] => false
  | a :: p', b :: s' => (a == b) && starts_with p' s'
  end.

Definition strip_prefix (p s : bytes) : option bytes :=
  if starts_with p s then Some (drop (length p) s) else None.

(** [s.find(needle)], the offset of the first occurrence. *)
Fixpoint find_sub (needle s : bytes) : option nat :=
  if starts_with needle s then Some 0%nat
  else match s with
       | [] => None
       | _ :: s' => S <$> find_sub needle s'
       end.

Definition contains (s needle : bytes) : bool :=
  match find_sub needle s with Some _ => true | None => false end.

(** [s.split_once(c)] for an ASCII [c]. *)
Fixpoint split_once (c : byte) (s : bytes) : option (bytes * bytes) :=
  match s with
  | [] => None
  | b :: r => if b == c then Some ([], r)
              else match split_once c r with
                   | Some (k, v) => Some (b :: k, v)
                   | None => None
                   end
  end.

(** [s.split(c)] for an ASCII [c]. *)
Fixpoint split_on (c : byte) (s : bytes) : list bytes :=
  match s with
  | [] => [[]]
  | b :: r => if b == c then [] :: split_on c r
              else match split_on c r with
                   | h :: t => (b :: h) :: t
                   | [] => [[b]]
                   end
  end.

(** [s.rfind(c)] for an ASCII [c]. *)
Fixpoint rfind (c : byte) (s : bytes) : option nat :=
  match s with
  | [] => None
  | b :: r => match rfind c r with
              | Some i => Some (S i)
              | None => if b == c then Some 0%nat else None
              end
  end.

(** [s.trim_start_matches(p)] for a nonempty pattern string: all leading
    copies of [p]. *)
Fixpoint trim_start_matches_fuel (fuel : nat) (p s : bytes) : bytes :=
  match fuel with
  | O => s
  | S f => match strip_prefix p s with
           | Some r => trim_start_matches_fuel f p r
           | None => s
           end
  end.

Definition trim_start_matches (p s : bytes) : bytes :=
  trim_start_matches_fuel (length s) p s.

Definition trim_end_matches (c : byte) (s : bytes) : bytes :=
  rev (drop_while (fun b => b == c) (rev s)).

(** ** White space *)

(** [char::is_whitespace], the Unicode property White_Space. *)
Definition white_space (c : bytes) : bool :=
  let n := char_code c in
  ((9 <=? n) && (n <=? 13) || (n =? 32) || (n =? 133) || (n =? 160) || (n =? 5760)
   || (8192 <=? n) && (n <=? 8202) || (n =? 8232) || (n =? 8233) || (n =? 8239)
   || (n =? 8287) || (n =? 12288))%Z.

Definition trim (s : bytes) : bytes :=
  concat (rev (drop_while white_space (rev (drop_while white_space (chars s))))).

(** [s.split_whitespace()]. *)
Fixpoint split_ws_chars (cs : list bytes) : list (list bytes) :=
  match cs with
  | [] => [[]]
  | c :: r => if white_space c then [] :: split_ws_chars r
              else match split_ws_chars r with
                   | h :: t => (c :: h) :: t
                   | [] => [[c]]
                   end
  end.

Definition nonempty {A} (l : list A) : bool := match l with [] => false | _ => true end.

Definition split_whitespace (s : bytes) : list bytes :=
  map (@concat byte) (List.filter nonempty (split_ws_chars (chars s))).

(** [s.lines()]: terminated by a line feed, which is dropped together with a
    carriage return in front of it. *)
Fixpoint split_inclusive_lf (s : bytes) : list bytes :=
  match s with
  | [] => []
  | b :: r => if b == x0a then [b] :: split_inclusive_lf r
              else match split_inclusive_lf r with
                   | h :: t => (b :: h) :: t
                   | [] => [[b]]
                   end
  end.

Definition strip_suffix (c : byte) (s : bytes) : option bytes :=
  match rev s with
  | b :: r => if b == c then Some (rev r) else None
  | [] => None
  end.

Definition strip_eol (line : bytes) : bytes :=
  match strip_suffix x0a line with
  | None => line
  | Some l => match strip_suffix x0d l with None => l | Some l' => l' end
  end.

Definition lines (s : bytes) : list bytes := map strip_eol (split_inclusive_lf s).

(** ** Integers *)

Definition digit_val (radix : Z) (b : byte) : option Z :=
  let d := if is_ascii_digit b then Some (u8 b - 48)%Z
           else if is_ascii_lower b then Some (u8 b - 87)%Z
           else if is_ascii_upper b then Some (u8 b - 55)%Z
           else None in
  match d with
  | Some v => if (v <? radix)%Z then Some v else None
  | None => None
  end.

Fixpoint parse_digits (radix max acc : Z) (s : bytes) : option Z :=
  match s with
  | [] => Some acc
  | b :: r => match digit_val radix b with
              | Some d => let v := (acc * radix + d)%Z in
                          if (v <=? max)%Z then parse_digits radix max v r else None
              | None => None
              end
  end.

(** [uN::from_str_radix]: an optional plus sign, then at least one digit; [None]
    on an empty string, a foreign character or overflow beyond [max]. *)
Definition from_str_radix (radix max : Z) (s : bytes) : option Z :=
  match s with
  | [] => None
  | b :: r => if b == "+"%byte then
                match r with [] => None | _ => parse_digits radix max 0 r end
              else parse_digits radix max 0 s
  end.

(** Printing an unsigned integer: [format!("{n}")] and [format!("{n:x}")]. *)
Definition digit_char (v : Z) : byte :=
  default x30 (Byte.of_N (Z.to_N (if (v <? 10)%Z then 48 + v else 87 + v)%Z)).

Fixpoint radix_digits (fuel : nat) (radix n : Z) (acc : bytes) : bytes :=
  match fuel with
  | O => acc
  | S f =>
    let acc := digit_char (n mod radix) :: acc in
    if (n <? radix)%Z then acc else radix_digits f radix (n / radix) acc
  end.

(** [n] has at most [log2 n + 1] digits. *)
Definition format_radix (radix n : Z) : bytes :=
  radix_digits (S (Z.to_nat (Z.log2 n))) radix n [].

Definition u8_max : Z := 255.
Definition usize_max : Z := 2 ^ 64 - 1.

(** [s.parse::<usize>()] on a 64-bit target. *)
Definition parse_usize (s : bytes) : option Z := from_str_radix 10 usize_max s.

(** ** Lemmas *)

Lemma starts_with_spec p s : starts_with p s = true <-> p `prefix_of` s.
Proof.
  revert s. induction p as [|a p IH]; intros s; simpl.
  { split; [intros _; by exists s|done]. }
  destruct s as [|b s].
  { split; [done|]. intros [k Hk]. done. }
  rewrite andb_true_iff, bool_decide_eq_true, IH. split.
  - intros [-> ?]. by apply prefix_cons.
  - intros H. split; [by eapply prefix_cons_inv_1|by eapply prefix_cons_inv_2].
Qed.

Lemma starts_with_app p t : starts_with p (p ++ t) = true.
Proof. apply starts_with_spec. by exists t. Qed.

Lemma strip_prefix_Some p s r : strip_prefix p s = Some r <-> s = p ++ r.
Proof.
  unfold strip_prefix. split.
  - case_match eqn:H; intros; simplify_eq. apply starts_with_spec in H as [k ->].
    by rewrite drop_app_length.
  - intros ->. by rewrite starts_with_app, drop_app_length.
Qed.

(** [find_sub] returns the first occurrence. *)
Lemma find_sub_Some n s i :
  find_sub n s = Some i ->
  (exists t, s = take i s ++ n ++ t) /\ (i + length n <= length s)%nat /\
  forall j, (j < i)%nat -> starts_with n (drop j s) = false.
Proof.
  revert i. induction s as [|b s IH]; intros i; simpl.
  - destruct n; simpl; intros; simplify_eq. split_and!; [by exists []|simpl; lia|lia].
  - destruct (starts_with n (b :: s)) eqn:Hp.
    + intros [= <-]. pose proof Hp as [t Ht]%starts_with_spec. split_and!.
      * exists t. by rewrite Ht.
      * apply (f_equal length) in Ht. rewrite length_app in Ht. simpl in *. lia.
      * lia.
    + intros (i' & Hi & ->)%fmap_Some. destruct (IH _ Hi) as ((t & Ht) & Hl & Hj).
      split_and!.
      * exists t. simpl. congruence.
      * simpl. lia.
      * intros [|j] ?; [done|]. simpl. apply Hj. lia.
Qed.

Lemma find_sub_None n s :
  find_sub n s = None -> forall j, starts_with n (drop j s) = true -> False.
Proof.
  induction s as [|b s IH]; simpl.
  - destruct n; [done|]. intros _ [|j]; simpl; done.
  - destruct (starts_with n (b :: s)) eqn:Hp; [done|].
    intros H%fmap_None [|j]; simpl; [congruence|]. by apply IH.
Qed.

(** An occurrence, with no earlier one, is what [find_sub] returns. *)
Lemma find_sub_first n s i :
  starts_with n (drop i s) = true ->
  (forall j, (j < i)%nat -> starts_with n (drop j s) = false) ->
  find_sub n s = Some i.
Proof.
  revert i. induction s as [|b s IH]; intros i Hp Hj; simpl.
  - destruct i as [|i]; simpl in Hp; [by rewrite Hp|].
    specialize (Hj 0%nat ltac:(lia)). simpl in Hj. rewrite Hj in Hp. done.
  - destruct i as [|i].
    { simpl in Hp. by rewrite Hp. }
    pose proof (Hj 0%nat ltac:(lia)) as H0. simpl in H0. rewrite H0. simpl in Hp.
    rewrite (IH i Hp); [done|]. intros j Hlt. apply (Hj (S j)). lia.
Qed.

Lemma contains_spec s n : contains s n = true <-> exists a b, s = a ++ n ++ b.
Proof.
  unfold contains. split.
  - case_match eqn:H; [|done]. intros _.
    destruct (find_sub_Some _ _ _ H) as ((t & Ht) & _). eauto.
  - intros (a & b & ->). case_match eqn:H; [done|]. exfalso.
    apply (find_sub_None _ _ H (length a)). rewrite drop_app_length. apply starts_with_app.
Qed.

Lemma split_once_Some c s k v :
  split_once c s = Some (k, v) <-> s = k ++ c :: v /\ c ∉ k.
Proof.
  revert k v. induction s as [|b s IH]; intros k v; simpl.
  { split; [done|]. intros [H _]. by destruct k. }
  destruct (bool_decide (b = c)) eqn:Hb; breflect.
  - subst b. split.
    + intros [= <- <-]. split; [done|]. apply not_elem_of_nil.
    + intros [H Hk]. destruct k as [|x k]; simplify_eq/=; [done|]. by destruct Hk; left.
  - destruct (split_once c s) as [[k' v']|] eqn:Hs.
    + destruct (IH k' v') as [[-> Hk'] _]; [done|]. split.
      * intros [= <- <-]. split; [done|]. rewrite not_elem_of_cons. done.
      * intros [H Hk]. destruct k as [|x k]; simplify_eq/=.
        rewrite not_elem_of_cons in Hk. destruct Hk as [_ Hk].
        assert (Some (k', v') = Some (k, v)) by (by apply IH). congruence.
    + split; [done|]. intros [H Hk]. destruct k as [|x k]; simplify_eq/=.
      rewrite not_elem_of_cons in Hk. destruct Hk as [_ Hk].
      assert (@None (bytes * bytes) = Some (k, v)) by (by apply IH). done.
Qed.

Lemma split_once_None c s : split_once c s = None <-> c ∉ s.
Proof.
  induction s as [|b s IH]; simpl.
  { split; [intros _; apply not_elem_of_nil|done]. }
  rewrite not_elem_of_cons. destruct (bool_decide (b = c)) eqn:Hb; breflect.
  - subst b. split; [done|]. by intros [].
  - destruct (split_once c s) as [[k v]|].
    + split; [done|]. intros [_ ?%IH]. done.
    + split; [|done]. intros _. split; [congruence|by apply IH].
Qed.

Lemma split_on_app c k r :
  c ∉ k -> split_on c (k ++ c :: r) = k :: split_on c r.
Proof.
  induction k as [|b k IH]; simpl; intros Hk.
  - by rewrite bool_decide_eq_true_2.
  - rewrite not_elem_of_cons in Hk. destruct Hk as [Hb Hk].
    rewrite bool_decide_eq_false_2 by congruence. by rewrite IH.
Qed.

Lemma split_on_none c k : c ∉ k -> split_on c k = [k].
Proof.
  induction k as [|b k IH]; simpl; intros Hk; [done|].
  rewrite not_elem_of_cons in Hk. destruct Hk as [Hb Hk].
  rewrite bool_decide_eq_false_2 by congruence. by rewrite IH.
Qed.

(** ** ASCII strings: characters are bytes *)

Abbreviation ascii_str s := (Forall (fun b => is_ascii b = true) s).

Lemma chars_ascii_app s t : ascii_str s -> chars (s ++ t) = map (fun b => [b]) s ++ chars t.
Proof.
  induction 1 as [|b s Hb Hs IH]; simpl; [done|].
  unfold chars in *. rewrite utf8_chunks_cons.
  assert (utf8_first b (s ++ t) = Valid [b]) as ->.
  { unfold utf8_first, utf8_char_width. unfold is_ascii in Hb. by rewrite Hb. }
  simpl. rewrite drop_0. by rewrite IH.
Qed.

Lemma chars_ascii s : ascii_str s -> chars s = map (fun b => [b]) s.
Proof. intros H. rewrite <- (app_nil_r s) at 1. rewrite chars_ascii_app by done. by rewrite app_nil_r. Qed.

Lemma concat_singletons {A} (s : list A) : concat (map (fun b => [b]) s) = s.
Proof. induction s; simpl; congruence. Qed.

(** The ASCII white space of [char::is_whitespace]. *)
Definition ascii_space (b : byte) : bool := white_space [b].

Lemma drop_while_map_singleton s :
  drop_while white_space (map (fun b => [b]) s) = map (fun b => [b]) (drop_while ascii_space s).
Proof. induction s as [|b s IH]; simpl; [done|]. unfold ascii_space at 1. by case_match. Qed.

Lemma trim_ascii s :
  ascii_str s -> trim s = rev (drop_while ascii_space (rev (drop_while ascii_space s))).
Proof.
  intros H. unfold trim. rewrite chars_ascii by done.
  rewrite drop_while_map_singleton, <- map_rev, drop_while_map_singleton, <- map_rev.
  apply concat_singletons.
Qed.

(** A string with no white space at either end is its own [trim]. *)
Definition trimmed (s : bytes) : bool :=
  match s with [] => true | b :: _ => negb (ascii_space b) end
  && match rev s with [] => true | b :: _ => negb (ascii_space b) end.

Lemma trim_trimmed s : ascii_str s -> trimmed s = true -> trim s = s.
Proof.
  intros Ha Ht. rewrite trim_ascii by done. unfold trimmed in Ht. breflect.
  assert (forall l, match l with [] => true | b :: _ => negb (ascii_space b) end = true ->
                    drop_while ascii_space l = l) as Hd.
  { intros [|b l] Hb; simpl; [done|]. apply negb_true_iff in Hb. by rewrite Hb. }
  rewrite (Hd s) by done. rewrite (Hd (rev s)) by done. apply rev_involutive.
Qed.

Lemma trim_leading_space s : ascii_str s -> trim (x20 :: s) = trim s.
Proof.
  intros H. rewrite trim_ascii by (by constructor). rewrite (trim_ascii s) by done. done.
Qed.

(** A word: nonempty, printable ASCII, so without white space. *)
Definition is_graphic (b : byte) : bool := in_range 33 126 b.
Definition word (s : bytes) : bool := nonempty s && forallb is_graphic s.

Lemma graphic_ascii b : is_graphic b = true -> is_ascii b = true.
Proof. unfold is_graphic, is_ascii. rewrite in_range_spec, Z.ltb_lt. lia. Qed.

Lemma graphic_not_space b : is_graphic b = true -> ascii_space b = false.
Proof. destruct b; vm_compute; congruence. Qed.

Lemma forallb_Forall {A} (p : A -> bool) l : forallb p l = true <-> Forall (fun x => p x = true) l.
Proof. rewrite forallb_forall, List.Forall_forall. done. Qed.

Lemma word_ascii s : word s = true -> ascii_str s.
Proof.
  unfold word. intros H. breflect. apply forallb_Forall in H0.
  eapply Forall_impl; [apply graphic_ascii|exact H0].
Qed.

Lemma split_ws_word w cs :
  Forall (fun b => is_graphic b = true) w ->
  split_ws_chars (map (fun b => [b]) w ++ [x20] :: cs) = map (fun b => [b]) w :: split_ws_chars cs.
Proof.
  induction 1 as [|b w Hb Hw IH]; simpl.
  - done.
  - apply graphic_not_space in Hb. unfold ascii_space in Hb. by rewrite Hb, IH.
Qed.

(** The first word of a line. *)
Lemma split_whitespace_word w r :
  word w = true -> utf8_valid r = true ->
  split_whitespace (w ++ x20 :: r) = w :: split_whitespace r.
Proof.
  intros Hw Hr. pose proof (word_ascii _ Hw) as Ha. unfold word in Hw. breflect.
  apply forallb_Forall in H0. unfold split_whitespace.
  rewrite chars_ascii_app by done.
  change (chars (x20 :: r)) with (chars ([x20] ++ r)). rewrite chars_ascii_app by (by repeat constructor).
  simpl map at 2. simpl app at 2. rewrite split_ws_word by done. destruct w as [|b w]; [done|].
  simpl. f_equal. by rewrite concat_singletons.
Qed.

Lemma split_whitespace_last w : word w = true -> split_whitespace w = [w].
Proof.
  intros Hw. pose proof (word_ascii _ Hw) as Ha. unfold word in Hw. breflect.
  apply forallb_Forall in H0. unfold split_whitespace. rewrite chars_ascii by done.
  assert (split_ws_chars (map (fun b => [b]) w) = [map (fun b => [b]) w]) as ->.
  { clear -H0. induction H0 as [|b w Hb _ IH]; simpl; [done|].
    apply graphic_not_space in Hb. unfold ascii_space in Hb. by rewrite Hb, IH. }
  destruct w as [|b w]; [done|]. simpl. by rewrite concat_singletons.
Qed.

(** ** Lines *)

Lemma strip_suffix_snoc c s : strip_suffix c (s ++ [c]) = Some s.
Proof. unfold strip_suffix. rewrite rev_app_distr. simpl. rewrite bool_decide_eq_true_2 by done. by rewrite rev_involutive. Qed.

Lemma split_inclusive_lf_line l r :
  x0a ∉ l -> split_inclusive_lf (l ++ x0a :: r) = (l ++ [x0a]) :: split_inclusive_lf r.
Proof.
  induction l as [|b l IH]; intros Hl; simpl; [done|].
  rewrite not_elem_of_cons in Hl. destruct Hl as [Hb Hl].
  rewrite bool_decide_eq_false_2 by congruence. by rewrite IH.
Qed.

(** A line terminated by CR LF. *)
Lemma lines_crlf l r :
  x0a ∉ l -> lines (l ++ x0d :: x0a :: r) = l :: lines r.
Proof.
  intros Hl. unfold lines.
  change (l ++ x0d :: x0a :: r) with (l ++ [x0d] ++ x0a :: r). rewrite app_assoc.
  rewrite split_inclusive_lf_line.
  - simpl. f_equal. unfold strip_eol. by rewrite !strip_suffix_snoc.
  - rewrite not_elem_of_app, list_elem_of_singleton. done.
Qed.

(** A line terminated by LF alone. *)
Lemma lines_lf l r :
  x0a ∉ l -> strip_suffix x0d l = None -> lines (l ++ x0a :: r) = l :: lines r.
Proof.
  intros Hl Hc. unfold lines. rewrite split_inclusive_lf_line by done. simpl. f_equal.
  unfold strip_eol. by rewrite strip_suffix_snoc, Hc.
Qed.

(** ** Case folding *)

Lemma to_lower_idemp b : to_lower (to_lower b) = to_lower b.
Proof. by_byte b. Qed.

Lemma to_ascii_lowercase_idemp s : to_ascii_lowercase (to_ascii_lowercase s) = to_ascii_lowercase s.
Proof. unfold to_ascii_lowercase. rewrite map_map. apply map_ext. apply to_lower_idemp. Qed.

(** Equality up to ASCII case is an equivalence. *)
#[export] Instance eq_ignore_ascii_case_equiv :
  Equivalence (fun a b => eq_ignore_ascii_case a b = true).
Proof.
  unfold eq_ignore_ascii_case. split; repeat intro; rewrite ?bool_decide_eq_true in *; congruence.
Qed.

(** ** Integers *)

Lemma parse_digits_bound radix max acc s v :
  (0 <= acc <= max)%Z -> (0 < radix)%Z -> parse_digits radix max acc s = Some v -> (0 <= v <= max)%Z.
Proof.
  revert acc. induction s as [|b s IH]; simpl; intros acc Hacc Hr H; [congruence|].
  destruct (digit_val radix b) as [d|] eqn:Hd; [|done].
  destruct (acc * radix + d <=? max)%Z eqn:Hm; [|done]. breflect.
  eapply IH; [|done|exact H]. split; [|done].
  assert (0 <= d)%Z; [|nia].
  unfold digit_val in Hd.
  destruct (is_ascii_digit b) eqn:E1; [apply in_range_spec in E1; case_match; simplify_eq; lia|].
  destruct (is_ascii_lower b) eqn:E2; [apply in_range_spec in E2; case_match; simplify_eq; lia|].
  destruct (is_ascii_upper b) eqn:E3; [apply in_range_spec in E3; case_match; simplify_eq; lia|].
  done.
Qed.

Lemma parse_usize_bound s v : parse_usize s = Some v -> (0 <= v <= usize_max)%Z.
Proof.
  unfold parse_usize, from_str_radix. intros H.
  repeat case_match; simplify_eq; eapply (parse_digits_bound 10 usize_max 0);
    try exact H; unfold usize_max; lia.
Qed.

(** ** Needles that do not overlap themselves *)

(** The first byte of the needle occurs nowhere else in it. *)
Definition unbordered (n : bytes) : bool :=
  match n with [] => false | c :: n' => bool_decide (c ∉ n') end.

(** Two occurrences of such a needle are equal or disjoint. *)
Lemma unbordered_disjoint n s i j :
  unbordered n = true ->
  starts_with n (drop i s) = true -> starts_with n (drop j s) = true ->
  (i < j)%nat -> (i + length n <= j)%nat.
Proof.
  intros Hu [t Ht]%starts_with_spec [u Hu']%starts_with_spec Hij.
  destruct n as [|c n]; [done|]. simpl in Hu. breflect.
  destruct (decide (i + length (c :: n) <= j)%nat) as [|Hlt]; [done|]. exfalso. apply Hu.
  replace j with (i + (j - i))%nat in Hu' by lia. rewrite <- drop_drop, Ht in Hu'.
  rewrite drop_app_le in Hu' by (simpl in *; lia).
  replace (j - i)%nat with (S (j - i - 1)) in Hu' by lia. simpl in Hu'.
  destruct (drop (j - i - 1) n) as [|x l] eqn:Hd.
  - apply (f_equal length) in Hd. rewrite length_drop in Hd. simpl in *. lia.
  - simpl in Hu'. simplify_eq. rewrite <- (take_drop (j - i - 1) n), Hd. set_solver.
Qed.

Lemma find_sub_unbordered n p t :
  unbordered n = true -> contains p n = false -> find_sub n (p ++ n ++ t) = Some (length p).
Proof.
  intros Hu Hc. apply find_sub_first.
  - rewrite drop_app_length. apply starts_with_app.
  - intros j Hj. destruct (starts_with n (drop j (p ++ n ++ t))) eqn:Hs; [|done]. exfalso.
    assert (j + length n <= length p)%nat as Hle.
    { eapply (unbordered_disjoint n (p ++ n ++ t) j (length p)); [done..| |done].
      rewrite drop_app_length. apply starts_with_app. }
    assert (contains p n = true); [|congruence]. apply contains_spec.
    rewrite drop_app_le in Hs by lia. apply starts_with_spec in Hs as [k Hk].
    exists (take j p), (drop (length n) (drop j p)).
    rewrite <- (take_drop j p) at 1. f_equal.
    rewrite <- (take_drop (length n) (drop j p)) at 1. f_equal.
    apply (f_equal (take (length n))) in Hk. rewrite take_app_length in Hk.
    rewrite take_app_le in Hk; [done|]. rewrite length_drop. lia.
Qed.

(** ** Printed integers *)

Lemma digit_char_alnum v :
  (0 <= v < 16)%Z -> is_ascii_alphanumeric (digit_char v) = true.
Proof.
  intros Hv. assert (v ∈ seqZ 0 16) as Hin by (apply elem_of_seqZ; lia).
  clear Hv. revert v Hin. apply list.Forall_forall. repeat constructor.
Qed.

Lemma radix_digits_alnum fuel radix n acc :
  (0 < radix <= 16)%Z -> Forall (fun b => is_ascii_alphanumeric b = true) acc ->
  Forall (fun b => is_ascii_alphanumeric b = true) (radix_digits fuel radix n acc).
Proof.
  intros Hr. revert n acc. induction fuel as [|f IH]; intros n acc Ha; simpl; [done|].
  assert (Forall (fun b => is_ascii_alphanumeric b = true) (digit_char (n mod radix) :: acc)).
  { constructor; [|done]. apply digit_char_alnum. pose proof (Z.mod_pos_bound n radix). lia. }
  destruct (n <? radix)%Z; auto.
Qed.

Lemma format_radix_alnum radix n :
  (0 < radix <= 16)%Z -> Forall (fun b => is_ascii_alphanumeric b = true) (format_radix radix n).
Proof. intros. by apply radix_digits_alnum. Qed.

Lemma digit_val_char v : (0 <= v < 10)%Z -> digit_val 10 (digit_char v) = Some v.
Proof.
  intros Hv. assert (v ∈ seqZ 0 10) as Hin by (apply elem_of_seqZ; lia).
  clear Hv. revert v Hin. apply list.Forall_forall. repeat constructor.
Qed.

(** Reading the digits of [n] brings the parser from zero to [n]. *)
Lemma parse_radix_digits max fuel : forall n acc,
  (0 <= n <= max)%Z -> (n < 2 ^ Z.of_nat (S fuel))%Z ->
  parse_digits 10 max 0 (radix_digits (S fuel) 10 n acc) = parse_digits 10 max n acc.
Proof.
  induction fuel as [|f IH]; intros n acc Hn Hf; cbn [radix_digits]; destruct (n <? 10)%Z eqn:Hlt;
    breflect; try (simpl in Hf; lia).
  1,2: cbn [parse_digits]; rewrite digit_val_char by (apply Z.mod_pos_bound; lia);
    rewrite Z.mod_small by lia; by rewrite (proj2 (Z.leb_le (0 * 10 + n) max)) by lia.
  rewrite Nat2Z.inj_succ, Z.pow_succ_r in Hf by lia.
  assert (0 <= n / 10 <= max /\ n / 10 < 2 ^ Z.of_nat (S f))%Z as [H1 H2].
  { split; [split; [apply Z.div_pos; lia|]|]; [|apply Z.div_lt_upper_bound; lia].
    transitivity n; [|lia]. apply Z.div_le_upper_bound; lia. }
  etransitivity; [exact (IH (n / 10)%Z (digit_char (n mod 10) :: acc) H1 H2)|]. cbn [parse_digits].
  rewrite digit_val_char by (apply Z.mod_pos_bound; lia).
  replace (n / 10 * 10 + n mod 10)%Z with n by (rewrite (Z.div_mod n 10) at 1; lia).
  by rewrite (proj2 (Z.leb_le n max)) by lia.
Qed.

Lemma format_radix_nonempty radix n : format_radix radix n <> [].
Proof.
  unfold format_radix. cbn [radix_digits]. destruct (n <? radix)%Z; [done|].
  assert (forall fuel m acc, acc <> [] -> radix_digits fuel radix m acc <> []) as H.
  { induction fuel as [|f IH]; intros m acc Ha; simpl; [done|]. destruct (m <? radix)%Z; [done|].
    by apply IH. }
  by apply H.
Qed.

(** An unsigned integer is read back from its decimal text. *)
Lemma parse_format max n :
  (0 <= n <= max)%Z -> from_str_radix 10 max (format_radix 10 n) = Some n.
Proof.
  intros Hn. pose proof (format_radix_alnum 10 n ltac:(lia)) as Ha.
  pose proof (format_radix_nonempty 10 n) as Hne. unfold from_str_radix.
  destruct (format_radix 10 n) as [|b r] eqn:Hf; [done|]. rewrite bool_decide_eq_false_2.
  - rewrite <- Hf. unfold format_radix. rewrite parse_radix_digits; [done|done|].
    rewrite Nat2Z.inj_succ, Z2Nat.id by apply Z.log2_nonneg.
    destruct (decide (n = 0)%Z) as [->|Hz]; [done|]. apply Z.log2_spec. lia.
  - intros ->. by apply Forall_cons_iff in Ha as [? _].
Qed.
