(* ===== verification/Net.v ===== *)
(** * [std::net::IpAddr] and [std::time]

    Addresses as the program inspects them (octets of an IPv4 address, 16-bit
    segments of an IPv6 address) and instants in nanoseconds. *)

From S2P Require Import Prelude.

Inductive IpAddr :=
| V4 (o0 o1 o2 o3 : byte)
| V6 (segments : list Z).

#[export] Instance IpAddr_eq_dec : EqDecision IpAddr.
Proof. solve_decision. Defined.

#[export] Program Instance IpAddr_countable : Countable IpAddr :=
  inj_countable
    (fun ip => match ip with V4 a b c d => inl (a, b, c, d) | V6 s => inr s end)
    (fun x => match x with inl (a, b, c, d) => Some (V4 a b c d) | inr s => Some (V6 s) end) _.
Next Obligation. by intros []. Qed.

(** An [Ipv6Addr] has eight segments of sixteen bits. *)
Definition wf_ip (ip : IpAddr) : bool :=
  match ip with
  | V4 _ _ _ _ => true
  | V6 s => (length s =? 8)%nat && forallb (fun x => (0 <=? x) && (x <? 65536))%Z s
  end.

(** [Instant::duration_since], which saturates at zero. *)
Definition duration_since (now earlier : Z) : Z := Z.max 0 (now - earlier).

Definition from_secs (s : Z) : Z := (s * 1000000000)%Z.
Definition from_millis (ms : Z) : Z := (ms * 1000000)%Z.

(** An entry of age less than [window]; once it is too old it stays too old. *)
Definition live (window now issued : Z) : bool := (duration_since now issued <? window)%Z.

Lemma live_mono window now now' t :
  (now <= now')%Z -> live window now' t = true -> live window now t = true.
Proof. unfold live, duration_since. rewrite !Z.ltb_lt. lia. Qed.

Lemma live_now window now : (0 < window)%Z -> live window now now = true.
Proof. unfold live, duration_since. rewrite Z.ltb_lt. lia. Qed.

(** Filtering at a later instant makes an earlier filtering redundant. *)
Lemma filter_live_live window now now' ts :
  (now <= now')%Z ->
  List.filter (live window now') (List.filter (live window now) ts) = List.filter (live window now') ts.
Proof.
  intros H. induction ts as [|t ts IH]; simpl; [done|].
  destruct (live window now t) eqn:E; simpl.
  - by rewrite IH.
  - destruct (live window now' t) eqn:E'; [|done].
    apply (live_mono _ _ _ _ H) in E'. congruence.
Qed.

Lemma filter_live_length window now now' ts :
  (now <= now')%Z ->
  (length (List.filter (live window now') ts) <= length (List.filter (live window now) ts))%nat.
Proof.
  intros H. rewrite <- (filter_live_live window now now') by done.
  apply filter_length_le.
Qed.
