(* ===== verification/F64.v ===== *)
(** * Rust's [f64]

    Binary64 numbers as the Standard Library specifies them, with the operations
    [src/lib.rs] uses: conversion from [u64], division, multiplication and
    [str::parse::<f64>]. *)

From Stdlib Require Import Floats.SpecFloat.
From S2P Require Import Prelude Utf8 RustStr.

Abbreviation f64 := spec_float.

Definition f64_div : f64 -> f64 -> f64 := SFdiv 53 1024.
Definition f64_mul : f64 -> f64 -> f64 := SFmul 53 1024.

(** [n as f64], to the nearest, ties to even. *)
Definition f64_of_u64 (n : Z) : f64 := binary_normalize 53 1024 n 0 false.

Definition is_finite (f : f64) : bool :=
  match f with S754_zero _ | S754_finite _ _ _ => true | _ => false end.

(** The number nearest to [m * 10^e], with a sign; also the value of a literal. *)
Definition f64_of_decimal (neg : bool) (m e : Z) : f64 :=
  if (m =? 0)%Z then S754_zero neg
  else if (0 <=? e)%Z then
    let f := binary_normalize 53 1024 (m * 10 ^ e) 0 false in if neg then SFopp f else f
  else
    let '(q, e', l) := SFdiv_core_binary 53 1024 m 0 (10 ^ (- e)) 0 in
    binary_round_aux 53 1024 neg q e' l.

(** The value of a string of decimal digits. *)
Definition decimal_value (s : bytes) : Z := fold_left (fun v b => v * 10 + (u8 b - 48))%Z s 0%Z.

Definition split_sign (s : bytes) : bool * bytes :=
  match s with
  | b :: r => if b == "-"%byte then (true, r) else if b == "+"%byte then (false, r) else (false, s)
  | [] => (false, [])
  end.

(** The exponent behind the [e]: a sign and at least one digit, to the end. *)
Definition parse_exponent (s : bytes) : option Z :=
  let '(neg, ds) := split_sign s in
  if nonempty ds && forallb is_ascii_digit ds
  then Some (if neg then - decimal_value ds else decimal_value ds)%Z else None.

(** Digits with an optional point, at least one of them, and an exponent. *)
Definition parse_number (neg : bool) (s : bytes) : option f64 :=
  let ip := take_while is_ascii_digit s in
  let r1 := drop_while is_ascii_digit s in
  let '(fp, r2) := match r1 with
                   | b :: t => if b == "."%byte
                               then (take_while is_ascii_digit t, drop_while is_ascii_digit t)
                               else ([], r1)
                   | [] => ([], [])
                   end in
  if negb (nonempty ip) && negb (nonempty fp) then None
  else
    let value e := f64_of_decimal neg (decimal_value (ip ++ fp)) (e - Z.of_nat (length fp)) in
    match r2 with
    | [] => Some (value 0%Z)
    | b :: t => if (b == "e"%byte) || (b == "E"%byte) then value <$> parse_exponent t else None
    end.

(** [s.parse::<f64>()]. *)
Definition parse_f64 (s : bytes) : option f64 :=
  let '(neg, r) := split_sign s in
  let l := to_ascii_lowercase r in
  if (l == str "inf") || (l == str "infinity") then Some (S754_infinity neg)
  else if l == str "nan" then Some S754_nan
  else parse_number neg r.

(** 0.05 is 0x1.999999999999ap-5, and parsing rounds correctly where the decimal is
    no binary fraction. *)
Example f64_literals :
  f64_of_decimal false 5 (-2) = S754_finite false 7205759403792794 (-57)
  /\ parse_f64 (str "0.52") = Some (S754_finite false 4683743612465316 (-53))
  /\ parse_f64 (str "-12.5e1") = Some (f64_of_decimal true 125 0)
  /\ parse_f64 (str ".") = None /\ parse_f64 (str "1e") = None.
Proof. vm_compute. repeat split. Qed.
