(* ===== verification/Json.v ===== *)
(** * JSON values

    What the sources use of [serde_json]: the [Value] type, its accessors, its
    object map and the assignment [v[key] = x].  Parsing and printing JSON text
    are parameters of the definitions that use them (class [SerdeJson]). *)

From S2P Require Import Prelude Utf8 RustStr F64.

(** ** Values *)

(** [serde_json::Value].  A number is an integer in [i64] or [u64] range, or a
    finite float; an object lists its entries in iteration order. *)
#[warnings="-register-all"]
Inductive json :=
| JNull
| JBool (b : bool)
| JInt (z : Z)
| JFloat (f : f64)
| JStr (s : bytes)
| JArr (l : list json)
| JObj (m : list (bytes * json)).

(** The order of [String], byte by byte: the iteration order of the object map. *)
Fixpoint bytes_compare (a b : bytes) : comparison :=
  match a, b with
  | [], [] => Eq
  | [], _ :: _ => Lt
  | _ :: _, [] => Gt
  | x :: a', y :: b' => match (u8 x ?= u8 y)%Z with Eq => bytes_compare a' b' | c => c end
  end.

(** [Map::insert]. *)
Fixpoint obj_insert (k : bytes) (v : json) (m : list (bytes * json)) : list (bytes * json) :=
  match m with
  | [] => [(k, v)]
  | (k', v') :: m' =>
    match bytes_compare k k' with
    | Eq => (k, v) :: m'
    | Lt => (k, v) :: (k', v') :: m'
    | Gt => (k', v') :: obj_insert k v m'
    end
  end.

Fixpoint obj_get (k : bytes) (m : list (bytes * json)) : option json :=
  match m with
  | [] => None
  | (k', v) :: m' => if k == k' then Some v else obj_get k m'
  end.

(** A [json!({...})] literal. *)
Definition jobj (fields : list (bytes * json)) : json :=
  JObj (fold_left (fun m kv => obj_insert kv.1 kv.2 m) fields []).

(** [json!(Option<&str>)]. *)
Definition jopt (o : option bytes) : json := match o with Some s => JStr s | None => JNull end.

(** [json!(f64)]: a number that is not finite becomes [null]. *)
Definition jfloat (f : f64) : json := if is_finite f then JFloat f else JNull.

(** ** Accessors *)

Definition get (v : json) (k : bytes) : option json :=
  match v with JObj m => obj_get k m | _ => None end.

Definition as_str (v : json) : option bytes := match v with JStr s => Some s | _ => None end.
Definition as_bool (v : json) : option bool := match v with JBool b => Some b | _ => None end.
Definition as_array (v : json) : option (list json) := match v with JArr l => Some l | _ => None end.
Definition as_object (v : json) : option (list (bytes * json)) :=
  match v with JObj m => Some m | _ => None end.
Definition i64_max : Z := 2 ^ 63 - 1.
Definition as_i64 (v : json) : option Z :=
  match v with JInt z => if (z <=? i64_max)%Z then Some z else None | _ => None end.

(** [v.get(k).and_then(Value::as_str)] and its kin. *)
Definition get_str (v : json) (k : bytes) : option bytes := get v k ≫= as_str.
Definition get_bool (v : json) (k : bytes) : option bool := get v k ≫= as_bool.
Definition get_array (v : json) (k : bytes) : option (list json) := get v k ≫= as_array.

(** [v[k] = x]: an object takes the entry, [null] first becomes an empty object,
    and every other value panics ([None]). *)
Definition index_set (v : json) (k : bytes) (x : json) : option json :=
  match v with
  | JObj m => Some (JObj (obj_insert k x m))
  | JNull => Some (JObj [(k, x)])
  | _ => None
  end.

(** ** JSON text *)

(** [serde_json::from_str::<Value>] and [Value::to_string]. *)
Class SerdeJson := {
  from_str : bytes -> option json;
  to_string : json -> bytes
}.

(** ** Lemmas *)

Lemma bytes_compare_refl a : bytes_compare a a = Eq.
Proof. induction a as [|x a IH]; simpl; [done|]. by rewrite Z.compare_refl. Qed.

Lemma bytes_compare_eq a : forall b, bytes_compare a b = Eq -> a = b.
Proof.
  induction a as [|x a IH]; intros [|y b] H; simpl in H; try done.
  destruct (u8 x ?= u8 y)%Z eqn:Hc; try done.
  apply Z.compare_eq, u8_inj in Hc as ->. f_equal. by apply IH.
Qed.

Lemma obj_get_insert k v m : obj_get k (obj_insert k v m) = Some v.
Proof.
  induction m as [|[k' v'] m IH]; simpl; [by rewrite bool_decide_eq_true_2|].
  destruct (bytes_compare k k') eqn:Hc; simpl.
  - by rewrite bool_decide_eq_true_2.
  - by rewrite bool_decide_eq_true_2.
  - rewrite bool_decide_eq_false_2; [done|]. intros <-. by rewrite bytes_compare_refl in Hc.
Qed.

Lemma obj_get_insert_ne k k' v m : k <> k' -> obj_get k (obj_insert k' v m) = obj_get k m.
Proof.
  intros Hk. induction m as [|[k1 v1] m IH]; simpl; [by rewrite bool_decide_eq_false_2|].
  destruct (bytes_compare k' k1) eqn:Hc; simpl.
  - apply bytes_compare_eq in Hc as <-. by rewrite !bool_decide_eq_false_2.
  - by rewrite (bool_decide_eq_false_2 (k = k')).
  - by case_bool_decide.
Qed.

Lemma get_index_set v k x v' : index_set v k x = Some v' -> get v' k = Some x.
Proof.
  destruct v; simpl; intros; simplify_eq; simpl.
  - by rewrite bool_decide_eq_true_2.
  - apply obj_get_insert.
Qed.

Lemma get_index_set_ne v k k' x v' :
  k <> k' -> index_set v k' x = Some v' -> get v' k = get v k.
Proof.
  intros Hk. destruct v; simpl; intros; simplify_eq; simpl.
  - by rewrite bool_decide_eq_false_2.
  - by apply obj_get_insert_ne.
Qed.

(** ** Well-formed values

    What a [Value] of [serde_json] can be: integers in the range of [i64] and [u64],
    finite floats, and objects whose keys strictly increase, so that no key occurs
    twice. *)

Fixpoint sorted_keys {A} (m : list (bytes * A)) : bool :=
  match m with
  | (k, _) :: (((k', _) :: _) as r) =>
    match bytes_compare k k' with Lt => sorted_keys r | _ => false end
  | _ => true
  end.

Fixpoint wf_json (v : json) : bool :=
  match v with
  | JInt z => (- 2 ^ 63 <=? z)%Z && (z <? 2 ^ 64)%Z
  | JFloat f => is_finite f
  | JArr l => forallb wf_json l
  | JObj m => sorted_keys m && forallb (fun kv => wf_json kv.2) m
  | _ => true
  end.

Lemma bytes_compare_opp a : forall b, bytes_compare b a = CompOpp (bytes_compare a b).
Proof.
  induction a as [|x a IH]; intros [|y b]; simpl; try done.
  rewrite Z.compare_antisym. destruct (u8 x ?= u8 y)%Z; simpl; [apply IH|done|done].
Qed.

Lemma sorted_keys_cons {A} k (v : A) m :
  sorted_keys ((k, v) :: m) = true <->
  sorted_keys m = true /\ (forall k' v' r, m = (k', v') :: r -> bytes_compare k k' = Lt).
Proof.
  destruct m as [|[k' v'] r]; [by split|]. cbn [sorted_keys]. split.
  - destruct (bytes_compare k k') eqn:Hc; [done| |done]. intros Hs. split; [done|].
    by intros k1 v1 r1 [= <- <- <-].
  - intros [Hs Hk]. by rewrite (Hk k' v' r eq_refl).
Qed.

(** Inserting keeps the keys in order. *)
Lemma obj_insert_sorted k v m : sorted_keys m = true -> sorted_keys (obj_insert k v m) = true.
Proof.
  induction m as [|[k' v'] m IH]; [done|]. intros Hs. cbn [obj_insert].
  pose proof Hs as [Hm Hh]%sorted_keys_cons.
  destruct (bytes_compare k k') eqn:Hc.
  - apply bytes_compare_eq in Hc as <-. by apply sorted_keys_cons.
  - apply sorted_keys_cons. split; [done|]. by intros k1 v1 r [= <- <- <-].
  - apply sorted_keys_cons. split; [by apply IH|]. intros k1 v1 r Hr.
    assert (bytes_compare k' k = Lt) as Hgt by by rewrite bytes_compare_opp, Hc.
    destruct m as [|[k2 v2] m]; cbn [obj_insert] in Hr; [by injection Hr as <- _ _|].
    destruct (bytes_compare k k2); injection Hr as <- _ _; [done|done|by eapply Hh].
Qed.

Lemma obj_insert_wf k v m : wf_json (JObj m) = true -> wf_json v = true -> wf_json (JObj (obj_insert k v m)) = true.
Proof.
  cbn [wf_json]. intros [Hs Hv]%andb_true_iff Hw. apply andb_true_iff. split; [by apply obj_insert_sorted|].
  clear Hs. induction m as [|[k' v'] m IH]; cbn [obj_insert forallb snd] in *; [by rewrite Hw|].
  apply andb_true_iff in Hv as [Hv' Hm].
  destruct (bytes_compare k k'); cbn [forallb snd]; by rewrite ?Hw, ?Hv', ?Hm, ?IH.
Qed.

(** A literal's fields may come in any order. *)
Lemma jobj_wf fields : forallb (fun kv => wf_json kv.2) fields = true -> wf_json (jobj fields) = true.
Proof.
  unfold jobj. assert (forall m, wf_json (JObj m) = true -> forallb (fun kv => wf_json kv.2) fields = true ->
    wf_json (JObj (fold_left (fun m kv => obj_insert kv.1 kv.2 m) fields m)) = true) as Hm; [|by apply Hm].
  induction fields as [|[k v] fields IH]; [done|]. intros m Hm [Hv Hf]%andb_true_iff. cbn [fold_left].
  apply IH; [|done]. by apply obj_insert_wf.
Qed.

Lemma index_set_wf v k x v' :
  wf_json v = true -> wf_json x = true -> index_set v k x = Some v' -> wf_json v' = true.
Proof.
  destruct v; intros Hv Hx Hs; try done; simpl in Hs; injection Hs as <-.
  - cbn [wf_json sorted_keys forallb snd]. by rewrite Hx.
  - by apply obj_insert_wf.
Qed.

Lemma get_wf v k x : wf_json v = true -> get v k = Some x -> wf_json x = true.
Proof.
  destruct v as [| | | | | |m]; try done. cbn [wf_json get]. intros [_ Hf]%andb_true_iff.
  induction m as [|[k' v'] m IH]; [done|]. cbn [obj_get forallb snd] in *.
  apply andb_true_iff in Hf as [Hv Hm]. case_bool_decide; [by intros [= <-]|by apply IH].
Qed.

Lemma jfloat_wf f : wf_json (jfloat f) = true.
Proof. unfold jfloat. by destruct (is_finite f) eqn:Hf. Qed.

Lemma jopt_wf o : wf_json (jopt o) = true.
Proof. by destruct o. Qed.

(** Parsing yields well-formed values: a repeated key keeps its last value. *)
Class SerdeJsonTyped (S : SerdeJson) := {
  from_str_wf : forall s v, from_str s = Some v -> wf_json v = true
}.
