(* ===== verification/Spi.v ===== *)
(** * Programs that talk to PostgreSQL

    The runtime worker, the sandbox and the executors issue SPI statements and
    subtransaction and timer calls.  A function of theirs is a [prog]: the calls it
    makes, what it does with each reply, and the errors it raises.  The server is
    an arbitrary function from the history of calls to the reply to the next one,
    so a theorem about all servers covers every behaviour of the database, errors
    included.  [run] executes a program against one. *)

From S2P Require Import Prelude Utf8 RustStr Json.

(** ** Calls and replies *)

(** A bound parameter of a statement; [None] is NULL. *)
Inductive arg :=
| AStr (s : option bytes)
| ATexts (l : list bytes)
| AInt (z : option Z)
| ABool (b : bool)
| AJson (v : option json).

(** [pgrx::bgworkers::BackgroundWorkerBuilder], the fields the sources set. *)
Record BackgroundWorkerBuilder := mk_worker {
  bgw_name : bytes;
  bgw_function : bytes;
  bgw_library : bytes;
  recovery_finished : bool;       (* BgWorkerStartTime::RecoveryFinished *)
  restart_secs : option Z;
  spi_access : bool;
  notify_pid : Z
}.

Inductive call :=
| Spi (sql : bytes) (args : list arg)
| StartTransaction
| CommitTransaction
| BeginInternalSubTransaction
| ReleaseCurrentSubTransaction
| RollbackAndReleaseCurrentSubTransaction
| SwitchToOldContext
| RestoreResourceOwner
| EnableTimeoutAfter (id delay_ms : Z)
| DisableTimeout (id : Z) (keep_indicator : bool)
| Warning (text : bytes)
| LoadWorker (b : BackgroundWorkerBuilder)          (* at preload time *)
| LoadDynamicWorker (b : BackgroundWorkerBuilder)   (* from a backend *)
| WaitForStartup (name : bytes).

(** A column value of a result row, or the pid of a started worker. *)
Inductive datum :=
| DBool (b : bool)
| DJson (v : json)
| DText (s : bytes)
| DInt (z : Z).

(** What a statement does: it yields no row or NULL, or the first column of its
    first row; it fails with an SPI error code, which [pgrx] returns as [Err]; or
    it raises an ERROR, which unwinds the Rust stack. *)
Inductive reply :=
| Done (v : option datum)
| Failed (e : bytes)
| Raised (msg : bytes).

Definition trace := list (call * reply).

(** The server: a reply to each call, given the calls before it (oldest first). *)
Definition server := trace -> call -> reply.

(** ** Programs *)

Inductive prog (A : Type) : Type :=
| Ret (a : A)
| Throw (msg : bytes)
| Do (c : call) (k : reply -> prog A).
Arguments Ret {A} a.
Arguments Throw {A} msg.
Arguments Do {A} c k.

Fixpoint bind {A B} (p : prog A) (f : A -> prog B) : prog B :=
  match p with
  | Ret a => f a
  | Throw m => Throw m
  | Do c k => Do c (fun r => bind (k r) f)
  end.

Notation "'let*' x := p 'in' q" := (bind p (fun x => q))
  (at level 10, x pattern, p at level 100, q at level 200) : rust_scope.
Notation "p ;; q" := (bind p (fun _ => q)) (at level 100, right associativity) : rust_scope.

(** [PgTryBuilder::new(p).catch_others(h).execute()]. *)
Fixpoint catch_others {A} (p : prog A) (h : bytes -> prog A) : prog A :=
  match p with
  | Ret a => Ret a
  | Throw m => h m
  | Do c k => Do c (fun r => catch_others (k r) h)
  end.

Inductive outcome (A : Type) :=
| Returned (a : A)
| Raising (msg : bytes).
Arguments Returned {A} a.
Arguments Raising {A} msg.

(** Run a program from a history: the calls it adds and how it ends. *)
Fixpoint run {A} (db : server) (h : trace) (p : prog A) : trace * outcome A :=
  match p with
  | Ret a => ([], Returned a)
  | Throw m => ([], Raising m)
  | Do c k =>
    let r := db h c in
    let (t, o) := run db (h ++ [(c, r)]) (k r) in
    ((c, r) :: t, o)
  end.

(** ** The calls the sources make *)

(** Rust's [Result]. *)
Inductive result (A : Type) :=
| Ok (a : A)
| Err (e : bytes).
Arguments Ok {A} a.
Arguments Err {A} e.

Definition is_ok {A} (r : result A) : bool := match r with Ok _ => true | Err _ => false end.

(** A call without a result of interest that does not raise. *)
Definition do_ (c : call) : prog unit := Do c (fun _ => Ret tt).

(** [Spi::run] and [Spi::run_with_args]. *)
Definition spi_run (sql : bytes) (args : list arg) : prog (result unit) :=
  Do (Spi sql args) (fun r =>
    match r with
    | Done _ => Ret (Ok tt)
    | Failed e => Ret (Err e)
    | Raised m => Throw m
    end).

Definition type_mismatch : bytes := str "incompatible type".

(** [Spi::get_one::<bool>]; a column of another type is an [Err]. *)
Definition spi_get_bool (sql : bytes) (args : list arg) : prog (result (option bool)) :=
  Do (Spi sql args) (fun r =>
    match r with
    | Done None => Ret (Ok None)
    | Done (Some (DBool b)) => Ret (Ok (Some b))
    | Done (Some _) => Ret (Err type_mismatch)
    | Failed e => Ret (Err e)
    | Raised m => Throw m
    end).

(** [Spi::get_one::<JsonB>] and [Spi::get_one_with_args::<JsonB>]. *)
Definition spi_get_json (sql : bytes) (args : list arg) : prog (result (option json)) :=
  Do (Spi sql args) (fun r =>
    match r with
    | Done None => Ret (Ok None)
    | Done (Some (DJson v)) => Ret (Ok (Some v))
    | Done (Some _) => Ret (Err type_mismatch)
    | Failed e => Ret (Err e)
    | Raised m => Throw m
    end).

(** [Spi::get_one::<String>] and [Spi::get_one::<i64>]. *)
Definition spi_get_text (sql : bytes) (args : list arg) : prog (result (option bytes)) :=
  Do (Spi sql args) (fun r =>
    match r with
    | Done None => Ret (Ok None)
    | Done (Some (DText s)) => Ret (Ok (Some s))
    | Done (Some _) => Ret (Err type_mismatch)
    | Failed e => Ret (Err e)
    | Raised m => Throw m
    end).

Definition spi_get_i64 (sql : bytes) (args : list arg) : prog (result (option Z)) :=
  Do (Spi sql args) (fun r =>
    match r with
    | Done None => Ret (Ok None)
    | Done (Some (DInt z)) => Ret (Ok (Some z))
    | Done (Some _) => Ret (Err type_mismatch)
    | Failed e => Ret (Err e)
    | Raised m => Throw m
    end).

(** [r.ok().flatten()]. *)
Definition ok_flatten {A} (r : result (option A)) : option A :=
  match r with Ok (Some a) => Some a | _ => None end.

Definition warning (text : bytes) : prog unit := do_ (Warning text).

(** [BackgroundWorker::transaction]: an ERROR leaves it without a commit. *)
Definition transaction {A} (p : prog A) : prog A :=
  do_ StartTransaction ;; let* a := p in do_ CommitTransaction ;; Ret a.

(** [a && b] of two conditions that make calls. *)
Definition and_then (p q : prog bool) : prog bool :=
  let* a := p in if a then q else Ret false.

Definition spi_run_ok (sql : bytes) (args : list arg) : prog bool :=
  let* r := spi_run sql args in Ret (is_ok r).

(** ** Running *)

Lemma run_bind {A B} db h (p : prog A) (f : A -> prog B) :
  run db h (bind p f) =
  match run db h p with
  | (t, Returned a) => let (t', o) := run db (h ++ t) (f a) in (t ++ t', o)
  | (t, Raising m) => (t, Raising m)
  end.
Proof.
  revert h. induction p as [a|m|c k IH]; intros h; simpl.
  - rewrite app_nil_r. by destruct (run db h (f a)).
  - done.
  - rewrite IH. destruct (run db _ (k _)) as [t [a|m]]; [|done].
    rewrite <- app_assoc. simpl. by destruct (run db _ (f a)).
Qed.

Lemma run_catch {A} db h (p : prog A) (q : bytes -> prog A) :
  run db h (catch_others p q) =
  match run db h p with
  | (t, Returned a) => (t, Returned a)
  | (t, Raising m) => let (t', o) := run db (h ++ t) (q m) in (t ++ t', o)
  end.
Proof.
  revert h. induction p as [a|m|c k IH]; intros h; simpl.
  - done.
  - rewrite app_nil_r. by destruct (run db h (q m)).
  - rewrite IH. destruct (run db _ (k _)) as [t [a|m]]; [done|].
    rewrite <- app_assoc. simpl. by destruct (run db _ (q m)).
Qed.

(** ** Monitors

    A monitor watches the calls of a run: it keeps a state, updated by each call
    and its reply, and says which calls that state allows. *)

Class Monitor := {
  mstate : Type;
  mstep : mstate -> call -> reply -> mstate;
  mallowed : mstate -> call -> Prop
}.

Section monitor.
Context {M : Monitor}.

Fixpoint monitored (st : mstate) (t : trace) : Prop :=
  match t with
  | [] => True
  | (c, r) :: t' => mallowed st c /\ monitored (mstep st c r) t'
  end.

Definition mstate_after (st : mstate) (t : trace) : mstate :=
  fold_left (fun s cr => mstep s cr.1 cr.2) t st.

(** [wp st p Q]: from the monitor state [st], against every server, [p] makes only
    allowed calls and ends in an outcome and a state that satisfy [Q]. *)
Fixpoint wp {A} (st : mstate) (p : prog A) (Q : outcome A -> mstate -> Prop) : Prop :=
  match p with
  | Ret a => Q (Returned a) st
  | Throw m => Q (Raising m) st
  | Do c k => mallowed st c /\ forall r, wp (mstep st c r) (k r) Q
  end.

Lemma wp_run {A} db (p : prog A) Q : forall st h,
  wp st p Q ->
  monitored st (run db h p).1 /\ Q (run db h p).2 (mstate_after st (run db h p).1).
Proof.
  induction p as [a|m|c k IH]; intros st h Hp; simpl in *; try done.
  destruct Hp as [Hc Hk]. specialize (IH (db h c) _ (h ++ [(c, db h c)]) (Hk _)).
  destruct (run db _ (k _)) as [t o]. simpl in *. destruct IH. by split; [split|].
Qed.

Lemma wp_mono {A} (p : prog A) (P Q : outcome A -> mstate -> Prop) : forall st,
  wp st p P -> (forall o s, P o s -> Q o s) -> wp st p Q.
Proof.
  induction p as [a|m|c k IH]; intros st Hp HPQ; simpl in *; [by apply HPQ..|].
  destruct Hp as [Hc Hk]. split; [done|]. intros r. eapply IH; [apply Hk|done].
Qed.

Lemma wp_bind {A B} (p : prog A) (f : A -> prog B) Q : forall st,
  wp st p (fun o s => match o with Returned a => wp s (f a) Q | Raising m => Q (Raising m) s end) ->
  wp st (bind p f) Q.
Proof.
  induction p as [a|m|c k IH]; intros st Hp; simpl in *; try done.
  destruct Hp as [Hc Hk]. split; [done|]. intros r. by apply IH.
Qed.

Lemma wp_catch {A} (p : prog A) (h : bytes -> prog A) Q : forall st,
  wp st p (fun o s => match o with Returned a => Q (Returned a) s | Raising m => wp s (h m) Q end) ->
  wp st (catch_others p h) Q.
Proof.
  induction p as [a|m|c k IH]; intros st Hp; simpl in *; try done.
  destruct Hp as [Hc Hk]. split; [done|]. intros r. by apply IH.
Qed.

Lemma wp_and_then (p q : prog bool) Q st :
  wp st p (fun o s => match o with
                      | Returned true => wp s q Q
                      | Returned false => Q (Returned false) s
                      | Raising m => Q (Raising m) s
                      end) ->
  wp st (and_then p q) Q.
Proof. intros Hp. apply wp_bind. eapply wp_mono; [exact Hp|]. by intros [[]|] s. Qed.

Lemma wp_spi_run_ok sql args Q st :
  mallowed st (Spi sql args) ->
  (forall v, Q (Returned true) (mstep st (Spi sql args) (Done v))) ->
  (forall e, Q (Returned false) (mstep st (Spi sql args) (Failed e))) ->
  (forall m, Q (Raising m) (mstep st (Spi sql args) (Raised m))) ->
  wp st (spi_run_ok sql args) Q.
Proof. intros Ha H1 H2 H3. split; [done|]. intros []; simpl; auto. Qed.

Lemma wp_spi_get_json sql args Q st :
  mallowed st (Spi sql args) ->
  (forall x r, Q (Returned x) (mstep st (Spi sql args) r)) ->
  (forall m r, Q (Raising m) (mstep st (Spi sql args) r)) ->
  wp st (spi_get_json sql args) Q.
Proof. intros Ha H1 H2. split; [done|]. intros [[[]|]| |]; simpl; auto. Qed.

Lemma wp_transaction {A} (p : prog A) Q st :
  mallowed st StartTransaction ->
  (forall r, wp (mstep st StartTransaction r) p (fun o s =>
     match o with
     | Returned a => mallowed s CommitTransaction
                     /\ forall r', Q (Returned a) (mstep s CommitTransaction r')
     | Raising m => Q (Raising m) s
     end)) ->
  wp st (transaction p) Q.
Proof.
  intros Ha Hp. split; [done|]. intros r. apply (wp_bind p).
  eapply wp_mono; [apply Hp|]. by intros [a|m] s.
Qed.

Lemma monitored_app st t t' :
  monitored st (t ++ t') <-> monitored st t /\ monitored (mstate_after st t) t'.
Proof.
  revert st. induction t as [|[c r] t IH]; intros st; simpl; [tauto|]. rewrite IH. tauto.
Qed.
End monitor.

Lemma monitored_at `{M : Monitor} st t pre c r post :
  monitored st t -> t = pre ++ (c, r) :: post -> mallowed (mstate_after st pre) c.
Proof. intros Ht ->. apply monitored_app in Ht as [_ Ht]. apply Ht. Qed.

(** The monitor whose state is the history itself. *)
Definition history (allowed : trace -> call -> Prop) : Monitor :=
  {| mstate := trace; mstep := fun t c r => t ++ [(c, r)]; mallowed := allowed |}.

Lemma history_after allowed pre : forall st,
  @mstate_after (history allowed) st pre = st ++ pre.
Proof.
  induction pre as [|[c r] pre IH]; intros st; simpl; [by rewrite app_nil_r|].
  unfold mstate_after in *. simpl. rewrite IH. by rewrite <- app_assoc.
Qed.

(** A property of every call of a program, given the calls before it. *)
Lemma history_at {A} allowed db h (p : prog A) pre c r post :
  @wp (history allowed) A [] p (fun _ _ => True) ->
  (run db h p).1 = pre ++ (c, r) :: post -> allowed pre c.
Proof.
  intros Hp Ht. destruct (@wp_run (history allowed) A db p _ [] h Hp) as [Hm _].
  pose proof (@monitored_at (history allowed) [] _ pre c r post Hm Ht) as Ha.
  rewrite history_after in Ha. exact Ha.
Qed.
