(* ===== verification/Config.v ===== *)
(** * [src/config.rs]: settings and the RPC socket

    Environment variables with their defaults, and the directory and socket file
    through which the two workers talk, on a small model of the file system. *)

From stdpp Require Import relations.
From S2P Require Import Prelude Utf8 RustStr.

(** ** Settings *)

(** [std::env::var(key).ok()], for the variables set to valid Unicode. *)
Definition environment := bytes -> option bytes.

Definition env_opt (env : environment) (key : bytes) : option bytes :=
  match env key with
  | Some v => if nonempty v then Some v else None
  | None => None
  end.

Definition DEFAULT_DB : bytes := str "postgres".
Definition DEFAULT_HTTP_ADDR : bytes := str "127.0.0.1:8088".

Definition configured_database (env : environment) : bytes :=
  default DEFAULT_DB (env_opt env (str "ALLGRES_DATABASE")).

Definition configured_http_addr (env : environment) : bytes :=
  default DEFAULT_HTTP_ADDR (env_opt env (str "ALLGRES_HTTP_ADDR")).

(** [Path::join] with a relative component. *)
Definition join (base component : bytes) : bytes :=
  match list.last base with
  | None => component
  | Some b => if b == "/"%byte then base ++ component else base ++ str "/" ++ component
  end.

(** [data_directory], from PostgreSQL's [DataDir] ([None] for a null pointer). *)
Definition data_directory (data_dir : option bytes) : option bytes :=
  match data_dir with
  | Some s => if utf8_valid s && nonempty s then Some s else None
  | None => None
  end.

Definition socket_dir (env : environment) (data_dir : option bytes) (temp_dir : bytes) : bytes :=
  match env_opt env (str "ALLGRES_SOCKET_DIR") with
  | Some dir => dir
  | None => match data_directory data_dir with
            | Some base => join base (str "allgres")
            | None => join temp_dir (str "allgres")
            end
  end.

Definition rpc_socket_path (env : environment) (data_dir : option bytes) (temp_dir : bytes) : bytes :=
  join (socket_dir env data_dir temp_dir) (str "runtime.sock").

(** ** The file system *)

Inductive entry :=
| Directory (mode : Z)
| SocketFile (mode : Z)
| OtherFile (mode : Z).

Definition entry_mode (e : entry) : Z :=
  match e with Directory m | SocketFile m | OtherFile m => m end.

Definition set_mode (e : entry) (m : Z) : entry :=
  match e with Directory _ => Directory m | SocketFile _ => SocketFile m | OtherFile _ => OtherFile m end.

(** Each path has one spelling, and there are no symbolic links. *)
Record FileSystem := mk_fs {
  entries : gmap bytes entry;
  umask : Z;
  denied : bytes -> bool    (* operations on a path the system refuses *)
}.

Definition fs_update (fs : FileSystem) (es : gmap bytes entry) : FileSystem :=
  mk_fs es (umask fs) (denied fs).

Definition SLASH : byte := "/"%byte.

(** [Path::parent], for a path without [.] components: none of the root and the empty
    path, and the empty path (the working directory) of a single component. *)
Definition parent (path : bytes) : option bytes :=
  let p := trim_end_matches SLASH path in
  match p with
  | [] => None
  | _ => match rfind SLASH p with
         | None => Some []
         | Some i => let q := trim_end_matches SLASH (take i p) in
                     Some (if nonempty q then q else [SLASH])
         end
  end.

(** What is at a path: a directory or not. *)
Definition look (fs : FileSystem) (path : bytes) : option bool :=
  (fun e => match e with Directory _ => true | _ => false end) <$> entries fs !! path.

(** [Path::is_dir] *)
Definition is_dir (fs : FileSystem) (path : bytes) : bool := default false (look fs path).

(** [mkdir(2)] *)
Inductive mkdir_result :=
| Made (fs : FileSystem)
| NotFound          (* the parent is missing *)
| Mkdir_failed.

Definition mkdir (fs : FileSystem) (path : bytes) (mode : Z) : mkdir_result :=
  match look fs (default [] (parent path)) with
  | None => NotFound
  | Some false => Mkdir_failed
  | Some true =>
    match look fs path with
    | Some _ => Mkdir_failed
    | None => if denied fs path then Mkdir_failed
              else Made (fs_update fs (<[path := Directory (Z.ldiff mode (umask fs))]> (entries fs)))
    end
  end.

(** [DirBuilder::create_dir_all]: where the parent is missing, the parent first.  A
    parent is shorter, so the length of the path is fuel enough ([create_dir_fuel]). *)
Fixpoint create_dir_all (fuel : nat) (fs : FileSystem) (path : bytes) (mode : Z) : option FileSystem :=
  match path with
  | [] => Some fs
  | _ =>
    match mkdir fs path mode with
    | Made fs' => Some fs'
    | Mkdir_failed => if is_dir fs path then Some fs else None
    | NotFound =>
      match fuel, parent path with
      | S fuel', Some p =>
        match create_dir_all fuel' fs p mode with
        | None => None
        | Some fs1 => match mkdir fs1 path mode with
                      | Made fs' => Some fs'
                      | _ => if is_dir fs1 path then Some fs1 else None
                      end
        end
      | _, _ => None
      end
    end
  end.

(** [DirBuilder::new().recursive(true).mode(mode).create(dir)] *)
Definition create_dir (fs : FileSystem) (dir : bytes) (mode : Z) : option FileSystem :=
  create_dir_all (length dir) fs dir mode.

(** [fs::set_permissions(path, Permissions::from_mode(mode))] *)
Definition set_permissions (fs : FileSystem) (path : bytes) (mode : Z) : option FileSystem :=
  if denied fs path then None
  else match entries fs !! path with
       | None => None
       | Some e => Some (fs_update fs (<[path := set_mode e mode]> (entries fs)))
       end.

(** [UnixListener::bind(path)]: an existing file is an error. *)
Definition bind_socket (fs : FileSystem) (path : bytes) : option FileSystem :=
  if denied fs path then None
  else match entries fs !! path with
       | Some _ => None
       | None => Some (fs_update fs (<[path := SocketFile (Z.ldiff 511 (umask fs))]> (entries fs)))
       end.

(** [let _ = fs::remove_file(path)]: a directory stays, and so does a file the system
    refuses to remove. *)
Definition remove_file (fs : FileSystem) (path : bytes) : FileSystem :=
  match entries fs !! path with
  | Some (SocketFile _) | Some (OtherFile _) =>
    if denied fs path then fs else fs_update fs (delete path (entries fs))
  | _ => fs
  end.

(** ** The socket *)

(** [None] is an [io::Error]. *)
Definition ensure_socket_dir (fs : FileSystem) (dir : bytes) : option FileSystem :=
  match (match entries fs !! dir with
         | None => create_dir fs dir 448      (* 0o700 *)
         | Some _ => Some fs
         end) with
  | None => None
  | Some fs1 =>
    match entries fs1 !! dir with
    | Some (Directory mode) =>
      if (Z.land mode 63 =? 0)%Z then Some fs1    (* 0o077 *)
      else set_permissions fs1 dir 448
    | _ => None
    end
  end.

Definition bind_rpc_socket (fs : FileSystem) (dir : bytes) : option FileSystem :=
  match ensure_socket_dir fs dir with
  | None => None
  | Some fs1 =>
    let path := join dir (str "runtime.sock") in
    match bind_socket (remove_file fs1 path) path with
    | None => None
    | Some fs2 => set_permissions fs2 path 384       (* 0o600 *)
    end
  end.

(** ** Creating a directory with its parents *)

Lemma drop_while_length {A} (f : A -> bool) l : length (drop_while f l) <= length l.
Proof. induction l as [|x l IH]; [done|]. simpl. destruct (f x); simpl; lia. Qed.

Lemma trim_end_length c s : length (trim_end_matches c s) <= length s.
Proof.
  unfold trim_end_matches. rewrite length_rev, <- (length_rev s). apply drop_while_length.
Qed.

Lemma rfind_length c s i : rfind c s = Some i -> i < length s.
Proof.
  revert i. induction s as [|b s IH]; [done|]. simpl. destruct (rfind c s) as [j|]; intros i.
  - intros [= <-]. specialize (IH j eq_refl). lia.
  - case_bool_decide; [|done]. intros [= <-]. lia.
Qed.

Lemma trim_end_prefix c s : trim_end_matches c s `prefix_of` s.
Proof.
  unfold trim_end_matches. exists (rev (take_while (fun b => b == c) (rev s))).
  rewrite <- rev_app_distr, take_drop_while. by rewrite rev_involutive.
Qed.

Lemma trim_end_nil c s : trim_end_matches c s = [] -> Forall (fun b => b = c) s.
Proof.
  unfold trim_end_matches. intros He. apply (f_equal (@rev byte)) in He. rewrite rev_involutive in He. simpl in He.
  rewrite <- (rev_involutive s). apply Forall_rev. induction (rev s) as [|b l IH]; [by constructor|]. simpl in He.
  case_bool_decide; [|done]. constructor; [done|by apply IH].
Qed.

Lemma trim_end_last c s t : trim_end_matches c s <> t ++ [c].
Proof.
  unfold trim_end_matches. intros He. apply (f_equal (@rev byte)) in He.
  rewrite rev_involutive, rev_app_distr in He. simpl in He. revert He.
  induction (rev s) as [|b l IH]; [done|]. simpl. case_bool_decide; [exact IH|]. by intros [= -> _].
Qed.

Lemma rfind_lookup c s i : rfind c s = Some i -> s !! i = Some c.
Proof.
  revert i. induction s as [|b s IH]; [done|]. simpl. destruct (rfind c s) as [j|]; intros i.
  - intros [= <-]. by apply IH.
  - case_bool_decide; [|done]. by intros [= <-]; subst.
Qed.

(** A parent is a proper beginning of the path. *)
Lemma parent_prefix path p : parent path = Some p -> p `prefix_of` path /\ length p < length path.
Proof.
  unfold parent. pose proof (trim_end_prefix SLASH path) as Hl. pose proof (trim_end_last SLASH path) as Hlast.
  apply prefix_length in Hl as Hlen.
  destruct (trim_end_matches SLASH path) as [|b t] eqn:Ht; [done|]. set (s := b :: t) in *.
  destruct (rfind SLASH s) as [i|] eqn:Hi; [|intros [= <-]; split; [apply prefix_nil|simpl in *; lia]].
  pose proof (rfind_length _ _ _ Hi) as Hil. apply rfind_lookup in Hi.
  pose proof (trim_end_prefix SLASH (take i s)) as Hq. pose proof (trim_end_length SLASH (take i s)) as Hql.
  rewrite length_take in Hql. destruct (trim_end_matches SLASH (take i s)) as [|c q] eqn:Hqe; intros [= <-].
  - assert (s = SLASH :: t) as Hs.
    { apply trim_end_nil in Hqe. unfold s in *. destruct i as [|i]; [by injection Hi as ->|].
      simpl in Hqe. by apply Forall_cons_iff in Hqe as [-> _]. }
    split; [etransitivity; [|exact Hl]; rewrite Hs; by exists t|].
    destruct t as [|c t]; [by destruct (Hlast [])|]. simpl in *. lia.
  - split; [|simpl in *; lia]. etransitivity; [exact Hq|]. etransitivity; [|exact Hl].
    exists (drop i s). by rewrite take_drop.
Qed.

(** [p] is [path] or one of the directories it lies in. *)
Definition on_the_way (p path : bytes) : Prop := rtc (fun a b => parent a = Some b) path p.

Lemma on_the_way_length p path : on_the_way p path -> length p <= length path.
Proof. intros Hp. induction Hp as [|a b c Hab _ IH]; [lia|]. apply parent_prefix in Hab as [_ ?]. lia. Qed.

Lemma mkdir_not_found fs path mode : mkdir fs path mode = NotFound -> look fs (default [] (parent path)) = None.
Proof. unfold mkdir. by repeat case_match. Qed.

Lemma create_dir_fuel n m fs path mode :
  length path <= n -> length path <= m ->
  create_dir_all n fs path mode = create_dir_all m fs path mode.
Proof.
  revert m path. induction n as [|n IH]; intros [|m] [|b path] Hn Hm; simpl in Hn, Hm; try lia; try done.
  cbn [create_dir_all]. destruct (mkdir fs (b :: path) mode) eqn:Hk; [done| |done].
  destruct (parent (b :: path)) as [p|] eqn:Hp; [|done].
  apply parent_prefix in Hp as [_ Hl]. simpl in Hl. rewrite (IH m p); [done|lia..].
Qed.

(** What creating the directory [top] does to the rest: what was there stays, and what is
    new is a directory on the way to it, open to nobody but its owner. *)
Record grows (top : bytes) (fs fs' : FileSystem) : Prop := {
  grows_denied : denied fs' = denied fs;
  grows_kept : forall p e, entries fs !! p = Some e -> entries fs' !! p = Some e;
  grows_new : forall p e, entries fs !! p = None -> entries fs' !! p = Some e ->
    on_the_way p top /\ exists mode, e = Directory mode /\ Z.land mode 63 = 0%Z
}.

Lemma grows_refl top fs : grows top fs fs.
Proof. split; [done..|]. intros p e -> [=]. Qed.

Lemma grows_trans top1 top2 fs1 fs2 fs3 :
  on_the_way top1 top2 -> grows top1 fs1 fs2 -> grows top2 fs2 fs3 -> grows top2 fs1 fs3.
Proof.
  intros Hn [D1 K1 P1] [D2 K2 P2]. split; [congruence|by auto|].
  intros p e H1 H3. destruct (entries fs2 !! p) as [e'|] eqn:H2; [|by eapply P2].
  rewrite (K2 p e' H2) in H3. injection H3 as <-. destruct (P1 p e' H1 H2). split; [unfold on_the_way in *; by etransitivity|done].
Qed.

(** Growing turns no path into a file of another kind. *)
Lemma grows_look top fs fs' p : grows top fs fs' -> look fs p <> Some false -> look fs' p <> Some false.
Proof.
  intros [_ K P] Hl. unfold look in Hl |- *. destruct (entries fs !! p) as [e|] eqn:He.
  - rewrite (K _ _ He). by destruct e.
  - destruct (entries fs' !! p) as [e|] eqn:He'; [|done]. by destruct (P _ _ He He') as (_ & m & -> & _).
Qed.

Lemma private_mode u : Z.land (Z.ldiff 448 u) 63 = 0%Z.
Proof.
  rewrite Z.ldiff_land, (Z.land_comm 448), <- Z.land_assoc. change (Z.land 448 63) with 0%Z. apply Z.land_0_r.
Qed.

Lemma mkdir_grows fs path fs' :
  mkdir fs path 448 = Made fs' -> grows path fs fs' /\ look fs' path = Some true.
Proof.
  unfold mkdir. destruct (look fs (default _ _)) as [[]|]; [|done..].
  destruct (look fs path) eqn:Hl; [done|]. destruct (denied fs path); [done|]. intros [= <-].
  assert (entries fs !! path = None) as Hn by (unfold look in Hl; by destruct (entries fs !! path)).
  split.
  - split; [done|..]; simpl.
    + intros p e Hp. rewrite lookup_insert_ne; [done|]. by intros <-; rewrite Hn in Hp.
    + intros p e Hp. rewrite lookup_insert_Some. intros [[<- <-]|[_ Hp']]; [|congruence].
      split; [apply rtc_refl|]. eexists. split; [done|apply private_mode].
  - unfold look. simpl. by rewrite lookup_insert_eq.
Qed.

(** The last attempt at a directory, its parents made. *)
Definition mkdir_or_there (fs : FileSystem) (path : bytes) : option FileSystem :=
  match mkdir fs path 448 with
  | Made fs' => Some fs'
  | _ => if is_dir fs path then Some fs else None
  end.

Lemma mkdir_or_there_grows fs path fs' : mkdir_or_there fs path = Some fs' -> grows path fs fs'.
Proof.
  unfold mkdir_or_there. destruct (mkdir fs path 448) as [fs1| |] eqn:Hk;
    [intros [= <-]; exact (proj1 (mkdir_grows _ _ _ Hk))|
     destruct (is_dir fs path); [intros [= <-]; apply grows_refl|done]..].
Qed.

Lemma mkdir_or_there_makes fs path :
  look fs (default [] (parent path)) = Some true -> look fs path <> Some false -> denied fs path = false ->
  exists fs', mkdir_or_there fs path = Some fs' /\ look fs' path = Some true.
Proof.
  intros Hp Hl Hd. unfold mkdir_or_there. destruct (mkdir fs path 448) as [fs1| |] eqn:Hk.
  - exists fs1. split; [done|]. exact (proj2 (mkdir_grows _ _ _ Hk)).
  - apply mkdir_not_found in Hk. congruence.
  - exists fs. unfold mkdir in Hk. rewrite Hp, Hd in Hk. unfold is_dir.
    by destruct (look fs path) as [[]|].
Qed.

Lemma create_dir_all_grows n fs path fs' :
  create_dir_all n fs path 448 = Some fs' -> grows path fs fs'.
Proof.
  revert path fs'. induction n as [|n IH]; intros [|b path] fs' Hc; cbn [create_dir_all] in Hc;
    try (injection Hc as <-; apply grows_refl);
    (destruct (mkdir fs (b :: path) 448) as [fs1| |] eqn:Hk;
      [apply mkdir_or_there_grows; by unfold mkdir_or_there; rewrite Hk| |
       apply mkdir_or_there_grows; by unfold mkdir_or_there; rewrite Hk]); [done|].
  destruct (parent (b :: path)) as [p|] eqn:Hp; [|done].
  assert (on_the_way p (b :: path)) as Hway by (by apply rtc_once).
  destruct (create_dir_all n fs p 448) as [fs1|] eqn:Hp1; [|done]. apply IH in Hp1.
  eapply (grows_trans p); [exact Hway|exact Hp1|]. apply mkdir_or_there_grows.
  unfold mkdir_or_there. rewrite <- Hc. by destruct (mkdir fs1 (b :: path) 448).
Qed.

(** Nothing on the way to [path] is another kind of file. *)
Definition way_free (fs : FileSystem) (path : bytes) : Prop :=
  forall p, on_the_way p path -> look fs p <> Some false.

(** The root and the working directory are there. *)
Definition rooted (fs : FileSystem) : Prop := look fs [SLASH] = Some true /\ look fs [] = Some true.

(** Where nothing is denied and the way is free, the directory is there afterwards. *)
Lemma create_dir_all_makes n fs path :
  length path <= n -> path <> [] -> rooted fs -> (forall p, denied fs p = false) -> way_free fs path ->
  exists fs', create_dir_all n fs path 448 = Some fs' /\ look fs' path = Some true.
Proof.
  intros Hn Hne [_ Hcwd] Hden. revert path Hn Hne.
  induction n as [|n IH]; intros [|b path] Hn Hne Hl; [done|simpl in Hn; lia|done|].
  assert (forall top fs1, grows top fs fs1 -> look fs1 (default [] (parent (b :: path))) = Some true ->
    exists fs', mkdir_or_there fs1 (b :: path) = Some fs' /\ look fs' (b :: path) = Some true) as Hmk.
  { intros top fs1 Hg Hp. apply mkdir_or_there_makes; [done| |by rewrite (grows_denied _ _ _ Hg)].
    eapply grows_look; [exact Hg|]. apply Hl, rtc_refl. }
  cbn [create_dir_all]. destruct (mkdir fs (b :: path) 448) as [fs1| |] eqn:Hk.
  - exists fs1. split; [done|]. exact (proj2 (mkdir_grows _ _ _ Hk)).
  - apply mkdir_not_found in Hk. destruct (parent (b :: path)) as [p|] eqn:Hpar; [|simpl in Hk; congruence].
    pose proof (parent_prefix _ _ Hpar) as [_ Hlen]. simpl in Hk, Hlen, Hn.
    destruct (IH p) as (fs1 & Hc & Hp1); [lia|by intros ->; congruence| |].
    + intros q Hq. apply Hl. by eapply rtc_l.
    + rewrite Hc. by apply (Hmk p); [eapply create_dir_all_grows|].
  - unfold mkdir in Hk. destruct (look fs (default [] (parent (b :: path)))) as [[]|] eqn:Hp; [| |done].
    + destruct (Hmk [] fs (grows_refl _ _) Hp) as (fs' & H1 & H2). exists fs'. split; [|done].
      unfold mkdir_or_there, mkdir in H1. rewrite Hp, Hk in H1. exact H1.
    + exfalso. destruct (parent (b :: path)) as [p|] eqn:Hpar; simpl in Hp; [|congruence].
      revert Hp. apply Hl. by apply rtc_once.
Qed.

(** ** The socket is private *)

(** No permission bit for group or others. *)
Definition owner_only (e : entry) : Prop := Z.land (entry_mode e) 63 = 0%Z.

Lemma ensure_socket_dir_private fs dir fs' :
  ensure_socket_dir fs dir = Some fs' ->
  exists mode, entries fs' !! dir = Some (Directory mode) /\ Z.land mode 63 = 0%Z.
Proof.
  unfold ensure_socket_dir. destruct (match entries fs !! dir with None => _ | Some _ => _ end) as [fs1|];
    [|done].
  destruct (entries fs1 !! dir) as [[mode|mode|mode]|] eqn:Hd; [|done..].
  destruct (Z.land mode 63 =? 0)%Z eqn:Hm.
  - intros [= <-]. exists mode. breflect. done.
  - unfold set_permissions. destruct (denied fs1 dir); [done|]. rewrite Hd. intros [= <-].
    exists 448%Z. split; [|done]. simpl. by rewrite lookup_insert, decide_True.
Qed.

Lemma ensure_socket_dir_rest fs dir fs' :
  ensure_socket_dir fs dir = Some fs' ->
  exists fs1, grows dir fs fs1 /\ denied fs' = denied fs
    /\ forall p, p <> dir -> entries fs' !! p = entries fs1 !! p.
Proof.
  unfold ensure_socket_dir.
  destruct (match entries fs !! dir with None => _ | Some _ => _ end) as [fs1|] eqn:Hc; [|done].
  assert (grows dir fs fs1) as Hg.
  { destruct (entries fs !! dir); [injection Hc as <-; apply grows_refl|by eapply create_dir_all_grows]. }
  destruct (entries fs1 !! dir) as [[mode|mode|mode]|] eqn:Hd; [|done..].
  pose proof (grows_denied _ _ _ Hg) as Hden. destruct (_ =? 0)%Z; [by intros [= <-]; exists fs1|].
  unfold set_permissions. destruct (denied fs1 dir); [done|]. rewrite Hd. intros [= <-].
  exists fs1. split; [done|]. split; [done|]. intros p Hp. simpl. by apply lookup_insert_ne.
Qed.

Lemma join_length base c : length c <= length (join base c) /\ (base <> [] -> length base + length c <= length (join base c)).
Proof.
  unfold join. destruct (list.last base) as [b|] eqn:Hl.
  - case_bool_decide; rewrite !length_app; lia.
  - split; [done|]. by apply last_None in Hl as ->.
Qed.

Lemma join_ne base c : c <> [] -> join base c <> base.
Proof.
  intros Hc Hj. pose proof (join_length base c) as [H1 H2]. rewrite Hj in H1, H2.
  destruct c as [|b c]; [done|]. destruct base as [|x base]; [simpl in H1; lia|].
  specialize (H2 ltac:(done)). simpl in H2. lia.
Qed.

Lemma remove_file_dir fs path dir : dir <> path -> entries (remove_file fs path) !! dir = entries fs !! dir.
Proof.
  intros Hne. unfold remove_file. repeat case_match; try done; simpl; by rewrite lookup_delete_ne.
Qed.

Lemma remove_file_denied fs path p : denied (remove_file fs path) p = denied fs p.
Proof. unfold remove_file. by repeat case_match. Qed.

(** The directory's path is never empty. *)
Lemma socket_dir_nonempty env data_dir temp_dir : socket_dir env data_dir temp_dir <> [].
Proof.
  assert (forall base, join base (str "allgres") <> []) as Hj.
  { intros base He. pose proof (proj1 (join_length base (str "allgres"))) as Hl. rewrite He in Hl. vm_compute in Hl. lia. }
  unfold socket_dir, env_opt. destruct (env _) as [v|].
  - destruct v; simpl; [by destruct (data_directory data_dir)|done].
  - by destruct (data_directory data_dir).
Qed.

(** Binding leaves alone what is neither the directory nor the socket, and whatever it
    makes besides them is a private directory on the way to the socket's. *)
Lemma bind_rpc_rest fs dir fs' p :
  bind_rpc_socket fs dir = Some fs' -> p <> dir -> p <> join dir (str "runtime.sock") ->
  (forall e, entries fs !! p = Some e -> entries fs' !! p = Some e)
  /\ (forall e, entries fs !! p = None -> entries fs' !! p = Some e ->
       on_the_way p dir /\ exists m, e = Directory m /\ owner_only e).
Proof.
  unfold bind_rpc_socket. destruct (ensure_socket_dir fs dir) as [fs1|] eqn:He; [|done]. cbv zeta.
  set (path := join dir (str "runtime.sock")). intros Hb Hd Hp.
  apply ensure_socket_dir_rest in He as (fs0 & [_ K N] & _ & Hr).
  assert (entries fs' !! p = entries fs0 !! p) as ->.
  { rewrite <- Hr by done. rewrite <- (remove_file_dir fs1 path p) by done.
    unfold bind_socket in Hb. destruct (denied _ _); [done|]. destruct (entries _ !! path); [done|].
    unfold set_permissions in Hb. simpl in Hb. destruct (denied _ _); [done|].
    rewrite lookup_insert_eq in Hb. injection Hb as <-. simpl. by rewrite !lookup_insert_ne. }
  split; [by intros e; apply K|]. intros e H0 H1. destruct (N p e H0 H1) as (Hw & m & -> & Hm).
  split; [done|]. by exists m.
Qed.

Lemma ensure_socket_dir_makes fs dir :
  dir <> [] -> rooted fs -> (forall p, denied fs p = false) -> way_free fs dir ->
  exists fs', ensure_socket_dir fs dir = Some fs'.
Proof.
  intros Hne Hns Hden Hw. unfold ensure_socket_dir.
  assert (exists fs0 m, match entries fs !! dir with None => create_dir fs dir 448 | Some _ => Some fs end = Some fs0
    /\ entries fs0 !! dir = Some (Directory m) /\ denied fs0 dir = false) as (fs0 & m & -> & Hd & Hdn).
  { destruct (entries fs !! dir) as [e|] eqn:He.
    - pose proof (Hw dir (rtc_refl _ dir)) as Hl. unfold look in Hl. rewrite He in Hl.
      destruct e as [m| |]; [|done..]. by exists fs, m.
    - destruct (create_dir_all_makes (length dir) fs dir) as (fs0 & Hc & Hl); [done..|].
      exists fs0. pose proof (grows_denied _ _ _ (create_dir_all_grows _ _ _ _ Hc)) as Hdn.
      unfold look in Hl. destruct (entries fs0 !! dir) as [[m| |]|]; [|done..]. exists m. by rewrite Hdn. }
  rewrite Hd. destruct (_ =? 0)%Z; [by eexists|]. unfold set_permissions. rewrite Hdn, Hd. by eexists.
Qed.

(** And it succeeds where nothing is denied, the way to the directory is free, and no
    directory is in the socket's place. *)
Lemma bind_rpc_succeeds fs dir :
  dir <> [] -> rooted fs -> (forall p, denied fs p = false) -> way_free fs dir ->
  look fs (join dir (str "runtime.sock")) <> Some true ->
  exists fs', bind_rpc_socket fs dir = Some fs'.
Proof.
  intros Hne Hns Hden Hw Hs. unfold bind_rpc_socket.
  destruct (ensure_socket_dir_makes fs dir) as [fs1 He]; [done..|].
  rewrite He. cbv zeta. set (path := join dir (str "runtime.sock")) in *.
  apply ensure_socket_dir_rest in He as (fs0 & Hg & Hd & Hr).
  assert (path <> dir) as Hpd by (by apply join_ne).
  assert (forall m, entries fs1 !! path <> Some (Directory m)) as Hnd.
  { intros m Hm. rewrite Hr in Hm by done. unfold look in Hs. destruct (entries fs !! path) as [e|] eqn:He.
    - rewrite (grows_kept _ _ _ Hg _ _ He) in Hm. injection Hm as ->. done.
    - destruct (grows_new _ _ _ Hg _ _ He Hm) as [Hl%on_the_way_length _].
      pose proof (proj2 (join_length dir (str "runtime.sock")) Hne) as Hj. fold path in Hj.
      change (length (str "runtime.sock")) with 12 in Hj. lia. }
  assert (entries (remove_file fs1 path) !! path = None) as Hgone.
  { unfold remove_file. destruct (entries fs1 !! path) as [[m|m|m]|] eqn:Hm; [by destruct (Hnd m)| | |done];
      rewrite Hd, Hden; apply lookup_delete_eq. }
  unfold bind_socket, set_permissions. rewrite remove_file_denied, Hd, Hden, Hgone. simpl.
  rewrite remove_file_denied, Hd, Hden, lookup_insert_eq. by eexists.
Qed.

(** The RPC socket is the worker's own.  Whenever [bind_rpc_socket] succeeds, on
    whatever file system it found, the directory is a directory and it and the
    socket in it carry no permission for group or others, even where the directory
    existed with wider permissions; and a directory path held by another kind of
    file is refused. *)
Theorem rpc_socket_private fs dir fs' :
  bind_rpc_socket fs dir = Some fs' ->
  (exists mode, entries fs' !! dir = Some (Directory mode) /\ Z.land mode 63 = 0%Z)
  /\ entries fs' !! join dir (str "runtime.sock") = Some (SocketFile 384)
  /\ owner_only (SocketFile 384)
  /\ (forall e, entries fs !! dir = Some e -> exists mode, e = Directory mode).
Proof.
  unfold bind_rpc_socket. destruct (ensure_socket_dir fs dir) as [fs1|] eqn:He; [|done].
  pose proof (ensure_socket_dir_private _ _ _ He) as (mode & Hd & Hm). cbv zeta.
  set (path := join dir (str "runtime.sock")).
  assert (dir <> path) as Hne by (intros E; by apply (join_ne dir (str "runtime.sock"))).
  set (fs2 := remove_file fs1 path). unfold bind_socket. destruct (denied fs2 path) eqn:Hden; [done|].
  destruct (entries fs2 !! path); [done|]. unfold set_permissions. simpl. rewrite Hden.
  rewrite lookup_insert, decide_True by done. intros [= <-]. simpl. split_and!.
  - exists mode. rewrite !lookup_insert_ne by done. unfold fs2. by rewrite remove_file_dir.
  - by rewrite lookup_insert, decide_True.
  - done.
  - intros e Hfs. unfold ensure_socket_dir in He. rewrite Hfs, Hfs in He. destruct e; [by eexists|done..].
Qed.

Definition sample_fs : FileSystem :=
  mk_fs {[str "/srv/pg/allgres" := Directory 493]} 18 (fun _ => false).

Lemma rpc_socket_private_witness :
  exists fs', bind_rpc_socket sample_fs (str "/srv/pg/allgres") = Some fs'
    /\ exists mode, entries fs' !! str "/srv/pg/allgres" = Some (Directory mode) /\ Z.land mode 63 = 0%Z.
Proof.
  eexists. split; [vm_compute; reflexivity|].
  eapply (rpc_socket_private sample_fs). vm_compute. reflexivity.
Defined.
