(* ===== verification/Extension.v ===== *)
(** * [src/lib.rs]: the extension's own functions

    What a session can call directly ([native_status], [native_host_stats],
    [native_start_dynamic_workers]) and what the postmaster calls ([_PG_init]): the
    registration of the two background workers, and the host metrics read from
    [/proc]. *)

From S2P Require Import Prelude Utf8 RustStr F64 Json Spi Config.

Definition VERSION : bytes := str "0.1.0".

Definition native_version : bytes := VERSION.

(** ** The two workers *)

Definition runtime_worker_builder : BackgroundWorkerBuilder :=
  {| bgw_name := str "allgres runtime"; bgw_function := str "allgres_runtime_main";
     bgw_library := str "allgres"; recovery_finished := true; restart_secs := Some 5%Z;
     spi_access := true; notify_pid := 0 |}.

Definition web_worker_builder : BackgroundWorkerBuilder :=
  {| bgw_name := str "allgres web"; bgw_function := str "allgres_web_main";
     bgw_library := str "allgres"; recovery_finished := true; restart_secs := Some 5%Z;
     spi_access := false; notify_pid := 0 |}.

Definition set_notify_pid (b : BackgroundWorkerBuilder) (pid : Z) : BackgroundWorkerBuilder :=
  {| bgw_name := bgw_name b; bgw_function := bgw_function b; bgw_library := bgw_library b;
     recovery_finished := recovery_finished b; restart_secs := restart_secs b;
     spi_access := spi_access b; notify_pid := pid |}.

(** [_PG_init]; its argument is [process_shared_preload_libraries_in_progress]. *)
Definition PG_init (preloading : bool) : prog unit :=
  if negb preloading then Ret tt
  else do_ (LoadWorker runtime_worker_builder) ;; do_ (LoadWorker web_worker_builder).

(** ** The preload setting *)

Definition PRELOAD_SETTING : bytes := str "SELECT current_setting('shared_preload_libraries', true)".

Definition preload_setting : prog bytes :=
  let* r := spi_get_text PRELOAD_SETTING [] in Ret (default [] (ok_flatten r)).

(** [preload.split(',').any(|x| x.trim() == "allgres")] *)
Definition preloaded (preload : bytes) : bool :=
  existsb (fun x => trim x == str "allgres") (split_on ","%byte preload).

Definition native_status (env : environment) (data_dir : option bytes) (temp_dir : bytes) : prog json :=
  let* preload := preload_setting in
  Ret (jobj [(str "name", JStr (str "Allgres"));
             (str "tagline", JStr (str "Postgres Is All You Need."));
             (str "version", JStr VERSION);
             (str "preloaded", JBool (preloaded preload));
             (str "runtime_worker", JStr (str "allgres runtime"));
             (str "web_worker", JStr (str "allgres web"));
             (str "web_default", JStr DEFAULT_HTTP_ADDR);
             (str "rpc_socket", JStr (from_utf8_lossy (rpc_socket_path env data_dir temp_dir)))]).

(** ** Starting the workers without a restart *)

Definition RUNNING_WORKERS : bytes :=
  str "SELECT count(*) FROM pg_stat_activity WHERE backend_type = 'allgres runtime'".

Definition ALREADY_PRELOADED : json :=
  jobj [(str "ok", JBool false);
        (str "reason", JStr (str "allgres is already in shared_preload_libraries; the postmaster owns these workers, dynamic start does not apply"))].

Definition ALREADY_RUNNING : json := jobj [(str "ok", JBool true); (str "already_running", JBool true)].

Definition not_started (label reason : bytes) : json :=
  jobj [(str "worker", JStr label); (str "started", JBool false); (str "reason", JStr reason)].

Definition started (label : bytes) (pid : Z) : json :=
  jobj [(str "worker", JStr label); (str "started", JBool true); (str "pid", JInt pid)].

(** One turn of the [for] loop: register, then wait.  A started worker's reply is its
    pid; a status that is no start carries its debug text. *)
Definition start_worker (label : bytes) (b : BackgroundWorkerBuilder) : prog json :=
  Do (LoadDynamicWorker b) (fun r =>
    match r with
    | Done _ =>
      Do (WaitForStartup label) (fun r' =>
        match r' with
        | Done v => Ret (started label (match v with Some (DInt pid) => pid | _ => 0%Z end))
        | Failed status => Ret (not_started label status)
        | Raised m => Throw m
        end)
    | Failed _ => Ret (not_started label
                         (str "postmaster could not register the worker -- check max_worker_processes"))
    | Raised m => Throw m
    end).

Definition native_start_dynamic_workers (MyProcPid : Z) : prog json :=
  let* preload := preload_setting in
  if preloaded preload then Ret ALREADY_PRELOADED
  else
    let* n := spi_get_i64 RUNNING_WORKERS [] in
    if (0 <? default 0 (ok_flatten n))%Z then Ret ALREADY_RUNNING
    else
      let* r1 := start_worker (str "allgres runtime") (set_notify_pid runtime_worker_builder MyProcPid) in
      let* r2 := start_worker (str "allgres web") (set_notify_pid web_worker_builder MyProcPid) in
      Ret (jobj [(str "ok", JBool true); (str "already_running", JBool false);
                 (str "results", JArr [r1; r2])]).

(** ** Host metrics *)

(** The three numbers of [/proc/loadavg]. *)
Definition load_stats (s : bytes) : option json :=
  match split_whitespace s with
  | a :: b :: c :: _ =>
    match parse_f64 a, parse_f64 b, parse_f64 c with
    | Some one, Some five, Some fifteen =>
      Some (jobj [(str "load1", jfloat one); (str "load5", jfloat five); (str "load15", jfloat fifteen)])
    | _, _, _ => None
    end
  | _ => None
  end.

(** One line of [/proc/meminfo]. *)
Definition meminfo_entry (line : bytes) : option (bytes * Z) :=
  match split_once ":"%byte line with
  | None => None
  | Some (key, rest) =>
    match split_whitespace (trim rest) with
    | [] => None
    | w :: _ => match parse_usize w with Some n => Some (key, n) | None => None end
    end
  end.

(** The [for] loop over the lines. *)
Fixpoint meminfo_map (kv : gmap bytes Z) (ls : list bytes) : option (gmap bytes Z) :=
  match ls with
  | [] => Some kv
  | line :: rest =>
    match meminfo_entry line with
    | None => None
    | Some (key, n) => meminfo_map (<[key := n]> kv) rest
    end
  end.

(** [total_kb.saturating_sub(avail_kb)] *)
Definition used_kb (total avail : Z) : Z := Z.max 0 (total - avail).

Definition used_pct (total avail : Z) : f64 :=
  if (0 <? total)%Z
  then f64_mul (f64_div (f64_of_u64 (used_kb total avail)) (f64_of_u64 total)) (f64_of_decimal false 100 0)
  else f64_of_decimal false 0 0.

Definition memory_json (total avail : Z) : json :=
  jobj [(str "total_mb", JInt (total / 1024)); (str "used_mb", JInt (used_kb total avail / 1024));
        (str "available_mb", JInt (avail / 1024)); (str "used_pct", jfloat (used_pct total avail))].

Definition memory_stats (s : bytes) : option json :=
  match meminfo_map ∅ (lines s) with
  | None => None
  | Some kv =>
    match kv !! str "MemTotal", kv !! str "MemAvailable" with
    | Some total, Some avail => Some (memory_json total avail)
    | _, _ => None
    end
  end.

(** The contents of the two files, where they could be read as text, and
    [available_parallelism]. *)
Definition native_host_stats (loadavg meminfo : option bytes) (cpus : option Z) : json :=
  jobj [(str "load", default JNull (loadavg ≫= load_stats));
        (str "memory", default JNull (meminfo ≫= memory_stats));
        (str "cpu_count", JInt (default 0%Z cpus))].

(** ** Who starts the workers *)

#[local] Arguments str : simpl never.

(** The workers a run registers from a session, in order. *)
Definition registered (t : trace) : list BackgroundWorkerBuilder :=
  omap (fun cr => match cr.1 with LoadDynamicWorker b => Some b | _ => None end) t.

#[local] Arguments registered : simpl never.

(** The replies that say the workers are the postmaster's, or are running. *)
Definition says_preloaded (r : reply) : Prop := exists s, r = Done (Some (DText s)) /\ preloaded s = true.
Definition says_running (r : reply) : Prop := exists n, r = Done (Some (DInt n)) /\ (0 < n)%Z.

(** What the start of one worker registers, and that it says which worker it was. *)
Lemma start_worker_run db h label b :
  registered (run db h (start_worker label b)).1 = [b]
  /\ forall v, (run db h (start_worker label b)).2 = Returned v -> get_str v (str "worker") = Some label.
Proof.
  simpl. destruct (db h (LoadDynamicWorker b)) as [v|e|m]; simpl.
  - destruct (db _ (WaitForStartup label)) as [v'|e|m]; simpl; split; try done; by intros ? [= <-].
  - split; [done|]. by intros ? [= <-].
  - done.
Qed.

Lemma registered_app t t' : registered (t ++ t') = registered t ++ registered t'.
Proof. apply omap_app. Qed.

(** The loop registers both, or stops at an ERROR from the first. *)
Lemma start_both_run db h b1 b2 (f : json -> json -> json) :
  registered (run db h (let* r1 := start_worker (str "allgres runtime") b1 in
                        let* r2 := start_worker (str "allgres web") b2 in Ret (f r1 r2))).1
  `prefix_of` [b1; b2].
Proof.
  rewrite run_bind. pose proof (proj1 (start_worker_run db h (str "allgres runtime") b1)) as H1.
  destruct (run db h (start_worker _ b1)) as [t1 [r1|m]]; cbn [fst] in *; [|rewrite H1; by exists [b2]].
  rewrite run_bind. pose proof (proj1 (start_worker_run db (h ++ t1) (str "allgres web") b2)) as H2.
  destruct (run db (h ++ t1) (start_worker _ b2)) as [t2 [r2|m]]; cbn [fst run] in *;
    rewrite ?app_nil_r, registered_app, H1, H2; by exists [].
Qed.

(** A query for one value: one call, and an ERROR or the value it yields. *)
Lemma run_get_i64 db h sql args :
  exists o, run db h (spi_get_i64 sql args) = ([(Spi sql args, db h (Spi sql args))], o)
  /\ ((exists m, o = Raising m)
      \/ exists n, o = Returned n
         /\ forall z, db h (Spi sql args) = Done (Some (DInt z)) <-> ok_flatten n = Some z).
Proof.
  simpl. destruct (db h (Spi sql args)) as [[[]|]| |]; simpl; eexists; (split; [done|]);
    first [by left; eexists | right; eexists; split; [done|]; naive_solver].
Qed.

Lemma run_get_text db h sql args :
  exists o, run db h (spi_get_text sql args) = ([(Spi sql args, db h (Spi sql args))], o)
  /\ ((exists m, o = Raising m)
      \/ exists n, o = Returned n
         /\ forall s, db h (Spi sql args) = Done (Some (DText s)) <-> ok_flatten n = Some s).
Proof.
  simpl. destruct (db h (Spi sql args)) as [[[]|]| |]; simpl; eexists; (split; [done|]);
    first [by left; eexists | right; eexists; split; [done|]; naive_solver].
Qed.

(** The part behind the preload check. *)
Definition start_unless_running (pid : Z) : prog json :=
  let* n := spi_get_i64 RUNNING_WORKERS [] in
  if (0 <? default 0 (ok_flatten n))%Z then Ret ALREADY_RUNNING
  else
    let* r1 := start_worker (str "allgres runtime") (set_notify_pid runtime_worker_builder pid) in
    let* r2 := start_worker (str "allgres web") (set_notify_pid web_worker_builder pid) in
    Ret (jobj [(str "ok", JBool true); (str "already_running", JBool false);
               (str "results", JArr [r1; r2])]).

Definition both_workers (pid : Z) : list BackgroundWorkerBuilder :=
  [set_notify_pid runtime_worker_builder pid; set_notify_pid web_worker_builder pid].

Lemma start_unless_running_run db h pid :
  let t := (run db h (start_unless_running pid)).1 in
  registered t `prefix_of` both_workers pid
  /\ (registered t <> [] -> exists r1 rest,
        t = (Spi RUNNING_WORKERS [], r1) :: rest /\ ~ says_running r1).
Proof.
  intros t. subst t. unfold start_unless_running.
  pose proof (fun h' f => start_both_run db h' (set_notify_pid runtime_worker_builder pid)
    (set_notify_pid web_worker_builder pid) f) as Hb.
  rewrite run_bind.
  destruct (run_get_i64 db h RUNNING_WORKERS []) as (o & -> & [[m ->]|(n & -> & Hn)]).
  { split; [by exists (both_workers pid)|done]. }
  destruct (0 <? default 0 (ok_flatten n))%Z eqn:Hlt; breflect.
  { split; [by exists (both_workers pid)|done]. }
  specialize (Hb (h ++ [(Spi RUNNING_WORKERS [], db h (Spi RUNNING_WORKERS []))])
    (fun r1 r2 => jobj [(str "ok", JBool true); (str "already_running", JBool false);
                        (str "results", JArr [r1; r2])])).
  destruct (run db _ _) as [t o]. split; [exact Hb|]. intros _. do 2 eexists. split; [done|].
  intros (z & Hz & ?). apply Hn in Hz. rewrite Hz in Hlt. simpl in Hlt. lia.
Qed.

(** A session starts the workers once, and never the postmaster's.  Whatever the
    server replies, [native_start_dynamic_workers] registers the runtime worker and
    then the web worker, each at most once and with the session's pid to notify, and
    it registers nothing at all where the preload setting lists the extension or a
    runtime worker is already running. *)
Theorem dynamic_start_once db h pid :
  let t := (run db h (native_start_dynamic_workers pid)).1 in
  registered t `prefix_of` [set_notify_pid runtime_worker_builder pid; set_notify_pid web_worker_builder pid]
  /\ (registered t <> [] -> exists r0 r1 rest,
        t = (Spi PRELOAD_SETTING [], r0) :: (Spi RUNNING_WORKERS [], r1) :: rest
        /\ ~ says_preloaded r0 /\ ~ says_running r1).
Proof.
  intros t. subst t. unfold native_start_dynamic_workers, preload_setting.
  fold (start_unless_running pid). fold (both_workers pid). rewrite !run_bind.
  destruct (run_get_text db h PRELOAD_SETTING []) as (o & -> & [[m ->]|(n & -> & Hn)]).
  { split; [by exists (both_workers pid)|done]. }
  cbn [run]. rewrite app_nil_r. destruct (preloaded _) eqn:Hp.
  { split; [by exists (both_workers pid)|done]. }
  set (h' := h ++ _). destruct (start_unless_running_run db h' pid) as [H1 H2].
  destruct (run db h' (start_unless_running pid)) as [t o]. split; [exact H1|]. intros Hne.
  destruct (H2 Hne) as (r1 & rest & Ht & Hr). cbn [fst] in Ht. subst t.
  do 3 eexists. split; [done|]. split; [|done].
  intros (s & Hs & Hps). apply Hn in Hs. rewrite Hs in Hp. simpl in Hp. congruence.
Qed.

(** A session on a server where neither holds starts both. *)
Example dynamic_start_starts_both :
  let db : server := fun _ c => match c with
    | Spi sql _ => Done (Some (if sql == PRELOAD_SETTING then DText (str "pg_stat_statements") else DInt 0))
    | WaitForStartup _ => Done (Some (DInt 4711))
    | _ => Done None end in
  registered (run db [] (native_start_dynamic_workers 99)).1 = both_workers 99
  /\ registered (run (fun _ _ => Done (Some (DText (str "x, allgres")))) [] (native_start_dynamic_workers 99)).1 = [].
Proof. vm_compute. split; reflexivity. Qed.

(** ** Reading the preload setting *)

(** A library name in the setting, with blanks around it. *)
Definition padded (item : nat * bytes * nat) : bytes :=
  let '(l, w, r) := item in repeat x20 l ++ w ++ repeat x20 r.

Fixpoint comma_list (items : list bytes) : bytes :=
  match items with
  | [] => []
  | [x] => x
  | x :: rest => x ++ ","%byte :: comma_list rest
  end.

Lemma drop_spaces n s : drop_while ascii_space (repeat x20 n ++ s) = drop_while ascii_space s.
Proof. induction n; [done|]. simpl. done. Qed.

Lemma word_drop w s : word w = true -> drop_while ascii_space (w ++ s) = w ++ s.
Proof.
  unfold word. destruct w as [|b w]; [done|]. simpl. intros [Hb _]%andb_true_iff.
  by rewrite graphic_not_space.
Qed.

Lemma word_rev w : word w = true -> word (rev w) = true.
Proof.
  unfold word. intros [Hn Hg]%andb_true_iff. apply andb_true_iff. split.
  - destruct w as [|b w]; [done|]. simpl. by destruct (rev w).
  - apply forallb_forall. intros b Hb. apply in_rev in Hb. by eapply forallb_forall in Hg.
Qed.

Lemma trim_padded l w r : word w = true -> trim (padded (l, w, r)) = w.
Proof.
  intros Hw. unfold padded. rewrite trim_ascii.
  - rewrite drop_spaces, word_drop by done.
    rewrite rev_app_distr, rev_repeat, drop_spaces, <- (app_nil_r (rev w)), word_drop by (by apply word_rev).
    by rewrite app_nil_r, rev_involutive.
  - assert (forall n, ascii_str (repeat x20 n)) as Hs by (intros n; apply list.Forall_forall; intros x;
      rewrite list_elem_of_In; intros ->%repeat_spec; done).
    apply Forall_app. split; [done|]. apply Forall_app. split; [by apply word_ascii|done].
Qed.

Lemma padded_no_comma l w r : ","%byte ∉ w -> ","%byte ∉ padded (l, w, r).
Proof.
  intros Hw. unfold padded. rewrite !not_elem_of_app, !list_elem_of_In.
  split_and!; [|by rewrite <- list_elem_of_In|]; by intros ?%repeat_spec.
Qed.

(** The setting is read as PostgreSQL writes it: [preloaded] holds exactly when one of
    the names of the comma-separated list, blanks aside, is the extension's. *)
Theorem preloaded_spec items :
  Forall (fun i => word i.1.2 = true /\ (","%byte ∉ i.1.2)) items ->
  preloaded (comma_list (map padded items)) = true <-> str "allgres" ∈ map (fun i => i.1.2) items.
Proof.
  intros Hi. unfold preloaded.
  assert (existsb (fun x => trim x == str "allgres") (split_on ","%byte (comma_list (map padded items)))
          = existsb (fun w => w == str "allgres") (map (fun i => i.1.2) items)) as ->.
  { induction Hi as [|[[l w] r] items [Hw Hc] Hi IH]; [reflexivity|]. cbn [map fst snd] in *.
    destruct items as [|i items].
    - cbn [comma_list map]. rewrite split_on_none by (by apply padded_no_comma).
      cbn [existsb]. by rewrite trim_padded.
    - cbn [map] in *. change (comma_list (padded (l, w, r) :: padded i :: map padded items))
        with (padded (l, w, r) ++ ","%byte :: comma_list (padded i :: map padded items)).
      rewrite split_on_app by (by apply padded_no_comma). cbn [existsb].
      rewrite trim_padded by done. cbn [existsb] in IH. by rewrite IH. }
  rewrite existsb_exists. setoid_rewrite <- list_elem_of_In.
  setoid_rewrite bool_decide_eq_true. naive_solver.
Qed.

(** ** Reading [/proc/meminfo] *)

(** One line as the kernel prints it: the key, blanks, the number, the unit. *)
Definition meminfo_line (e : bytes * nat * Z) : bytes :=
  let '(key, pad, n) := e in
  key ++ ":"%byte :: repeat x20 pad ++ format_radix 10 n ++ str " kB".

Definition meminfo_text (es : list (bytes * nat * Z)) : bytes :=
  concat (map (fun e => meminfo_line e ++ [x0a]) es).

Definition wf_entry (e : bytes * nat * Z) : Prop :=
  (":"%byte ∉ e.1.1) /\ (x0a ∉ e.1.1) /\ (0 <= e.2 <= usize_max)%Z.

Lemma format_word n : word (format_radix 10 n) = true.
Proof.
  unfold word. apply andb_true_iff. split.
  - pose proof (format_radix_nonempty 10 n). by destruct (format_radix 10 n).
  - apply forallb_Forall. eapply Forall_impl; [|apply (format_radix_alnum 10 n); lia].
    intros b Hb. destruct b; vm_compute in Hb |- *; congruence.
Qed.

Lemma meminfo_entry_line e : wf_entry e -> meminfo_entry (meminfo_line e) = Some (e.1.1, e.2).
Proof.
  destruct e as [[key pad] n]. unfold wf_entry. cbn [fst snd]. intros (Hk & _ & Hn).
  unfold meminfo_entry, meminfo_line.
  rewrite (proj2 (split_once_Some ":"%byte _ key _) (conj eq_refl Hk)).
  assert (trim (repeat x20 pad ++ format_radix 10 n ++ str " kB") = format_radix 10 n ++ str " kB") as ->.
  { pose proof (format_word n) as Hw. pose proof (word_ascii _ Hw) as Ha. rewrite trim_ascii.
    - rewrite drop_spaces, word_drop by done. rewrite rev_app_distr. simpl.
      rewrite rev_involutive, <- !app_assoc. done.
    - apply Forall_app. split; [|apply Forall_app; split; [done|by repeat constructor]].
      apply list.Forall_forall. intros x. by rewrite list_elem_of_In; intros ->%repeat_spec. }
  change (str " kB") with (x20 :: str "kB"). rewrite split_whitespace_word by (done || apply format_word).
  unfold parse_usize. by rewrite parse_format.
Qed.

Lemma meminfo_line_lf e r :
  wf_entry e -> lines ((meminfo_line e ++ [x0a]) ++ r) = meminfo_line e :: lines r.
Proof.
  destruct e as [[key pad] n]. unfold wf_entry. cbn [fst snd]. intros (_ & Hk & _).
  rewrite <- app_assoc. cbn [app]. apply lines_lf.
  - unfold meminfo_line. rewrite not_elem_of_app, not_elem_of_cons, !not_elem_of_app.
    split_and!; [done|done|by rewrite list_elem_of_In; intros ?%repeat_spec| |].
    + intros Hin%list_elem_of_In. pose proof (format_radix_alnum 10 n ltac:(lia)) as Ha.
      eapply List.Forall_forall in Ha; [|exact Hin]. done.
    + by apply (bool_decide_eq_false_1 (x0a ∈ str " kB")).
  - unfold meminfo_line. rewrite app_comm_cons, !app_assoc.
    unfold strip_suffix. rewrite rev_app_distr. reflexivity.
Qed.

(** [/proc/meminfo] is read back: from the text of any list of entries the memory
    section takes the last value of [MemTotal] and of [MemAvailable], and is absent
    exactly when one of them is. *)
Theorem memory_stats_roundtrip es :
  Forall wf_entry es ->
  let kv := fold_left (fun m e => <[e.1.1 := e.2]> m) es (∅ : gmap bytes Z) in
  memory_stats (meminfo_text es) =
  match kv !! str "MemTotal", kv !! str "MemAvailable" with
  | Some total, Some avail => Some (memory_json total avail)
  | _, _ => None
  end.
Proof.
  intros Hes kv. subst kv. unfold memory_stats.
  assert (forall m, meminfo_map m (lines (meminfo_text es))
                    = Some (fold_left (fun m e => <[e.1.1 := e.2]> m) es m)) as ->; [|done].
  induction Hes as [|e es He Hes IH]; intros m; [done|].
  unfold meminfo_text. cbn [map concat]. rewrite meminfo_line_lf by done.
  cbn [meminfo_map]. rewrite meminfo_entry_line by done. apply IH.
Qed.

Lemma used_kb_bounds total avail :
  (0 <= avail)%Z -> (0 <= total)%Z ->
  (0 <= used_kb total avail <= total)%Z /\ (avail <= total -> used_kb total avail + avail = total)%Z.
Proof. unfold used_kb. lia. Qed.

(** Half of 8 GB in use, with the fields in another order and one that is ignored. *)
Example host_stats_sample :
  native_host_stats (Some (str "0.52 0.58 0.59 1/389 12345"))
    (Some (meminfo_text [(str "MemAvailable", 2%nat, 4194304%Z); (str "Buffers", 9%nat, 17%Z);
                         (str "MemTotal", 1%nat, 8388608%Z)])) (Some 8%Z)
  = jobj [(str "load", jobj [(str "load1", JFloat (f64_of_decimal false 52 (-2)));
                             (str "load5", JFloat (f64_of_decimal false 58 (-2)));
                             (str "load15", JFloat (f64_of_decimal false 59 (-2)))]);
          (str "memory", jobj [(str "total_mb", JInt 8192); (str "used_mb", JInt 4096);
                               (str "available_mb", JInt 4096);
                               (str "used_pct", JFloat (f64_of_decimal false 50 0))]);
          (str "cpu_count", JInt 8)].
Proof. vm_compute. reflexivity. Qed.
