(* ===== verification/HttpProtocol.v ===== *)
(** * [src/http_protocol.rs]: the web worker's own HTTP/1.1 reader

    Request parsing, form decoding and the read loop of one connection.  The
    loop is modelled over the sequence of what the clock and the socket deliver
    ([tick]s): every iteration of the source's [loop] consumes one. *)

From S2P Require Import Prelude Utf8 RustStr Net.

(** [src/lib.rs] constants (bytes; nanoseconds). *)
Definition MAX_REQUEST_BYTES : Z := Z.shiftl 1 20.
Definition REQUEST_DEADLINE : Z := 5000000000.

(** ** Requests *)

Record HttpRequest := mk_request {
  method : bytes;
  path : bytes;
  headers : list (bytes * bytes);
  body : bytes
}.

#[export] Instance HttpRequest_eq_dec : EqDecision HttpRequest.
Proof. solve_decision. Defined.

(** [self.path.split('?').next().unwrap_or(&self.path)] *)
Definition route (r : HttpRequest) : bytes :=
  match split_on "?"%byte (path r) with
  | h :: _ => h
  | [] => path r
  end.

Definition query (r : HttpRequest) : bytes :=
  match split_once "?"%byte (path r) with
  | Some (_, q) => q
  | None => []
  end.

Definition header (r : HttpRequest) (name : bytes) : option bytes :=
  snd <$> find_first (fun kv => eq_ignore_ascii_case (fst kv) name) (headers r).

(** ** Parsing *)

Definition CRLFCRLF : bytes := [x0d; x0a; x0d; x0a].

(** [data.windows(4).position(|w| w == b"\r\n\r\n")] *)
Definition head_position (data : bytes) : option nat := find_sub CRLFCRLF data.

Definition parse_header_line (l : bytes) : option (bytes * bytes) :=
  match split_once ":"%byte l with
  | Some (k, v) => Some (to_ascii_lowercase (trim k), trim v)
  | None => None
  end.

Definition parse_http_request (data : bytes) : option HttpRequest :=
  match head_position data with
  | None => None
  | Some p =>
    let split := (p + 4)%nat in
    let head := from_utf8_lossy (take split data) in
    match lines head with
    | [] => None
    | l0 :: ls =>
      match split_whitespace l0 with
      | m :: pa :: _ =>
        Some {| method := m; path := pa;
                headers := filter_map parse_header_line ls;
                body := from_utf8_lossy (drop split data) |}
      | _ => None
      end
    end
  end.

(** [for line in head.lines() { ... return v.trim().parse().unwrap_or(0) } 0] *)
Fixpoint content_length_lines (ls : list bytes) : Z :=
  match ls with
  | [] => 0
  | l :: ls' =>
    match split_once ":"%byte l with
    | Some (k, v) =>
      if eq_ignore_ascii_case k (str "content-length") then default 0%Z (parse_usize (trim v))
      else content_length_lines ls'
    | None => content_length_lines ls'
    end
  end.

Definition content_length (data : bytes) (header_end : nat) : Z :=
  content_length_lines (lines (from_utf8_lossy (take header_end data))).

(** ** Form bodies *)

(** [u8::from_str_radix(h, 16)] on the two bytes after a percent sign, when they
    are UTF-8, as a byte. *)
Definition hex_pair (h l : byte) : option byte :=
  if utf8_valid [h; l] then
    match from_str_radix 16 u8_max [h; l] with
    | Some v => Byte.of_N (Z.to_N v)
    | None => None
    end
  else None.

(** The [while] loop of the local function [decode]: the bytes it pushes. *)
Fixpoint decode_loop (s : bytes) : bytes :=
  match s with
  | [] => []
  | b :: r =>
    if b == "+"%byte then x20 :: decode_loop r
    else if b == "%"%byte then
      match r with
      | h :: (l :: r2) =>
        match hex_pair h l with
        | Some d => d :: decode_loop r2
        | None => b :: decode_loop r
        end
      | _ => b :: decode_loop r
      end
    else b :: decode_loop r
  end.

Definition decode (s : bytes) : bytes := from_utf8_lossy (decode_loop s).

(** The [HashMap] collected from the pairs: a later pair overwrites. *)
Definition parse_form_body (b : bytes) : gmap bytes bytes :=
  foldl (fun m kv => <[decode (fst kv) := decode (snd kv)]> m) ∅
        (filter_map (split_once "="%byte) (split_on "&"%byte b)).

(** ** The read loop *)

(** What one [stream.read(&mut buf)] returns; zero bytes is end of stream. *)
Inductive read_result :=
| ReadErr
| ReadOk (bs : bytes).

(** One iteration: the clock at its top, what the read delivers, and when it does (which
    the loop does not look at). *)
Record tick := mk_tick { t_now : Z; t_read : read_result; t_done : Z }.

(** [stream.set_read_timeout(Some(Duration::from_secs(2)))]: how long a read may block. *)
Definition READ_TIMEOUT : Z := from_secs 2.

(** The value of the function, or that it is still waiting for the socket. *)
Inductive read_outcome :=
| Returned (r : option HttpRequest)
| Waiting.

(** The loop's locals. *)
Record reader := mk_reader {
  data : bytes;
  header_end : option nat;
  want : Z
}.

(** [usize] addition as a release build performs it. *)
Definition usize_add (a b : Z) : Z := (a + b) mod 2 ^ 64.

(** The body of the loop after a read of [bs] bytes, up to its [break]s: the
    new locals, or the value to return. *)
Definition read_step (st : reader) (bs : bytes) : reader + option HttpRequest :=
  let data' := data st ++ bs in
  if (MAX_REQUEST_BYTES <? Z.of_nat (length data'))%Z then inr None
  else
    let st' :=
      match header_end st with
      | Some _ => {| data := data'; header_end := header_end st; want := want st |}
      | None =>
        match head_position data' with
        | Some p => {| data := data'; header_end := Some (p + 4)%nat;
                       want := content_length data' (p + 4) |}
        | None => {| data := data'; header_end := None; want := want st |}
        end
      end in
    match header_end st' with
    | Some h =>
      if (usize_add (Z.of_nat h) (want st') <=? Z.of_nat (length data'))%Z
      then inr (parse_http_request data')
      else inl st'
    | None => inl st'
    end.

Fixpoint read_loop (deadline : Z) (st : reader) (ticks : list tick) : read_outcome :=
  match ticks with
  | [] => Waiting
  | t :: ts =>
    if (deadline <? t_now t)%Z then Returned None
    else match t_read t with
         | ReadErr => Returned None
         | ReadOk [] => Returned (parse_http_request (data st))
         | ReadOk bs =>
           match read_step st bs with
           | inl st' => read_loop deadline st' ts
           | inr v => Returned v
           end
         end
  end.

Definition reader_init : reader := {| data := []; header_end := None; want := 0 |}.

Definition read_http_request (now : Z) (ticks : list tick) : read_outcome :=
  read_loop (now + REQUEST_DEADLINE) reader_init ticks.

(** ** Lemmas: the end of the head *)

Definition CRLF : bytes := [x0d; x0a].
#[global] Arguments CRLF : simpl never.

(** A line of a request's head: nonempty, without CR and LF. *)
Definition text_line (l : bytes) : Prop :=
  l <> [] /\ Forall (fun b => b <> x0d /\ b <> x0a) l.

Lemma head_position_skip l r :
  Forall (fun b => b <> x0d /\ b <> x0a) l ->
  head_position (l ++ r) = (fun p => (length l + p)%nat) <$> head_position r.
Proof.
  unfold head_position. induction 1 as [|b l [Hb _] _ IH]; simpl.
  { by destruct (find_sub CRLFCRLF r). }
  rewrite bool_decide_eq_false_2 by congruence. simpl. rewrite IH.
  by destruct (find_sub CRLFCRLF r).
Qed.

Lemma head_position_crlf l r :
  text_line l ->
  head_position (CRLF ++ l ++ r) = (fun p => (2 + p)%nat) <$> head_position (l ++ r).
Proof.
  intros [Hne Hl]. destruct l as [|b l]; [done|]. inversion Hl as [|? ? [Hb _] _]; subst.
  unfold head_position, CRLF, CRLFCRLF. simpl.
  repeat (rewrite ?(bool_decide_eq_false_2 (x0d = b)) by congruence; simpl).
  by destruct (find_sub _ (l ++ r)).
Qed.

Abbreviation head_text ls := (concat (map (fun l => l ++ CRLF) ls)).

(** The blank line that ends a head is found where the head ends. *)
Lemma head_position_text ls t :
  ls <> [] -> Forall text_line ls ->
  exists p, head_position (head_text ls ++ CRLF ++ t) = Some p
            /\ (p + 4)%nat = length (head_text ls ++ CRLF).
Proof.
  intros Hne Hls. induction Hls as [|l ls Hl Hls IH]; [done|].
  cbn [map concat]. rewrite <- !app_assoc. rewrite head_position_skip by apply Hl.
  destruct ls as [|l' ls].
  - exists (length l). split; [simpl; f_equal; lia|].
    rewrite !length_app. simpl. lia.
  - destruct IH as (p & Hp & Hlen); [done|]. inversion Hls; subst.
    cbn [map concat] in *. rewrite <- !app_assoc in *.
    rewrite head_position_crlf by done. rewrite Hp. exists (length l + (2 + p))%nat.
    split; [done|]. rewrite !length_app in *. simpl in *. lia.
Qed.

Lemma lines_head_text ls :
  Forall text_line ls -> lines (head_text ls ++ CRLF) = ls ++ [[]].
Proof.
  induction 1 as [|l ls [_ Hl] Hls IH]; simpl; [done|]. rewrite <- !app_assoc. simpl.
  rewrite lines_crlf; [by rewrite IH|].
  intros Hin. eapply Forall_forall in Hl; [|by apply list_elem_of_In]. by destruct Hl.
Qed.

Lemma text_line_ascii_graphic l :
  l <> [] -> Forall (fun b => in_range 32 126 b = true) l -> text_line l.
Proof.
  intros Hne Hl. split; [done|]. eapply Forall_impl; [|exact Hl].
  intros b Hb%in_range_spec. split; intros ->.
  - change (u8 x0d) with 13%Z in Hb. lia.
  - change (u8 x0a) with 10%Z in Hb. lia.
Qed.

(** ** Requests and their text *)

Definition render_header (kv : bytes * bytes) : bytes := fst kv ++ str ": " ++ snd kv.

(** The text of a request, as a client sends it. *)
Definition render_request (r : HttpRequest) : bytes :=
  head_text ((method r ++ str " " ++ path r ++ str " HTTP/1.1") :: map render_header (headers r))
  ++ CRLF ++ body r.

Definition printable (b : byte) : bool := in_range 32 126 b.

(** A header that is one line, whatever the case of its name. *)
Definition wire_header (kv : bytes * bytes) : bool :=
  word (fst kv) && forallb (fun b => b != ":"%byte) (fst kv)
  && forallb printable (snd kv) && trimmed (snd kv).

Definition wf_header (kv : bytes * bytes) : bool :=
  wire_header kv && (to_ascii_lowercase (fst kv) == fst kv).

Definition wf_request (r : HttpRequest) : bool :=
  word (method r) && word (path r) && forallb wf_header (headers r) && utf8_valid (body r).

Lemma printable_ascii b : printable b = true -> is_ascii b = true.
Proof. unfold printable, is_ascii. rewrite in_range_spec, Z.ltb_lt. lia. Qed.

Lemma printable_ascii_str s : Forall (fun b => printable b = true) s -> ascii_str s.
Proof. apply Forall_impl. apply printable_ascii. Qed.

Lemma graphic_printable b : is_graphic b = true -> printable b = true.
Proof. unfold is_graphic, printable. rewrite !in_range_spec. lia. Qed.

Lemma word_printable w : word w = true -> w <> [] /\ Forall (fun b => printable b = true) w.
Proof.
  unfold word. intros H. breflect. split; [by destruct w|].
  eapply Forall_impl; [apply graphic_printable|by apply forallb_Forall].
Qed.

Lemma word_trimmed w : word w = true -> trimmed w = true.
Proof.
  unfold word, trimmed. intros H. breflect. apply forallb_Forall in H0.
  assert (forall l, Forall (fun b => is_graphic b = true) l ->
            match l with [] => true | b :: _ => negb (ascii_space b) end = true) as Hh.
  { destruct 1 as [|b l Hb _]; [done|]. by rewrite graphic_not_space. }
  rewrite (Hh w) by done. rewrite Hh; [done|]. by apply Forall_rev.
Qed.

Lemma wire_header_printable kv :
  wire_header kv = true -> Forall (fun b => printable b = true) (render_header kv).
Proof.
  unfold wire_header. intros H. breflect. apply word_printable in H as [_ Hw].
  unfold render_header. apply Forall_app. split; [done|].
  apply Forall_app. split; [by repeat constructor|]. by apply forallb_Forall.
Qed.

Lemma wire_header_text kv : wire_header kv = true -> text_line (render_header kv).
Proof.
  intros H. apply text_line_ascii_graphic; [|by apply wire_header_printable].
  unfold wire_header in H. breflect. apply word_printable in H as [Hne _].
  unfold render_header. by destruct (fst kv).
Qed.

(** A header is read back with its name in lower case. *)
Lemma parse_wire_header kv :
  wire_header kv = true ->
  split_once ":"%byte (render_header kv) = Some (fst kv, x20 :: snd kv)
  /\ trim (x20 :: snd kv) = snd kv
  /\ parse_header_line (render_header kv) = Some (to_ascii_lowercase (fst kv), snd kv).
Proof.
  destruct kv as [k v]. unfold wire_header, render_header, parse_header_line. simpl fst. simpl snd.
  intros H. breflect.
  assert (split_once ":"%byte (k ++ str ": " ++ v) = Some (k, x20 :: v)) as ->.
  { apply split_once_Some. split; [done|]. intros Hin. apply forallb_Forall in H2.
    eapply Forall_forall in H2; [|by apply list_elem_of_In]. by rewrite bool_decide_eq_true_2 in H2. }
  assert (ascii_str v) as Hv by (apply printable_ascii_str; by apply forallb_Forall).
  rewrite trim_leading_space, (trim_trimmed v) by done.
  rewrite trim_trimmed; [done|by apply word_ascii|by apply word_trimmed].
Qed.

Lemma parse_header_render kv : wf_header kv = true -> parse_header_line (render_header kv) = Some kv.
Proof.
  unfold wf_header. intros H. breflect. destruct (parse_wire_header kv) as (_ & _ & ->); [done|].
  destruct kv as [k v]. simpl in *. congruence.
Qed.

(** C17: a well-formed request (method and path without white space, lower-case
    header names without a colon, printable header values without surrounding
    white space, UTF-8 body) is read back from its HTTP/1.1 text unchanged. *)
Theorem parse_render_request r :
  wf_request r = true -> parse_http_request (render_request r) = Some r.
Proof.
  intros Hwf. unfold wf_request in Hwf. breflect.
  pose proof (word_printable _ H) as [Hm Hmp]. pose proof (word_printable _ H2) as [_ Hpp].
  set (l0 := method r ++ str " " ++ path r ++ str " HTTP/1.1").
  assert (Forall (fun b => in_range 32 126 b = true) l0) as Hl0p.
  { unfold l0. repeat (apply Forall_app; split); done || by repeat constructor. }
  assert (text_line l0) as Hl0.
  { apply text_line_ascii_graphic; [|done]. unfold l0. by destruct (method r). }
  set (ls := l0 :: map render_header (headers r)).
  assert (Forall text_line ls) as Hls.
  { constructor; [done|]. apply Forall_map. eapply Forall_impl; [|by apply forallb_Forall].
    intros kv Hkv. unfold wf_header in Hkv. breflect. by apply wire_header_text. }
  destruct (head_position_text ls (body r)) as (p & Hp & Hlen); [done..|].
  unfold parse_http_request, render_request. fold l0 ls. rewrite Hp. cbv zeta. rewrite Hlen, app_assoc.
  rewrite take_app_length, drop_app_length.
  rewrite (from_utf8_lossy_valid_eq (head_text ls ++ CRLF)).
  - rewrite lines_head_text by done. unfold ls. cbn [app].
    unfold l0. cbn [str]. change (str " ") with [x20]. cbn [app].
    rewrite split_whitespace_word; [|done|].
    + change (str " HTTP/1.1") with (x20 :: str "HTTP/1.1").
      rewrite split_whitespace_word; [|done|by vm_compute].
      rewrite from_utf8_lossy_valid_eq by done. destruct r as [m pa hs b]. simpl in *. do 2 f_equal.
      unfold filter_map. rewrite omap_app. simpl. rewrite app_nil_r.
      clear -H1. induction hs as [|kv hs IH]; simpl in *; [done|]. breflect.
      rewrite parse_header_render by done. f_equal. by apply IH.
    + apply utf8_valid_app_2; [|by vm_compute]. by apply utf8_valid_ascii, word_ascii.
  - apply utf8_valid_ascii, Forall_app. split; [|by repeat constructor].
    apply Forall_concat, Forall_map. constructor.
    + apply Forall_app. split; [by apply printable_ascii_str|by repeat constructor].
    + apply Forall_map. eapply Forall_impl; [|by apply forallb_Forall].
      intros kv Hkv. unfold wf_header in Hkv. breflect.
      apply Forall_app. split; [|by repeat constructor]. by apply printable_ascii_str, wire_header_printable.
Qed.

Definition sample_request : HttpRequest :=
  mk_request (str "POST") (str "/api/v1/run?x=1")
    [(str "host", str "a:8088"); (str "content-length", str "2")] (str "{}").

Lemma parse_render_request_witness :
  parse_http_request (render_request sample_request) = Some sample_request.
Proof. apply (parse_render_request sample_request). vm_compute. reflexivity. Defined.

(** ** Lemmas: the read loop *)

(** The head of a prefix of the stream ends where the head of the stream ends. *)
Lemma head_position_prefix d t p :
  head_position d = Some p -> head_position (d ++ t) = Some p.
Proof.
  unfold head_position. intros H. destruct (find_sub_Some _ _ _ H) as ((u & Hu) & Hl & Hj).
  simpl length in Hl. apply find_sub_first.
  - rewrite drop_app_le by lia. apply starts_with_spec. rewrite Hu.
    rewrite drop_app_le; [|rewrite length_take; lia].
    rewrite drop_ge by (rewrite length_take; lia). simpl app. by exists (u ++ t).
  - intros j Hlt. specialize (Hj j Hlt). rewrite drop_app_le by lia.
    destruct (starts_with CRLFCRLF (drop j d ++ t)) eqn:Hs; [|done].
    apply starts_with_spec in Hs as [k Hk].
    assert (starts_with CRLFCRLF (drop j d) = true); [|congruence].
    apply starts_with_spec. exists (drop 4 (drop j d)).
    rewrite <- (take_drop 4 (drop j d)) at 1. f_equal.
    apply (f_equal (take 4)) in Hk. rewrite take_app_le in Hk; [exact Hk|].
    rewrite length_drop. lia.
Qed.

Lemma content_length_prefix d t h :
  (h <= length d)%nat -> content_length (d ++ t) h = content_length d h.
Proof. intros H. unfold content_length. by rewrite take_app_le. Qed.

Lemma content_length_lines_bound ls : (0 <= content_length_lines ls <= usize_max)%Z.
Proof.
  induction ls as [|l ls IH]; simpl; [unfold usize_max; lia|].
  repeat case_match; try done.
  destruct (parse_usize _) eqn:Hp; simpl; [by eapply parse_usize_bound|unfold usize_max; lia].
Qed.

(** The locals of the loop agree with the bytes read so far. *)
Definition reader_ok (st : reader) : Prop :=
  match header_end st with
  | None => head_position (data st) = None
  | Some h => exists p, head_position (data st) = Some p /\ h = (p + 4)%nat
                        /\ want st = content_length (data st) h
  end.

Lemma reader_init_ok : reader_ok reader_init.
Proof. done. Qed.

Lemma head_position_bound d p : head_position d = Some p -> (p + 4 <= length d)%nat.
Proof. intros H. by destruct (find_sub_Some _ _ _ H) as (_ & Hl & _). Qed.

(** One pass through the loop body, with its locals described by [reader_ok]. *)
Lemma read_step_spec st bs :
  reader_ok st ->
  let d := data st ++ bs in
  match read_step st bs with
  | inl st' => reader_ok st' /\ data st' = d /\ (Z.of_nat (length d) <= MAX_REQUEST_BYTES)%Z
  | inr None => (MAX_REQUEST_BYTES < Z.of_nat (length d))%Z \/ parse_http_request d = None
  | inr (Some r) => parse_http_request d = Some r /\ (Z.of_nat (length d) <= MAX_REQUEST_BYTES)%Z
  end /\
  ((Z.of_nat (length d) <= MAX_REQUEST_BYTES)%Z ->
   match head_position d with
   | None => exists st', read_step st bs = inl st'
   | Some p =>
     if (usize_add (Z.of_nat (p + 4)) (content_length d (p + 4)) <=? Z.of_nat (length d))%Z
     then read_step st bs = inr (parse_http_request d)
     else exists st', read_step st bs = inl st'
   end).
Proof.
  intros Hok. cbv zeta. unfold read_step. set (d := data st ++ bs).
  destruct (MAX_REQUEST_BYTES <? Z.of_nat (length d))%Z eqn:Hmax; breflect.
  { split; [by left|lia]. }
  unfold reader_ok in Hok. destruct (header_end st) as [h|] eqn:Hh; simpl.
  - destruct Hok as (p & Hp & -> & Hw).
    pose proof (head_position_prefix _ bs _ Hp) as Hd. fold d in Hd. rewrite Hd.
    pose proof (head_position_bound _ _ Hp) as Hb.
    rewrite Hw, <- (content_length_prefix _ bs) by done. fold d.
    destruct (_ <=? _)%Z.
    + split; [|done]. destruct (parse_http_request d); [done|by right].
    + split; [|by eauto]. split_and!; [|done|done]. unfold reader_ok. simpl. eauto.
  - destruct (head_position d) as [p|] eqn:Hd; simpl.
    + destruct (_ <=? _)%Z.
      * split; [|done]. destruct (parse_http_request d); [done|by right].
      * split; [|by eauto]. split_and!; [|done|done]. unfold reader_ok. simpl. eauto.
    + split; [|by eauto]. split_and!; done.
Qed.

(** The bytes an iteration received. *)
Definition tick_bytes (t : tick) : bytes :=
  match t_read t with ReadOk bs => bs | ReadErr => [] end.

(** The loop from any of its states, when what is left to arrive is exactly the
    rest of a request whose length its head announces. *)
Lemma read_loop_chunks deadline d p cs :
  head_position d = Some p ->
  Z.of_nat (length d) = (Z.of_nat (p + 4) + content_length d (p + 4))%Z ->
  (Z.of_nat (length d) <= MAX_REQUEST_BYTES)%Z ->
  Forall (fun c => c <> []) cs -> cs <> [] ->
  forall st ts rest,
    reader_ok st -> data st ++ concat cs = d ->
    Forall (fun t => (t_now t <= deadline)%Z) ts -> map t_read ts = map ReadOk cs ->
    read_loop deadline st (ts ++ rest) = Returned (parse_http_request d).
Proof.
  intros Hp Hlen Hmax Hcs. induction Hcs as [|c cs Hc Hcs IH]; [done|].
  intros _ st ts rest Hok Hd Htime Hts. destruct ts as [|t ts]; [done|]. simpl in Hts.
  injection Hts as Ht Hts. apply Forall_cons_iff in Htime as [Hnow Htime'].
  assert ((deadline <? t_now t)%Z = false) as Hnow' by (apply Z.ltb_ge; lia).
  cbn [app read_loop]. rewrite Hnow', Ht.
  destruct c as [|b c]; [done|]. set (c0 := b :: c) in *.
  pose proof (read_step_spec st c0 Hok) as [Hstep Hcase]. cbv zeta in Hstep, Hcase.
  change (concat (c0 :: cs)) with (c0 ++ concat cs) in Hd. rewrite app_assoc in Hd. set (d' := data st ++ c0) in *.
  destruct cs as [|c1 cs].
  { simpl in Hd. rewrite app_nil_r in Hd. rewrite Hd in Hcase.
    specialize (Hcase Hmax). rewrite Hp in Hcase.
    assert ((usize_add (Z.of_nat (p + 4)) (content_length d (p + 4))
             <=? Z.of_nat (length d))%Z = true) as Hle.
    { unfold usize_add. rewrite <- Hlen. apply Z.leb_le. rewrite Z.mod_small; [done|].
      change MAX_REQUEST_BYTES with 1048576%Z in Hmax. lia. }
    rewrite Hle in Hcase. by rewrite Hcase. }
  assert (length d' < length (d' ++ concat (c1 :: cs)))%nat as Hshort.
  { rewrite length_app. apply Forall_cons_iff in Hcs as [Hc1 _]. simpl. rewrite length_app.
    destruct c1; [done|]. simpl. lia. }
  rewrite Hd in Hshort. specialize (Hcase ltac:(lia)).
  assert (exists st', read_step st c0 = inl st') as [st' Hst'].
  { destruct (head_position d') as [p'|] eqn:Hp'; [|done].
    pose proof (head_position_prefix _ (concat (c1 :: cs)) _ Hp') as Hpp.
    rewrite Hd, Hp in Hpp. injection Hpp as <-.
    rewrite <- (content_length_prefix _ (concat (c1 :: cs))) in Hcase
      by (by apply head_position_bound).
    rewrite Hd in Hcase. unfold usize_add in Hcase. rewrite <- Hlen, Z.mod_small in Hcase.
    - destruct (Z.leb_spec (Z.of_nat (length d)) (Z.of_nat (length d'))); [lia|done].
    - change MAX_REQUEST_BYTES with 1048576%Z in Hmax. lia. }
  rewrite Hst' in Hstep |- *. destruct Hstep as (Hok' & Hdata & _).
  apply IH; [done..| |done|done]. by rewrite Hdata.
Qed.

(** C16: however the network splits a request into reads, a request whose length
    is what its own head announces (and at most [MAX_REQUEST_BYTES]) is returned
    as soon as its last byte arrives, parsed from exactly its own bytes, when no
    read is begun after the deadline; what would follow on the connection is not
    waited for. *)
Theorem read_http_request_chunking now d p cs ts rest :
  head_position d = Some p ->
  Z.of_nat (length d) = (Z.of_nat (p + 4) + content_length d (p + 4))%Z ->
  (Z.of_nat (length d) <= MAX_REQUEST_BYTES)%Z ->
  concat cs = d -> Forall (fun c => c <> []) cs ->
  Forall (fun t => (t_now t <= now + REQUEST_DEADLINE)%Z) ts -> map t_read ts = map ReadOk cs ->
  read_http_request now (ts ++ rest) = Returned (parse_http_request d).
Proof.
  intros Hp Hlen Hmax Hd Hcs Htime Hts. apply (read_loop_chunks _ d p cs); try done.
  intros ->. simpl in Hd. subst d. done.
Qed.

Lemma read_http_request_chunking_witness :
  let d := render_request sample_request in
  read_http_request 0
    (map (fun c => mk_tick 1 (ReadOk c) 1) [take 7 d; take 40 (drop 7 d); drop 47 d] ++ [])
  = Returned (Some sample_request).
Proof.
  cbv zeta.
  rewrite (read_http_request_chunking 0 (render_request sample_request) 62
             [take 7 (render_request sample_request);
              take 40 (drop 7 (render_request sample_request));
              drop 47 (render_request sample_request)]).
  - vm_compute. reflexivity.
  - vm_compute. reflexivity.
  - vm_compute. reflexivity.
  - vm_compute. discriminate.
  - vm_compute. reflexivity.
  - do 3 (constructor; [vm_compute; discriminate|]). constructor.
  - do 3 (constructor; [vm_compute; discriminate|]). constructor.
  - reflexivity.
Defined.

(** The loop stops after at most as many reads as bytes it accepts. *)
Lemma read_loop_bounded deadline ts : forall st,
  reader_ok st -> (Z.of_nat (length (data st)) <= MAX_REQUEST_BYTES)%Z ->
  ((MAX_REQUEST_BYTES < Z.of_nat (length (data st) + length ts))%Z ->
   read_loop deadline st ts <> Waiting) /\
  (forall r, read_loop deadline st ts = Returned (Some r) ->
   exists k, let d := data st ++ concat (map tick_bytes (take k ts)) in
     (Z.of_nat (length d) <= MAX_REQUEST_BYTES)%Z /\ parse_http_request d = Some r /\
     Forall (fun t => (t_now t <= deadline)%Z) (take k ts)).
Proof.
  induction ts as [|t ts IH]; intros st Hok Hlen.
  { split; [simpl; lia|done]. }
  cbn [read_loop]. destruct (deadline <? t_now t)%Z eqn:Hnow; [done|]. breflect.
  destruct (t_read t) as [|[|b bs]] eqn:Ht; [done| |].
  { split; [done|]. intros r [= Hr]. exists 0%nat. simpl. rewrite app_nil_r. done. }
  pose proof (read_step_spec st (b :: bs) Hok) as [Hstep _]. cbv zeta in Hstep.
  destruct (read_step st (b :: bs)) as [st'|[r|]].
  - destruct Hstep as (Hok' & Hd & Hmax). rewrite <- Hd in Hmax.
    destruct (IH st' Hok' Hmax) as [Hw Hr]. split.
    + intros Hgt. apply Hw. rewrite Hd, length_app. simpl in *. lia.
    + intros r Heq. destruct (Hr r Heq) as (k & Hk). exists (S k). simpl.
      unfold tick_bytes at 1 3. rewrite Ht, app_assoc, <- Hd.
      destruct Hk as (? & ? & ?). split_and!; [done..|]. by constructor.
  - split; [done|]. intros r' [= <-]. destruct Hstep as [Hp Hmax].
    exists 1%nat. simpl. unfold tick_bytes. rewrite take_0. simpl. rewrite Ht, app_nil_r.
    split_and!; [done..|]. by repeat constructor.
  - split; done.
Qed.

(** A blocking read comes back within its timeout, and the clock at the top of the next
    iteration is no earlier. *)
Fixpoint timely (ts : list tick) : Prop :=
  match ts with
  | [] => True
  | t :: ts' =>
    (t_now t <= t_done t <= t_now t + READ_TIMEOUT)%Z
    /\ match ts' with t' :: _ => (t_done t <= t_now t')%Z | [] => True end
    /\ timely ts'
  end.

(** While the loop goes on, no iteration has begun after the deadline. *)
Lemma read_loop_waiting deadline ts : forall st,
  read_loop deadline st ts = Waiting -> Forall (fun t => (t_now t <= deadline)%Z) ts.
Proof.
  induction ts as [|t ts IH]; intros st Hw; [by constructor|]. cbn [read_loop] in Hw.
  destruct (deadline <? t_now t)%Z eqn:Hnow; [done|]. breflect. constructor; [lia|].
  destruct (t_read t) as [|[|b bs]]; [done..|]. by destruct (read_step st (b :: bs)); [eapply IH|].
Qed.

Lemma timely_done ts deadline :
  timely ts -> Forall (fun t => (t_now t <= deadline)%Z) ts ->
  Forall (fun t => (t_done t <= deadline + READ_TIMEOUT)%Z) ts.
Proof.
  intros Ht Hn. induction Hn as [|t ts Hd _ IH]; [by constructor|]. destruct Ht as (Hb & _ & Ht).
  constructor; [lia|by apply IH].
Qed.

Lemma timely_take k ts : timely ts -> timely (take k ts).
Proof.
  revert ts. induction k as [|k IH]; intros [|t ts] Ht; try done. destruct Ht as (Hb & Hn & Ht).
  cbn [take timely]. split; [done|]. split; [|by apply IH]. destruct ts, k; done.
Qed.

(** C15: one connection cannot hold its thread or its memory without bound.  After
    [MAX_REQUEST_BYTES + 1] reads [read_http_request] has returned, whatever the client
    sends, and it returns at the first iteration that begins after the deadline of five
    seconds.  A request it returns was parsed from at most [MAX_REQUEST_BYTES] bytes,
    all delivered by reads begun before that deadline.  A read may go on past it, but
    where reads keep to their timeout of two seconds every byte of the request was
    there seven seconds after the start; and as long as the function has not returned,
    each of its reads was over by then. *)
Theorem read_http_request_bounded now ts :
  ((MAX_REQUEST_BYTES < Z.of_nat (length ts))%Z -> read_http_request now ts <> Waiting)
  /\ (Exists (fun t => (now + REQUEST_DEADLINE < t_now t)%Z) ts -> read_http_request now ts <> Waiting)
  /\ (forall r, read_http_request now ts = Returned (Some r) ->
   exists k, let d := concat (map tick_bytes (take k ts)) in
     (Z.of_nat (length d) <= MAX_REQUEST_BYTES)%Z /\ parse_http_request d = Some r
     /\ Forall (fun t => (t_now t <= now + from_secs 5)%Z) (take k ts)
     /\ (timely ts -> Forall (fun t => (t_done t <= now + from_secs 7)%Z) (take k ts)))
  /\ (timely ts -> read_http_request now ts = Waiting -> Forall (fun t => (t_done t <= now + from_secs 7)%Z) ts).
Proof.
  assert (forall ts', timely ts' -> Forall (fun t => (t_now t <= now + REQUEST_DEADLINE)%Z) ts' ->
    Forall (fun t => (t_done t <= now + from_secs 7)%Z) ts') as Hdone.
  { intros ts' Ht Hn. eapply Forall_impl; [|exact (timely_done _ _ Ht Hn)]. intros t Hd. cbv beta in Hd.
    change (from_secs 7) with (REQUEST_DEADLINE + READ_TIMEOUT)%Z. lia. }
  destruct (read_loop_bounded (now + REQUEST_DEADLINE) ts reader_init reader_init_ok) as [Hw Hr]; [vm_compute; done|].
  ands; [done| | |].
  - intros He Hwait%read_loop_waiting. apply list.Exists_exists in He as (t & Hin & Hlt).
    pose proof (proj1 (list.Forall_forall _ _) Hwait t Hin) as Hle. cbv beta in Hle. lia.
  - intros r (k & Hl & Hp & Hn)%Hr. exists k. cbv zeta in *. do 3 (split; [done|]). intros Ht. by apply Hdone; [apply timely_take|].
  - intros Ht Hwait%read_loop_waiting. by apply Hdone.
Qed.

(** A client that sends a byte whenever a read is about to time out. *)
Definition dribble : list tick :=
  map (fun i => mk_tick (from_secs (2 * i)) (ReadOk [x61]) (from_secs (2 * i + 2))) [0; 1; 2]%Z.

Lemma read_http_request_bounded_witness :
  read_http_request 0 dribble = Waiting
  /\ Forall (fun t => (t_done t <= 0 + from_secs 7)%Z) dribble
  /\ read_http_request 0 (dribble ++ [mk_tick (from_secs 6) ReadErr (from_secs 6)]) <> Waiting.
Proof.
  assert (read_http_request 0 dribble = Waiting) as Hw by (vm_compute; reflexivity). split; [exact Hw|]. split.
  - apply (read_http_request_bounded 0 dribble); [|exact Hw]. vm_compute. repeat split; discriminate.
  - apply (read_http_request_bounded 0 (dribble ++ [mk_tick (from_secs 6) ReadErr (from_secs 6)])).
    apply Exists_app. right. apply Exists_cons_hd. vm_compute. reflexivity.
Defined.

(** ** Form encoding *)

Definition hex_val (b : byte) : option Z := digit_val 16 b.

(** [form_encodes s e]: [e] is an [application/x-www-form-urlencoded] spelling of
    [s]: bytes stand for themselves, a plus sign for a space, and a percent sign
    with two hexadecimal digits for any byte. *)
Inductive form_encodes : bytes -> bytes -> Prop :=
| fe_nil : form_encodes [] []
| fe_byte b s e :
    b <> "%"%byte -> b <> "+"%byte -> b <> "&"%byte -> b <> "="%byte ->
    form_encodes s e -> form_encodes (b :: s) (b :: e)
| fe_space s e : form_encodes s e -> form_encodes (x20 :: s) ("+"%byte :: e)
| fe_hex b h l hi lo s e :
    hex_val h = Some hi -> hex_val l = Some lo -> u8 b = (hi * 16 + lo)%Z ->
    form_encodes s e -> form_encodes (b :: s) ("%"%byte :: h :: l :: e).

#[local] Hint Constructors form_encodes : allgres.

Lemma hex_val_class h v :
  hex_val h = Some v -> is_ascii h = true /\ h <> "+"%byte /\ h <> "&"%byte /\ h <> "="%byte /\ (0 <= v < 16)%Z.
Proof.
  destruct h; vm_compute; intros H; simplify_eq; split_and!; try done; discriminate.
Qed.

(** A percent sign with two hexadecimal digits decodes to its byte. *)
Lemma hex_pair_hex h l hi lo b :
  hex_val h = Some hi -> hex_val l = Some lo -> u8 b = (hi * 16 + lo)%Z -> hex_pair h l = Some b.
Proof.
  intros Hh Hl Hb.
  destruct (hex_val_class _ _ Hh) as (Ha & Hp & _ & _ & Hhi).
  destruct (hex_val_class _ _ Hl) as (Hal & _ & _ & _ & Hlo).
  unfold hex_pair. rewrite utf8_valid_ascii by (by repeat constructor).
  unfold from_str_radix. rewrite bool_decide_eq_false_2 by done.
  unfold parse_digits. unfold hex_val in *. rewrite Hh, Hl.
  replace (0 * 16 + hi)%Z with hi by lia. pose proof (u8_range b). unfold u8_max.
  rewrite !(proj2 (Z.leb_le _ _)) by lia. rewrite <- Hb. unfold u8. rewrite N2Z.id.
  apply Byte.of_to_N.
Qed.

Lemma decode_loop_encodes s e : form_encodes s e -> decode_loop e = s.
Proof.
  induction 1 as [|b s e Hp Hs _ _ _ IH|s e _ IH|b h l hi lo s e Hh Hl Hb _ IH]; cbn [decode_loop].
  - done.
  - rewrite !bool_decide_eq_false_2 by done. congruence.
  - rewrite bool_decide_eq_true_2 by done. congruence.
  - rewrite bool_decide_eq_false_2, bool_decide_eq_true_2 by done.
    rewrite (hex_pair_hex _ _ _ _ _ Hh Hl Hb). congruence.
Qed.

Lemma form_encodes_no_sep s e : form_encodes s e -> not ("&"%byte ∈ e) /\ not ("="%byte ∈ e).
Proof.
  induction 1 as [|b s e ? ? ? ? _ IH|s e _ IH|b h l hi lo s e Hh Hl Hb _ IH].
  - split; apply not_elem_of_nil.
  - rewrite !not_elem_of_cons. destruct IH. split_and!; congruence.
  - rewrite !not_elem_of_cons. destruct IH. split_and!; congruence.
  - apply hex_val_class in Hh. apply hex_val_class in Hl. rewrite !not_elem_of_cons.
    destruct_and!. split_and!; congruence.
Qed.

(** The body a form submission sends for a list of encoded pairs. *)
Fixpoint join_pairs (ps : list (bytes * bytes)) : bytes :=
  match ps with
  | [] => []
  | [(k, v)] => k ++ "="%byte :: v
  | (k, v) :: ps' => k ++ "="%byte :: v ++ "&"%byte :: join_pairs ps'
  end.

Definition pair_encodes (p e : bytes * bytes) : Prop :=
  form_encodes (fst p) (fst e) /\ form_encodes (snd p) (snd e).

Lemma split_pairs ps es :
  Forall2 pair_encodes ps es ->
  filter_map (split_once "="%byte) (split_on "&"%byte (join_pairs es)) = es.
Proof.
  unfold filter_map.
  induction 1 as [|[k v] [ke ve] ps es [Hk Hv] Hps IH]; [done|]. simpl in Hk, Hv.
  destruct (form_encodes_no_sep _ _ Hk) as [Hk1 Hk2].
  destruct (form_encodes_no_sep _ _ Hv) as [Hv1 Hv2].
  assert ("&"%byte ∉ (ke ++ "="%byte :: ve)) as Hno.
  { rewrite not_elem_of_app, not_elem_of_cons. done. }
  assert (split_once "="%byte (ke ++ "="%byte :: ve) = Some (ke, ve)) as Hsp
    by (by apply split_once_Some).
  destruct es as [|[ke' ve'] es].
  - simpl. rewrite split_on_none by done. simpl. by rewrite Hsp.
  - change (join_pairs ((ke, ve) :: (ke', ve') :: es))
      with (ke ++ "="%byte :: ve ++ "&"%byte :: join_pairs ((ke', ve') :: es)).
    replace (ke ++ "="%byte :: ve ++ "&"%byte :: join_pairs ((ke', ve') :: es))
      with ((ke ++ "="%byte :: ve) ++ "&"%byte :: join_pairs ((ke', ve') :: es))
      by (by rewrite <- app_assoc).
    rewrite split_on_app by done. cbn [omap list_omap]. rewrite Hsp. f_equal. exact IH.
Qed.

(** [parse_form_body] recovers the fields of any form-encoded body: for every
    list of UTF-8 key/value pairs and every spelling of it, the map it returns is
    the one the pairs define, a later pair of a key replacing an earlier one. *)
Theorem parse_form_body_roundtrip ps es :
  Forall2 pair_encodes ps es ->
  Forall (fun p => utf8_valid (fst p) = true /\ utf8_valid (snd p) = true) ps ->
  parse_form_body (join_pairs es) = foldl (fun m kv => <[fst kv := snd kv]> m) ∅ ps.
Proof.
  intros He Hv. unfold parse_form_body. rewrite (split_pairs ps es He).
  generalize (∅ : gmap bytes bytes). revert Hv.
  induction He as [|[k v] [ke ve] ps es [Hk Hve] _ IH]; intros Hv m; [done|].
  apply Forall_cons_iff in Hv as [[Hku Hvu] Hv]. simpl in *.
  unfold decode. rewrite (decode_loop_encodes _ _ Hk), (decode_loop_encodes _ _ Hve).
  rewrite !from_utf8_lossy_valid_eq by done. by apply IH.
Qed.

Lemma parse_form_body_roundtrip_witness :
  parse_form_body (str "code=a%20b&client_secret=x+y")
  = <[str "client_secret" := str "x y"]> (<[str "code" := str "a b"]> ∅).
Proof.
  apply (parse_form_body_roundtrip
           [(str "code", str "a b"); (str "client_secret", str "x y")]
           [(str "code", str "a%20b"); (str "client_secret", str "x+y")]).
  - do 2 (constructor; [split; simpl;
      repeat first [ apply fe_nil | apply fe_space
                   | eapply (fe_hex x20 "2"%byte "0"%byte 2 0); [reflexivity..|]
                   | apply fe_byte; [discriminate..|] ]|]). constructor.
  - do 2 (constructor; [split; vm_compute; reflexivity|]). constructor.
Defined.
