(* ===== verification/RateLimit.v ===== *)
(** * [src/web.rs]: per-address rate limiting

    The two sliding windows of [RateWindows].  Every function takes the instant
    its [Instant::now()] reads and returns the map it leaves under the mutex. *)

From S2P Require Import Prelude Net.

Abbreviation hits_map := (gmap IpAddr (list Z)).

(** [struct RateWindows] *)
Record RateWindows := mk_windows {
  general : hits_map;
  auth_fail : hits_map
}.

Definition RATE_LIMIT_init : RateWindows := {| general := ∅; auth_fail := ∅ |}.

Definition RATE_GENERAL_LIMIT : nat := 120.
Definition RATE_GENERAL_WINDOW : Z := from_secs 60.
Definition RATE_AUTH_FAIL_LIMIT : nat := 20.
Definition RATE_AUTH_FAIL_WINDOW : Z := from_secs 300.

(** The hits an address has, [map.entry(ip).or_default()]. *)
Definition hits_of (map : hits_map) (ip : IpAddr) : list Z := default [] (map !! ip).

(** [map.retain(|_, v| !v.is_empty())] *)
Definition drop_empty (map : hits_map) : hits_map := filter (fun kv => kv.2 <> []) map.

Definition rate_check (map : hits_map) (ip : IpAddr) (now window : Z) (limit : nat)
  : bool * hits_map :=
  let hits := List.filter (live window now) (hits_of map ip) in
  if (limit <=? length hits)%nat then (false, <[ip := hits]> map)
  else (true, drop_empty (<[ip := hits ++ [now]]> map)).

(** [true] means "reject with 429". *)
Definition rate_limited (w : RateWindows) (ip : IpAddr) (now : Z) : bool * RateWindows :=
  let r := rate_check (general w) ip now RATE_GENERAL_WINDOW RATE_GENERAL_LIMIT in
  (negb (fst r), {| general := snd r; auth_fail := auth_fail w |}).

Definition auth_failures_exceeded (w : RateWindows) (ip : IpAddr) (now : Z) : bool * RateWindows :=
  let hits := List.filter (live RATE_AUTH_FAIL_WINDOW now) (hits_of (auth_fail w) ip) in
  ((RATE_AUTH_FAIL_LIMIT <=? length hits)%nat,
   {| general := general w; auth_fail := <[ip := hits]> (auth_fail w) |}).

Definition record_auth_failure (w : RateWindows) (ip : IpAddr) (now : Z) : RateWindows :=
  {| general := general w;
     auth_fail := <[ip := hits_of (auth_fail w) ip ++ [now]]> (auth_fail w) |}.

(** ** The specification: a log nobody prunes *)

Definition hit_log := list (IpAddr * Z).

(** The instants the log holds for one address. *)
Definition log_of (log : hit_log) (ip : IpAddr) : list Z :=
  filter_map (fun e => if e.1 == ip then Some e.2 else None) log.

Definition recent (log : hit_log) (ip : IpAddr) (window now : Z) : nat :=
  length (List.filter (live window now) (log_of log ip)).

(** The map and the log count the same from instant [T] on. *)
Definition tracks (window : Z) (map : hits_map) (log : hit_log) (T : Z) : Prop :=
  forall ip now, (T <= now)%Z ->
    List.filter (live window now) (hits_of map ip) =
    List.filter (live window now) (log_of log ip).

Lemma tracks_init window T : tracks window ∅ [] T.
Proof. intros ip now _. unfold hits_of. by rewrite lookup_empty. Qed.

Lemma tracks_later window map log T T' :
  (T <= T')%Z -> tracks window map log T -> tracks window map log T'.
Proof. intros HT Ht ip now Hnow. apply Ht. lia. Qed.

Lemma hits_of_insert map ip hs ip' :
  hits_of (<[ip := hs]> map) ip' = if ip == ip' then hs else hits_of map ip'.
Proof. unfold hits_of. rewrite lookup_insert. by repeat case_decide || case_bool_decide. Qed.

Lemma hits_of_drop_empty map ip : hits_of (drop_empty map) ip = hits_of map ip.
Proof.
  unfold hits_of, drop_empty. destruct (map !! ip) as [hs|] eqn:E.
  - destruct (decide (hs = [])) as [->|Hne].
    + rewrite map_lookup_filter_None_2; [done|]. right. naive_solver.
    + rewrite (map_lookup_filter_Some_2 _ map ip hs); done.
  - rewrite map_lookup_filter_None_2; [done|by left].
Qed.

Lemma log_of_snoc log ip t ip' :
  log_of (log ++ [(ip, t)]) ip' = log_of log ip' ++ (if ip == ip' then [t] else []).
Proof. unfold log_of, filter_map. rewrite omap_app. simpl. by case_bool_decide. Qed.

(** Pruning an address at [now] keeps the correspondence from [now] on. *)
Lemma tracks_prune window map log T now ip :
  (T <= now)%Z -> tracks window map log T ->
  tracks window (<[ip := List.filter (live window now) (hits_of map ip)]> map) log now.
Proof.
  intros HT H ip' now' Hnow. rewrite hits_of_insert. case_bool_decide as Heq; [subst ip'|].
  - rewrite filter_live_live by done. apply H. lia.
  - apply H. lia.
Qed.

(** Recording a hit at [now], with or without pruning first. *)
Lemma tracks_push window map log T now ip hs :
  (T <= now)%Z -> tracks window map log T ->
  hs = List.filter (live window now) (hits_of map ip) \/ hs = hits_of map ip ->
  tracks window (<[ip := hs ++ [now]]> map) (log ++ [(ip, now)]) now.
Proof.
  intros HT H Hhs ip' now' Hnow. rewrite hits_of_insert, log_of_snoc.
  case_bool_decide as Heq; [subst ip'|].
  - rewrite !filter_app, <- H by lia.
    destruct Hhs as [-> | ->]; [rewrite filter_live_live by done|]; done.
  - rewrite app_nil_r. apply H. lia.
Qed.

(** ** The general limit against its specification *)

Section general_limit.
Context (window : Z) (limit : nat).

(** A sequence of calls, each an address and an instant, on the program's map. *)
Fixpoint rate_run (map : hits_map) (calls : list (IpAddr * Z)) : list bool :=
  match calls with
  | [] => []
  | (ip, now) :: cs =>
    let r := rate_check map ip now window limit in fst r :: rate_run (snd r) cs
  end.

(** The same calls on the log: accept, and record, while fewer than [limit]
    accepted hits of the address lie within the window. *)
Fixpoint ideal_run (log : hit_log) (calls : list (IpAddr * Z)) : list bool :=
  match calls with
  | [] => []
  | (ip, now) :: cs =>
    let ok := (recent log ip window now <? limit)%nat in
    ok :: ideal_run (if ok then log ++ [(ip, now)] else log) cs
  end.

(** The hits of the calls that were accepted. *)
Definition accepted (calls : list (IpAddr * Z)) (answers : list bool) : hit_log :=
  filter_map (fun ca : (IpAddr * Z) * bool => if ca.2 then Some ca.1 else None)
             (zip calls answers).

(** The clock is monotonic. *)
Fixpoint monotone (T : Z) (calls : list (IpAddr * Z)) : Prop :=
  match calls with
  | [] => True
  | c :: cs => (T <= c.2)%Z /\ monotone c.2 cs
  end.

Lemma rate_check_ideal map log T ip now :
  (T <= now)%Z -> tracks window map log T ->
  let r := rate_check map ip now window limit in
  fst r = (recent log ip window now <? limit)%nat /\
  tracks window (snd r) (if fst r then log ++ [(ip, now)] else log) now.
Proof.
  intros HT H. unfold rate_check, recent. cbv zeta. rewrite <- (H ip now HT).
  destruct (Nat.leb_spec limit (length (List.filter (live window now) (hits_of map ip))))
    as [Hge|Hlt]; simpl; split.
  - symmetry. by apply Nat.ltb_ge.
  - by eapply tracks_prune.
  - symmetry. by apply Nat.ltb_lt.
  - intros ip' now' Hnow. rewrite hits_of_drop_empty. revert ip' now' Hnow.
    eapply tracks_push; eauto.
Qed.

Lemma rate_run_ideal calls : forall map log T,
  tracks window map log T -> monotone T calls -> rate_run map calls = ideal_run log calls.
Proof.
  induction calls as [|[ip now] cs IH]; intros map log T H Hm; [done|].
  destruct Hm as [HT Hm]. cbn [rate_run ideal_run]. simpl in HT, Hm.
  pose proof (rate_check_ideal map log T ip now HT H) as [Hfst Hsnd]. cbv zeta in *.
  rewrite <- Hfst. f_equal. by eapply IH.
Qed.

(** The hits of one address in the window [(t - window, t]]. *)
Definition in_window (log : hit_log) (ip : IpAddr) (t : Z) : nat :=
  length (List.filter (fun a => (t - window <? a) && (a <=? t))%Z (log_of log ip)).

Definition window_bounded (log : hit_log) : Prop := forall ip t, (in_window log ip t <= limit)%nat.

(** A hit accepted at [now], under the limit, keeps every window under it. *)
Lemma window_bounded_snoc log ip0 now :
  (recent log ip0 window now < limit)%nat -> window_bounded log ->
  window_bounded (log ++ [(ip0, now)]).
Proof.
  intros Hok Hb ip t. unfold in_window. rewrite log_of_snoc, filter_app, length_app.
  specialize (Hb ip t) as Hbt. unfold in_window in Hbt.
  case_bool_decide as Heq; [subst ip|simpl; lia].
  simpl. destruct ((t - window <? now) && (now <=? t))%Z eqn:Hin; [|simpl; lia].
  simpl. breflect. unfold recent in Hok.
  assert (length (List.filter (fun a => (t - window <? a) && (a <=? t))%Z (log_of log ip0))
          <= length (List.filter (live window now) (log_of log ip0)))%nat; [|lia].
  apply filter_length_mono. intros a Ha. breflect. unfold live, duration_since.
  apply Z.ltb_lt. lia.
Qed.

(** At any instant, the hits accepted so far that lie in the window ending there
    are at most [limit]. *)
Lemma ideal_window_bound calls : forall log T,
  monotone T calls -> window_bounded log ->
  window_bounded (log ++ accepted calls (ideal_run log calls)).
Proof.
  induction calls as [|[ip0 now] cs IH]; intros log T Hm Hb.
  { unfold accepted. simpl. by rewrite app_nil_r. }
  destruct Hm as [HT Hm]. simpl in HT, Hm. cbn [ideal_run].
  destruct (recent log ip0 window now <? limit)%nat eqn:Hok.
  - replace (log ++ accepted ((ip0, now) :: cs) (true :: ideal_run (log ++ [(ip0, now)]) cs))
      with ((log ++ [(ip0, now)]) ++ accepted cs (ideal_run (log ++ [(ip0, now)]) cs))
      by (unfold accepted; simpl; by rewrite <- app_assoc).
    apply (IH _ now); [done|]. breflect. by apply window_bounded_snoc.
  - change (accepted ((ip0, now) :: cs) (false :: ideal_run log cs))
      with (accepted cs (ideal_run log cs)).
    by apply (IH _ now).
Qed.
End general_limit.

(** The pruned per-address map answers every sequence of calls, at the
    instants of a monotonic clock, exactly as an unpruned log of accepted hits
    would: a call is accepted if and only if fewer than [limit] accepted hits of
    its address are younger than [window]. *)
Theorem rate_check_refines_log window limit T calls :
  monotone T calls -> rate_run window limit ∅ calls = ideal_run window limit [] calls.
Proof. intros Hm. by eapply (rate_run_ideal window limit calls ∅ [] T (tracks_init window T)). Qed.

Definition ip_a : IpAddr := V4 xcb x00 x71 x07.
Definition ip_b : IpAddr := V4 xcb x00 x71 x08.

Lemma rate_check_refines_log_witness :
  rate_run 10 2 ∅ [(ip_a, 0); (ip_a, 1); (ip_b, 1); (ip_a, 9); (ip_a, 10)]%Z
  = ideal_run 10 2 [] [(ip_a, 0); (ip_a, 1); (ip_b, 1); (ip_a, 9); (ip_a, 10)]%Z
  /\ rate_run 10 2 ∅ [(ip_a, 0); (ip_a, 1); (ip_b, 1); (ip_a, 9); (ip_a, 10)]%Z
     = [true; true; true; false; true].
Proof.
  split; [|vm_compute; reflexivity].
  apply (rate_check_refines_log 10 2 0). simpl. lia.
Defined.

(** A sequence of requests through [rate_limited]: which were rejected. *)
Fixpoint limited_run (w : RateWindows) (calls : list (IpAddr * Z)) : list bool :=
  match calls with
  | [] => []
  | (ip, now) :: cs => let r := rate_limited w ip now in fst r :: limited_run (snd r) cs
  end.

Lemma limited_run_rate_run calls : forall w,
  map negb (limited_run w calls) = rate_run RATE_GENERAL_WINDOW RATE_GENERAL_LIMIT (general w) calls.
Proof.
  induction calls as [|[ip now] cs IH]; intros w; [done|].
  cbn [limited_run rate_run map]. unfold rate_limited at 1. simpl fst. rewrite negb_involutive.
  f_equal. apply IH.
Qed.

(** No address gets more than 120 requests through [rate_limited] within any
    60 seconds: for every window [(t - 60s, t]], wherever it lies, the accepted
    requests of one address in it number at most [RATE_GENERAL_LIMIT]. *)
Theorem rate_limited_window_bound T calls ip t :
  monotone T calls ->
  (length (List.filter (fun a => (t - RATE_GENERAL_WINDOW <? a) && (a <=? t))%Z
     (log_of (accepted calls (map negb (limited_run RATE_LIMIT_init calls))) ip))
   <= RATE_GENERAL_LIMIT)%nat.
Proof.
  intros Hm. rewrite limited_run_rate_run. simpl general.
  rewrite (rate_run_ideal _ _ calls ∅ [] T (tracks_init _ T) Hm).
  apply (ideal_window_bound RATE_GENERAL_WINDOW RATE_GENERAL_LIMIT calls [] T Hm).
  intros ip' t'. unfold in_window. simpl. lia.
Qed.

(** 130 requests in one instant: 120 pass, and the bound is attained. *)
Lemma rate_limited_window_bound_witness :
  let calls := replicate 130 (ip_a, 5)%Z in
  (length (List.filter (fun a => (5 - RATE_GENERAL_WINDOW <? a) && (a <=? 5))%Z
     (log_of (accepted calls (map negb (limited_run RATE_LIMIT_init calls))) ip_a))
   <= RATE_GENERAL_LIMIT)%nat
  /\ length (accepted calls (map negb (limited_run RATE_LIMIT_init calls))) = 120%nat.
Proof.
  cbv zeta. split; [|vm_compute; reflexivity].
  apply (rate_limited_window_bound 5). vm_compute. repeat split; discriminate.
Defined.

(** ** Both windows against their logs *)

(** What the connection handler does with the windows. *)
Inductive window_op :=
| Request (ip : IpAddr) (now : Z)
| Check_lockout (ip : IpAddr) (now : Z)
| Auth_failure (ip : IpAddr) (now : Z).

Definition op_time (op : window_op) : Z :=
  match op with Request _ now | Check_lockout _ now | Auth_failure _ now => now end.

(** The answers of a sequence: rejected or not, locked out or not. *)
Fixpoint windows_run (w : RateWindows) (ops : list window_op) : list bool :=
  match ops with
  | [] => []
  | Request ip now :: os => let r := rate_limited w ip now in fst r :: windows_run (snd r) os
  | Check_lockout ip now :: os =>
    let r := auth_failures_exceeded w ip now in fst r :: windows_run (snd r) os
  | Auth_failure ip now :: os => windows_run (record_auth_failure w ip now) os
  end.

(** The same on the log of all accepted requests and of all failures ever recorded. *)
Fixpoint windows_ideal (hits failures : hit_log) (ops : list window_op) : list bool :=
  match ops with
  | [] => []
  | Request ip now :: os =>
    let ok := (recent hits ip RATE_GENERAL_WINDOW now <? RATE_GENERAL_LIMIT)%nat in
    negb ok :: windows_ideal (if ok then hits ++ [(ip, now)] else hits) failures os
  | Check_lockout ip now :: os =>
    (RATE_AUTH_FAIL_LIMIT <=? recent failures ip RATE_AUTH_FAIL_WINDOW now)%nat
    :: windows_ideal hits failures os
  | Auth_failure ip now :: os => windows_ideal hits (failures ++ [(ip, now)]) os
  end.

Fixpoint ops_monotone (T : Z) (ops : list window_op) : Prop :=
  match ops with
  | [] => True
  | op :: os => (T <= op_time op)%Z /\ ops_monotone (op_time op) os
  end.

Definition windows_track (w : RateWindows) (hits failures : hit_log) (T : Z) : Prop :=
  tracks RATE_GENERAL_WINDOW (general w) hits T /\ tracks RATE_AUTH_FAIL_WINDOW (auth_fail w) failures T.

Lemma windows_run_ideal ops : forall w hits failures T,
  windows_track w hits failures T -> ops_monotone T ops ->
  windows_run w ops = windows_ideal hits failures ops.
Proof.
  induction ops as [|op os IH]; intros w hits failures T [Hg Hf] Hm; [done|].
  destruct Hm as [HT Hm]. destruct op as [ip now|ip now|ip now]; simpl op_time in *;
    cbn [windows_run windows_ideal]; cbv zeta.
  - destruct (rate_check_ideal RATE_GENERAL_WINDOW RATE_GENERAL_LIMIT _ _ T ip now HT Hg) as [Hok Ht].
    unfold rate_limited. cbv zeta. cbn [fst snd]. rewrite <- Hok. f_equal.
    eapply IH; [|exact Hm]. split; [exact Ht|by eapply tracks_later].
  - unfold auth_failures_exceeded at 1, recent. cbn [fst]. rewrite (Hf ip now HT). f_equal.
    eapply IH; [|exact Hm]. split; [by eapply tracks_later|by eapply tracks_prune].
  - eapply IH; [|exact Hm]. split; [by eapply tracks_later|]. eapply tracks_push; eauto.
Qed.

(** The two windows, with all their pruning, answer every sequence of requests,
    lockout checks and recorded failures, at the instants of a monotonic clock, as two
    logs nobody prunes would: a request is rejected exactly while 120 accepted
    requests of its address are younger than 60 seconds, an address is locked out
    exactly while 20 of its own failures are younger than 300 seconds, and neither
    window is disturbed by the other or by other addresses. *)
Theorem windows_refine_logs T ops :
  ops_monotone T ops -> windows_run RATE_LIMIT_init ops = windows_ideal [] [] ops.
Proof. apply windows_run_ideal. split; apply tracks_init. Qed.

Lemma windows_refine_logs_witness :
  let ops := replicate 120 (Request ip_a 6) ++ replicate 20 (Auth_failure ip_a 7)
             ++ [Request ip_a 8; Request ip_b 8; Check_lockout ip_a 8; Check_lockout ip_b 8;
                 Request ip_a (6 + RATE_GENERAL_WINDOW);
                 Check_lockout ip_a (7 + RATE_AUTH_FAIL_WINDOW)]%Z in
  windows_run RATE_LIMIT_init ops = windows_ideal [] [] ops
  /\ windows_run RATE_LIMIT_init ops = replicate 120 false ++ [true; false; true; false; false; false].
Proof.
  cbv zeta. split; [|vm_compute; reflexivity].
  apply (windows_refine_logs 6). vm_compute. repeat split; discriminate.
Defined.

(** An accepted or rejected call prunes the calling address only: the hits of
    every other address stay in the map however old they are, so an address that
    never calls again is never dropped. *)
Theorem rate_check_keeps_stale map ip other now window limit hs :
  other <> ip -> map !! other = Some hs -> hs <> [] ->
  snd (rate_check map ip now window limit) !! other = Some hs.
Proof.
  intros Hne Hl Hhs. unfold rate_check. cbv zeta. destruct (limit <=? _)%nat; simpl.
  - by rewrite lookup_insert_ne.
  - unfold drop_empty. apply map_lookup_filter_Some_2; [|done]. by rewrite lookup_insert_ne.
Qed.

(** A hit of [ip_b] from instant 0 is still held a day later, in a window of 60 s. *)
Lemma rate_check_keeps_stale_witness :
  snd (rate_check {[ip_b := [0%Z]]} ip_a (from_secs 86400) RATE_GENERAL_WINDOW RATE_GENERAL_LIMIT)
    !! ip_b = Some [0%Z].
Proof.
  apply (rate_check_keeps_stale {[ip_b := [0%Z]]} ip_a ip_b).
  - discriminate.
  - vm_compute. reflexivity.
  - discriminate.
Defined.
