(* ===== verification/WebAuth.v ===== *)
(** * [src/web.rs]: who may talk to the dashboard API

    Event-stream tickets, the bearer token, the cross-origin check and the
    refusal to expose an unprotected console. *)

From S2P Require Import Prelude Utf8 RustStr Net HttpProtocol.

(** ** Configuration *)

Record WebConfig := mk_config {
  token : bytes;
  socket : bytes;
  mock_enabled : bool
}.

(** ** Nonces *)

(** [format!("{b:02x}")] *)
Definition hex02 (b : byte) : bytes := [digit_char (u8 b / 16); digit_char (u8 b mod 16)].

(** Where the sixteen bytes come from: [/dev/urandom], unless it cannot be opened or ends
    early; then the time since the epoch (if the clock is not before it), the process
    and the address of the buffer. *)
Record Entropy := mk_entropy {
  urandom : option bytes;
  epoch_nanos : option Z;
  process_id : Z;
  buf_address : Z
}.

(** [u128::to_le_bytes], the lowest [n] bytes of it. *)
Fixpoint to_le_bytes (n : nat) (v : Z) : bytes :=
  match n with
  | O => []
  | S n' => default x00 (Byte.of_N (Z.to_N (v mod 256))) :: to_le_bytes n' (v / 256)
  end.

(** What [/dev/urandom] yields. *)
Definition from_urandom (buf : bytes) : Entropy := mk_entropy (Some buf) None 0 0.

Definition nonce_buf (e : Entropy) : bytes :=
  match urandom e with
  | Some buf => buf
  | None =>
    let nanos := default 0%Z (epoch_nanos e) in
    to_le_bytes 16 (Z.lxor (Z.lxor nanos (Z.shiftl (process_id e) 64)) (buf_address e))
  end.

Definition nonce (e : Entropy) : bytes := concat (map hex02 (nonce_buf e)).

Example nonce_fallback :
  nonce (mk_entropy None (Some 258%Z) 3 0) = str "02010000000000000300000000000000".
Proof. reflexivity. Qed.

(** A nonce is 32 digits and stands for its sixteen bytes alone. *)
Lemma to_le_bytes_length n v : length (to_le_bytes n v) = n.
Proof. revert v. induction n as [|n IH]; intros v; [done|]. simpl. by rewrite IH. Qed.

Lemma nonce_buf_length e :
  (forall buf, urandom e = Some buf -> length buf = 16%nat) -> length (nonce_buf e) = 16%nat.
Proof.
  unfold nonce_buf. destruct (urandom e) as [buf|]; intros Hb; [by apply Hb|apply to_le_bytes_length].
Qed.

Lemma hex_pair_hex02 b : (match hex02 b with [h; l] => hex_pair h l | _ => None end) = Some b.
Proof. by destruct b. Qed.

Lemma hex02_inj b b' : hex02 b = hex02 b' -> b = b'.
Proof. intros Hh. pose proof (hex_pair_hex02 b) as Hb. rewrite Hh, hex_pair_hex02 in Hb. by injection Hb. Qed.

Lemma nonce_inj e e' : nonce e = nonce e' -> nonce_buf e = nonce_buf e'.
Proof.
  unfold nonce. generalize (nonce_buf e), (nonce_buf e').
  induction l as [|b l IH]; intros [|b' l']; try done.
  cbn [map concat]. intros Hn. apply app_inj_1 in Hn as [Hb Hl]; [|done]. f_equal; [by apply hex02_inj|by apply IH].
Qed.

Lemma nonce_length e : length (nonce e) = (2 * length (nonce_buf e))%nat.
Proof. unfold nonce. induction (nonce_buf e) as [|b l IH]; [done|]. simpl. lia. Qed.

(** ** Event-stream tickets: [SSE_TICKETS] *)

Definition SSE_TICKET_TTL : Z := from_secs 30.

Abbreviation ticket_map := (gmap bytes Z).

(** [tickets.retain(|_, issued| now.duration_since(issued) < SSE_TICKET_TTL)] *)
Definition sweep (now : Z) (tickets : ticket_map) : ticket_map :=
  filter (fun kv => live SSE_TICKET_TTL now kv.2 = true) tickets.

(** The ticket is the nonce drawn from [buf]. *)
Definition mint_sse_ticket (tickets : ticket_map) (now : Z) (buf : Entropy) : bytes * ticket_map :=
  let ticket := nonce buf in (ticket, <[ticket := now]> (sweep now tickets)).

Definition consume_sse_ticket (tickets : ticket_map) (now : Z) (t : bytes) : bool * ticket_map :=
  let swept := sweep now tickets in
  (match swept !! t with Some _ => true | None => false end, delete t swept).

(** ** Comparing secrets *)

(** [for (x, y) in a.iter().zip(b.iter()) { diff |= x ^ y }] *)
Fixpoint ct_diff (diff : Z) (a b : bytes) : Z :=
  match a, b with
  | x :: a', y :: b' => ct_diff (Z.lor diff (Z.lxor (u8 x) (u8 y))) a' b'
  | _, _ => diff
  end.

Definition constant_time_eq (a b : bytes) : bool :=
  if negb (length a =? length b)%nat then false
  else (ct_diff 0 a b =? 0)%Z.

(** ** Query parameters *)

(** The [while] loop of [percent_decode]: the percent sign is matched first. *)
Fixpoint percent_decode_loop (s : bytes) : bytes :=
  match s with
  | [] => []
  | b :: r =>
    if b == "%"%byte then
      match r with
      | h :: (l :: r2) =>
        match hex_pair h l with
        | Some d => d :: percent_decode_loop r2
        | None => b :: percent_decode_loop r
        end
      | _ => b :: percent_decode_loop r
      end
    else if b == "+"%byte then x20 :: percent_decode_loop r
    else b :: percent_decode_loop r
  end.

Definition percent_decode (s : bytes) : bytes := from_utf8_lossy (percent_decode_loop s).

Definition query_param (q key : bytes) : option bytes :=
  (fun kv => percent_decode (snd kv)) <$>
  find_first (fun kv => fst kv == key) (filter_map (split_once "="%byte) (split_on "&"%byte q)).

(** ** Authorization *)

Definition EVENTS_ROUTE : bytes := str "/api/v1/events".

(** [if let Some(t) = v.strip_prefix("Bearer ") { constant_time_eq(..) }] *)
Definition bearer_ok (r : HttpRequest) (cfg : WebConfig) : bool :=
  match header r (str "authorization") with
  | Some v => match strip_prefix (str "Bearer ") v with
              | Some t => constant_time_eq t (token cfg)
              | None => false
              end
  | None => false
  end.

Definition authorized (r : HttpRequest) (cfg : WebConfig) (tickets : ticket_map) (now : Z)
  : bool * ticket_map :=
  if negb (nonempty (token cfg)) then (true, tickets)
  else if bearer_ok r cfg then (true, tickets)
  else if route r == EVENTS_ROUTE then
    match query_param (query r) (str "ticket") with
    | Some t => consume_sse_ticket tickets now t
    | None => (false, tickets)
    end
  else (false, tickets).

(** [origin.split("://").nth(1)] *)
Definition after_scheme (origin : bytes) : option bytes :=
  match find_sub (str "://") origin with
  | None => None
  | Some i =>
    let rest := drop (i + 3) origin in
    match find_sub (str "://") rest with
    | Some j => Some (take j rest)
    | None => Some rest
    end
  end.

Definition csrf_ok (r : HttpRequest) : bool :=
  let origin_ok :=
    match header r (str "origin") with
    | Some origin =>
      let host := default [] (header r (str "host")) in
      let origin_host := default [] (after_scheme origin) in
      negb (negb (nonempty origin_host) || negb (eq_ignore_ascii_case origin_host host))
    | None => true
    end in
  if negb origin_ok then false
  else if route r == EVENTS_ROUTE then true
  else match header r (str "x-allgres-client") with Some _ => true | None => false end.

(** ** Exposure *)

Definition is_loopback_addr (addr : bytes) : bool :=
  let host := match rfind ":"%byte addr with Some i => take i addr | None => addr end in
  let host := trim_end_matches "]"%byte (drop_while (fun b => b == "["%byte) host) in
  (host == str "127.0.0.1") || (host == str "::1") || (host == str "localhost")
  || starts_with (str "127.") host.

Inductive exposure := Exposure_ok | Exposure_refused.

#[export] Instance exposure_eq_dec : EqDecision exposure.
Proof. solve_decision. Defined.

(** [insecure] is the value of ALLGRES_ALLOW_INSECURE_HTTP, if set. *)
Definition check_exposure (addr tok : bytes) (insecure : option bytes) : exposure :=
  if is_loopback_addr addr || nonempty tok then Exposure_ok
  else if insecure == Some (str "1") then Exposure_ok
  else Exposure_refused.

(** ** Comparing secrets: lemmas *)

Lemma ct_diff_zero a b d :
  (0 <= d)%Z -> length a = length b -> ct_diff d a b = 0%Z <-> d = 0%Z /\ a = b.
Proof.
  revert b d. induction a as [|x a IH]; intros [|y b] d Hd Hl; simpl in *; try lia.
  { split; [done|]. by intros [-> _]. }
  pose proof (u8_range x). pose proof (u8_range y).
  rewrite IH; [|apply Z.lor_nonneg; split; [done|apply Z.lxor_nonneg; lia]|lia].
  rewrite Z.lor_eq_0_iff, Z.lxor_eq_0_iff. split.
  - intros [[-> Hxy] ->]. split; [done|]. f_equal. by apply u8_inj.
  - intros [-> [= -> ->]]. done.
Qed.

Lemma lt_256_log2 n : (0 <= n)%Z -> (n < 256 <-> Z.log2 n < 8)%Z.
Proof.
  intros Hn. destruct (Z.eq_dec n 0%Z) as [->|]; [vm_compute; done|].
  change 256%Z with (2 ^ 8)%Z. apply Z.log2_lt_pow2. lia.
Qed.

(** The accumulator is a byte: no step of the loop leaves [u8]. *)
Lemma ct_diff_byte a b d : (0 <= d < 256)%Z -> (0 <= ct_diff d a b < 256)%Z.
Proof.
  revert b d. induction a as [|x a IH]; intros [|y b] d Hd; simpl; [done..|].
  apply IH. pose proof (u8_range x) as Hx. pose proof (u8_range y) as Hy.
  assert (0 <= Z.lxor (u8 x) (u8 y))%Z as H0 by (apply Z.lxor_nonneg; lia).
  assert (0 <= Z.lor d (Z.lxor (u8 x) (u8 y)))%Z as H1 by (apply Z.lor_nonneg; lia).
  split; [done|]. apply lt_256_log2; [done|]. rewrite Z.log2_lor by lia.
  pose proof (Z.log2_lxor (u8 x) (u8 y) ltac:(lia) ltac:(lia)).
  pose proof (proj1 (lt_256_log2 d ltac:(lia)) ltac:(lia)).
  pose proof (proj1 (lt_256_log2 (u8 x) ltac:(lia)) ltac:(lia)).
  pose proof (proj1 (lt_256_log2 (u8 y) ltac:(lia)) ltac:(lia)). lia.
Qed.

Lemma constant_time_eq_true a b : constant_time_eq a b = true <-> a = b.
Proof.
  unfold constant_time_eq. destruct (Nat.eqb_spec (length a) (length b)) as [Hl|Hl]; simpl.
  - rewrite Z.eqb_eq, ct_diff_zero by done. split; [by intros []|done].
  - split; [done|]. by intros ->.
Qed.

(** [constant_time_eq] decides equality of byte strings: it is [true] exactly
    when the two slices have the same bytes, and its accumulator stays a [u8]. *)
Theorem constant_time_eq_spec a b :
  (constant_time_eq a b = true <-> a = b) /\ (0 <= ct_diff 0 a b < 256)%Z.
Proof. split; [apply constant_time_eq_true|apply ct_diff_byte; lia]. Qed.

(** ** Query parameters: lemmas *)

(** The query-string decoder of the web worker and the form decoder of the
    request reader, written twice in the source with their cases in different
    orders, are the same function. *)
Theorem percent_decode_is_form_decode s : percent_decode s = decode s.
Proof.
  unfold percent_decode, decode. f_equal.
  induction s as [s IH] using list_length_ind. destruct s as [|b r]; [done|].
  assert (percent_decode_loop r = decode_loop r) as Hr by (apply IH; simpl; lia).
  cbn [percent_decode_loop decode_loop].
  destruct (bool_decide (b = "%"%byte)) eqn:Hp; breflect.
  - rewrite bool_decide_eq_false_2 by (by subst).
    destruct r as [|h [|l r2]]; [by rewrite Hr..|].
    rewrite Hr, (IH r2) by (simpl; lia). done.
  - by rewrite Hr.
Qed.

(** A percent sign followed by a plus sign and one hexadecimal digit is
    decoded as an escape too, because [from_str_radix] accepts the sign: the three
    bytes become the single byte of the digit, where RFC 3986 has no escape. *)
Theorem percent_decode_accepts_sign h v s :
  hex_val h = Some v ->
  percent_decode_loop ("%"%byte :: "+"%byte :: h :: s)
  = default x30 (Byte.of_N (Z.to_N v)) :: percent_decode_loop s.
Proof.
  intros H. cbn [percent_decode_loop]. rewrite bool_decide_eq_true_2 by done.
  assert (hex_pair "+"%byte h = Byte.of_N (Z.to_N v) /\ is_Some (Byte.of_N (Z.to_N v)))
    as [-> [d ->]]; [|done].
  revert H. destruct h; vm_compute; intros [= <-]; eauto.
Qed.

Lemma percent_decode_accepts_sign_witness :
  percent_decode (str "a%+Fb") = [x61; x0f; x62].
Proof.
  unfold percent_decode. change (str "a%+Fb") with ("a"%byte :: "%"%byte :: "+"%byte :: "F"%byte :: str "b").
  change (percent_decode_loop ("a"%byte :: ?s)) with ("a"%byte :: percent_decode_loop s).
  rewrite (percent_decode_accepts_sign "F"%byte 15 (str "b") eq_refl). vm_compute. reflexivity.
Defined.

(** ** Tickets against their specification *)

Inductive ticket_op :=
| Mint (buf : Entropy) (now : Z)
| Consume (t : bytes) (now : Z).

Definition ticket_time (op : ticket_op) : Z :=
  match op with Mint _ now => now | Consume _ now => now end.

(** The answers of the [Consume]s of a sequence, on the program's map. *)
Fixpoint ticket_run (tickets : ticket_map) (ops : list ticket_op) : list bool :=
  match ops with
  | [] => []
  | Mint buf now :: os => ticket_run (snd (mint_sse_ticket tickets now buf)) os
  | Consume t now :: os =>
    let r := consume_sse_ticket tickets now t in fst r :: ticket_run (snd r) os
  end.

(** What happened last to ticket [t] (most recent operation first): the instant
    of its minting if that was later than any attempt to redeem it. *)
Fixpoint outstanding (log : list ticket_op) (t : bytes) : option Z :=
  match log with
  | [] => None
  | Mint buf now :: l => if nonce buf == t then Some now else outstanding l t
  | Consume t' _ :: l => if t' == t then None else outstanding l t
  end.

Definition redeemable (issued : option Z) (now : Z) : bool :=
  match issued with Some i => live SSE_TICKET_TTL now i | None => false end.

(** The specification: a ticket redeems iff it was minted less than 30 seconds
    ago and nobody has tried to redeem it since. *)
Fixpoint ticket_ideal (log : list ticket_op) (ops : list ticket_op) : list bool :=
  match ops with
  | [] => []
  | Mint buf now :: os => ticket_ideal (Mint buf now :: log) os
  | Consume t now :: os =>
    redeemable (outstanding log t) now :: ticket_ideal (Consume t now :: log) os
  end.

Fixpoint tickets_monotone (T : Z) (ops : list ticket_op) : Prop :=
  match ops with
  | [] => True
  | op :: os => (T <= ticket_time op)%Z /\ tickets_monotone (ticket_time op) os
  end.

Definition agrees (tickets : ticket_map) (log : list ticket_op) (T : Z) : Prop :=
  forall t now, (T <= now)%Z ->
    redeemable (tickets !! t) now = redeemable (outstanding log t) now.

Lemma sweep_lookup now tickets t :
  sweep now tickets !! t =
  match tickets !! t with
  | Some i => if live SSE_TICKET_TTL now i then Some i else None
  | None => None
  end.
Proof.
  unfold sweep. destruct (tickets !! t) as [i|] eqn:E.
  - destruct (live SSE_TICKET_TTL now i) eqn:Hl.
    + by apply map_lookup_filter_Some_2.
    + apply map_lookup_filter_None_2. right. intros j Hj. simpl. congruence.
  - apply map_lookup_filter_None_2. by left.
Qed.

Lemma redeemable_sweep now now' tickets t :
  (now <= now')%Z -> redeemable (sweep now tickets !! t) now' = redeemable (tickets !! t) now'.
Proof.
  intros H. rewrite sweep_lookup. destruct (tickets !! t) as [i|]; [|done]. simpl.
  destruct (live SSE_TICKET_TTL now i) eqn:E; [done|]. simpl.
  destruct (live SSE_TICKET_TTL now' i) eqn:E'; [|done].
  apply (live_mono _ _ _ _ H) in E'. congruence.
Qed.

Lemma agrees_mint tickets log T now buf :
  (T <= now)%Z -> agrees tickets log T ->
  agrees (snd (mint_sse_ticket tickets now buf)) (Mint buf now :: log) now.
Proof.
  intros HT H t now' Hnow. simpl. rewrite lookup_insert.
  case_bool_decide as E; case_decide; [done|congruence|congruence|].
  rewrite redeemable_sweep by done. apply H. lia.
Qed.

Lemma agrees_consume tickets log T now t :
  (T <= now)%Z -> agrees tickets log T ->
  fst (consume_sse_ticket tickets now t) = redeemable (outstanding log t) now /\
  agrees (snd (consume_sse_ticket tickets now t)) (Consume t now :: log) now.
Proof.
  intros HT H. split.
  - rewrite <- (H t now HT). unfold consume_sse_ticket. simpl. rewrite sweep_lookup.
    destruct (tickets !! t) as [i|]; [|done]. simpl. by destruct (live _ now i).
  - intros t' now' Hnow. simpl. rewrite lookup_delete.
    case_bool_decide as E; case_decide; [done|congruence|congruence|].
    rewrite redeemable_sweep by done. apply H. lia.
Qed.

Lemma ticket_run_ideal ops : forall tickets log T,
  agrees tickets log T -> tickets_monotone T ops -> ticket_run tickets ops = ticket_ideal log ops.
Proof.
  induction ops as [|[buf now|t now] os IH]; intros tickets log T H Hm; [done|..];
    destruct Hm as [HT Hm]; simpl ticket_time in *; cbn [ticket_run ticket_ideal].
  - eapply IH; [|exact Hm]. by eapply agrees_mint.
  - cbv zeta. destruct (agrees_consume tickets log T now t HT H) as [-> Ha].
    f_equal. by eapply IH.
Qed.

(** Event-stream tickets are single-use and short-lived: for every sequence
    of mints and redemption attempts on a monotonic clock, an attempt succeeds if
    and only if the ticket was minted less than 30 seconds before and no attempt
    to redeem it was made since; sweeping the map changes no answer. *)
Theorem tickets_refine_log T ops :
  tickets_monotone T ops -> ticket_run ∅ ops = ticket_ideal [] ops.
Proof. apply ticket_run_ideal. intros t now _. by rewrite lookup_empty. Qed.

Lemma tickets_refine_log_witness :
  let b := from_urandom (replicate 16 xab) in
  let ops := [Mint b 0; Consume (nonce b) 5; Consume (nonce b) 6;
              Mint b 7; Consume (nonce b) (7 + SSE_TICKET_TTL)]%Z in
  ticket_run ∅ ops = ticket_ideal [] ops /\ ticket_run ∅ ops = [true; false; false].
Proof.
  cbv zeta. split; [|vm_compute; reflexivity].
  apply (tickets_refine_log 0). vm_compute. repeat split; discriminate.
Defined.

(** Unredeemed tickets do not accumulate: after minting or redeeming at
    instant [now] every ticket left in the map is younger than its time to live. *)
Theorem tickets_only_live tickets now buf t k issued :
  (snd (mint_sse_ticket tickets now buf) !! k = Some issued ->
   live SSE_TICKET_TTL now issued = true) /\
  (snd (consume_sse_ticket tickets now t) !! k = Some issued ->
   live SSE_TICKET_TTL now issued = true /\ k <> t).
Proof.
  assert (sweep now tickets !! k = Some issued -> live SSE_TICKET_TTL now issued = true) as Hs.
  { rewrite sweep_lookup. destruct (tickets !! k) as [i|]; [|done].
    destruct (live SSE_TICKET_TTL now i) eqn:E; congruence. }
  split; simpl.
  - rewrite lookup_insert. case_decide; [|done]. intros [= <-]. by apply live_now.
  - rewrite lookup_delete. case_decide; [done|]. intros Hl%Hs. split; [done|congruence].
Qed.

(** ** Authorization *)

(** Authorizing a request adds no ticket. *)
Lemma authorized_tickets r cfg tickets now t i :
  snd (authorized r cfg tickets now) !! t = Some i -> tickets !! t = Some i.
Proof.
  unfold authorized. repeat case_match; simpl; try done.
  rewrite lookup_delete_Some, sweep_lookup. intros [_ Hs].
  destruct (tickets !! t); simpl in Hs; [|done]. by destruct (live _ _ _).
Qed.

Lemma bearer_ok_spec r cfg :
  bearer_ok r cfg = true <->
  header r (str "authorization") = Some (str "Bearer " ++ token cfg).
Proof.
  unfold bearer_ok. destruct (header r (str "authorization")) as [v|]; [|done].
  destruct (strip_prefix (str "Bearer ") v) as [t|] eqn:E.
  - apply strip_prefix_Some in E as ->. rewrite constant_time_eq_true.
    split; [by intros ->|by intros [= ->]].
  - split; [done|]. intros Hv. exfalso. injection Hv as Hv.
    assert (strip_prefix (str "Bearer ") v = Some (token cfg)); [|congruence].
    apply strip_prefix_Some. exact Hv.
Qed.

(** With a dashboard token configured, a request is authorized exactly when it
    carries [Authorization: Bearer <token>], or asks for the event stream with a
    ticket that was minted less than 30 seconds before and is still in the map;
    the ticket presented is then gone, and no other request changes the map. *)
Theorem authorized_spec r cfg tickets now :
  token cfg <> [] ->
  (fst (authorized r cfg tickets now) = true <->
   header r (str "authorization") = Some (str "Bearer " ++ token cfg) \/
   route r = EVENTS_ROUTE /\
   exists t issued, query_param (query r) (str "ticket") = Some t /\
     tickets !! t = Some issued /\ live SSE_TICKET_TTL now issued = true) /\
  (forall t, query_param (query r) (str "ticket") = Some t -> route r = EVENTS_ROUTE ->
     header r (str "authorization") <> Some (str "Bearer " ++ token cfg) ->
     snd (authorized r cfg tickets now) !! t = None) /\
  (header r (str "authorization") = Some (str "Bearer " ++ token cfg) \/ route r <> EVENTS_ROUTE ->
     snd (authorized r cfg tickets now) = tickets).
Proof.
  intros Htok. unfold authorized. generalize (bearer_ok_spec r cfg).
  generalize (header r (str "authorization") = Some (str "Bearer " ++ token cfg)) as P.
  intros P HP. destruct (token cfg) as [|c tk]; [done|]. cbn [nonempty negb].
  destruct (bearer_ok r cfg).
  { assert P as HP1 by (by apply HP). split_and!; [tauto|tauto|done]. }
  assert (~ P) as HP1 by (by intros ?%HP).
  case_bool_decide as Hr; [|split_and!; [|tauto|done]; split; [done|tauto]].
  destruct (query_param (query r) (str "ticket")) as [t|] eqn:Hq.
  - split_and!; [|intros t' [= <-] _ _; apply lookup_delete_eq|tauto].
    unfold consume_sse_ticket. simpl. rewrite sweep_lookup. split.
    + intros H. right. split; [done|]. exists t. destruct (tickets !! t) as [i|]; [|done].
      exists i. by destruct (live SSE_TICKET_TTL now i).
    + intros [?|(_ & t' & i & [= <-] & -> & ->)]; [tauto|done].
  - split_and!; [|done|tauto]. split; [done|]. intros [?|(_ & t' & i & ? & _)]; [tauto|done].
Qed.

Definition token_config : WebConfig := mk_config (str "s3cr3t") (str "/dev/null") false.

(** A live ticket opens the event stream, once. *)
Lemma authorized_spec_witness :
  let r := mk_request (str "GET") (str "/api/v1/events?ticket=abc") [] [] in
  fst (authorized r token_config {[str "abc" := 0%Z]} 5) = true
  /\ snd (authorized r token_config {[str "abc" := 0%Z]} 5) !! str "abc" = None.
Proof.
  cbv zeta.
  destruct (authorized_spec (mk_request (str "GET") (str "/api/v1/events?ticket=abc") [] [])
              token_config {[str "abc" := 0%Z]} 5) as (H1 & H2 & _); [discriminate|].
  split.
  - apply H1. right. split; [vm_compute; reflexivity|]. exists (str "abc"), 0%Z.
    split_and!; vm_compute; reflexivity.
  - apply H2; [vm_compute; reflexivity..|vm_compute; discriminate].
Defined.

(** ** Cross-origin requests *)

Lemma after_scheme_spec scheme h :
  ":"%byte ∉ scheme -> contains h (str "://") = false ->
  after_scheme (scheme ++ str "://" ++ h) = Some h.
Proof.
  intros Hs Hh. unfold after_scheme.
  assert (find_sub (str "://") (scheme ++ str "://" ++ h) = Some (length scheme)) as ->.
  { apply find_sub_first.
    - rewrite drop_app_length. apply starts_with_app.
    - intros j Hj. rewrite drop_app_le by lia.
      destruct (drop j scheme) as [|b l] eqn:Hd.
      + apply (f_equal length) in Hd. rewrite length_drop in Hd. simpl in Hd. lia.
      + change (str "://") with (":"%byte :: str "//"). simpl.
        rewrite bool_decide_eq_false_2; [done|]. intros <-. apply Hs.
        rewrite <- (take_drop j scheme), Hd. set_solver. }
  rewrite app_assoc, drop_app_length' by (rewrite length_app; done).
  unfold contains in Hh. by destruct (find_sub (str "://") h).
Qed.

(** A cross-origin browser request is refused, whatever else it carries: if
    [csrf_ok] accepts a request with an [Origin] header, that origin has the form
    [scheme://h] with [h] nonempty and equal, up to ASCII case, to the request's
    own [Host]; an opaque origin such as [null] is never accepted; and outside the
    event stream the custom client header must be there. *)
Theorem csrf_ok_same_origin r :
  csrf_ok r = true ->
  (forall scheme h, header r (str "origin") = Some (scheme ++ str "://" ++ h) ->
     ":"%byte ∉ scheme -> contains h (str "://") = false ->
     h <> [] /\ eq_ignore_ascii_case h (default [] (header r (str "host"))) = true) /\
  (forall o, header r (str "origin") = Some o -> contains o (str "://") = true) /\
  (route r <> EVENTS_ROUTE -> is_Some (header r (str "x-allgres-client"))).
Proof.
  unfold csrf_ok. intros H.
  assert (forall o, header r (str "origin") = Some o ->
    default [] (after_scheme o) <> [] /\
    eq_ignore_ascii_case (default [] (after_scheme o)) (default [] (header r (str "host"))) = true)
    as Horigin.
  { intros o Ho. rewrite Ho in H. destruct (default [] (after_scheme o)) as [|b l]; [done|].
    split; [done|]. simpl in H. by destruct (eq_ignore_ascii_case _ _). }
  split_and!.
  - intros scheme h Ho Hs Hh. specialize (Horigin _ Ho). by rewrite after_scheme_spec in Horigin.
  - intros o Ho. destruct (Horigin _ Ho) as [Hne _]. unfold after_scheme in Hne. unfold contains.
    by destruct (find_sub (str "://") o).
  - intros Hr. rewrite (bool_decide_eq_false_2 _ Hr) in H.
    destruct (negb _) in H; [done|]. by destruct (header r (str "x-allgres-client")).
Qed.

Definition same_origin_request : HttpRequest :=
  mk_request (str "POST") (str "/api/v1/run")
    [(str "host", str "A"); (str "origin", str "http://a"); (str "x-allgres-client", str "d")] [].

Lemma csrf_ok_same_origin_witness :
  csrf_ok same_origin_request = true
  /\ eq_ignore_ascii_case (str "a") (default [] (header same_origin_request (str "host"))) = true.
Proof.
  split; [vm_compute; reflexivity|].
  destruct (csrf_ok_same_origin same_origin_request eq_refl) as [H _].
  apply (H (str "http") (str "a")).
  - vm_compute. reflexivity.
  - apply (bool_decide_eq_false_1 (":"%byte ∈ str "http")). vm_compute. reflexivity.
  - vm_compute. reflexivity.
Defined.

(** ** Exposure *)

(** The decimal text of an octet. *)
Definition dec_byte (b : byte) : bytes :=
  let n := u8 b in
  let d v := default x30 (Byte.of_N (Z.to_N (48 + v))) in
  if (n <? 10)%Z then [d n]
  else if (n <? 100)%Z then [d (n / 10)%Z; d (n mod 10)%Z]
  else [d (n / 100)%Z; d (n / 10 mod 10)%Z; d (n mod 10)%Z].

Definition dotted_quad (a b c d : byte) : bytes :=
  dec_byte a ++ "."%byte :: dec_byte b ++ "."%byte :: dec_byte c ++ "."%byte :: dec_byte d.

Lemma rfind_last c s t : c ∉ t -> rfind c (s ++ c :: t) = Some (length s).
Proof.
  intros Ht. induction s as [|b s IH]; simpl; [|by rewrite IH].
  assert (rfind c t = None) as ->; [|by rewrite bool_decide_eq_true_2].
  induction t as [|b t IH]; simpl; [done|]. rewrite not_elem_of_cons in Ht. destruct Ht as [Hb Ht].
  rewrite IH by done. by rewrite bool_decide_eq_false_2 by congruence.
Qed.

Lemma dec_byte_digits b : forallb is_ascii_digit (dec_byte b) = true /\ dec_byte b <> [].
Proof. destruct b; vm_compute; split; done. Qed.

Lemma trim_end_digit s c :
  is_ascii_digit c = true -> trim_end_matches "]"%byte (s ++ [c]) = s ++ [c].
Proof.
  intros Hc. unfold trim_end_matches. rewrite rev_app_distr. simpl.
  rewrite bool_decide_eq_false_2 by (by intros ->). simpl. by rewrite rev_involutive.
Qed.

(** Removing the brackets leaves a host that starts and ends with a digit alone. *)
Lemma unbracket_digits x s y :
  is_ascii_digit x = true -> is_ascii_digit y = true ->
  trim_end_matches "]"%byte (drop_while (fun b => b == "["%byte) (x :: s ++ [y])) = x :: s ++ [y].
Proof.
  intros Hx Hy. cbn [drop_while]. rewrite bool_decide_eq_false_2 by (by intros ->).
  by apply (trim_end_digit (x :: s)).
Qed.

Lemma dotted_quad_shape a b c d :
  exists x s y, dotted_quad a b c d = x :: s ++ [y] /\
    is_ascii_digit x = true /\ is_ascii_digit y = true.
Proof.
  destruct (dec_byte_digits a) as [Ha Hne]. destruct (dec_byte_digits d) as [Hd Hned].
  unfold dotted_quad. destruct (dec_byte a) as [|x l]; [done|]. simpl in Ha. breflect.
  destruct (exists_last Hned) as (m & y & Hy). rewrite Hy in *.
  rewrite forallb_app in Hd. simpl in Hd. breflect.
  exists x, (l ++ "."%byte :: dec_byte b ++ "."%byte :: dec_byte c ++ "."%byte :: m), y.
  split_and!; [|done|done]. simpl. f_equal. repeat (rewrite <- !app_assoc; simpl). done.
Qed.

(** For a numeric IPv4 address the exposure check is exact. *)
Lemma check_exposure_ipv4 a b c d port tok insecure :
  forallb is_ascii_digit port = true ->
  (check_exposure (dotted_quad a b c d ++ ":"%byte :: port) tok insecure = Exposure_refused <->
   a <> x7f /\ tok = [] /\ insecure <> Some (str "1")).
Proof.
  intros Hport. unfold check_exposure.
  assert (is_loopback_addr (dotted_quad a b c d ++ ":"%byte :: port) = (a == x7f)) as ->.
  { unfold is_loopback_addr. rewrite rfind_last, take_app_length.
    - destruct (dotted_quad_shape a b c d) as (x & s & y & Hq & Hx & Hy).
      rewrite Hq, unbracket_digits, <- Hq by done. clear.
      assert (bool_decide (dotted_quad a b c d = str "::1") = false) as ->
        by (apply bool_decide_eq_false_2; destruct a; discriminate).
      assert (bool_decide (dotted_quad a b c d = str "localhost") = false) as ->
        by (apply bool_decide_eq_false_2; destruct a; discriminate).
      rewrite !orb_false_r.
      assert (starts_with (str "127.") (dotted_quad a b c d) = (a == x7f)) as ->
        by (destruct a; reflexivity).
      destruct (bool_decide (dotted_quad a b c d = str "127.0.0.1")) eqn:E; [|done].
      breflect. symmetry. apply bool_decide_eq_true_2. destruct a; first [reflexivity|discriminate].
    - intros Hin. apply forallb_Forall in Hport.
      eapply Forall_forall in Hport; [|by apply list_elem_of_In]. done. }
  destruct (bool_decide (a = x7f)) eqn:Ea; breflect; simpl; [naive_solver|].
  destruct tok as [|t tok]; simpl; [|naive_solver].
  case_bool_decide; naive_solver.
Qed.
