(* ===== verification/Web.v ===== *)
(** * [src/web.rs]: the dashboard's HTTP server

    Responses, the API routes, the handler of one connection and the accept loop
    with its bounded number of threads. *)

From S2P Require Import Prelude Utf8 RustStr F64 Net Json Config HttpProtocol RateLimit WebAuth.

(** ** Responses *)

Definition security_headers : bytes :=
  str "X-Content-Type-Options: nosniff" ++ CRLF
  ++ str "X-Frame-Options: DENY" ++ CRLF
  ++ str "Referrer-Policy: no-referrer" ++ CRLF
  ++ str "Cross-Origin-Resource-Policy: same-origin" ++ CRLF.

(** What [respond] writes. *)
Definition respond (status content_type body extra : bytes) : bytes :=
  str "HTTP/1.1 " ++ status ++ CRLF
  ++ str "Content-Type: " ++ content_type ++ CRLF
  ++ str "Content-Length: " ++ format_radix 10 (Z.of_nat (length body)) ++ CRLF
  ++ str "Cache-Control: no-store" ++ CRLF
  ++ str "Connection: close" ++ CRLF
  ++ security_headers ++ extra ++ CRLF
  ++ body.

(** [s.replace(needle, by)] for a nonempty needle; [skip] counts the bytes of a match
    still to be stepped over. *)
Fixpoint replace_from (skip : nat) (needle by_ s : bytes) : bytes :=
  match s with
  | [] => []
  | b :: r =>
    match skip with
    | S k => replace_from k needle by_ r
    | O => if starts_with needle s then by_ ++ replace_from (pred (length needle)) needle by_ r
           else b :: replace_from 0 needle by_ r
    end
  end.

Definition replace (s needle by_ : bytes) : bytes := replace_from 0 needle by_ s.

(** ** Talking to the runtime worker *)

(** How one exchange over the runtime's socket goes. *)
Inductive rpc_io :=
| ConnectFailed (e : bytes)
| WriteFailed
| ReadFailed
| Reply (text : bytes).

Section web.
Context `{SerdeJson}.

Definition json_error (text : bytes) : json :=
  jobj [(str "ok", JBool false); (str "error", JStr text)].

Definition rpc (io : rpc_io) : json :=
  match io with
  | ConnectFailed e => json_error (str "runtime unavailable: " ++ e)
  | WriteFailed => json_error (str "rpc_write_failed")
  | ReadFailed => json_error (str "rpc_read_failed")
  | Reply text => default (json_error (str "invalid_rpc_response")) (from_str text)
  end.

Definition body_json (r : HttpRequest) : json := default (jobj []) (from_str (body r)).

(** ** Routes *)

(** What [api_route] does with a request: forward a value to the runtime, answer by
    itself, or not know the route; an assignment to an index panics where the body
    is no object. *)
Inductive route_action :=
| Forward (req : json)
| Answer (v : json)
| NoRoute
| Panics.

Definition action_request (name : string) : json := jobj [(str "action", JStr (str name))].

(** [b["action"] = json!(name)] *)
Definition forced_action (name : string) (r : HttpRequest) : route_action :=
  match index_set (body_json r) (str "action") (JStr (str name)) with
  | Some b => Forward b
  | None => Panics
  end.

Definition AGENTS_PREFIX : bytes := str "/api/v1/agents/".

(** A monitoring view, with the session token of the request's header. *)
Definition list_request (name : string) (limit : Z) (r : HttpRequest) : json :=
  jobj [(str "action", JStr (str name)); (str "limit", JInt limit);
        (str "session_token", jopt (header r (str "x-allgres-session")))].

Definition is_route (r : HttpRequest) (m p : string) : bool :=
  (method r == str m) && (route r == str p).

Definition agents_update (r : HttpRequest) : route_action :=
  match index_set (body_json r) (str "action") (JStr (str "agents.update")) with
  | Some b =>
    match index_set b (str "agent_id") (JStr (trim_start_matches AGENTS_PREFIX (route r))) with
    | Some b' => Forward b'
    | None => Panics
    end
  | None => Panics
  end.

Definition route_request (r : HttpRequest) : route_action :=
  if is_route r "GET" "/api/v1/status" then Forward (action_request "overview")
  else if is_route r "GET" "/api/v1/agents" then Forward (action_request "agents.list")
  else if is_route r "POST" "/api/v1/agents" then forced_action "agents.create" r
  else if is_route r "POST" "/api/v1/run" then forced_action "run" r
  else if is_route r "GET" "/api/v1/tasks" then Forward (list_request "tasks.list" 200 r)
  else if is_route r "GET" "/api/v1/logs" then Forward (list_request "logs.list" 250 r)
  else if is_route r "GET" "/api/v1/settings" then Forward (action_request "settings.get")
  else if is_route r "POST" "/api/v1/selftest" then Forward (action_request "selftest")
  else if is_route r "POST" "/api/v1/settings/provider" then forced_action "provider.update" r
  else if (method r == str "PATCH") && starts_with AGENTS_PREFIX (route r) then agents_update r
  else if is_route r "POST" "/api/v1/rpc" then
    let b := body_json r in
    match get_str b (str "action") with
    | None => Answer (json_error (str "action_required"))
    | Some _ => Forward b
    end
  else NoRoute.

(** [api_route]: the value it answers with, or [None]; with the requests it forwards.
    The outer [None] is a panic. *)
Definition api_route (backend : json -> rpc_io) (r : HttpRequest) : option (option json * list json) :=
  match route_request r with
  | Forward req => Some (Some (rpc (backend req)), [req])
  | Answer v => Some (Some v, [])
  | NoRoute => Some (None, [])
  | Panics => None
  end.

(** ** The event stream *)

Definition SSE_TOTAL : Z := from_secs 30.

Definition stream_head : bytes :=
  str "HTTP/1.1 200 OK" ++ CRLF
  ++ str "Content-Type: text/event-stream; charset=utf-8" ++ CRLF
  ++ str "Cache-Control: no-store" ++ CRLF
  ++ str "Connection: close" ++ CRLF
  ++ str "X-Accel-Buffering: no" ++ CRLF
  ++ security_headers ++ CRLF.

Definition events_request : json := action_request "events".

Definition event_frame (snapshot : json) : bytes :=
  str "event: snapshot" ++ [x0a] ++ str "data: " ++ to_string snapshot ++ [x0a; x0a].

(** One turn of the stream: the clock, the snapshot's exchange, and whether the client
    took the frame. *)
Record sse_tick := mk_sse { sse_now : Z; sse_io : rpc_io; sse_written : bool }.

(** The frames written until the deadline passes or the client is gone, and the
    requests forwarded. *)
Fixpoint stream_loop (deadline : Z) (ticks : list sse_tick) : list bytes * list json :=
  match ticks with
  | [] => ([], [])
  | t :: rest =>
    if (sse_now t <? deadline)%Z then
      let frame := event_frame (rpc (sse_io t)) in
      if sse_written t then
        let (fs, qs) := stream_loop deadline rest in (frame :: fs, events_request :: qs)
      else ([], [events_request])
    else ([], [])
  end.

(** ** One connection *)

(** The locked state the connections share. *)
Record WebState := mk_web { windows : RateWindows; tickets : ticket_map }.

(** What a connection meets: its peer, the request read (if any), the clock at each
    place it is read, what the nonce is drawn from, the runtime behind the socket, and the event
    stream's turns (and whether its head could be written). *)
Record Conn := mk_conn {
  peer_ip : option IpAddr;
  request : option HttpRequest;
  now_rate : Z; now_lock : Z; now_auth : Z; now_fail : Z; now_mint : Z; now_stream : Z;
  entropy : Entropy;
  backend : json -> rpc_io;
  head_written : bool;
  sse_ticks : list sse_tick
}.

(** How the handler ends: what it wrote, or that its thread panicked. *)
Inductive ending :=
| Wrote (text : bytes)
| Silent
| Panicked.

Definition respond_json (status : string) (b : bytes) : ending :=
  Wrote (respond (str status) (str "application/json") b []).

(** [{"ok":false,"error":"code"}], written by hand in the source. *)
Definition QUOTE : bytes := [x22].
Definition error_body (code : string) : bytes :=
  str "{" ++ QUOTE ++ str "ok" ++ QUOTE ++ str ":false," ++ QUOTE ++ str "error" ++ QUOTE ++ str ":"
  ++ QUOTE ++ str code ++ QUOTE ++ str "}".

Definition respond_error (status code : string) (extra : bytes) : ending :=
  Wrote (respond (str status) (str "application/json") (error_body code) extra).

(** [if let Some(ip) = peer_ip { .. }] around a check of the shared state. *)
Definition check_peer (peer : option IpAddr) (st : WebState)
    (check : RateWindows -> IpAddr -> bool * RateWindows) : bool * WebState :=
  match peer with
  | None => (false, st)
  | Some addr => let (b, w) := check (windows st) addr in (b, mk_web w (tickets st))
  end.

(** ** The mock provider *)

Definition MOCK_SECRET : bytes := str "allgres-mock-oauth-secret".

Definition q (s : string) : bytes := QUOTE ++ str s ++ QUOTE.

Definition mock_chat_body : json :=
  jobj [(str "id", JStr (str "allgres-mock"));
        (str "object", JStr (str "chat.completion"));
        (str "choices", JArr [jobj [
           (str "index", JInt 0);
           (str "message", jobj [
              (str "role", JStr (str "assistant"));
              (str "content", JStr (str "{" ++ q "action" ++ str ":" ++ q "final_answer" ++ str ","
                                    ++ q "answer" ++ str ":" ++ q "Allgres mock runtime OK" ++ str "}"))]);
           (str "finish_reason", JStr (str "stop"))]])].

Definition mock_oauth (r : HttpRequest) : ending :=
  let form := parse_form_body (body r) in
  let code := default [] (form !! str "code") in
  let secret := default [] (form !! str "client_secret") in
  if negb (nonempty code) || (secret != MOCK_SECRET)
  then respond_json "401 Unauthorized"
         (str "{" ++ q "error" ++ str ":" ++ q "invalid_client" ++ str "}")
  else respond_json "200 OK" (to_string (jobj [
         (str "access_token", JStr (str "allgres-mock-access-" ++ code));
         (str "refresh_token", JStr (str "allgres-mock-refresh"));
         (str "expires_in", JInt 3600);
         (str "token_type", JStr (str "bearer"))])).

Definition KEYWORDS : list bytes :=
  [str "alpha"; str "beta"; str "gamma"; str "delta"; str "epsilon"; str "zeta"; str "eta"; str "theta"].

Definition mock_embeddings (r : HttpRequest) : ending :=
  let input := to_ascii_lowercase (default [] (from_str (body r) ≫= fun v => get_str v (str "input"))) in
  let embedding := map (fun k => jfloat (if contains input k then f64_of_decimal false 1 0 else f64_of_decimal false 5 (-2))) KEYWORDS in
  respond_json "200 OK" (to_string (jobj [
    (str "data", JArr [jobj [(str "embedding", JArr embedding); (str "index", JInt 0)]]);
    (str "model", JStr (str "allgres-mock-embed"));
    (str "object", JStr (str "list"))])).

(** ** The handler *)

Definition DASHBOARD_CSP (n : bytes) : bytes :=
  str "Content-Security-Policy: default-src 'none'; script-src 'nonce-" ++ n
  ++ str "'; style-src 'nonce-" ++ n
  ++ str "'; connect-src 'self'; img-src 'self' data:; base-uri 'none'; form-action 'none'; frame-ancestors 'none'"
  ++ CRLF.

Definition not_found : ending := respond_error "404 Not Found" "not_found" [].

(** The part of the handler behind the gates: an API request from an authorized
    client. *)
Definition serve_api (st : WebState) (c : Conn) (r : HttpRequest) : WebState * list json * ending :=
  if route r == str "/api/v1/events/ticket" then
    if method r != str "POST"
    then (st, [], respond_error "405 Method Not Allowed" "method_not_allowed"
                    (str "Allow: POST" ++ CRLF))
    else
      let (ticket, ts) := mint_sse_ticket (tickets st) (now_mint c) (entropy c) in
      (mk_web (windows st) ts, [],
       respond_json "200 OK" (to_string (jobj [(str "ok", JBool true); (str "ticket", JStr ticket);
                                          (str "expires_in", JInt 30)])))
  else if route r == EVENTS_ROUTE then
    if head_written c then
      let (fs, qs) := stream_loop (now_stream c + SSE_TOTAL) (sse_ticks c) in
      (st, qs, Wrote (stream_head ++ concat fs))
    else (st, [], Silent)
  else
    match api_route (backend c) r with
    | None => (st, [], Panicked)
    | Some (Some v, qs) =>
      (st, qs, respond_json (if get_bool v (str "ok") == Some false then "400 Bad Request" else "200 OK")
                 (to_string v))
    | Some (None, qs) => (st, qs, not_found)
    end.

(** The gates before it: cross-origin, lockout, authorization. *)
Definition gate_api (cfg : WebConfig) (st : WebState) (c : Conn) (r : HttpRequest)
  : WebState * list json * ending :=
  if negb (csrf_ok r) then (st, [], respond_error "403 Forbidden" "cross_origin_request_rejected" [])
  else
    let (locked, st) := check_peer (peer_ip c) st (fun w a => auth_failures_exceeded w a (now_lock c)) in
    if locked then (st, [], respond_error "429 Too Many Requests" "rate_limited" (str "Retry-After: 300" ++ CRLF))
    else
      let (ok, ts) := authorized r cfg (tickets st) (now_auth c) in
      let st := mk_web (windows st) ts in
      if negb ok then
        let st := match peer_ip c with
                  | Some addr => mk_web (record_auth_failure (windows st) addr (now_fail c)) (tickets st)
                  | None => st
                  end in
        (st, [], respond_error "401 Unauthorized" "unauthorized" (str "WWW-Authenticate: Bearer" ++ CRLF))
      else serve_api st c r.

Definition is_mock_chat (p : bytes) : bool :=
  (p == str "/mock/chat/completions") || (p == str "/mock/slow/chat/completions").

(** The handler of one connection: the shared state it leaves, the requests it sends
    to the runtime worker, and how it ends. *)
Definition handle_web_connection (html : bytes) (cfg : WebConfig) (st : WebState) (c : Conn)
  : WebState * list json * ending :=
  let (limited, st) := check_peer (peer_ip c) st (fun w a => rate_limited w a (now_rate c)) in
  if limited then
    (st, [], respond_error "429 Too Many Requests" "rate_limited" (str "Retry-After: 60" ++ CRLF))
  else
  match request c with
  | None => (st, [], Silent)
  | Some r =>
    let p := route r in
    if method r == str "OPTIONS" then
      (st, [], respond_error "405 Method Not Allowed" "method_not_allowed"
                 (str "Allow: GET, POST, PATCH" ++ CRLF))
    else if p == str "/healthz" then
      (st, [], respond_json "200 OK" (str "{" ++ q "ok" ++ str ":true}"))
    else if is_mock_chat p then
      (st, [], if negb (mock_enabled cfg) then not_found
               else respond_json "200 OK" (to_string mock_chat_body))
    else if p == str "/mock/oauth/token" then
      (st, [], if negb (mock_enabled cfg) then not_found else mock_oauth r)
    else if p == str "/mock/embeddings" then
      (st, [], if negb (mock_enabled cfg) then not_found else mock_embeddings r)
    else if p == str "/" then
      let n := nonce (entropy c) in
      (st, [], Wrote (respond (str "200 OK") (str "text/html; charset=utf-8")
                        (replace html (str "__CSP_NONCE__") n) (DASHBOARD_CSP n)))
    else if negb (starts_with (str "/api/v1/") p) then (st, [], not_found)
    else gate_api cfg st c r
  end.
End web.

(** ** Starting the worker *)

(** What [allgres_web_main] comes to before its loop. *)
Inductive web_start :=
| Web_refused                                   (* [check_exposure] *)
| Web_bind_failed
| Web_nonblocking_failed
| Listening (addr : bytes) (cfg : WebConfig).

Definition web_config (env : environment) (data_dir : option bytes) (temp_dir : bytes) : WebConfig :=
  mk_config (default [] (env (str "ALLGRES_DASHBOARD_TOKEN")))
            (rpc_socket_path env data_dir temp_dir)
            (env (str "ALLGRES_ENABLE_MOCK") == Some (str "1")).

(** [bind] and [nonblocking] say which of the two system calls succeed. *)
Definition allgres_web_main_start (env : environment) (data_dir : option bytes) (temp_dir : bytes)
    (bind : bytes -> bool) (nonblocking : bool) : web_start :=
  let addr := configured_http_addr env in
  let cfg := web_config env data_dir temp_dir in
  match check_exposure addr (token cfg) (env (str "ALLGRES_ALLOW_INSECURE_HTTP")) with
  | Exposure_refused => Web_refused
  | Exposure_ok =>
    if negb (bind addr) then Web_bind_failed
    else if negb nonblocking then Web_nonblocking_failed
    else Listening addr cfg
  end.

(** ** The accept loop: [WEB_THREADS] *)

Definition MAX_WEB_THREADS : nat := 64.

(** The counter, the handlers running, and the threads a panic ended. *)
Record Listener := mk_listener { WEB_THREADS : nat; running : nat; dead : nat }.

Definition listener_init : Listener := mk_listener 0 0 0.

Inductive web_event :=
| Refused              (* answered 503 *)
| Spawned
| SpawnFailed
| HandlerReturned
| HandlerPanicked.

(** Each accepted connection is refused or handed to a thread; a thread's handler
    returns, and only then is the counter decremented. *)
Inductive web_step : Listener -> web_event -> Listener -> Prop :=
| accept_refused l :
    (MAX_WEB_THREADS <= WEB_THREADS l)%nat -> web_step l Refused l
| accept_spawned l :
    (WEB_THREADS l < MAX_WEB_THREADS)%nat ->
    web_step l Spawned (mk_listener (S (WEB_THREADS l)) (S (running l)) (dead l))
| accept_spawn_failed l :
    (WEB_THREADS l < MAX_WEB_THREADS)%nat -> web_step l SpawnFailed l
| handler_returned l n :
    running l = S n -> web_step l HandlerReturned (mk_listener (pred (WEB_THREADS l)) n (dead l))
| handler_panicked l n :
    running l = S n -> web_step l HandlerPanicked (mk_listener (WEB_THREADS l) n (S (dead l))).

Inductive web_run : Listener -> list web_event -> Listener -> Prop :=
| web_done l : web_run l [] l
| web_more l e l' es l'' : web_step l e l' -> web_run l' es l'' -> web_run l (e :: es) l''.

(** ** The gates *)

#[local] Arguments str : simpl never.

Section gates.
Context `{SerdeJson}.

Lemma check_peer_tickets peer st check : tickets (check_peer peer st check).2 = tickets st.
Proof. unfold check_peer. destruct peer; [|done]. by destruct (check _ _). Qed.

(** A request passes the gates. *)
Definition admitted (cfg : WebConfig) (st : WebState) (c : Conn) (r : HttpRequest) : Prop :=
  let rate := check_peer (peer_ip c) st (fun w a => rate_limited w a (now_rate c)) in
  let lock := check_peer (peer_ip c) rate.2 (fun w a => auth_failures_exceeded w a (now_lock c)) in
  rate.1 = false /\ method r <> str "OPTIONS" /\ starts_with (str "/api/v1/") (route r) = true
  /\ csrf_ok r = true /\ lock.1 = false
  /\ (authorized r cfg (tickets st) (now_auth c)).1 = true.

(** The state [serve_api] starts from. *)
Definition admitted_state (cfg : WebConfig) (st : WebState) (c : Conn) (r : HttpRequest) : WebState :=
  let rate := check_peer (peer_ip c) st (fun w a => rate_limited w a (now_rate c)) in
  let lock := check_peer (peer_ip c) rate.2 (fun w a => auth_failures_exceeded w a (now_lock c)) in
  mk_web (windows lock.2) (authorized r cfg (tickets st) (now_auth c)).2.

Ltac stop Ht :=
  right; do 2 eexists; split; [reflexivity|split; [discriminate|by rewrite Ht]].

(** The handler either serves an admitted request, or neither calls the runtime nor
    panics nor issues a ticket. *)
Lemma handle_cases html cfg st c :
  (exists r, request c = Some r /\ admitted cfg st c r
     /\ handle_web_connection html cfg st c = serve_api (admitted_state cfg st c r) c r)
  \/ (exists st' e, handle_web_connection html cfg st c = (st', [], e) /\ e <> Panicked
       /\ (forall t i, tickets st' !! t = Some i -> tickets st !! t = Some i)).
Proof.
  unfold handle_web_connection.
  pose proof (check_peer_tickets (peer_ip c) st (fun w a => rate_limited w a (now_rate c))) as Ht1.
  destruct (check_peer (peer_ip c) st (fun w a => rate_limited w a (now_rate c))) as [limited st1] eqn:H1.
  cbn [snd] in Ht1. destruct limited; [stop Ht1|].
  destruct (request c) as [r|] eqn:Hr; [|stop Ht1].
  cbv zeta. destruct (method r == str "OPTIONS") eqn:Ho; [stop Ht1|].
  destruct (route r == str "/healthz"); [stop Ht1|].
  destruct (is_mock_chat (route r)); [destruct (mock_enabled cfg); stop Ht1|].
  destruct (route r == str "/mock/oauth/token").
  { destruct (mock_enabled cfg); unfold mock_oauth; cbn [negb]; [|stop Ht1].
    destruct (_ || _); stop Ht1. }
  destruct (route r == str "/mock/embeddings"); [destruct (mock_enabled cfg); stop Ht1|].
  destruct (route r == str "/"); [stop Ht1|].
  destruct (starts_with (str "/api/v1/") (route r)) eqn:Hs; cbn [negb]; [|stop Ht1].
  unfold gate_api. destruct (csrf_ok r) eqn:Hc; cbn [negb]; [|stop Ht1].
  pose proof (check_peer_tickets (peer_ip c) st1 (fun w a => auth_failures_exceeded w a (now_lock c))) as Ht2.
  destruct (check_peer (peer_ip c) st1 (fun w a => auth_failures_exceeded w a (now_lock c)))
    as [locked st2] eqn:H2. cbn [snd] in Ht2. rewrite Ht1 in Ht2.
  destruct locked; [stop Ht2|]. rewrite Ht2. destruct (authorized r cfg (tickets st) (now_auth c)) as [ok ts] eqn:Ha.
  destruct ok; cbn [negb].
  - left. exists r. unfold admitted, admitted_state. rewrite H1. simpl. rewrite H2, Ha. simpl.
    breflect. done.
  - right. do 2 eexists. split; [done|]. split; [done|].
    assert (forall t i, ts !! t = Some i -> tickets st !! t = Some i) as Hts.
    { intros t i. pose proof (authorized_tickets r cfg (tickets st) (now_auth c) t i) as E.
      rewrite Ha in E. exact E. }
    by destruct (peer_ip c).
Qed.

(** An admitted request is served. *)
Lemma handle_admitted html cfg st c r :
  request c = Some r -> admitted cfg st c r ->
  handle_web_connection html cfg st c = serve_api (admitted_state cfg st c r) c r.
Proof.
  intros Hr (H1 & H2 & H3 & H4 & H5 & H6). unfold handle_web_connection, admitted_state.
  pose proof (check_peer_tickets (peer_ip c) st (fun w a => rate_limited w a (now_rate c))) as Ht1.
  destruct (check_peer (peer_ip c) st (fun w a => rate_limited w a (now_rate c))) as [limited st1].
  cbn [fst snd] in *. subst limited. rewrite Hr. cbv zeta.
  assert (forall p, starts_with (str "/api/v1/") p = false -> route r <> p) as Hp
    by (intros p Hp E; congruence).
  unfold is_mock_chat. rewrite !bool_decide_eq_false_2 by (done || by apply Hp). cbn [orb].
  rewrite H3. cbn [negb]. unfold gate_api. rewrite H4. cbn [negb].
  pose proof (check_peer_tickets (peer_ip c) st1 (fun w a => auth_failures_exceeded w a (now_lock c))) as Ht2.
  destruct (check_peer (peer_ip c) st1 _) as [locked st2]. cbn [fst snd] in *. subst locked.
  rewrite Ht2, Ht1. destruct (authorized r cfg (tickets st) (now_auth c)) as [ok ts].
  cbn [fst snd] in *. by subst ok.
Qed.
End gates.

(** The runtime worker hears only admitted requests.  Whatever a connection
    sends, if its handler forwards anything to the runtime then the address was
    under its rate limit, the request was for the API, passed the cross-origin
    check, came from an address that is not locked out, and was authorized. *)
Theorem runtime_hears_only_admitted `{SerdeJson} html cfg st c st' reqs e :
  handle_web_connection html cfg st c = (st', reqs, e) -> reqs <> [] ->
  exists r, request c = Some r /\ admitted cfg st c r.
Proof.
  intros Hh Hq. destruct (handle_cases html cfg st c) as [(r & Hr & Ha & _)|(s & e' & He & _)].
  - by exists r.
  - rewrite Hh in He. by simplify_eq.
Qed.

Definition sample_headers : list (bytes * bytes) :=
  [(str "host", str "localhost:8088"); (str "x-allgres-client", str "1")].

Definition post (p b : bytes) : HttpRequest := mk_request (str "POST") p sample_headers b.

Definition open_config : WebConfig := mk_config [] (str "/run/allgres.sock") false.

Definition sample_conn (r : HttpRequest) : Conn :=
  mk_conn (Some (V4 x7f x00 x00 x01)) (Some r) 0 0 0 0 0 0 (from_urandom []) (fun _ => Reply (str "{}")) true [].

Definition web_init : WebState := mk_web RATE_LIMIT_init ∅.

(** JSON text of which the empty object and the empty array are recognised. *)
#[local] Instance tiny_json : SerdeJson :=
  {| from_str := fun s => if s == str "{}" then Some (JObj [])
                          else if s == str "[]" then Some (JArr []) else None;
     to_string := fun _ => str "{}" |}.

Lemma runtime_hears_only_admitted_witness :
  exists r, request (sample_conn (post (str "/api/v1/run") (str "{}"))) = Some r
    /\ admitted open_config web_init (sample_conn (post (str "/api/v1/run") (str "{}"))) r.
Proof.
  set (out := handle_web_connection [] open_config web_init (sample_conn (post (str "/api/v1/run") (str "{}")))).
  apply (runtime_hears_only_admitted [] open_config web_init _ out.1.1 out.1.2 out.2).
  - fold out. clearbody out. by destruct out as [[]].
  - vm_compute. discriminate.
Defined.

(** A ticket is issued only against the dashboard token.  If a connection leaves
    a ticket in the map that was not there before, it was a [POST] to the ticket
    endpoint that passed every gate, and unless no token is configured at all it
    carried the token itself; a ticket cannot be traded for another. *)
Theorem ticket_issued_against_token `{SerdeJson} html cfg st c st' reqs e t i :
  handle_web_connection html cfg st c = (st', reqs, e) ->
  tickets st' !! t = Some i -> tickets st !! t <> Some i ->
  exists r, request c = Some r /\ admitted cfg st c r
    /\ method r = str "POST" /\ route r = str "/api/v1/events/ticket"
    /\ (token cfg = [] \/ bearer_ok r cfg = true).
Proof.
  intros Hh Ht Hn. destruct (handle_cases html cfg st c) as [(r & Hr & Ha & Hs)|(s & e' & He & _ & Hk)].
  2: { rewrite Hh in He. simplify_eq. by apply Hk in Ht. }
  exists r. split; [done|]. split; [done|]. rewrite Hh in Hs. symmetry in Hs.
  assert (forall i', (authorized r cfg (tickets st) (now_auth c)).2 !! t = Some i' ->
                     tickets st !! t = Some i') as Hk by apply authorized_tickets.
  unfold serve_api, admitted_state in Hs. cbn [tickets windows] in Hs.
  destruct (decide (route r = str "/api/v1/events/ticket")) as [Hroute|Hroute].
  - rewrite (bool_decide_eq_true_2 _ Hroute) in Hs.
    destruct (decide (method r = str "POST")) as [Hm|Hm];
      [rewrite (bool_decide_eq_true_2 _ Hm) in Hs|rewrite (bool_decide_eq_false_2 _ Hm) in Hs];
      cbn [negb] in Hs; [|simplify_eq; by apply Hk in Ht].
    split_and!; [done|done|]. destruct Ha as (_ & _ & _ & _ & _ & Ha). unfold authorized in Ha.
    destruct (token cfg) as [|b tk] eqn:Htok; [by left|]. right. cbn [nonempty negb] in Ha.
    destruct (bearer_ok r cfg); [done|]. rewrite Hroute in Ha. by vm_compute in Ha.
  - exfalso. rewrite (bool_decide_eq_false_2 _ Hroute) in Hs. apply Hn, Hk.
    repeat case_match; simplify_eq; done.
Qed.

Lemma ticket_issued_against_token_witness :
  exists r, request (sample_conn (post (str "/api/v1/events/ticket") [])) = Some r
    /\ admitted open_config web_init (sample_conn (post (str "/api/v1/events/ticket") [])) r
    /\ method r = str "POST" /\ route r = str "/api/v1/events/ticket"
    /\ (token open_config = [] \/ bearer_ok r open_config = true).
Proof.
  set (out := handle_web_connection [] open_config web_init
                (sample_conn (post (str "/api/v1/events/ticket") []))).
  apply (ticket_issued_against_token [] open_config web_init _ out.1.1 out.1.2 out.2 [] 0%Z).
  - fold out. clearbody out. by destruct out as [[]].
  - vm_compute. reflexivity.
  - vm_compute. discriminate.
Defined.

(** ** Routes *)

(** The routes with a fixed request or a forced action. *)
Definition route_table : list (string * string * string) :=
  [("GET", "/api/v1/status", "overview"); ("GET", "/api/v1/agents", "agents.list");
   ("POST", "/api/v1/agents", "agents.create"); ("POST", "/api/v1/run", "run");
   ("GET", "/api/v1/tasks", "tasks.list"); ("GET", "/api/v1/logs", "logs.list");
   ("GET", "/api/v1/settings", "settings.get"); ("POST", "/api/v1/selftest", "selftest");
   ("POST", "/api/v1/settings/provider", "provider.update")]%string.

Section routes.
Context `{S : SerdeJson}.

Lemma forced_action_spec name r req :
  forced_action name r = Forward req -> get_str req (str "action") = Some (str name).
Proof.
  unfold forced_action. destruct (index_set _ _ _) as [b|] eqn:Hi; [|done]. intros [= <-].
  apply get_index_set in Hi. unfold get_str. by rewrite Hi.
Qed.

Lemma is_route_spec r m p : is_route r m p = true <-> method r = str m /\ route r = str p.
Proof. unfold is_route. by rewrite andb_true_iff, !bool_decide_eq_true. Qed.

(** What a forwarded request asks for. *)
Definition forwards_as (r : HttpRequest) (req : json) : Prop :=
  (exists m p a, In (m, p, a) route_table /\ method r = str m /\ route r = str p
     /\ get_str req (str "action") = Some (str a))
  \/ (method r = str "PATCH" /\ starts_with AGENTS_PREFIX (route r) = true
      /\ get_str req (str "action") = Some (str "agents.update")
      /\ get_str req (str "agent_id") = Some (trim_start_matches AGENTS_PREFIX (route r)))
  \/ (method r = str "POST" /\ route r = str "/api/v1/rpc" /\ from_str (body r) = Some req
      /\ exists a, get_str req (str "action") = Some a).

Lemma table_route r m p a req :
  In (m, p, a) route_table -> is_route r m p = true ->
  get_str req (str "action") = Some (str a) -> forwards_as r req.
Proof. intros Hin [Hm Hp]%is_route_spec Ha. left. by exists m, p, a. Qed.

Ltac table_case m p a :=
  match goal with |- (if is_route ?r m p then _ else _) = _ -> _ =>
    destruct (is_route r m p) eqn:?;
    [intros Hf; eapply (table_route r m p a); [simpl; tauto|assumption|];
     first [by apply forced_action_spec in Hf | by injection Hf as <-]|]
  end.

(** Assigning into a well-formed body keeps it well-formed. *)
Lemma body_json_wf `{!SerdeJsonTyped S} r : wf_json (body_json r) = true.
Proof.
  unfold body_json. destruct (from_str (body r)) as [v|] eqn:Hv; [|done]. by apply from_str_wf in Hv.
Qed.

Lemma route_request_wf `{!SerdeJsonTyped S} r req : route_request r = Forward req -> wf_json req = true.
Proof.
  pose proof (body_json_wf r) as Hb.
  assert (forall name, forced_action name r = Forward req -> wf_json req = true) as Hforced.
  { intros name. unfold forced_action. destruct (index_set _ _ _) eqn:Hi; [|done]. intros [= <-].
    by eapply index_set_wf in Hi. }
  assert (agents_update r = Forward req -> wf_json req = true) as Hupdate.
  { unfold agents_update. destruct (index_set (body_json r) _ _) as [b|] eqn:Hi; [|done].
    destruct (index_set b _ _) as [b'|] eqn:Hi'; [|done]. intros [= <-].
    eapply index_set_wf in Hi; [|done|done]. by eapply index_set_wf in Hi'. }
  assert (forall name n, wf_json (JInt n) = true -> wf_json (list_request name n r) = true) as Hlist.
  { intros name n Hn. apply jobj_wf. cbn [forallb snd]. by rewrite Hn, jopt_wf. }
  unfold route_request.
  do 9 (match goal with |- (if ?c then _ else _) = _ -> _ => destruct c end;
        [first [by apply Hforced|intros [= <-]; first [reflexivity|by apply Hlist]]|]).
  destruct (_ && _); [exact Hupdate|]. destruct (is_route r "POST" "/api/v1/rpc"); [|done]. cbv zeta.
  destruct (get_str _ _); [by intros [= <-]|done].
Qed.

(** What a route forwards. *)
Lemma route_forwards r req : route_request r = Forward req -> forwards_as r req.
Proof.
  unfold route_request.
  table_case "GET"%string "/api/v1/status"%string "overview"%string.
  table_case "GET"%string "/api/v1/agents"%string "agents.list"%string.
  table_case "POST"%string "/api/v1/agents"%string "agents.create"%string.
  table_case "POST"%string "/api/v1/run"%string "run"%string.
  table_case "GET"%string "/api/v1/tasks"%string "tasks.list"%string.
  table_case "GET"%string "/api/v1/logs"%string "logs.list"%string.
  table_case "GET"%string "/api/v1/settings"%string "settings.get"%string.
  table_case "POST"%string "/api/v1/selftest"%string "selftest"%string.
  table_case "POST"%string "/api/v1/settings/provider"%string "provider.update"%string.
  destruct ((method r == str "PATCH") && starts_with AGENTS_PREFIX (route r)) eqn:Hp.
  - intros Hf. right. left. apply andb_true_iff in Hp as [Hm Hp]. apply bool_decide_eq_true in Hm.
    unfold agents_update in Hf. destruct (index_set (body_json r) _ _) as [b|] eqn:Hb; [|done].
    destruct (index_set b _ _) as [b'|] eqn:Hb'; [|done]. injection Hf as <-.
    split_and!; [done|done| |]; unfold get_str.
    + rewrite (get_index_set_ne _ _ _ _ _ (ltac:(discriminate) : str "action" <> str "agent_id") Hb').
      by rewrite (get_index_set _ _ _ _ Hb).
    + by rewrite (get_index_set _ _ _ _ Hb').
  - destruct (is_route r "POST" "/api/v1/rpc") eqn:Hr; [|done]. apply is_route_spec in Hr as [Hm Hr].
    cbv zeta. destruct (get_str (body_json r) (str "action")) as [a|] eqn:Ha; [|done].
    intros [= <-]. right. right. unfold body_json in *.
    destruct (from_str (body r)) as [v|]; cbn [default] in *; [|by vm_compute in Ha].
    split_and!; [done..|by exists a].
Qed.

(** C23: a route decides its action.  A request forwarded to the runtime asks for the
    action its method and path stand for, whatever [action] its body holds; an agent
    update names the agent of the path; only the generic endpoint forwards a body
    as it is, and then the body is a JSON value with an action.  What is forwarded is a
    well-formed value, so no second [action] hides behind the first. *)
Theorem route_decides_action `{!SerdeJsonTyped S} r req :
  route_request r = Forward req -> forwards_as r req /\ wf_json req = true.
Proof. intros Hf. split; [by apply route_forwards|by eapply route_request_wf]. Qed.
End routes.

#[local] Instance tiny_json_typed : SerdeJsonTyped tiny_json.
Proof. split. intros s v. simpl. repeat case_match; by intros [= <-]. Qed.

Lemma route_decides_action_witness :
  forwards_as (post (str "/api/v1/run") (str "{}")) (JObj [(str "action", JStr (str "run"))])
  /\ wf_json (JObj [(str "action", JStr (str "run"))]) = true.
Proof. apply route_decides_action. vm_compute. reflexivity. Defined.

(** ** Panics *)

Section panics.
Context `{SerdeJson}.

(** The routes that assign into the request's body. *)
Definition body_route (r : HttpRequest) : bool :=
  is_route r "POST" "/api/v1/agents" || is_route r "POST" "/api/v1/run"
  || is_route r "POST" "/api/v1/settings/provider"
  || ((method r == str "PATCH") && starts_with AGENTS_PREFIX (route r)).

Definition indexable (v : json) : bool := match v with JObj _ | JNull => true | _ => false end.

Lemma index_set_None v k x : index_set v k x = None <-> indexable v = false.
Proof. by destruct v. Qed.

Lemma index_set_indexable v k x v' : index_set v k x = Some v' -> indexable v' = true.
Proof. by destruct v; simpl; intros; simplify_eq. Qed.

Lemma forced_action_panics name r : forced_action name r = Panics <-> indexable (body_json r) = false.
Proof.
  rewrite <- (index_set_None _ (str "action") (JStr (str name))). unfold forced_action.
  by destruct (index_set _ _ _).
Qed.

Lemma agents_update_panics r : agents_update r = Panics <-> indexable (body_json r) = false.
Proof.
  rewrite <- (index_set_None _ (str "action") (JStr (str "agents.update"))). unfold agents_update.
  destruct (index_set (body_json r) _ _) as [b|] eqn:Hb; [|done]. split; [|done].
  destruct (index_set b _ _) eqn:Hb'; [done|]. apply index_set_None in Hb'.
  apply index_set_indexable in Hb. congruence.
Qed.

Lemma route_request_panics r :
  route_request r = Panics <-> body_route r = true /\ indexable (body_json r) = false.
Proof.
  split.
  - unfold route_request, body_route. repeat (case_match; try done);
      rewrite ?forced_action_panics, ?agents_update_panics, ?orb_true_r, ?orb_true_l; done.
  - intros [Hb Hi]. unfold body_route in Hb. rewrite !orb_true_iff, andb_true_iff, !is_route_spec in Hb.
    rewrite bool_decide_eq_true in Hb. unfold route_request, is_route.
    destruct Hb as [[[[-> ->]|[-> ->]]|[-> ->]]|[-> Hp]].
    1-3: by apply forced_action_panics.
    rewrite Hp. by apply agents_update_panics.
Qed.

(** C24: where a handler can panic.  The thread of a connection panics exactly when the
    request passes every gate and is one of the four that assign into the body they
    sent, and that body is JSON but neither an object nor [null]: an array, a
    string, a number or a boolean. *)
Theorem handler_panics_iff html cfg st c :
  (handle_web_connection html cfg st c).2 = Panicked <->
  exists r v, request c = Some r /\ admitted cfg st c r /\ body_route r = true
    /\ from_str (body r) = Some v /\ indexable v = false.
Proof.
  assert (forall r, indexable (body_json r) = false <->
    exists v, from_str (body r) = Some v /\ indexable v = false) as Hbody.
  { intros r. unfold body_json. destruct (from_str (body r)) as [v|]; cbn [default]; [naive_solver|].
    split; [done|]. by intros (v & ? & _). }
  assert (forall st' r, body_route r = true -> (serve_api st' c r).2 = Panicked <-> route_request r = Panics)
    as Hserve.
  { intros st' r Hb. unfold serve_api. rewrite !bool_decide_eq_false_2.
    - unfold api_route. by destruct (route_request r).
    - intros Hr. unfold body_route, is_route in Hb. rewrite Hr in Hb. simpl in Hb.
      by rewrite !andb_false_r in Hb.
    - intros Hr. unfold body_route, is_route in Hb. rewrite Hr in Hb. simpl in Hb.
      by rewrite !andb_false_r in Hb. }
  split.
  - destruct (handle_cases html cfg st c) as [(r & Hr & Ha & ->)|(s & e & -> & He & _)]; [|done].
    intros Hp. assert (route_request r = Panics) as Hq.
    { unfold serve_api in Hp. repeat (case_match; try done). unfold api_route in *.
      by destruct (route_request r). }
    apply route_request_panics in Hq as [Hb Hi]. apply Hbody in Hi as (v & Hv & Hi).
    by exists r, v.
  - intros (r & v & Hr & Ha & Hb & Hv & Hi). rewrite (handle_admitted html cfg st c r) by done.
    apply Hserve, route_request_panics; [done|]. split; [done|]. apply Hbody. by exists v.
Qed.
End panics.

(** An authorized client can do it: an empty JSON array posted to the run endpoint. *)
Theorem array_body_panics :
  (handle_web_connection [] open_config web_init
     (sample_conn (post (str "/api/v1/run") (str "[]")))).2 = Panicked.
Proof. vm_compute. reflexivity. Qed.

(** ** The thread budget *)

Lemma web_step_invariant l e l' :
  web_step l e l' ->
  (WEB_THREADS l = running l + dead l)%nat /\ (WEB_THREADS l <= MAX_WEB_THREADS)%nat ->
  (WEB_THREADS l' = running l' + dead l')%nat /\ (WEB_THREADS l' <= MAX_WEB_THREADS)%nat.
Proof. intros Hs [H1 H2]. destruct Hs; simpl in *; lia. Qed.

(** The thread budget holds.  In every run of the accept loop the counter is the
    number of handlers running and of threads lost to a panic, and never exceeds
    [MAX_WEB_THREADS]: at most that many connections are served at once, and a
    connection is refused only when that many are counted. *)
Theorem web_threads_bounded es l :
  web_run listener_init es l ->
  (WEB_THREADS l = running l + dead l)%nat /\ (WEB_THREADS l <= MAX_WEB_THREADS)%nat
  /\ (forall l', web_step l Refused l' -> (running l + dead l = MAX_WEB_THREADS)%nat).
Proof.
  intros Hr. assert (forall l0, web_run l0 es l ->
    (WEB_THREADS l0 = running l0 + dead l0)%nat /\ (WEB_THREADS l0 <= MAX_WEB_THREADS)%nat ->
    (WEB_THREADS l = running l + dead l)%nat /\ (WEB_THREADS l <= MAX_WEB_THREADS)%nat) as Hinv.
  { clear Hr. intros l0 Hr. induction Hr as [|l0 e l1 es l2 Hs _ IH]; [done|].
    intros H. by apply IH, (web_step_invariant _ _ _ Hs). }
  destruct (Hinv _ Hr) as [H1 H2]; [unfold MAX_WEB_THREADS; simpl; lia|].
  split_and!; [done|done|]. intros l' Hs. inversion Hs; subst. lia.
Qed.

Lemma web_threads_bounded_witness :
  WEB_THREADS (mk_listener 1 0 1) = (running (mk_listener 1 0 1) + dead (mk_listener 1 0 1))%nat.
Proof.
  apply (web_threads_bounded [Spawned; Spawned; HandlerReturned; HandlerPanicked]).
  eapply web_more; [apply accept_spawned; vm_compute; lia|].
  eapply web_more; [apply accept_spawned; vm_compute; lia|].
  eapply web_more; [by eapply handler_returned|].
  eapply web_more; [by eapply handler_panicked|]. apply web_done.
Defined.

Lemma lost_threads_refuse l es l' :
  dead l = MAX_WEB_THREADS -> WEB_THREADS l = MAX_WEB_THREADS -> running l = 0%nat ->
  web_run l es l' -> Forall (fun e => e = Refused) es.
Proof.
  intros Hd Ht Hn Hr. induction Hr as [|l e l1 es l2 Hs _ IH]; [done|].
  inversion Hs; subst; simpl in *; try lia. constructor; [done|]. by apply IH.
Qed.

(** A panic is never forgotten: after 64 requests like that of [array_body_panics] the
    counter stands at its limit with no handler running, and whatever happens next,
    every connection is answered 503. *)
Theorem panics_exhaust_threads :
  exists l, web_run listener_init (concat (repeat [Spawned; HandlerPanicked] MAX_WEB_THREADS)) l
    /\ forall es l', web_run l es l' -> Forall (fun e => e = Refused) es.
Proof.
  assert (forall k n, (k + n <= MAX_WEB_THREADS)%nat ->
    web_run (mk_listener k 0 k) (concat (repeat [Spawned; HandlerPanicked] n)) (mk_listener (k + n) 0 (k + n)))
    as Hrun.
  { intros k n. revert k. induction n as [|n IH]; intros k Hk; simpl.
    - rewrite Nat.add_0_r. apply web_done.
    - eapply web_more; [apply accept_spawned; simpl; lia|].
      eapply web_more; [by eapply handler_panicked|]. simpl.
      replace (k + S n)%nat with (S k + n)%nat by lia. apply IH. lia. }
  exists (mk_listener MAX_WEB_THREADS 0 MAX_WEB_THREADS). split.
  - apply (Hrun 0%nat MAX_WEB_THREADS). lia.
  - intros es l' Hr. apply (lost_threads_refuse (mk_listener MAX_WEB_THREADS 0 MAX_WEB_THREADS) es l' eq_refl eq_refl eq_refl Hr).
Qed.

(** ** Exposure *)

(** C21: the dashboard is not left open by accident.  With a numeric IPv4 address
    configured, the web worker refuses to start exactly when the address lies
    outside 127.0.0.0/8, no dashboard token is set (or an empty one), and the
    operator did not opt in; and where it listens, it listens at the configured
    address and checks requests against the token of the environment. *)
Theorem web_main_refuses_exposure env data_dir temp_dir bind nonblocking a b c d port :
  forallb is_ascii_digit port = true ->
  configured_http_addr env = dotted_quad a b c d ++ ":"%byte :: port ->
  let started := allgres_web_main_start env data_dir temp_dir bind nonblocking in
  (started = Web_refused <->
   a <> x7f /\ (env (str "ALLGRES_DASHBOARD_TOKEN") = None \/ env (str "ALLGRES_DASHBOARD_TOKEN") = Some [])
   /\ env (str "ALLGRES_ALLOW_INSECURE_HTTP") <> Some (str "1"))
  /\ (forall addr cfg, started = Listening addr cfg ->
      addr = configured_http_addr env /\ bind addr = true
      /\ (forall tok, env (str "ALLGRES_DASHBOARD_TOKEN") = Some tok -> token cfg = tok)).
Proof.
  intros Hp Ha started. subst started. unfold allgres_web_main_start.
  pose proof (check_exposure_ipv4 a b c d port (token (web_config env data_dir temp_dir))
    (env (str "ALLGRES_ALLOW_INSECURE_HTTP")) Hp) as Hx. rewrite <- Ha in Hx. cbn [token web_config] in *.
  split.
  - assert (forall o : option bytes, default [] o = [] <-> o = None \/ o = Some []) as Ho
      by (intros [[|? ?]|]; naive_solver).
    rewrite <- Ho, <- Hx. by repeat case_match.
  - intros addr cfg Hs. repeat case_match; simplify_eq; breflect. split_and!; [done|done|].
    intros tok Ht. simpl. by rewrite Ht.
Qed.

Lemma web_main_refuses_exposure_witness :
  let env : environment := fun k => if k == str "ALLGRES_HTTP_ADDR" then Some (str "0.0.0.0:8088") else None in
  allgres_web_main_start env None (str "/tmp") (fun _ => true) true = Web_refused.
Proof.
  intros env.
  refine (proj2 (proj1 (web_main_refuses_exposure env None (str "/tmp") (fun _ => true) true
            x00 x00 x00 x00 (str "8088") _ _)) _).
  - vm_compute. reflexivity.
  - vm_compute. reflexivity.
  - split_and!; [discriminate|left; vm_compute; reflexivity|vm_compute; discriminate].
Defined.
