(* ===== verification/WebThreads.v ===== *)
(** * [src/web.rs] under concurrency

    Each connection has its own thread; the threads share the two rate windows and the
    ticket map, each behind a mutex that is held for one access only.  Here the handler
    of [Web.v] is a program of such accesses, and the threads' accesses interleave in
    every order. *)

From S2P Require Import Prelude Utf8 RustStr F64 Net Json HttpProtocol RateLimit WebAuth Web.

(** ** Programs of a connection's thread *)

(** Where in the source a clock is read or the runtime is called. *)
Inductive site := Site_auth | Site_mint | Site_stream | Site_route | Site_turn (i : nat).

(** The accesses that depend on something outside the thread: the functions that lock
    [RATE_LIMIT] (and read the clock inside the lock), the two that lock
    [SSE_TICKETS] (with the clock read before), the clock, and the runtime's socket. *)
Inductive wcall :=
| RateLimited (ip : IpAddr)
| AuthFailuresExceeded (ip : IpAddr)
| RecordAuthFailure (ip : IpAddr)
| Instant_now (s : site)
| ConsumeTicket (t : bytes) (now : Z)
| MintTicket (buf : Entropy) (now : Z)
| Rpc (s : site) (req : json).

Definition reply_of (c : wcall) : Type :=
  match c with
  | RateLimited _ | AuthFailuresExceeded _ | ConsumeTicket _ _ => bool
  | RecordAuthFailure _ | MintTicket _ _ => unit
  | Instant_now _ => Z
  | Rpc _ _ => rpc_io
  end.

Inductive wprog (A : Type) : Type :=
| WRet (a : A)
| WDo (c : wcall) (k : reply_of c -> wprog A).
Arguments WRet {A} a.
Arguments WDo {A} c k.

Fixpoint wbind {A B} (p : wprog A) (f : A -> wprog B) : wprog B :=
  match p with
  | WRet a => f a
  | WDo c k => WDo c (fun r => wbind (k r) f)
  end.

Notation "'do!' x := p 'in' q" := (wbind p (fun x => q))
  (at level 10, x pattern, p at level 100, q at level 200) : rust_scope.

Definition access (c : wcall) : wprog (reply_of c) := WDo c (fun r => WRet r).

(** [if let Some(ip) = peer_ip { if check(ip) { .. } }] *)
Definition if_peer (peer : option IpAddr) (check : IpAddr -> wprog bool) : wprog bool :=
  match peer with Some addr => check addr | None => WRet false end.

Section handler.
Context `{SerdeJson}.

(** [authorized]: only a ticket for the event stream touches the shared map. *)
Definition authorized_prog (r : HttpRequest) (cfg : WebConfig) : wprog bool :=
  if negb (nonempty (token cfg)) then WRet true
  else if bearer_ok r cfg then WRet true
  else if route r == EVENTS_ROUTE then
    match query_param (query r) (str "ticket") with
    | Some t => do! now := access (Instant_now Site_auth) in access (ConsumeTicket t now)
    | None => WRet false
    end
  else WRet false.

(** The [while] loop of [stream_events], from turn [i]; [writes] says which frames the
    client takes. *)
Fixpoint stream_prog (deadline : Z) (i : nat) (writes : list bool) : wprog (list bytes) :=
  match writes with
  | [] => WRet []
  | written :: rest =>
    do! now := access (Instant_now (Site_turn i)) in
    if (now <? deadline)%Z then
      do! io := access (Rpc (Site_turn i) events_request) in
      let frame := event_frame (rpc io) in
      if written then do! fs := stream_prog deadline (S i) rest in WRet (frame :: fs)
      else WRet []
    else WRet []
  end.

Definition serve_api_prog (c : Conn) (r : HttpRequest) : wprog ending :=
  if route r == str "/api/v1/events/ticket" then
    if method r != str "POST"
    then WRet (respond_error "405 Method Not Allowed" "method_not_allowed" (str "Allow: POST" ++ CRLF))
    else
      do! now := access (Instant_now Site_mint) in
      do! _ := access (MintTicket (entropy c) now) in
      WRet (respond_json "200 OK" (to_string (jobj [(str "ok", JBool true);
                                    (str "ticket", JStr (nonce (entropy c)));
                                    (str "expires_in", JInt 30)])))
  else if route r == EVENTS_ROUTE then
    if head_written c then
      do! start := access (Instant_now Site_stream) in
      do! fs := stream_prog (start + SSE_TOTAL) 0 (map sse_written (sse_ticks c)) in
      WRet (Wrote (stream_head ++ concat fs))
    else WRet Silent
  else
    match route_request r with
    | Panics => WRet Panicked
    | NoRoute => WRet not_found
    | Answer v =>
      WRet (respond_json (if get_bool v (str "ok") == Some false then "400 Bad Request" else "200 OK")
                         (to_string v))
    | Forward req =>
      do! io := access (Rpc Site_route req) in
      let v := rpc io in
      WRet (respond_json (if get_bool v (str "ok") == Some false then "400 Bad Request" else "200 OK")
                         (to_string v))
    end.

Definition gate_api_prog (cfg : WebConfig) (c : Conn) (r : HttpRequest) : wprog ending :=
  if negb (csrf_ok r) then WRet (respond_error "403 Forbidden" "cross_origin_request_rejected" [])
  else
    do! locked := if_peer (peer_ip c) (fun a => access (AuthFailuresExceeded a)) in
    if locked
    then WRet (respond_error "429 Too Many Requests" "rate_limited" (str "Retry-After: 300" ++ CRLF))
    else
      do! ok := authorized_prog r cfg in
      if negb ok then
        do! _ := match peer_ip c with
                 | Some addr => access (RecordAuthFailure addr)
                 | None => WRet tt
                 end in
        WRet (respond_error "401 Unauthorized" "unauthorized" (str "WWW-Authenticate: Bearer" ++ CRLF))
      else serve_api_prog c r.

(** [handle_web_connection] behind its first check. *)
Definition dispatch_prog (html : bytes) (cfg : WebConfig) (c : Conn) : wprog ending :=
  match request c with
  | None => WRet Silent
  | Some r =>
    let p := route r in
    if method r == str "OPTIONS"
    then WRet (respond_error "405 Method Not Allowed" "method_not_allowed"
                 (str "Allow: GET, POST, PATCH" ++ CRLF))
    else if p == str "/healthz"
    then WRet (respond_json "200 OK" (str "{" ++ q "ok" ++ str ":true}"))
    else if is_mock_chat p
    then WRet (if negb (mock_enabled cfg) then not_found
               else respond_json "200 OK" (to_string mock_chat_body))
    else if p == str "/mock/oauth/token"
    then WRet (if negb (mock_enabled cfg) then not_found else mock_oauth r)
    else if p == str "/mock/embeddings"
    then WRet (if negb (mock_enabled cfg) then not_found else mock_embeddings r)
    else if p == str "/"
    then let n := nonce (entropy c) in
         WRet (Wrote (respond (str "200 OK") (str "text/html; charset=utf-8")
                        (replace html (str "__CSP_NONCE__") n) (DASHBOARD_CSP n)))
    else if negb (starts_with (str "/api/v1/") p) then WRet not_found
    else gate_api_prog cfg c r
  end.

(** [handle_web_connection]. *)
Definition handler (html : bytes) (cfg : WebConfig) (c : Conn) : wprog ending :=
  do! limited := if_peer (peer_ip c) (fun a => access (RateLimited a)) in
  if limited
  then WRet (respond_error "429 Too Many Requests" "rate_limited" (str "Retry-After: 60" ++ CRLF))
  else dispatch_prog html cfg c.
End handler.


(** ** What one access does

    [now] is what the clock shows when the access happens and [io] what the runtime's
    socket does. *)
Definition access_step (now : Z) (io : rpc_io) (st : WebState) (q : wcall) : WebState * reply_of q :=
  match q with
  | RateLimited a =>
    let r := rate_limited (windows st) a now in (mk_web r.2 (tickets st), r.1)
  | AuthFailuresExceeded a =>
    let r := auth_failures_exceeded (windows st) a now in (mk_web r.2 (tickets st), r.1)
  | RecordAuthFailure a => (mk_web (record_auth_failure (windows st) a now) (tickets st), tt)
  | Instant_now _ => (st, now)
  | ConsumeTicket t seen =>
    let r := consume_sse_ticket (tickets st) seen t in (mk_web (windows st) r.2, r.1)
  | MintTicket buf seen => (mk_web (windows st) (mint_sse_ticket (tickets st) seen buf).2, tt)
  | Rpc _ _ => (st, io)
  end.

(** The request an access sends to the runtime. *)
Definition asked (q : wcall) : list json := match q with Rpc _ req => [req] | _ => [] end.

(** ** One connection alone

    The readings of [Conn], by the place they are made. *)
Definition tick_at (c : Conn) (i : nat) : sse_tick :=
  default (mk_sse 0 ReadFailed false) (sse_ticks c !! i).

Definition now_of (c : Conn) (q : wcall) : Z :=
  match q with
  | RateLimited _ => now_rate c
  | AuthFailuresExceeded _ => now_lock c
  | RecordAuthFailure _ => now_fail c
  | Instant_now Site_auth => now_auth c
  | Instant_now Site_mint => now_mint c
  | Instant_now Site_stream => now_stream c
  | Instant_now (Site_turn i) => sse_now (tick_at c i)
  | _ => 0%Z
  end.

Definition io_of (c : Conn) (q : wcall) : rpc_io :=
  match q with
  | Rpc (Site_turn i) _ => sse_io (tick_at c i)
  | Rpc _ req => backend c req
  | _ => ReadFailed
  end.

Fixpoint run_alone {A} (c : Conn) (st : WebState) (p : wprog A) : WebState * list json * A :=
  match p with
  | WRet a => (st, [], a)
  | WDo q k =>
    let (st', r) := access_step (now_of c q) (io_of c q) st q in
    let '(st'', reqs, a) := run_alone c st' (k r) in (st'', asked q ++ reqs, a)
  end.

Lemma run_alone_bind {A B} c st (p : wprog A) (f : A -> wprog B) :
  run_alone c st (wbind p f) =
  let '(st1, q1, a) := run_alone c st p in
  let '(st2, q2, b) := run_alone c st1 (f a) in (st2, q1 ++ q2, b).
Proof.
  revert st. induction p as [a|q k IH]; intros st; cbn [wbind run_alone].
  - by destruct (run_alone c st (f a)) as [[]].
  - destruct (access_step _ _ st q) as [st' r]. rewrite IH.
    destruct (run_alone c st' (k r)) as [[st1 q1] a].
    destruct (run_alone c st1 (f a)) as [[st2 q2] b]. by rewrite app_assoc.
Qed.

Lemma run_alone_access c st q :
  run_alone c st (access q) =
  let (st', r) := access_step (now_of c q) (io_of c q) st q in (st', asked q, r).
Proof. cbn [access run_alone]. destruct (access_step _ _ st q). by rewrite app_nil_r. Qed.

Section alone.
Context `{SerdeJson}.

Lemma run_if_rate c st :
  run_alone c st (if_peer (peer_ip c) (fun a => access (RateLimited a))) =
  let (b, st') := check_peer (peer_ip c) st (fun w a => rate_limited w a (now_rate c)) in (st', [], b).
Proof. by destruct (peer_ip c). Qed.

Lemma run_if_lock c st :
  run_alone c st (if_peer (peer_ip c) (fun a => access (AuthFailuresExceeded a))) =
  let (b, st') := check_peer (peer_ip c) st (fun w a => auth_failures_exceeded w a (now_lock c)) in
  (st', [], b).
Proof. by destruct (peer_ip c). Qed.

Lemma run_authorized c st r cfg :
  run_alone c st (authorized_prog r cfg) =
  let (ok, ts) := authorized r cfg (tickets st) (now_auth c) in (mk_web (windows st) ts, [], ok).
Proof.
  unfold authorized_prog, authorized. destruct st as [w ts].
  destruct (negb _); [done|]. destruct (bearer_ok r cfg); [done|].
  destruct (route r == EVENTS_ROUTE); [|done].
  by destruct (query_param _ _) as [t|].
Qed.

Lemma drop_tick c i t rest : drop i (sse_ticks c) = t :: rest -> tick_at c i = t.
Proof.
  intros Hd. unfold tick_at. replace (sse_ticks c !! i) with (drop i (sse_ticks c) !! 0)
    by (rewrite lookup_drop; f_equal; lia). by rewrite Hd.
Qed.

Lemma run_stream c st deadline ticks : forall i,
  drop i (sse_ticks c) = ticks ->
  run_alone c st (stream_prog deadline i (map sse_written ticks)) =
  let (fs, qs) := stream_loop deadline ticks in (st, qs, fs).
Proof.
  induction ticks as [|t rest IH]; intros i Hd; [done|].
  pose proof (drop_tick c i t rest Hd) as Ht.
  assert (drop (S i) (sse_ticks c) = rest) as Hr.
  { replace (S i) with (i + 1)%nat by lia. by rewrite <- drop_drop, Hd. }
  cbn [map stream_prog stream_loop wbind run_alone access access_step now_of io_of]. rewrite Ht.
  destruct (sse_now t <? deadline)%Z; [|done].
  cbn [wbind run_alone access_step io_of now_of]. rewrite Ht.
  destruct (sse_written t); [|done]. rewrite run_alone_bind, (IH (S i) Hr).
  destruct (stream_loop deadline rest) as [fs qs]. cbn [run_alone asked app]. by rewrite app_nil_r.
Qed.

Lemma run_serve_api c st r : run_alone c st (serve_api_prog c r) = serve_api st c r.
Proof.
  unfold serve_api_prog, serve_api.
  destruct (route r == str "/api/v1/events/ticket").
  { by destruct (method r != str "POST"). }
  destruct (route r == EVENTS_ROUTE).
  { destruct (head_written c); [|done]. cbn [wbind run_alone access access_step now_of].
    rewrite run_alone_bind, (run_stream c st _ (sse_ticks c) 0 eq_refl).
    destruct (stream_loop _ _) as [fs qs]. cbn [run_alone asked app]. by rewrite app_nil_r. }
  unfold api_route. by destruct (route_request r).
Qed.

Lemma run_gate_api cfg c st r : run_alone c st (gate_api_prog cfg c r) = gate_api cfg st c r.
Proof.
  unfold gate_api_prog, gate_api. destruct (negb (csrf_ok r)); [done|].
  rewrite run_alone_bind, run_if_lock. destruct (check_peer _ _ _) as [locked st1].
  destruct locked; [done|]. rewrite run_alone_bind, run_authorized.
  destruct (authorized _ _ _ _) as [ok ts]. destruct ok; cbn [negb].
  - rewrite run_serve_api. by destruct (serve_api _ c r) as [[]].
  - by destruct (peer_ip c).
Qed.

(** The handler written as a program of accesses is the handler.  Run by itself, with
    the clock, the runtime and the client of one connection, the program leaves
    the state, sends the requests and ends as [handle_web_connection] does: what is
    proved of interleaved programs is about the same code as what is proved of
    one connection at a time. *)
Theorem handler_alone html cfg c st :
  run_alone c st (handler html cfg c) = handle_web_connection html cfg st c.
Proof.
  unfold handler, handle_web_connection. rewrite run_alone_bind, run_if_rate.
  destruct (check_peer _ _ _) as [limited st1]. destruct limited; [done|]. unfold dispatch_prog.
  destruct (request c) as [r|]; [|done]. cbv zeta.
  repeat match goal with
  | |- context [if ?b then _ else _] =>
    lazymatch b with
    | negb (starts_with _ _) => destruct b; [done|]
    | _ => destruct b; [done|]
    end
  end.
  rewrite run_gate_api. by destruct (gate_api _ _ c r) as [[]].
Qed.
End alone.

(** ** The discipline of a handler

    A history is what a thread has done, the last access first. *)
Record event := Ev { call : wcall; answer : reply_of call }.

(** Every access of [p] obeys [rule], given the thread's history, and [p] ends in
    [Q], whatever the answers are. *)
Fixpoint obeys {A} (rule : list event -> wcall -> Prop) (Q : list event -> A -> Prop)
    (h : list event) (p : wprog A) : Prop :=
  match p with
  | WRet a => Q h a
  | WDo q k => rule h q /\ forall r, obeys rule Q (Ev q r :: h) (k r)
  end.

Lemma obeys_bind {A B} rule (p : wprog A) (f : A -> wprog B) Q : forall h,
  obeys rule (fun h' a => obeys rule Q h' (f a)) h p -> obeys rule Q h (wbind p f).
Proof.
  induction p as [a|q k IH]; intros h; cbn [obeys wbind]; [done|].
  intros [Hq Hk]. split; [done|]. intros r. apply IH, Hk.
Qed.

Lemma obeys_mono {A} rule (Q Q' : list event -> A -> Prop) (p : wprog A) : forall h,
  (forall h' a, Q h' a -> Q' h' a) -> obeys rule Q h p -> obeys rule Q' h p.
Proof.
  induction p as [a|q k IH]; intros h HQ; cbn [obeys]; [apply HQ|].
  intros [Hq Hk]. split; [done|]. intros r. by apply IH.
Qed.

(** The thread found [a] under its limit of failures and has not recorded one yet. *)
Definition passed_lockout (a : IpAddr) (e : event) : bool :=
  match e with Ev (AuthFailuresExceeded b) locked => negb locked && (b == a) | _ => false end.

Definition recorded (a : IpAddr) (e : event) : bool :=
  match e with Ev (RecordAuthFailure b) _ => b == a | _ => false end.

Definition pending (a : IpAddr) (h : list event) : bool :=
  existsb (passed_lockout a) h && negb (existsb (recorded a) h).

Section discipline.
Context `{SerdeJson} (cfg : WebConfig) (c : Conn).

(** [r] is an API request that passed the rate limit, the cross-origin check and the
    lockout. *)
Definition api_request (r : HttpRequest) (h : list event) : Prop :=
  request c = Some r /\ method r <> str "OPTIONS" /\ starts_with (str "/api/v1/") (route r) = true
  /\ csrf_ok r = true
  /\ forall a, peer_ip c = Some a ->
       Ev (RateLimited a) false ∈ h /\ Ev (AuthFailuresExceeded a) false ∈ h.

Definition by_token (r : HttpRequest) : Prop := token cfg = [] \/ bearer_ok r cfg = true.

Definition by_ticket (r : HttpRequest) (h : list event) : Prop :=
  route r = EVENTS_ROUTE /\ exists t now,
    query_param (query r) (str "ticket") = Some t /\ Ev (ConsumeTicket t now) true ∈ h.

(** The request forwarded is the one the route stands for. *)
Definition forwarded (s : site) (r : HttpRequest) (req : json) : Prop :=
  match s with
  | Site_route => route_request r = Forward req
  | Site_turn _ => route r = EVENTS_ROUTE /\ req = events_request
  | _ => False
  end.

Definition gate_rule (h : list event) (q : wcall) : Prop :=
  match q with
  | RateLimited a => peer_ip c = Some a /\ h = []
  | AuthFailuresExceeded a => peer_ip c = Some a
  | RecordAuthFailure a => pending a h = true
  | Instant_now _ => True
  | ConsumeTicket t now =>
    exists r, api_request r h /\ route r = EVENTS_ROUTE
      /\ query_param (query r) (str "ticket") = Some t /\ Ev (Instant_now Site_auth) now ∈ h
  | MintTicket buf now =>
    exists r, api_request r h /\ by_token r /\ method r = str "POST"
      /\ route r = str "/api/v1/events/ticket" /\ Ev (Instant_now Site_mint) now ∈ h
  | Rpc s req =>
    exists r, api_request r h /\ (by_token r \/ by_ticket r h) /\ forwarded s r req
  end.

(** A panic ends only a request that passed the gates. *)
Definition gate_end (h : list event) (e : ending) : Prop :=
  e = Panicked -> exists r, api_request r h /\ (by_token r \/ by_ticket r h)
    /\ route_request r = Panics.

Lemma api_request_later r h e : api_request r h -> api_request r (e :: h).
Proof.
  intros (H1 & H2 & H3 & H4 & H5). split_and!; [done..|]. intros a Ha.
  destruct (H5 a Ha). by split; right.
Qed.

Lemma granted_later r h e : by_token r \/ by_ticket r h -> by_token r \/ by_ticket r (e :: h).
Proof.
  intros [?|(Hr & t & now & Ht & Hc)]; [by left|]. right. split; [done|].
  exists t, now. split; [done|]. by right.
Qed.

Lemma stream_obeys r deadline writes : route r = EVENTS_ROUTE -> forall i h,
  api_request r h -> by_token r \/ by_ticket r h ->
  obeys gate_rule (fun _ _ => True) h (stream_prog deadline i writes).
Proof.
  intros Hr. induction writes as [|w ws IH]; intros i h Hreq Hg; [done|].
  cbn [stream_prog wbind access obeys]. split; [done|]. intros now.
  destruct (now <? deadline)%Z; [|done]. cbn [wbind obeys]. split.
  { exists r. ands; [by apply api_request_later|by apply granted_later|done]. }
  intros io. destruct w; [|done]. apply obeys_bind.
  eapply obeys_mono; [done|apply IH; by do 2 first [apply api_request_later|apply granted_later]].
Qed.

Lemma serve_api_obeys r h :
  api_request r h -> by_token r \/ by_ticket r h ->
  obeys gate_rule gate_end h (serve_api_prog c r).
Proof.
  intros Hreq Hg. unfold serve_api_prog.
  destruct (route r == str "/api/v1/events/ticket") eqn:Ht; breflect.
  { destruct (method r != str "POST") eqn:Hm; [done|]. breflect.
    cbn [wbind access obeys]. split; [done|]. intros now. split; [|done].
    exists r. ands; [by apply api_request_later| |done|done|by left].
    destruct Hg as [?|(He & _)]; [done|]. rewrite Ht in He. by vm_compute in He. }
  destruct (route r == EVENTS_ROUTE) eqn:He; breflect.
  { destruct (head_written c); [|done]. cbn [wbind access obeys]. split; [done|]. intros start.
    apply obeys_bind. eapply obeys_mono; [|apply (stream_obeys r); auto using api_request_later, granted_later].
    done. }
  destruct (route_request r) as [req|v| |] eqn:Hq; cbn [wbind access obeys]; try done.
  - split; [|done]. by exists r.
  - intros _. by exists r.
Qed.

Lemma authorized_obeys r h :
  api_request r h ->
  obeys gate_rule (fun h' ok => api_request r h' /\ (forall a, pending a h' = pending a h)
                     /\ (ok = true -> by_token r \/ by_ticket r h')) h (authorized_prog r cfg).
Proof.
  intros Hreq. unfold authorized_prog, by_token. destruct (token cfg) as [|b tk] eqn:Htok.
  { cbn. auto. }
  cbn [nonempty negb]. destruct (bearer_ok r cfg) eqn:Hb; [cbn; auto|].
  destruct (route r == EVENTS_ROUTE) eqn:He; breflect; [|cbn; auto].
  destruct (query_param (query r) (str "ticket")) as [t|] eqn:Ht; [|cbn; auto].
  cbn [wbind access obeys]. split; [done|]. intros now. split.
  { exists r. ands; [by apply api_request_later|done|done|by left]. }
  intros ok. ands; [by do 2 apply api_request_later|done|]. intros Hok. right. split; [done|].
  exists t, now. split; [done|]. rewrite <- Hok. by left.
Qed.

Lemma gate_api_obeys r h :
  request c = Some r -> method r <> str "OPTIONS" -> starts_with (str "/api/v1/") (route r) = true ->
  (forall a, peer_ip c = Some a -> h = [Ev (RateLimited a) false]) ->
  obeys gate_rule gate_end h (gate_api_prog cfg c r).
Proof.
  intros Hr Hm Hs Hh. unfold gate_api_prog. destruct (csrf_ok r) eqn:Hc; [|done]. cbn [negb].
  assert (forall h', (forall a, peer_ip c = Some a ->
      h' = [Ev (AuthFailuresExceeded a) false; Ev (RateLimited a) false]) ->
    obeys gate_rule gate_end h' (do! ok := authorized_prog r cfg in
      if negb ok then
        do! _ := match peer_ip c with Some addr => access (RecordAuthFailure addr) | None => WRet tt end in
        WRet (respond_error "401 Unauthorized" "unauthorized" (str "WWW-Authenticate: Bearer" ++ CRLF))
      else serve_api_prog c r)) as Hrest.
  { intros h' Hh'. apply obeys_bind.
    assert (api_request r h') as Hreq.
    { unfold api_request. ands; [done..|]. intros a Ha. rewrite (Hh' a Ha). split; [right; left|left]. }
    eapply obeys_mono; [|by apply authorized_obeys].
    intros h'' ok (Hreq' & Hp & Hok). destruct ok; cbn [negb]; [apply serve_api_obeys; auto|].
    destruct (peer_ip c) as [a|] eqn:Ha; [|done]. cbn [wbind access obeys]. split; [|done].
    simpl. rewrite Hp, (Hh' a eq_refl). unfold pending. cbn. by rewrite bool_decide_eq_true_2. }
  destruct (peer_ip c) as [a|] eqn:Ha; cbn [if_peer wbind access obeys]; [|by apply Hrest].
  split; [exact Ha|]. intros [|]; [done|]. apply Hrest. intros a' [= <-]. by rewrite (Hh a eq_refl).
Qed.

(** Whatever answers it gets, a handler obeys the gates. *)
Lemma handler_obeys html : obeys gate_rule gate_end [] (handler html cfg c).
Proof.
  assert (forall h, (forall a, peer_ip c = Some a -> h = [Ev (RateLimited a) false]) ->
    obeys gate_rule gate_end h (dispatch_prog html cfg c)) as Hrest.
  { intros h Hh. unfold dispatch_prog. destruct (request c) as [r|] eqn:Hr; [|done]. cbv zeta.
    destruct (method r == str "OPTIONS") eqn:Hm; [done|]. breflect.
    destruct (route r == str "/healthz"); [done|].
    destruct (is_mock_chat (route r)); [by destruct (mock_enabled cfg)|].
    destruct (route r == str "/mock/oauth/token").
    { destruct (mock_enabled cfg); [|done]. unfold mock_oauth. simpl. by case_match. }
    destruct (route r == str "/mock/embeddings"); [by destruct (mock_enabled cfg)|].
    destruct (route r == str "/"); [done|].
    destruct (starts_with (str "/api/v1/") (route r)) eqn:Hs; [|done]. by apply gate_api_obeys. }
  unfold handler. destruct (peer_ip c) as [a|] eqn:Ha; cbn [if_peer wbind access obeys]; [|by apply Hrest].
  split; [done|]. intros [|]; [done|]. apply Hrest. by intros a' [= <-].
Qed.
End discipline.
