(* ===== verification/WebSystem.v ===== *)
(** * [src/web.rs]: the web worker's threads, interleaved

    The accept loop hands connections to threads; the threads' accesses to the shared
    windows, tickets, clock and runtime socket interleave in any order.  A step is one
    access, a connection accepted, a handler that ends, or time that passes. *)

From S2P Require Import Prelude Utf8 RustStr F64 Net Json HttpProtocol RateLimit WebAuth Web WebThreads.

(** ** States and steps *)

Inductive thread_state :=
| Running (p : wprog ending)
| Returned
| Lost.                          (* ended by a panic *)

(** [hist] is what the thread has done, the last access first. *)
Record Thread := mk_thread { conn : Conn; hist : list event; status : thread_state }.

(** One line of the worker's history: the thread and its connection, the clock, the
    access and its answer. *)
Record entry := mk_entry { tid : nat; from : Conn; at_ : Z; happened : event }.

Record Workers := mk_workers {
  shared : WebState;
  clock : Z;
  listener : Listener;
  threads : list Thread;         (* in the order they were spawned *)
  log : list entry               (* the last access first *)
}.

Definition workers_init : Workers := mk_workers web_init 0 listener_init [] [].

(** A failed spawn changes nothing, like a connection refused. *)
Inductive action :=
| Tick (dt : N)
| Accept (c : Conn)
| Access (i : nat) (io : rpc_io)
| Finish (i : nat).

Section system.
Context `{SerdeJson} (html : bytes) (cfg : WebConfig).

(** The closure the accept loop spawns returns, and then the counter is decremented; a
    panic unwinds past that. *)
Definition finish (l : Listener) (e : ending) : thread_state * Listener :=
  match e with
  | Panicked => (Lost, mk_listener (WEB_THREADS l) (pred (running l)) (S (dead l)))
  | _ => (Returned, mk_listener (pred (WEB_THREADS l)) (pred (running l)) (dead l))
  end.

Definition act (s : Workers) (a : action) : option Workers :=
  match a with
  | Tick dt =>
    Some (mk_workers (shared s) (clock s + Z.of_N dt) (listener s) (threads s) (log s))
  | Accept c =>
    let l := listener s in
    if (MAX_WEB_THREADS <=? WEB_THREADS l)%nat then Some s
    else Some (mk_workers (shared s) (clock s)
                 (mk_listener (S (WEB_THREADS l)) (S (running l)) (dead l))
                 (threads s ++ [mk_thread c [] (Running (handler html cfg c))]) (log s))
  | Access i io =>
    match threads s !! i with
    | Some (mk_thread c h (Running (WDo q k))) =>
      let (st, r) := access_step (clock s) io (shared s) q in
      Some (mk_workers st (clock s) (listener s)
              (<[i := mk_thread c (Ev q r :: h) (Running (k r))]> (threads s))
              (mk_entry i c (clock s) (Ev q r) :: log s))
    | _ => None
    end
  | Finish i =>
    match threads s !! i with
    | Some (mk_thread c h (Running (WRet e))) =>
      let (ended, l) := finish (listener s) e in
      Some (mk_workers (shared s) (clock s) l (<[i := mk_thread c h ended]> (threads s)) (log s))
    | _ => None
    end
  end.

Fixpoint run_actions (s : Workers) (acts : list action) : option Workers :=
  match acts with
  | [] => Some s
  | a :: rest => act s a ≫= fun s' => run_actions s' rest
  end.

Inductive reachable : Workers -> Prop :=
| reachable_init : reachable workers_init
| reachable_step s a s' : reachable s -> act s a = Some s' -> reachable s'.

Lemma run_reachable acts : forall s s', reachable s -> run_actions s acts = Some s' -> reachable s'.
Proof.
  induction acts as [|a acts IH]; intros s s' Hs; cbn [run_actions]; [by intros [= <-]|].
  destruct (act s a) as [s1|] eqn:Ha; [|done]. simpl. apply IH. by eapply reachable_step.
Qed.

(** The four kinds of step. *)
Inductive act_spec (s : Workers) : Workers -> Prop :=
| act_tick dt :
  act_spec s (mk_workers (shared s) (clock s + Z.of_N dt) (listener s) (threads s) (log s))
| act_refuse :
  (MAX_WEB_THREADS <= WEB_THREADS (listener s))%nat -> act_spec s s
| act_spawn c :
  (WEB_THREADS (listener s) < MAX_WEB_THREADS)%nat ->
  act_spec s (mk_workers (shared s) (clock s)
    (mk_listener (S (WEB_THREADS (listener s))) (S (running (listener s))) (dead (listener s)))
    (threads s ++ [mk_thread c [] (Running (handler html cfg c))]) (log s))
| act_access i c h q k io :
  threads s !! i = Some (mk_thread c h (Running (WDo q k))) ->
  let st := (access_step (clock s) io (shared s) q).1 in
  let r := (access_step (clock s) io (shared s) q).2 in
  act_spec s (mk_workers st (clock s) (listener s)
    (<[i := mk_thread c (Ev q r :: h) (Running (k r))]> (threads s))
    (mk_entry i c (clock s) (Ev q r) :: log s))
| act_finish i c h e :
  threads s !! i = Some (mk_thread c h (Running (WRet e))) ->
  act_spec s (mk_workers (shared s) (clock s) (finish (listener s) e).2
    (<[i := mk_thread c h (finish (listener s) e).1]> (threads s)) (log s)).

Lemma act_inv s a s' : act s a = Some s' -> act_spec s s'.
Proof.
  destruct a as [dt|c|i io|i]; cbn [act].
  - intros [= <-]. apply act_tick.
  - destruct (Nat.leb_spec MAX_WEB_THREADS (WEB_THREADS (listener s))); intros [= <-];
      [by apply act_refuse|by apply act_spawn].
  - destruct (threads s !! i) as [[c h [[e|q k]| |]]|] eqn:Hi; try done.
    destruct (access_step (clock s) io (shared s) q) as [st r] eqn:Hq. intros [= <-].
    pose proof (act_access s i c h q k io Hi) as Hs. cbv zeta in Hs. by rewrite Hq in Hs.
  - destruct (threads s !! i) as [[c h [[e|q k]| |]]|] eqn:Hi; try done.
    destruct (finish (listener s) e) as [ended l] eqn:He. intros [= <-].
    pose proof (act_finish s i c h e Hi) as Hs. by rewrite He in Hs.
Qed.

(** Rule induction over reachable states, with the step's cases. *)
Lemma reachable_invariant (P : Workers -> Prop) :
  P workers_init ->
  (forall s s', reachable s -> P s -> act_spec s s' -> P s') ->
  forall s, reachable s -> P s.
Proof.
  intros Hi Hstep s Hs. induction Hs as [|s a s' Hs IH Ha]; [done|].
  by eapply Hstep, act_inv.
Qed.

(** ** Threads and their histories *)

(** What thread [i] did, from the worker's history. *)
Definition events_of (i : nat) (l : list entry) : list event :=
  omap (fun e => if tid e == i then Some (happened e) else None) l.

Definition wf_thread (i : nat) (l : list entry) (th : Thread) : Prop :=
  hist th = events_of i l /\
  match status th with
  | Running p => obeys (gate_rule cfg (conn th)) (gate_end cfg (conn th)) (hist th) p
  | Returned => True
  | Lost => gate_end cfg (conn th) (hist th) Panicked
  end.

Lemma events_of_cons_ne i e l : tid e <> i -> events_of i (e :: l) = events_of i l.
Proof. intros Hne. unfold events_of. simpl. by rewrite bool_decide_eq_false_2. Qed.

Lemma events_of_cons_eq i e l : tid e = i -> events_of i (e :: l) = happened e :: events_of i l.
Proof. intros He. unfold events_of. simpl. by rewrite bool_decide_eq_true_2. Qed.

Definition log_threads (s : Workers) : Prop :=
  Forall (fun e => (tid e < length (threads s))%nat) (log s).

Lemma fresh_events l n : Forall (fun e => (tid e < n)%nat) l -> events_of n l = [].
Proof.
  induction 1 as [|e l He _ IH]; [done|]. rewrite events_of_cons_ne by lia. done.
Qed.

Lemma log_threads_reachable s : reachable s -> log_threads s.
Proof.
  revert s. apply reachable_invariant; [constructor|].
  intros s s' _ Hl Hs. unfold log_threads in *. destruct Hs; simpl; rewrite ?length_insert; try done.
  - eapply Forall_impl; [|exact Hl]. intros e. simpl. rewrite length_app. lia.
  - constructor; [simpl; by eapply lookup_lt_Some|done].
Qed.

(** Every thread follows the discipline of its handler, whatever the others do. *)
Lemma threads_obey s : reachable s -> forall i th, threads s !! i = Some th -> wf_thread i (log s) th.
Proof.
  revert s. apply (reachable_invariant (fun s => forall i th, threads s !! i = Some th -> wf_thread i (log s) th));
    [done|].
  intros s s' Hr IH Hs. destruct Hs as [dt|Hb|c Hb|i c h q k io Hi st r|i c h e Hi]; simpl; try done.
  - intros i th [Hl|[Hge Hl]]%lookup_app_Some; [by apply IH|].
    destruct (i - length (threads s))%nat eqn:Hn; simpl in Hl; [|done]. injection Hl as <-.
    assert (i = length (threads s)) as -> by lia. split; simpl; [|apply handler_obeys].
    symmetry. apply fresh_events. by apply log_threads_reachable.
  - intros j th [(<- & <- & _)|[Hne Hl]]%list_lookup_insert_Some.
    + destruct (IH _ _ Hi) as [Hh Ho]. split; cbn [hist status conn log] in *.
      * rewrite events_of_cons_eq by done. by rewrite <- Hh.
      * by apply Ho.
    + destruct (IH _ _ Hl) as [Hh Ho]. split; [|done].
      by rewrite events_of_cons_ne.
  - intros j th [(<- & <- & _)|[Hne Hl]]%list_lookup_insert_Some; [|by apply IH].
    destruct (IH _ _ Hi) as [Hh Ho]. split; [done|]. simpl in *. by destruct e.
Qed.

(** ** What holds of every access, when it is made *)

Lemma cons_split {A} (x : A) l later e earlier :
  x :: l = later ++ e :: earlier ->
  (later = [] /\ e = x /\ earlier = l) \/ exists later', l = later' ++ e :: earlier.
Proof. destruct later as [|y later]; intros [= -> ->]; [by left|]. right. by exists later. Qed.

Lemma log_always (R : list entry -> entry -> Prop) :
  (forall s i c h q k io, reachable s -> threads s !! i = Some (mk_thread c h (Running (WDo q k))) ->
     R (log s) (mk_entry i c (clock s) (Ev q (access_step (clock s) io (shared s) q).2))) ->
  forall s, reachable s -> forall later e earlier, log s = later ++ e :: earlier -> R earlier e.
Proof.
  intros HR.
  apply (reachable_invariant (fun s => forall later e earlier, log s = later ++ e :: earlier -> R earlier e)).
  - by intros [].
  - intros s s' Hs IH [| | |i c h q k io Hi st r|]; cbn [log]; try exact IH.
    intros later e earlier [(-> & -> & ->)|[later' Hl]]%cons_split; [|by eapply IH].
    by apply (HR s i c h q k io).
Qed.

(** Every access was made under its rule. *)
Lemma accesses_obey s later e earlier :
  reachable s -> log s = later ++ e :: earlier ->
  gate_rule cfg (from e) (events_of (tid e) earlier) (call (happened e)).
Proof.
  intros Hs. revert s Hs later e earlier.
  apply (log_always (fun earlier e => gate_rule cfg (from e) (events_of (tid e) earlier) (call (happened e)))).
  intros s i c h q k io Hs Hi. destruct (threads_obey s Hs i _ Hi) as [Hh Ho]. cbn in Hh, Ho |- *.
  rewrite <- Hh. apply Ho.
Qed.

(** ** Tickets *)

Definition mints (t : bytes) (issued : Z) (e : entry) : Prop :=
  exists buf, call (happened e) = MintTicket buf issued /\ nonce buf = t.

Definition is_mint (t : bytes) (e : entry) : bool :=
  match happened e with Ev (MintTicket buf _) _ => nonce buf == t | _ => false end.

Definition is_redeemed (t : bytes) (e : entry) : bool :=
  match happened e with Ev (ConsumeTicket t' _) ok => ok && (t' == t) | _ => false end.

(** A redemption attempt: the ticket, the clock read before it, and the answer. *)
Definition consumed (e : event) : option (bytes * Z * bool) :=
  match e with Ev (ConsumeTicket t seen) ok => Some (t, seen, ok) | _ => None end.

Definition count {A} (p : A -> bool) (l : list A) : nat := length (List.filter p l).

Lemma count_nil {A} (p : A -> bool) : count p [] = 0.
Proof. done. Qed.

Lemma count_cons {A} (p : A -> bool) x l : count p (x :: l) = (if p x then 1 else 0) + count p l.
Proof. unfold count. simpl. by destruct (p x). Qed.

Definition held (tickets : ticket_map) (t : bytes) : nat :=
  match tickets !! t with Some _ => 1 | None => 0 end.

Definition tickets_backed (ts : ticket_map) (l : list entry) : Prop :=
  forall t, count (is_redeemed t) l + held ts t <= count (is_mint t) l
    /\ forall i, ts !! t = Some i -> exists m, m ∈ l /\ mints t i m.

Lemma held_sweep now ts t : held (sweep now ts) t <= held ts t.
Proof. unfold held. rewrite sweep_lookup. destruct (ts !! t); [case_match|]; lia. Qed.

Lemma sweep_Some now ts t i :
  sweep now ts !! t = Some i <-> ts !! t = Some i /\ live SSE_TICKET_TTL now i = true.
Proof.
  rewrite sweep_lookup. destruct (ts !! t) as [j|]; [|by split; [|intros []]].
  destruct (live SSE_TICKET_TTL now j) eqn:E; split.
  - by intros [= <-].
  - by intros [? _].
  - done.
  - intros [[= ->] ?]. congruence.
Qed.

(** One access keeps the books of the tickets, and a ticket that is redeemed was backed
    by one that was minted. *)
Lemma tickets_backed_access now io st q l i c :
  let out := access_step now io st q in
  let e := mk_entry i c now (Ev q out.2) in
  tickets_backed (tickets st) l ->
  tickets_backed (tickets out.1) (e :: l)
  /\ forall t seen, happened e = Ev (ConsumeTicket t seen) true ->
       exists m issued, m ∈ l /\ mints t issued m /\ live SSE_TICKET_TTL seen issued = true.
Proof.
  intros out e Hb. subst out e.
  assert (forall (ts' : ticket_map) e t i', (forall j, ts' !! t = Some j -> tickets st !! t = Some j) ->
    ts' !! t = Some i' -> exists m, m ∈ e :: l /\ mints t i' m) as Hkeep.
  { intros ts' e t i' Hsub Hl. destruct (proj2 (Hb t) i' (Hsub _ Hl)) as (m & Hm & ?).
    exists m. split; [by right|done]. }
  destruct q as [a|a|a|s|t' seen|buf seen|s req].
  1-4,7: split; [|done]; intros t; rewrite !count_cons; destruct (Hb t) as [Hn Hs];
    split; [exact Hn|intros i'; by apply Hkeep].
  - split.
    + intros t. destruct (Hb t) as [Hn Hs]. cbn [access_step consume_sse_ticket fst snd tickets].
      rewrite !count_cons. cbn [is_redeemed is_mint happened]. split.
      * pose proof (held_sweep seen (tickets st) t) as Hh. unfold held in *. rewrite lookup_delete.
        case_decide as Ht; [subst t'|].
        -- rewrite bool_decide_eq_true_2 by done. destruct (sweep seen (tickets st) !! t); simpl; lia.
        -- rewrite bool_decide_eq_false_2 by done. rewrite andb_false_r. lia.
      * intros i'. apply Hkeep. by intros j [_ [Hj _]%sweep_Some]%lookup_delete_Some.
    + intros t seen' Hh. cbn [happened access_step consume_sse_ticket fst snd] in Hh.
      assert (t = t' /\ seen' = seen /\ is_Some (sweep seen (tickets st) !! t')) as (-> & -> & [i' Hi']).
      { apply (f_equal consumed) in Hh. cbn [consumed] in Hh. injection Hh as -> -> Hh.
        by destruct (sweep _ _ !! _). }
      apply sweep_Some in Hi' as [Hi' Hlive]. destruct (proj2 (Hb t') i' Hi') as (m & Hm & ?).
      by exists m, i'.
  - split; [|done]. intros t. destruct (Hb t) as [Hn Hs].
    cbn [access_step mint_sse_ticket fst snd tickets]. rewrite !count_cons.
    cbn [is_redeemed is_mint happened]. split.
    + pose proof (held_sweep seen (tickets st) t) as Hh. unfold held in *. rewrite lookup_insert.
      case_decide as Ht.
      * rewrite bool_decide_eq_true_2 by done. lia.
      * rewrite bool_decide_eq_false_2 by done. lia.
    + intros i'. rewrite lookup_insert. case_decide as Ht; [subst t|].
      * intros [= <-]. eexists. split; [by left|]. by exists buf.
      * apply Hkeep. by intros j [Hj _]%sweep_Some.
Qed.

Lemma tickets_backed_reachable s : reachable s -> tickets_backed (tickets (shared s)) (log s).
Proof.
  revert s. apply (reachable_invariant (fun s => tickets_backed (tickets (shared s)) (log s))).
  - intros t. split; [done|]. by intros i.
  - intros s s' _ IH [| | |i c h q k io Hi st r|]; cbn [shared log]; try exact IH.
    by apply tickets_backed_access.
Qed.

(** ** Rates *)

(** The requests the general limit let through, and the failures recorded, oldest
    first. *)
Definition admitted_hit (e : entry) : hit_log :=
  match happened e with Ev (RateLimited a) false => [(a, at_ e)] | _ => [] end.

Definition failure_hit (e : entry) : hit_log :=
  match happened e with Ev (RecordAuthFailure a) _ => [(a, at_ e)] | _ => [] end.

Definition hits_in (f : entry -> hit_log) (l : list entry) : hit_log := concat (map f (rev l)).

Lemma hits_in_cons f e l : hits_in f (e :: l) = hits_in f l ++ f e.
Proof. unfold hits_in. simpl. rewrite map_app, concat_app. simpl. by rewrite app_nil_r. Qed.

Definition rates_kept (s : Workers) : Prop :=
  tracks RATE_GENERAL_WINDOW (general (windows (shared s))) (hits_in admitted_hit (log s)) (clock s)
  /\ window_bounded RATE_GENERAL_WINDOW RATE_GENERAL_LIMIT (hits_in admitted_hit (log s))
  /\ tracks RATE_AUTH_FAIL_WINDOW (auth_fail (windows (shared s))) (hits_in failure_hit (log s)) (clock s).

(** One access keeps both windows in step with the history. *)
Lemma rates_kept_access now io st q l i c sys1 sys2 :
  rates_kept (mk_workers st now sys1 sys2 l) ->
  let out := access_step now io st q in
  rates_kept (mk_workers out.1 now sys1 sys2 (mk_entry i c now (Ev q out.2) :: l)).
Proof.
  intros (Hg & Hb & Hf) out. unfold rates_kept in *. subst out. cbn [shared clock log] in *.
  rewrite !hits_in_cons.
  destruct q as [a|a|a|s|t seen|buf seen|s req];
    cbn [access_step fst snd windows failure_hit admitted_hit happened at_ rate_limited
         auth_failures_exceeded record_auth_failure general auth_fail]; rewrite ?app_nil_r; try done.
  - destruct (rate_check_ideal RATE_GENERAL_WINDOW RATE_GENERAL_LIMIT
      (general (windows st)) _ now a now (Z.le_refl _) Hg) as [Hok Ht]. cbv zeta in Hok, Ht.
    destruct (rate_check _ _ _ _ _) as [ok map] eqn:Hr. cbn [fst snd negb] in *.
    destruct ok; cbn [negb]; rewrite ?app_nil_r; ands; try done.
    symmetry in Hok. breflect. by apply window_bounded_snoc.
  - ands; [done|done|]. by eapply tracks_prune.
  - ands; [done|done|]. eapply tracks_push; [done|done|by right].
Qed.

Lemma rates_kept_reachable s : reachable s -> rates_kept s.
Proof.
  revert s. apply reachable_invariant.
  - split; [apply tracks_init|]. split; [|apply tracks_init]. intros ip t. unfold in_window. simpl. lia.
  - intros s s' _ IH [dt| | |i c h q k io Hi st r|]; try exact IH.
    + destruct IH as (Hg & Hb & Hf).
      split; [|split; [exact Hb|]]; (eapply tracks_later; [|eassumption]); simpl; lia.
    + destruct s as [st0 now l0 ths lg]. by apply rates_kept_access.
Qed.

(** ** The thread budget and the failures it allows *)

Definition is_running (th : Thread) : bool := match status th with Running _ => true | _ => false end.
Definition is_lost (th : Thread) : bool := match status th with Lost => true | _ => false end.

(** Threads between the lockout's check and the record of their own failure. *)
Definition is_pending (a : IpAddr) (th : Thread) : bool := is_running th && pending a (hist th).

Lemma count_app {A} (p : A -> bool) l l' : count p (l ++ l') = count p l + count p l'.
Proof. unfold count. by rewrite filter_app, length_app. Qed.

Lemma count_insert {A} (p : A -> bool) l i x y :
  l !! i = Some x ->
  count p (<[i := y]> l) + (if p x then 1 else 0) = count p l + (if p y then 1 else 0).
Proof.
  revert i. induction l as [|z l IH]; intros [|i] Hl; [done..| |].
  - injection Hl as ->. change (<[0 := y]> (x :: l)) with (y :: l). rewrite !count_cons. lia.
  - change (<[S i := y]> (z :: l)) with (z :: <[i := y]> l). rewrite !count_cons.
    specialize (IH i Hl). lia.
Qed.

Lemma count_mono {A} (p r : A -> bool) l : (forall x, p x = true -> r x = true) -> count p l <= count r l.
Proof. apply filter_length_mono. Qed.

Definition budget_kept (s : Workers) : Prop :=
  running (listener s) = count is_running (threads s)
  /\ dead (listener s) = count is_lost (threads s)
  /\ WEB_THREADS (listener s) = running (listener s) + dead (listener s)
  /\ WEB_THREADS (listener s) <= MAX_WEB_THREADS.

Lemma budget_kept_reachable s : reachable s -> budget_kept s.
Proof.
  revert s. apply reachable_invariant; [by repeat split; apply Nat.leb_le|].
  intros s s' _ (Hr & Hd & Hw & Hm) [dt| |c Hb|i c h q k io Hi st r|i c h e Hi];
    unfold budget_kept; cbn [listener threads running dead WEB_THREADS]; [done|done| | |].
  - rewrite !count_app, !count_cons, !count_nil. cbn [is_running is_lost status]. lia.
  - pose proof (count_insert is_running _ _ _ (mk_thread c (Ev q r :: h) (Running (k r))) Hi) as H1.
    pose proof (count_insert is_lost _ _ _ (mk_thread c (Ev q r :: h) (Running (k r))) Hi) as H2.
    cbn [is_running is_lost status] in *. lia.
  - pose proof (count_insert is_running _ _ _ (mk_thread c h (finish (listener s) e).1) Hi) as H1.
    pose proof (count_insert is_lost _ _ _ (mk_thread c h (finish (listener s) e).1) Hi) as H2.
    destruct e; cbn [finish fst snd is_running is_lost status running dead WEB_THREADS] in *; lia.
Qed.

Lemma recent_snoc l b a window now :
  (0 < window)%Z ->
  recent (l ++ [(b, now)]) a window now = recent l a window now + (if b == a then 1 else 0).
Proof.
  intros Hw. unfold recent. rewrite log_of_snoc, filter_app, length_app. f_equal.
  case_bool_decide; [|done]. simpl. by rewrite live_now.
Qed.

Definition failures_kept (s : Workers) : Prop := forall a,
  recent (hits_in failure_hit (log s)) a RATE_AUTH_FAIL_WINDOW (clock s) + count (is_pending a) (threads s)
  < RATE_AUTH_FAIL_LIMIT + MAX_WEB_THREADS.

Lemma pending_le_budget s a : reachable s -> count (is_pending a) (threads s) <= MAX_WEB_THREADS.
Proof.
  intros Hs. destruct (budget_kept_reachable s Hs) as (Hr & _ & Hw & Hm).
  assert (count (is_pending a) (threads s) <= count is_running (threads s)); [|lia].
  apply count_mono. intros th. unfold is_pending. by intros [? _]%andb_true_iff.
Qed.

(** A thread becomes pending only where the lockout finds the limit not reached. *)
Lemma pending_access s i c h q k io a :
  reachable s -> threads s !! i = Some (mk_thread c h (Running (WDo q k))) ->
  let e := Ev q (access_step (clock s) io (shared s) q).2 in
  (recent (hits_in failure_hit (log s)) a RATE_AUTH_FAIL_WINDOW (clock s) < RATE_AUTH_FAIL_LIMIT
   /\ failure_hit (mk_entry i c (clock s) e) = [])
  \/ (failure_hit (mk_entry i c (clock s) e) = [(a, clock s)]
      /\ pending a h = true /\ pending a (e :: h) = false)
  \/ (pending a (e :: h) = pending a h
      /\ forall b t, (b, t) ∈ failure_hit (mk_entry i c (clock s) e) -> b <> a).
Proof.
  intros Hs Hi e. subst e. destruct (threads_obey s Hs i _ Hi) as [Hh Ho]. cbn in Hh, Ho.
  destruct Ho as [Hq _]. destruct (rates_kept_reachable s Hs) as (_ & _ & Hf).
  destruct q as [b|b|b|st|t seen|buf seen|st req];
    cbn [access_step fst snd failure_hit happened at_]; try (right; right; split; [done|by inversion 1]).
  - unfold auth_failures_exceeded. cbv zeta. cbn [fst snd]. rewrite (Hf b _ (Z.le_refl _)).
    destruct (Nat.leb_spec RATE_AUTH_FAIL_LIMIT
      (length (List.filter (live RATE_AUTH_FAIL_WINDOW (clock s)) (log_of (hits_in failure_hit (log s)) b)))) as [Hge|Hlt].
    + right. right. split; [done|]. by inversion 1.
    + destruct (decide (b = a)) as [->|Hne]; [by left|]. right. right. split.
      * unfold pending. cbn [existsb passed_lockout recorded negb andb].
        by rewrite bool_decide_eq_false_2.
      * by inversion 1.
  - destruct (decide (b = a)) as [->|Hne].
    + right. left. ands; [done|done|]. unfold pending. cbn [existsb recorded].
      rewrite bool_decide_eq_true_2 by done. simpl. by rewrite andb_false_r.
    + right. right. split.
      * unfold pending. cbn [existsb passed_lockout recorded]. by rewrite bool_decide_eq_false_2.
      * intros b' t ?%list_elem_of_singleton. by simplify_eq.
Qed.

Lemma recent_other f a window now :
  (forall b t, (b, t) ∈ f -> b <> a) -> forall l, recent (l ++ f) a window now = recent l a window now.
Proof.
  intros Hf l. unfold recent, log_of, filter_map. rewrite omap_app, filter_app, length_app.
  replace (omap (fun e => if e.1 == a then Some e.2 else None) f) with (@nil Z); [simpl; lia|].
  induction f as [|[b t] f IH]; [done|]. simpl. rewrite bool_decide_eq_false_2 by (apply (Hf b t); left).
  apply IH. intros b' t' Hin. apply (Hf b' t'). by right.
Qed.

Lemma failures_kept_reachable s : reachable s -> failures_kept s.
Proof.
  revert s. apply reachable_invariant; [intros a; apply Nat.ltb_lt; reflexivity|].
  intros s s' Hs IH [dt| |c Hb|i c h q k io Hi st r|i c h e Hi] a; specialize (IH a);
    cbn [log threads clock]; try done.
  - eapply Nat.le_lt_trans; [|exact IH]. apply Nat.add_le_mono_r. unfold recent.
    apply filter_live_length. lia.
  - rewrite count_app, count_cons, count_nil.
    change (is_pending a (mk_thread c [] (Running (handler html cfg c)))) with false. cbv iota. lia.
  - rewrite hits_in_cons. pose proof (pending_le_budget s a Hs) as Hp.
    pose proof (count_insert (is_pending a) _ _ _ (mk_thread c (Ev q r :: h) (Running (k r))) Hi) as Hc.
    unfold is_pending at 2 4 in Hc. cbn [is_running status hist andb] in Hc.
    assert (reachable (mk_workers st (clock s) (listener s)
      (<[i := mk_thread c (Ev q r :: h) (Running (k r))]> (threads s))
      (mk_entry i c (clock s) (Ev q r) :: log s))) as Hs'.
    { eapply (reachable_step s (Access i io)); [done|]. cbn [act]. rewrite Hi. subst st r.
      by destruct (access_step _ _ _ q). }
    pose proof (pending_le_budget _ a Hs') as Hp'. cbn [threads] in Hp'.
    pose proof (pending_access s i c h q k io a Hs Hi) as Hcase. cbv zeta in Hcase. fold r in Hcase.
    destruct Hcase as [[Hlt Hn]|[(Hn & Ht & Hf)|[He Hn]]].
    + rewrite Hn, app_nil_r. lia.
    + rewrite Hn, recent_snoc, bool_decide_eq_true_2 by done. rewrite Ht, Hf in Hc. lia.
    + rewrite recent_other by exact Hn. rewrite He in Hc. lia.
  - pose proof (count_insert (is_pending a) _ _ _ (mk_thread c h (finish (listener s) e).1) Hi) as Hc.
    assert (is_pending a (mk_thread c h (finish (listener s) e).1) = false) as Hf by by destruct e.
    rewrite Hf in Hc. lia.
Qed.

(** ** The theorems *)

Lemma events_of_elem i ev l :
  ev ∈ events_of i l -> exists l1 e l2, l = l1 ++ e :: l2 /\ tid e = i /\ happened e = ev.
Proof.
  intros (e & He & Hs)%list_elem_of_omap. case_bool_decide; [|done]. injection Hs as <-.
  apply list_elem_of_split in He as (l1 & l2 & ->). by exists l1, e, l2.
Qed.

(** A redemption that succeeds has a mint before it. *)
Lemma redeemed_was_minted s later e earlier t seen :
  reachable s -> log s = later ++ e :: earlier -> happened e = Ev (ConsumeTicket t seen) true ->
  exists m issued, m ∈ earlier /\ mints t issued m /\ live SSE_TICKET_TTL seen issued = true.
Proof.
  intros Hs. revert s Hs later e earlier.
  apply (log_always (fun earlier e => happened e = Ev (ConsumeTicket t seen) true ->
    exists m issued, m ∈ earlier /\ mints t issued m /\ live SSE_TICKET_TTL seen issued = true)).
  intros s i c h q k io Hs Hi He.
  destruct (tickets_backed_access (clock s) io (shared s) q (log s) i c (tickets_backed_reachable s Hs)) as [_ Hm].
  by apply Hm.
Qed.

(** A ticket is minted by a [POST] to its endpoint that carried the token. *)
Lemma minted_by_token s later m earlier t issued :
  reachable s -> log s = later ++ m :: earlier -> mints t issued m ->
  exists r, api_request (from m) r (events_of (tid m) earlier) /\ by_token cfg r
    /\ method r = str "POST" /\ route r = str "/api/v1/events/ticket".
Proof.
  intros Hs Hl (buf & Hc & _). pose proof (accesses_obey s later m earlier Hs Hl) as Hr.
  rewrite Hc in Hr. destruct Hr as (r & ? & ? & ? & ? & _). by exists r.
Qed.

(** C9: the runtime worker hears only admitted requests, however connections interleave.
    Whenever a thread sends a request to the runtime, its connection asked for the
    route that request stands for, was under the rate limit and not locked out when
    it checked, passed the cross-origin check, and, where a token is configured, either
    carried it or asked for the event stream with a ticket that some connection carrying
    the token had minted before.  (With no token configured, which is the default,
    [by_token] holds of every request: no credential is asked for, and what keeps
    strangers out is the address the worker listens on, [web_main_refuses_exposure].) *)
Theorem runtime_hears_only_token_holders s later e earlier st req :
  reachable s -> log s = later ++ e :: earlier -> call (happened e) = Rpc st req ->
  exists r, api_request (from e) r (events_of (tid e) earlier) /\ forwarded st r req
    /\ (by_token cfg r \/
        route r = EVENTS_ROUTE /\ exists t m issued before r',
          query_param (query r) (str "ticket") = Some t /\ m ∈ earlier /\ mints t issued m
          /\ api_request (from m) r' before /\ by_token cfg r'
          /\ method r' = str "POST" /\ route r' = str "/api/v1/events/ticket").
Proof.
  intros Hs Hl Hc. pose proof (accesses_obey s later e earlier Hs Hl) as Hr. rewrite Hc in Hr.
  destruct Hr as (r & Hreq & Hg & Hf). exists r. split; [done|]. split; [done|].
  destruct Hg as [Ht|(Hr & t & seen & Hq & Hin)]; [by left|]. right. split; [done|].
  apply events_of_elem in Hin as (l1 & e' & l2 & -> & _ & He').
  rewrite app_comm_cons, app_assoc in Hl.
  destruct (redeemed_was_minted s _ e' l2 t seen Hs Hl He') as (m & issued & Hm & Hi & _).
  pose proof Hm as (l3 & l4 & ->)%list_elem_of_split.
  rewrite app_comm_cons, app_assoc in Hl.
  destruct (minted_by_token s _ m l4 t issued Hs Hl Hi) as (r' & ? & ? & ? & ?).
  exists t, m, issued, (events_of (tid m) l4), r'. ands; try done.
  apply elem_of_app. right. by right.
Qed.

(** C22: tickets are single-use and short-lived however threads race for them.  At every
    moment a ticket was redeemed at most as often as it was minted, so two streams
    cannot share one; every redemption was preceded by a mint less than 30 seconds
    before the clock the redeemer read, made by a [POST] that carried the token. *)
Theorem tickets_single_use_interleaved s :
  reachable s ->
  (forall t, count (is_redeemed t) (log s) <= count (is_mint t) (log s))
  /\ (forall later e earlier t seen,
        log s = later ++ e :: earlier -> happened e = Ev (ConsumeTicket t seen) true ->
        exists m issued before r, m ∈ earlier /\ mints t issued m
          /\ live SSE_TICKET_TTL seen issued = true
          /\ api_request (from m) r before /\ by_token cfg r
          /\ method r = str "POST" /\ route r = str "/api/v1/events/ticket").
Proof.
  intros Hs. split.
  - intros t. destruct (tickets_backed_reachable s Hs t) as [Hn _]. lia.
  - intros later e earlier t seen Hl He.
    destruct (redeemed_was_minted s later e earlier t seen Hs Hl He) as (m & issued & Hm & Hi & Hlive).
    pose proof Hm as (l3 & l4 & ->)%list_elem_of_split. rewrite app_comm_cons, app_assoc in Hl.
    destruct (minted_by_token s _ m l4 t issued Hs Hl Hi) as (r & ? & ? & ? & ?).
    by exists m, issued, (events_of (tid m) l4), r.
Qed.

(** C19: no address gets more than 120 requests through the general limit in any 60
    seconds, however its connections interleave: the limit counts inside the
    mutex. *)
Theorem rate_limit_holds_interleaved s a t :
  reachable s ->
  in_window RATE_GENERAL_WINDOW (hits_in admitted_hit (log s)) a t <= RATE_GENERAL_LIMIT.
Proof. intros Hs. apply (rates_kept_reachable s Hs). Qed.

(** C20: how far racing connections can overrun the lockout.  The check and the record
    of a failure are two critical sections, so more than 20 failures of one address
    can fall into 300 seconds; but at most 83 do at any moment, one less than the
    limit and the thread budget together. *)
Theorem lockout_overrun_bounded s a :
  reachable s ->
  recent (hits_in failure_hit (log s)) a RATE_AUTH_FAIL_WINDOW (clock s)
  < RATE_AUTH_FAIL_LIMIT + MAX_WEB_THREADS.
Proof. intros Hs. pose proof (failures_kept_reachable s Hs a). lia. Qed.

Lemma web_run_snoc l es l' e l'' : web_run l es l' -> web_step l' e l'' -> web_run l (es ++ [e]) l''.
Proof.
  intros Hr Hs. induction Hr as [l|l e1 l1 es l2 H1 _ IH]; simpl.
  - eapply web_more; [exact Hs|apply web_done].
  - eapply web_more; [exact H1|by apply IH].
Qed.

Lemma finish_step s i c h e :
  reachable s -> threads s !! i = Some (mk_thread c h (Running (WRet e))) ->
  exists ev, web_step (listener s) ev (finish (listener s) e).2.
Proof.
  intros Hs Hi. destruct (budget_kept_reachable s Hs) as (Hr & _).
  pose proof (count_insert is_running _ _ _ (mk_thread c h Returned) Hi) as Hc.
  cbn [is_running status] in Hc. destruct (running (listener s)) as [|n] eqn:Hn; [lia|].
  destruct e; cbn [finish snd]; rewrite Hn; cbn [pred].
  1,2: exists HandlerReturned; by constructor.
  exists HandlerPanicked. by constructor.
Qed.

(** C25: the accept loop's counter under real handlers.  Every interleaved run is a run of
    the listener's state machine; the counter is the number of handlers running plus
    the threads lost to a panic, never more than 64; and only a request that passed
    every gate and assigns into a body that is no object can cost a thread. *)
Theorem threads_refine_listener s :
  reachable s ->
  (exists es, web_run listener_init es (listener s))
  /\ WEB_THREADS (listener s) = count is_running (threads s) + count is_lost (threads s)
  /\ WEB_THREADS (listener s) <= MAX_WEB_THREADS
  /\ (forall th, th ∈ threads s -> status th = Lost ->
        exists r, api_request (conn th) r (hist th) /\ (by_token cfg r \/ by_ticket r (hist th))
          /\ body_route r = true /\ indexable (body_json r) = false).
Proof.
  intros Hs. destruct (budget_kept_reachable s Hs) as (Hr & Hd & Hw & Hm). split; [|split_and!; [lia|done|]].
  - revert s Hs Hr Hd Hw Hm. intros s Hs _ _ _ _. revert s Hs.
    apply (reachable_invariant (fun s => exists es, web_run listener_init es (listener s))).
    { exists []. apply web_done. }
    intros s s' Hs [es IH] [dt|Hb|c Hb|i c h q k io Hi st r|i c h e Hi]; cbn [listener]; try by exists es.
    + eexists. eapply web_run_snoc; [exact IH|by apply accept_spawned].
    + destruct (finish_step s i c h e Hs Hi) as [ev He]. eexists. by eapply web_run_snoc.
  - intros th [i Hi]%list_elem_of_lookup Hl. destruct (threads_obey s Hs i th Hi) as [_ Ho].
    rewrite Hl in Ho. destruct (Ho eq_refl) as (r & Hreq & Hg & Hp). exists r.
    apply route_request_panics in Hp as []. by ands.
Qed.
End system.

(** ** Runs *)

#[local] Instance tiny_json : SerdeJson :=
  {| from_str := fun s => if s == str "[]" then Some (JArr []) else None; to_string := fun _ => str "{}" |}.

Definition token_config : WebConfig := mk_config (str "secret") (str "/run/allgres.sock") false.

Definition client (m p : string) (hs : list (bytes * bytes)) (b : bytes) : Conn :=
  mk_conn (Some ip_a) (Some (mk_request (str m) (str p) hs b)) 0 0 0 0 0 0 (from_urandom (replicate 16 xab))
    (fun _ => Reply (str "{}")) true [mk_sse 0 (Reply (str "{}")) true].

Definition plain_header : list (bytes * bytes) := [(str "x-allgres-client", str "1")].
Definition token_header : list (bytes * bytes) := (str "authorization", str "Bearer secret") :: plain_header.

Definition steps_of (i n : nat) : list action := replicate n (Access i (Reply (str "{}"))).

(** Asks for the event stream with the ticket the sixteen bytes make. *)
Definition stream_client : Conn :=
  client "GET" "/api/v1/events?ticket=abababababababababababababababab" [] [].

(** A token holder mints a ticket while another connection waits to redeem it. *)
Definition stream_race : list action :=
  [Accept (client "POST" "/api/v1/events/ticket" token_header []);
   Accept stream_client]
  ++ steps_of 1 1 ++ steps_of 0 3 ++ [Tick 5] ++ steps_of 0 1 ++ steps_of 1 3 ++ [Finish 0]
  ++ steps_of 1 3.

Definition after (acts : list action) : Workers :=
  default workers_init (run_actions [] token_config workers_init acts).

Lemma after_reachable acts :
  (match run_actions [] token_config workers_init acts with Some _ => true | None => false end) = true ->
  reachable [] token_config (after acts).
Proof.
  intros Hn. unfold after. destruct (run_actions [] token_config workers_init acts) as [s|] eqn:E; [|done].
  eapply run_reachable; [apply reachable_init|exact E].
Qed.

Lemma stream_race_reachable : reachable [] token_config (after stream_race).
Proof. apply after_reachable. vm_compute. reflexivity. Qed.

Lemma runtime_hears_only_token_holders_witness :
  exists e r, call (happened e) = Rpc (Site_turn 0) events_request
    /\ request (from e) = Some r /\ ~ by_token token_config r /\ route r = EVENTS_ROUTE.
Proof.
  assert (call ∘ happened <$> head (log (after stream_race)) = Some (Rpc (Site_turn 0) events_request)) as Hc
    by (vm_compute; reflexivity).
  assert (request ∘ from <$> head (log (after stream_race)) = Some (request stream_client)) as Hq
    by (vm_compute; reflexivity).
  destruct (log (after stream_race)) as [|e earlier] eqn:Hl; [done|]. injection Hc as Hc. injection Hq as Hq.
  destruct (runtime_hears_only_token_holders [] token_config _ [] e earlier _ _ stream_race_reachable Hl Hc)
    as (r & (Hr & _) & _ & _).
  exists e, r. split; [done|]. split; [done|]. rewrite Hq in Hr. injection Hr as <-.
  split; [by intros [Ht|Hb]; vm_compute in *|by vm_compute].
Defined.

(** Two connections present the same ticket; one gets the stream. *)
Definition ticket_race : list action :=
  [Accept (client "POST" "/api/v1/events/ticket" token_header []); Accept stream_client; Accept stream_client]
  ++ steps_of 0 4 ++ steps_of 1 3 ++ steps_of 2 3 ++ steps_of 2 1 ++ steps_of 1 1.

Lemma ticket_race_reachable : reachable [] token_config (after ticket_race).
Proof. apply after_reachable. vm_compute. reflexivity. Qed.

Lemma tickets_single_use_interleaved_witness :
  let l := log (after ticket_race) in let t := nonce (from_urandom (replicate 16 xab)) in
  count (is_redeemed t) l <= count (is_mint t) l
  /\ count (is_redeemed t) l = 1 /\ (consumed ∘ happened) <$> take 2 l = [Some (t, 0%Z, false); Some (t, 0%Z, true)].
Proof.
  split; [|vm_compute; by split].
  by apply (tickets_single_use_interleaved [] token_config (after ticket_race) ticket_race_reachable).
Defined.

(** 130 connections of one address, one after the other: ten are turned away. *)
Definition burst : list action :=
  concat (imap (fun i c => [Accept c] ++ steps_of i (if (i <? 120)%nat then 3 else 1) ++ [Finish i])
            (replicate 130 (client "POST" "/api/v1/run" token_header []))).

Lemma burst_reachable : reachable [] token_config (after burst).
Proof. apply after_reachable. vm_compute. reflexivity. Qed.

Lemma rate_limit_holds_interleaved_witness :
  let hits := hits_in admitted_hit (log (after burst)) in
  in_window RATE_GENERAL_WINDOW hits ip_a 0 <= RATE_GENERAL_LIMIT
  /\ in_window RATE_GENERAL_WINDOW hits ip_a 0 = 120.
Proof.
  split; [|vm_compute; reflexivity].
  apply (rate_limit_holds_interleaved [] token_config (after burst)), burst_reachable.
Defined.

(** Nineteen wrong guesses, then sixty-four at once: every one of them passes the check
    before any is recorded. *)
Definition guess : Conn := client "POST" "/api/v1/run" plain_header [].

Definition guessing : list action :=
  concat (map (fun i => [Accept guess] ++ steps_of i 3 ++ [Finish i]) (seq 0 19))
  ++ replicate 64 (Accept guess)
  ++ concat (map (fun i => steps_of i 2) (seq 19 64))
  ++ concat (map (fun i => steps_of i 1) (seq 19 64)).

Lemma guessing_reachable : reachable [] token_config (after guessing).
Proof. apply after_reachable. vm_compute. reflexivity. Qed.

(** The bound is attained: 83 failures where the limit is 20. *)
Lemma lockout_overrun_bounded_witness :
  let failures := recent (hits_in failure_hit (log (after guessing))) ip_a RATE_AUTH_FAIL_WINDOW 0 in
  failures < RATE_AUTH_FAIL_LIMIT + MAX_WEB_THREADS /\ failures = 83.
Proof.
  split; [|vm_compute; reflexivity].
  pose proof (lockout_overrun_bounded [] token_config (after guessing) ip_a guessing_reachable) as Hb.
  assert (clock (after guessing) = 0%Z) as Hc by (vm_compute; reflexivity). by rewrite Hc in Hb.
Defined.

(** A token holder posts an array to the run endpoint: its thread is lost. *)
Definition array_post : list action :=
  [Accept (client "POST" "/api/v1/run" token_header (str "[]"))] ++ steps_of 0 2 ++ [Finish 0].

Lemma array_post_reachable : reachable [] token_config (after array_post).
Proof. apply after_reachable. vm_compute. reflexivity. Qed.

Lemma threads_refine_listener_witness :
  WEB_THREADS (listener (after array_post))
  = count is_running (threads (after array_post)) + count is_lost (threads (after array_post))
  /\ WEB_THREADS (listener (after array_post)) = 1 /\ count is_lost (threads (after array_post)) = 1.
Proof.
  split; [|vm_compute; by split].
  by apply (threads_refine_listener [] token_config (after array_post) array_post_reachable).
Defined.
