(* ===== verification/WebClient.v ===== *)
(** * What a client reads

    The web worker writes its responses and its event stream by hand.  Here a client is
    written down, and what it makes of the bytes: every response is one response, with
    the headers and the body meant, and every snapshot one event. *)

From S2P Require Import Prelude Utf8 RustStr F64 Net Json HttpProtocol RateLimit WebAuth Web.

#[local] Arguments str : simpl never.

(** ** A client of HTTP/1.1 *)

(** The status line, the headers (names in lower case) and as much body as
    [Content-Length] announces. *)
Definition client_read (text : bytes) : option (bytes * list (bytes * bytes) * bytes) :=
  match head_position text with
  | None => None
  | Some p =>
    match lines (take (p + 4) text) with
    | [] => None
    | l0 :: ls =>
      Some (l0, filter_map parse_header_line ls,
            take (Z.to_nat (content_length text (p + 4))) (drop (p + 4) text))
    end
  end.

Definition lower_name (kv : bytes * bytes) : bytes * bytes := (to_ascii_lowercase kv.1, kv.2).

(** The headers every response carries. *)
Definition standard_headers (content_type b : bytes) : list (bytes * bytes) :=
  [(str "Content-Type", content_type);
   (str "Content-Length", format_radix 10 (Z.of_nat (length b)));
   (str "Cache-Control", str "no-store");
   (str "Connection", str "close");
   (str "X-Content-Type-Options", str "nosniff");
   (str "X-Frame-Options", str "DENY");
   (str "Referrer-Policy", str "no-referrer");
   (str "Cross-Origin-Resource-Policy", str "same-origin")].

Definition status_line (status : bytes) : bytes := str "HTTP/1.1 " ++ status.

Definition wire_text (s : bytes) : bool := forallb (fun b => printable b && (b != ":"%byte)) s.

(** What the server writes is the head the client expects. *)
Lemma respond_text status ct b extras :
  respond status ct b (head_text (map render_header extras))
  = head_text (status_line status :: map render_header (standard_headers ct b ++ extras)) ++ CRLF ++ b.
Proof.
  unfold respond, security_headers, standard_headers, status_line, render_header.
  cbn [map concat app fst snd]. rewrite <- !app_assoc.
  change (str "Content-Type: " ++ ?x) with (str "Content-Type" ++ str ": " ++ x).
  change (str "Content-Length: " ++ ?x) with (str "Content-Length" ++ str ": " ++ x).
  reflexivity.
Qed.

Lemma digits_value n : (0 <= n)%Z ->
  forallb printable (format_radix 10 n) && trimmed (format_radix 10 n) = true.
Proof.
  intros Hn. pose proof (format_radix_alnum 10 n ltac:(lia)) as Ha.
  pose proof (format_radix_nonempty 10 n) as Hne.
  assert (forall b, is_ascii_alphanumeric b = true -> is_graphic b = true) as Hg
    by (intros b; destruct b; vm_compute; done).
  assert (word (format_radix 10 n) = true) as Hw.
  { unfold word. apply andb_true_iff. split; [by destruct (format_radix 10 n)|].
    apply forallb_Forall. eapply Forall_impl; [|exact Ha]. apply Hg. }
  apply andb_true_iff. split; [|by apply word_trimmed].
  apply forallb_Forall. by apply word_printable in Hw as [_ ?].
Qed.

(** The standard headers are lines. *)
Lemma standard_wire ct b :
  forallb printable ct && trimmed ct = true -> forallb wire_header (standard_headers ct b) = true.
Proof.
  intros Hc. pose proof (digits_value (Z.of_nat (length b)) ltac:(lia)) as Hd.
  unfold standard_headers. cbn [forallb]. rewrite !andb_true_iff. breflect.
  split; [|split; [|by repeat split]]; unfold wire_header; cbn [fst snd]; by rewrite !andb_true_iff.
Qed.

Lemma content_length_skip l ls :
  (forall k v, split_once ":"%byte l = Some (k, v) -> eq_ignore_ascii_case k (str "content-length") = false) ->
  content_length_lines (l :: ls) = content_length_lines ls.
Proof.
  intros Hl. cbn [content_length_lines]. destruct (split_once ":"%byte l) as [[k v]|]; [|done].
  by rewrite (Hl k v).
Qed.

(** The announced length is the body's. *)
Lemma content_length_found l0 ct b rest :
  ":"%byte ∉ l0 -> forallb printable ct && trimmed ct = true -> (Z.of_nat (length b) <= usize_max)%Z ->
  content_length_lines (l0 :: map render_header (standard_headers ct b) ++ rest) = Z.of_nat (length b).
Proof.
  intros H0 Hc Hb. pose proof (standard_wire ct b Hc) as Hw. unfold standard_headers in *.
  cbn [forallb] in Hw. rewrite !andb_true_iff in Hw. destruct Hw as (H1 & H2 & _).
  destruct (parse_wire_header _ H1) as (S1 & _). destruct (parse_wire_header _ H2) as (S2 & T2 & _).
  rewrite content_length_skip; [|by rewrite (proj2 (split_once_None ":"%byte l0) H0)].
  cbn [map app]. rewrite content_length_skip.
  - cbn [content_length_lines]. rewrite S2. cbn [fst snd] in *. rewrite T2.
    change (eq_ignore_ascii_case (str "Content-Length") (str "content-length")) with true. cbv iota.
    unfold parse_usize. by rewrite parse_format by lia.
  - rewrite S1. by intros k v [= <- <-].
Qed.

Lemma wire_text_line s : wire_text s = true ->
  Forall (fun b => printable b = true) s /\ ":"%byte ∉ s.
Proof.
  unfold wire_text. intros Hs%forallb_Forall. split.
  - eapply Forall_impl; [|exact Hs]. by intros b [? _]%andb_true_iff.
  - intros Hin. eapply Forall_forall in Hs; [|by apply list_elem_of_In]. by vm_compute in Hs.
Qed.

Lemma filter_map_headers hs :
  forallb wire_header hs = true ->
  filter_map parse_header_line (map render_header hs ++ [[]]) = map lower_name hs.
Proof.
  unfold filter_map. induction hs as [|kv hs IH]; [done|]. cbn [forallb map app omap list_omap].
  intros [Hkv Hhs]%andb_true_iff. destruct (parse_wire_header kv Hkv) as (_ & _ & ->).
  f_equal. by apply IH.
Qed.

(** One response, read back. *)
Lemma client_reads_response status ct b extras :
  wire_text status = true -> forallb printable ct && trimmed ct = true ->
  forallb wire_header extras = true -> (Z.of_nat (length b) <= usize_max)%Z ->
  client_read (respond status ct b (head_text (map render_header extras)))
  = Some (status_line status, map lower_name (standard_headers ct b ++ extras), b).
Proof.
  intros Hs Hc He Hb. rewrite respond_text. apply wire_text_line in Hs as [Hsp Hsc].
  pose proof (standard_wire ct b Hc) as Hw.
  assert (forallb wire_header (standard_headers ct b ++ extras) = true) as Hall
    by by rewrite forallb_app, Hw, He.
  assert (Forall (fun b => printable b = true) (status_line status)) as Hlp
    by (apply Forall_app; split; [by repeat constructor|done]).
  set (ls := status_line status :: map render_header (standard_headers ct b ++ extras)).
  assert (Forall text_line ls) as Hls.
  { constructor; [by apply text_line_ascii_graphic|]. apply Forall_map.
    eapply Forall_impl; [apply wire_header_text|by apply forallb_Forall]. }
  assert (ascii_str (head_text ls ++ CRLF)) as Hascii.
  { apply Forall_app. split; [|by repeat constructor]. apply Forall_concat, Forall_map. constructor.
    - apply Forall_app. split; [by apply printable_ascii_str|by repeat constructor].
    - apply Forall_map. eapply Forall_impl; [|by apply forallb_Forall]. intros kv Hkv.
      apply Forall_app. split; [by apply printable_ascii_str, wire_header_printable|by repeat constructor]. }
  destruct (head_position_text ls b) as (p & Hp & Hlen); [done|done|].
  unfold client_read. rewrite Hp, Hlen. unfold content_length. rewrite app_assoc, take_app_length, drop_app_length.
  rewrite from_utf8_lossy_valid_eq by by apply utf8_valid_ascii.
  rewrite lines_head_text by done. unfold ls at 1. cbn [app]. rewrite filter_map_headers by done.
  assert (content_length_lines (ls ++ [[]]) = Z.of_nat (length b)) as ->.
  { unfold ls. rewrite map_app. cbn [app]. rewrite <- app_assoc. apply content_length_found; [|done|done].
    unfold status_line. rewrite not_elem_of_app. split; [|done].
    by apply (bool_decide_eq_false_1 (":"%byte ∈ str "HTTP/1.1 ")). }
  by rewrite Nat2Z.id, take_ge by lia.
Qed.

(** ** An event source *)

(** The events of a stream, line by line: an [event] field names the event, a [data]
    field holds its data, and a blank line dispatches it. *)
Fixpoint read_events (name data : option bytes) (ls : list bytes) : list (bytes * bytes) :=
  match ls with
  | [] => []
  | l :: rest =>
    if negb (nonempty l) then
      match data with
      | Some d => (default (str "message") name, d) :: read_events None None rest
      | None => read_events None None rest
      end
    else
      match strip_prefix (str "event: ") l, strip_prefix (str "data: ") l with
      | Some n, _ => read_events (Some n) data rest
      | None, Some d =>
        read_events name (Some (match data with Some d0 => d0 ++ [x0a] ++ d | None => d end)) rest
      | None, None => read_events name data rest
      end
  end.

(** [serde_json] escapes the control characters of strings and prints no others. *)
Class SerdeJsonLaws (S : SerdeJson) := {
  to_string_one_line : forall v, Forall (fun b => b <> x0d /\ b <> x0a) (to_string v)
}.

Section client.
Context `{S : SerdeJson} `{!SerdeJsonLaws S}.

Lemma no_cr s : Forall (fun b => b <> x0d /\ b <> x0a) s -> strip_suffix x0d s = None /\ x0a ∉ s.
Proof.
  intros Hs. split.
  - destruct s as [|b s _] using rev_ind; [done|]. apply Forall_app in Hs as [_ Hb].
    inversion Hb as [|? ? [Hx _] _]; subst. unfold strip_suffix. rewrite rev_app_distr. simpl.
    by rewrite bool_decide_eq_false_2.
  - intros Hin. eapply Forall_forall in Hs; [|by apply list_elem_of_In]. by destruct Hs.
Qed.

(** One frame is one event. *)
Lemma read_frame v rest :
  read_events None None (lines (event_frame v ++ rest))
  = (str "snapshot", to_string v) :: read_events None None (lines rest).
Proof.
  unfold event_frame. rewrite <- !app_assoc.
  assert (Forall (fun b => b <> x0d /\ b <> x0a) (str "data: " ++ to_string v)) as Hd.
  { apply Forall_app. split; [|apply to_string_one_line]. by repeat constructor. }
  destruct (no_cr _ Hd) as [Hd1 Hd2].
  change ([x0a] ++ str "data: " ++ to_string v ++ [x0a; x0a] ++ rest)
    with (x0a :: str "data: " ++ to_string v ++ x0a :: x0a :: rest).
  rewrite lines_lf; [|by apply (bool_decide_eq_false_1 (x0a ∈ str "event: snapshot"))|reflexivity].
  rewrite app_assoc, lines_lf by done.
  change (x0a :: rest) with ([] ++ x0a :: rest). rewrite lines_lf; [|apply not_elem_of_nil|done].
  cbn [read_events]. change (nonempty (str "event: snapshot")) with true.
  change (strip_prefix (str "event: ") (str "event: snapshot")) with (Some (str "snapshot")).
  change (nonempty (str "data: " ++ to_string v)) with true.
  change (strip_prefix (str "event: ") (str "data: " ++ to_string v)) with (@None bytes).
  rewrite (proj2 (strip_prefix_Some (str "data: ") _ (to_string v)) eq_refl). done.
Qed.

Lemma read_frames vs :
  read_events None None (lines (concat (map event_frame vs))) = map (fun v => (str "snapshot", to_string v)) vs.
Proof. induction vs as [|v vs IH]; [done|]. cbn [map concat]. by rewrite read_frame, IH. Qed.

(** The snapshots of the turns before the deadline, until the client is gone. *)
Fixpoint snapshots (deadline : Z) (ticks : list sse_tick) : list json :=
  match ticks with
  | [] => []
  | t :: rest =>
    if (sse_now t <? deadline)%Z && sse_written t then rpc (sse_io t) :: snapshots deadline rest else []
  end.

Lemma stream_frames deadline ticks :
  (stream_loop deadline ticks).1 = map event_frame (snapshots deadline ticks).
Proof.
  induction ticks as [|t rest IH]; cbn [stream_loop snapshots]; [done|].
  destruct (sse_now t <? deadline)%Z; [|done]. destruct (sse_written t); [|done].
  destruct (stream_loop deadline rest) as [fs qs]. simpl in *. by rewrite IH.
Qed.

(** ** Everything the handler writes *)

(** The headers some responses carry besides. *)
Definition extra_names : list bytes :=
  [str "Allow"; str "Retry-After"; str "WWW-Authenticate"; str "Content-Security-Policy"].

Definition extra_header (kv : bytes * bytes) : bool :=
  existsb (fun n => kv.1 == n) extra_names && wire_header kv.

Definition framed (text : bytes) : Prop :=
  exists status ct b extras, text = respond status ct b (head_text (map render_header extras))
    /\ wire_text status = true /\ forallb printable ct && trimmed ct = true
    /\ forallb extra_header extras = true.

Lemma extras_wire extras : forallb extra_header extras = true -> forallb wire_header extras = true.
Proof.
  rewrite !forallb_Forall. apply Forall_impl. unfold extra_header. by intros kv [_ ?]%andb_true_iff.
Qed.

Definition streamed (c : Conn) (text : bytes) : Prop :=
  text = stream_head ++ concat (map event_frame (snapshots (now_stream c + SSE_TOTAL) (sse_ticks c))).

Lemma framed_plain status ct b : 
  wire_text status = true -> forallb printable ct && trimmed ct = true ->
  framed (respond status ct b []).
Proof. intros Hs Hc. by exists status, ct, b, []. Qed.

Lemma framed_extra status ct b kv :
  wire_text status = true -> forallb printable ct && trimmed ct = true -> extra_header kv = true ->
  framed (respond status ct b (render_header kv ++ CRLF)).
Proof.
  intros Hs Hc He. exists status, ct, b, [kv]. cbn [map concat forallb]. rewrite app_nil_r, He. done.
Qed.

Lemma nonce_hex buf : Forall (fun b => is_ascii_alphanumeric b = true) (nonce buf).
Proof.
  apply Forall_concat, Forall_map, Forall_forall. intros b _. unfold hex02.
  by repeat constructor; destruct b.
Qed.

(** The policy of the page is one header, whatever the nonce. *)
Lemma framed_page html n :
  Forall (fun b => is_ascii_alphanumeric b = true) n ->
  framed (respond (str "200 OK") (str "text/html; charset=utf-8") html (DASHBOARD_CSP n)).
Proof.
  intros Hn. set (v := str "default-src 'none'; script-src 'nonce-" ++ n ++ str "'; style-src 'nonce-" ++ n
    ++ str "'; connect-src 'self'; img-src 'self' data:; base-uri 'none'; form-action 'none'; frame-ancestors 'none'").
  replace (DASHBOARD_CSP n) with (render_header (str "Content-Security-Policy", v) ++ CRLF).
  - apply framed_extra; [reflexivity|reflexivity|]. apply andb_true_iff. split; [reflexivity|].
    unfold wire_header. cbn [fst snd]. rewrite !andb_true_iff. split; [split; [by split|]|].
    + unfold v. rewrite !forallb_app, !andb_true_iff. 
      assert (forallb printable n = true) as ->; [|done].
      apply forallb_Forall. eapply Forall_impl; [|exact Hn]. intros b. by destruct b.
    + unfold trimmed, v. rewrite !rev_app_distr. reflexivity.
  - unfold DASHBOARD_CSP, render_header, v. cbn [fst snd]. rewrite <- !app_assoc. reflexivity.
Qed.

(** A response of the handler that is no stream is framed. *)
Definition well_written (c : Conn) (e : ending) : Prop :=
  match e with Wrote text => framed text \/ streamed c text | _ => True end.

Lemma well_json c status b : wire_text (str status) = true -> well_written c (respond_json status b).
Proof. intros Hs. left. by apply framed_plain. Qed.

Lemma well_error c status code : wire_text (str status) = true -> well_written c (respond_error status code []).
Proof. intros Hs. left. by apply framed_plain. Qed.

Lemma well_error_extra c status code k v :
  wire_text (str status) = true -> extra_header (str k, str v) = true ->
  well_written c (respond_error status code (render_header (str k, str v) ++ CRLF)).
Proof. intros Hs He. left. by apply framed_extra. Qed.

#[local] Hint Resolve well_json well_error : allgres.

Lemma serve_well st c r : well_written c (serve_api st c r).2.
Proof.
  unfold serve_api. destruct (route r == str "/api/v1/events/ticket").
  { destruct (method r != str "POST"); [by apply (well_error_extra c _ _ "Allow" "POST")|].
    destruct (mint_sse_ticket _ _ _). by apply well_json. }
  destruct (route r == EVENTS_ROUTE).
  { destruct (head_written c); [|done].
    pose proof (stream_frames (now_stream c + SSE_TOTAL) (sse_ticks c)) as Hf.
    destruct (stream_loop _ _) as [fs qs]. simpl in *. right. unfold streamed. by rewrite Hf. }
  destruct (api_route (backend c) r) as [[[v|] qs]|]; [|by apply well_error|done].
  destruct (get_bool v (str "ok") == Some false); by apply well_json.
Qed.

Lemma handler_well html cfg st c : well_written c (handle_web_connection html cfg st c).2.
Proof.
  unfold handle_web_connection. destruct (check_peer _ _ _) as [limited st1].
  destruct limited; [by apply (well_error_extra c _ _ "Retry-After" "60")|].
  destruct (request c) as [r|]; [|done]. cbv zeta.
  destruct (method r == str "OPTIONS"); [by apply (well_error_extra c _ _ "Allow" "GET, POST, PATCH")|].
  destruct (route r == str "/healthz"); [by apply well_json|].
  destruct (is_mock_chat (route r)).
  { destruct (mock_enabled cfg); [by apply well_json|by apply well_error]. }
  destruct (route r == str "/mock/oauth/token").
  { destruct (mock_enabled cfg); [|by apply well_error]. unfold mock_oauth. simpl.
    case_match; by apply well_json. }
  destruct (route r == str "/mock/embeddings").
  { destruct (mock_enabled cfg); [by apply well_json|by apply well_error]. }
  destruct (route r == str "/"); [left; apply framed_page, nonce_hex|].
  destruct (negb (starts_with (str "/api/v1/") (route r))); [by apply well_error|].
  unfold gate_api. destruct (negb (csrf_ok r)); [by apply well_error|].
  destruct (check_peer _ st1 _) as [locked st2].
  destruct locked; [by apply (well_error_extra c _ _ "Retry-After" "300")|].
  destruct (authorized _ _ _ _) as [ok ts].
  destruct ok; [apply serve_well|by apply (well_error_extra c _ _ "WWW-Authenticate" "Bearer")].
Qed.

(** C18: a client reads what the server means.  Whatever a connection sends, what its
    handler writes is either one HTTP response, whose status line, headers and body a
    client reads back exactly (the announced length is the body's, and no data from
    the request or the runtime can add a header or a second response), or an event
    stream whose events are exactly the snapshots of its turns, in order. *)
Theorem responses_read_back html cfg st c st' reqs text :
  handle_web_connection html cfg st c = (st', reqs, Wrote text) ->
  (Z.of_nat (length text) <= usize_max)%Z ->
  (exists status ct b extras,
     text = respond status ct b (head_text (map render_header extras))
     /\ Forall (fun kv => kv.1 ∈ extra_names) extras
     /\ client_read text
        = Some (status_line status, map lower_name (standard_headers ct b ++ extras), b))
  \/ (exists body, text = stream_head ++ body
      /\ read_events None None (lines body)
         = map (fun v => (str "snapshot", to_string v))
               (snapshots (now_stream c + SSE_TOTAL) (sse_ticks c))).
Proof.
  intros Hh Hl. pose proof (handler_well html cfg st c) as Hw. rewrite Hh in Hw.
  destruct Hw as [(status & ct & b & extras & -> & Hs & Hc & He)|Ht].
  - left. exists status, ct, b, extras. split; [done|]. split.
    + apply forallb_Forall in He. eapply Forall_impl; [|exact He]. intros kv [Hn _]%andb_true_iff.
      apply existsb_exists in Hn as (n & Hn & Heq). breflect. rewrite Heq. by apply list_elem_of_In.
    + apply client_reads_response; [done|done|by apply extras_wire|].
      unfold respond in Hl. rewrite !length_app in Hl. lia.
  - right. eexists. split; [exact Ht|]. apply read_frames.
Qed.
End client.

#[local] Instance tiny_json : SerdeJson := {| from_str := fun _ => None; to_string := fun _ => str "{}" |}.

#[local] Instance tiny_json_laws : SerdeJsonLaws tiny_json.
Proof. split. intros v. by repeat constructor. Qed.

(** A request with another method than the endpoint allows: 405, with the [Allow] header. *)
Definition options_answer : bytes :=
  match (handle_web_connection [] open_config web_init
           (sample_conn (mk_request (str "OPTIONS") (str "/") [] []))).2 with
  | Wrote text => text
  | _ => []
  end.

Lemma responses_read_back_witness :
  (exists status ct b extras, client_read options_answer
     = Some (status_line status, map lower_name (standard_headers ct b ++ extras), b))
  /\ (fun r => (r.1.1, length r.1.2)) <$> client_read options_answer
     = Some (str "HTTP/1.1 405 Method Not Allowed", 9%nat).
Proof.
  split; [|vm_compute; reflexivity].
  set (out := handle_web_connection [] open_config web_init
                (sample_conn (mk_request (str "OPTIONS") (str "/") [] []))).
  destruct (responses_read_back [] open_config web_init _ out.1.1 out.1.2 options_answer
              (eq_refl : out = (out.1.1, out.1.2, Wrote options_answer))
              ltac:(vm_compute; discriminate)) as [(status & ct & b & extras & _ & _ & Hr)|(bd & Hb & _)].
  - by exists status, ct, b, extras.
  - exfalso. apply (f_equal (take 12)) in Hb. vm_compute in Hb. discriminate.
Defined.
