(* ===== verification/SqlParser.v ===== *)
(** * [src/sql_parser.rs]: reading a PostgreSQL node dump

    [analyze_dump] decides, from the text [nodeToString] prints for a parsed
    agent statement, which relations and functions it names and whether it
    writes.  PostgreSQL's parser and printer are parameters of
    [raw_parse_dump]; the reader of their output is modelled whole.  A string
    slice at an offset that is no character boundary panics, so the readers
    return [None] for a panic. *)

From S2P Require Import Prelude Utf8 RustStr.

(** ** Tokens *)

Definition BACKSLASH : byte := x5c.
Definition QUOTE : byte := x22.

(** The bytes that end a token. *)
Definition token_delim (b : byte) : bool :=
  is_ascii_whitespace b || (b == "}"%byte) || (b == ")"%byte) || (b == "{"%byte) || (b == "("%byte).

(** [s[i..].chars().next().expect(..)] at byte [b] of [b :: r]: the character
    there, [None] where the slice or the [expect] panics. *)
Definition char_at (b : byte) (r : bytes) : option bytes :=
  match utf8_first b r with Valid c => Some c | Invalid _ => None end.

(** The [while] loop of [read_token]: the text pushed and the bytes consumed.
    [skip] counts the bytes of a multi-byte character still to be stepped over. *)
Fixpoint read_token_loop (skip : nat) (s : bytes) : option (bytes * nat) :=
  match s with
  | [] => Some ([], 0%nat)
  | b :: r =>
    match skip with
    | S k => match read_token_loop k r with
             | Some (out, n) => Some (out, S n)
             | None => None
             end
    | O =>
      if b == BACKSLASH then
        match r with
        | c :: r' => match read_token_loop 0 r' with
                     | Some (out, n) => Some (latin1_char c ++ out, S (S n))
                     | None => None
                     end
        | [] => Some ([], 1%nat)
        end
      else if token_delim b then Some ([], 0%nat)
      else if (u8 b <? 128)%Z then
        match read_token_loop 0 r with
        | Some (out, n) => Some (b :: out, S n)
        | None => None
        end
      else
        match char_at b r with
        | None => None
        | Some c =>
          match read_token_loop (pred (length c)) r with
          | Some (out, n) => Some (c ++ out, S n)
          | None => None
          end
        end
    end
  end.

Definition read_token (s : bytes) : option (option bytes * nat) :=
  if starts_with (str "<>") s then Some (None, 2%nat)
  else if starts_with [QUOTE; QUOTE] s then Some (Some [], 2%nat)
  else match read_token_loop 0 s with
       | Some (out, n) => Some (Some out, n)
       | None => None
       end.

(** ** Nested text *)

(** The loop shared, up to the two bracket bytes, by [node_body] and
    [paren_body]: the text before the closing bracket of depth zero. *)
Fixpoint body_loop (op cl : byte) (depth : nat) (s : bytes) : option bytes :=
  match s with
  | [] => None
  | b :: r =>
    if b == BACKSLASH then
      match r with
      | c :: r' => (fun t => b :: c :: t) <$> body_loop op cl depth r'
      | [] => None
      end
    else if b == op then cons b <$> body_loop op cl (S depth) r
    else if b == cl then
      match depth with
      | O => Some []
      | S d => cons b <$> body_loop op cl d r
      end
    else cons b <$> body_loop op cl depth r
  end.

Definition node_body (s : bytes) : bytes := default s (body_loop "{"%byte "}"%byte 0 s).
Definition paren_body (s : bytes) : bytes := default s (body_loop "("%byte ")"%byte 0 s).

(** ** Quoted strings *)

(** [quoted_strings]: outside a string ([None]) or inside one, with the text read
    so far. *)
Fixpoint quoted_loop (skip : nat) (cur : option bytes) (s : bytes) : option (list bytes) :=
  match s with
  | [] => Some (match cur with Some t => [t] | None => [] end)
  | b :: r =>
    match skip with
    | S k => quoted_loop k cur r
    | O =>
      match cur with
      | None => if b == QUOTE then quoted_loop 0 (Some []) r else quoted_loop 0 None r
      | Some t =>
        if b == QUOTE then cons t <$> quoted_loop 0 None r
        else
          match (if b == BACKSLASH then r else []) with
          | c :: r' => quoted_loop 1 (Some (t ++ latin1_char c)) r
          | [] =>
            if (u8 b <? 128)%Z then quoted_loop 0 (Some (t ++ [b])) r
            else match char_at b r with
                 | None => None
                 | Some c => quoted_loop (pred (length c)) (Some (t ++ c)) r
                 end
          end
      end
    end
  end.

Definition quoted_strings (body : bytes) : option (list bytes) := quoted_loop 0 None body.

(** ** Fields and tags *)

(** [field]: the value after [:name ], [Some None] when absent or NULL. *)
Definition field (body name : bytes) : option (option bytes) :=
  let needle := str ":" ++ name ++ str " " in
  match find_sub needle body with
  | None => Some None
  | Some p => fst <$> read_token (drop (p + length needle) body)
  end.

Definition read_ident (s : bytes) : bytes :=
  take_while (fun b => is_ascii_alphanumeric b || (b == "_"%byte)) s.

(** [while let Some(p) = dump[idx..].find(tag)], with [idx] moved behind each
    occurrence: the texts behind the occurrences. *)
Fixpoint occurrences (tag : bytes) (skip : nat) (s : bytes) : list bytes :=
  match s with
  | [] => []
  | _ :: r =>
    match skip with
    | S k => occurrences tag k r
    | O => if starts_with tag s
           then drop (length tag) s :: occurrences tag (pred (length tag)) r
           else occurrences tag 0 r
    end
  end.

(** ** The analysis *)

Record Analysis := mk_analysis {
  statements : nat;
  kind : bytes;
  writes : bool;
  relations : list (option bytes * bytes);
  functions : list (option bytes * bytes);
  ctes : list bytes
}.

(** [{"ok": false, "error": "unparseable"}], or the fields of an analysis. *)
Inductive dump_result :=
| Unparseable
| Analyzed (a : Analysis).

(** All of a list of results, or the first panic. *)
Fixpoint sequence {A} (l : list (option A)) : option (list A) :=
  match l with
  | [] => Some []
  | x :: l' => match x with
               | None => None
               | Some a => cons a <$> sequence l'
               end
  end.

(** The tag of the statement of one [{RAWSTMT]. *)
Definition statement_kind (s : bytes) : option bytes :=
  let body := node_body s in
  match find_sub (str ":stmt {") body with
  | Some q => Some (read_ident (drop (q + length (str ":stmt {")) body))
  | None => None
  end.

Definition kinds_of (dump : bytes) : list bytes :=
  filter_map statement_kind (occurrences (str "{RAWSTMT") 0 dump).

(** One [{RANGEVAR ]: schema and name, nothing when it has no name. *)
Definition relation_of (s : bytes) : option (option (option bytes * bytes)) :=
  let body := node_body s in
  match field body (str "relname") with
  | None => None
  | Some None => Some None
  | Some (Some name) =>
    match field body (str "schemaname") with
    | None => None
    | Some schema => Some (Some (schema, name))
    end
  end.

Definition cte_of (s : bytes) : option (option bytes) := fst <$> read_token s.

(** One [:funcname (]: the last quoted string, qualified by the one before it. *)
Definition function_of (s : bytes) : option (option (option bytes * bytes)) :=
  match quoted_strings (paren_body s) with
  | None => None
  | Some parts =>
    Some match rev parts with
         | [] => None
         | name :: rest => Some (head rest, name)
         end
  end.

(** The results of one of the loops, in order, without the skipped ones. *)
Definition collect {A} (f : bytes -> option (option A)) (tag dump : bytes) : option (list A) :=
  match sequence (map f (occurrences tag 0 dump)) with
  | Some rs => Some (filter_map id rs)
  | None => None
  end.

Definition has_into (dump : bytes) : bool := contains dump (str ":intoClause {").

Definition has_dml (dump : bytes) : bool :=
  existsb (contains dump)
    [str "{INSERTSTMT"; str "{UPDATESTMT"; str "{DELETESTMT"; str "{MERGESTMT"].

Definition analyze_dump (dump : bytes) : option dump_result :=
  match dump with
  | [] => Some Unparseable
  | _ =>
    let kinds := kinds_of dump in
    match collect relation_of (str "{RANGEVAR ") dump with
    | None => None
    | Some rels =>
      match collect cte_of (str ":ctename ") dump with
      | None => None
      | Some cs =>
        match collect function_of (str ":funcname (") dump with
        | None => None
        | Some fs =>
          Some (Analyzed
            {| statements := length kinds;
               kind := if bool_decide (kinds = [str "SELECTSTMT"]) then str "select" else str "other";
               writes := has_into dump || has_dml dump;
               relations := rels; functions := fs; ctes := cs |})
        end
      end
    end
  end.

(** ** [raw_parse_dump] *)

Section raw_parse.
(** PostgreSQL's [raw_parser] and [nodeToString]; [None] is a null pointer. *)
Context {Node : Type} (raw_parser : bytes -> option Node) (nodeToString : Node -> option bytes).

Definition raw_parse_dump (sql : bytes) : bytes :=
  if bool_decide (x00 ∈ sql) then []
  else match raw_parser sql with
       | None => []
       | Some list => match nodeToString list with
                      | None => []
                      | Some s => from_utf8_lossy s
                      end
       end.

(** [allgres.analyze_sql] of [src/lib.rs]. *)
Definition analyze_sql (sql : bytes) : option dump_result := analyze_dump (raw_parse_dump sql).
End raw_parse.

(** ** The token grammar *)

(** What PostgreSQL's [outToken] escapes wherever it occurs, the backslash apart:
    fewer bytes than end a token for [read_token], which stops at a carriage return and
    a form feed too. *)
Definition out_delim (b : byte) : bool :=
  (b == x20) || (b == x0a) || (b == x09) || (b == "("%byte) || (b == ")"%byte) || (b == "{"%byte) || (b == "}"%byte).

(** [token_enc s e]: [e] spells the text [s] the way the dump spells a token:
    delimiters and backslashes are escaped by a backslash, other ASCII bytes may
    be (the first one of a token sometimes is), and characters beyond ASCII stand for
    themselves. *)
Inductive token_enc : bytes -> bytes -> Prop :=
| te_nil : token_enc [] []
| te_plain b s e :
    is_ascii b = true -> out_delim b = false -> b <> BACKSLASH ->
    token_enc s e -> token_enc (b :: s) (b :: e)
| te_esc b s e :
    is_ascii b = true -> token_enc s e -> token_enc (b :: s) (BACKSLASH :: b :: e)
| te_char c s e :
    utf8_chunks c = [Valid c] -> (2 <= length c)%nat ->
    token_enc s e -> token_enc (c ++ s) (c ++ e).

(** The value of a field: [<>] for NULL, a pair of quotes for the empty string,
    and otherwise a token that starts with neither. *)
Inductive spells : option bytes -> bytes -> Prop :=
| sp_null : spells None (str "<>")
| sp_empty : spells (Some []) [QUOTE; QUOTE]
| sp_token s e :
    token_enc s e -> starts_with (str "<>") e = false -> starts_with [QUOTE; QUOTE] e = false ->
    spells (Some s) e.

(** The text holds none of the bytes that end a token unescaped. *)
Definition readable (s : bytes) : bool := forallb (fun b => (b != x0d) && (b != x0c)) s.
Definition readable_opt (v : option bytes) : bool := match v with Some s => readable s | None => true end.

Lemma token_delim_out b : b <> x0d -> b <> x0c -> token_delim b = out_delim b.
Proof. by destruct b. Qed.

Lemma out_delim_token b : out_delim b = true -> token_delim b = true.
Proof. by destruct b. Qed.

(** What follows a token: the end of the text or a delimiter. *)
Definition token_end (r : bytes) : bool :=
  match r with [] => true | b :: _ => token_delim b end.

Lemma delim_ascii b : token_delim b = true -> is_ascii b = true /\ b <> BACKSLASH.
Proof. destruct b; vm_compute; intros H; simplify_eq; split; done || discriminate. Qed.

Lemma latin1_ascii b : is_ascii b = true -> latin1_char b = [b].
Proof. unfold latin1_char, is_ascii. by intros ->. Qed.

Lemma read_token_loop_skip k s :
  (k <= length s)%nat ->
  read_token_loop k s =
  match read_token_loop 0 (drop k s) with
  | Some (out, n) => Some (out, (k + n)%nat)
  | None => None
  end.
Proof.
  revert k. induction s as [|b s IH]; intros [|k] Hk; simpl in Hk; try lia.
  - done.
  - rewrite drop_0. destruct (read_token_loop 0 (b :: s)) as [[out n]|]; done.
  - cbn [drop read_token_loop]. rewrite IH by lia.
    destruct (read_token_loop 0 (drop k s)) as [[out n]|]; done.
Qed.

(** A character beyond ASCII is read as itself. *)
Lemma single_char c :
  utf8_chunks c = [Valid c] -> (2 <= length c)%nat ->
  exists b t, c = b :: t /\ utf8_first b t = Valid c /\ is_ascii b = false.
Proof.
  intros Hc Hl. destruct c as [|b t]; [done|]. exists b, t. split; [done|].
  rewrite utf8_chunks_cons in Hc. injection Hc as Hf _. split; [done|].
  destruct (is_ascii b) eqn:Ha; [|done]. exfalso. unfold utf8_first, utf8_char_width in Hf.
  unfold is_ascii in Ha. rewrite Ha in Hf. injection Hf as <-. simpl in Hl. lia.
Qed.

Lemma non_ascii_plain b :
  is_ascii b = false -> b <> BACKSLASH /\ b <> QUOTE /\ token_delim b = false
                        /\ (u8 b <? 128)%Z = false /\ b <> "{"%byte /\ b <> "}"%byte
                        /\ b <> "("%byte /\ b <> ")"%byte.
Proof. destruct b; vm_compute; intros H; simplify_eq; repeat split; discriminate. Qed.

Lemma read_token_loop_char c r :
  utf8_chunks c = [Valid c] -> (2 <= length c)%nat ->
  read_token_loop 0 (c ++ r) =
  match read_token_loop 0 r with
  | Some (out, n) => Some (c ++ out, (length c + n)%nat)
  | None => None
  end.
Proof.
  intros Hc Hl. destruct (single_char c Hc Hl) as (b & t & -> & Hf & Ha).
  destruct (non_ascii_plain b Ha) as (Hb & _ & Hd & Hu & _).
  cbn [app read_token_loop]. rewrite bool_decide_eq_false_2 by done. rewrite Hd, Hu.
  unfold char_at. rewrite (utf8_first_app _ _ _ r Hf). cbn [length pred].
  rewrite read_token_loop_skip by (rewrite length_app; lia). rewrite drop_app_length.
  by destruct (read_token_loop 0 r) as [[out n]|].
Qed.

Lemma read_token_loop_enc s e r :
  token_enc s e -> readable s = true -> token_end r = true -> read_token_loop 0 (e ++ r) = Some (s, length e).
Proof.
  unfold readable. intros He Hs Hr.
  induction He as [|b s e Ha Hd Hb _ IH|b s e Ha _ IH|c s e Hc Hl _ IH];
    rewrite ?forallb_app in Hs; cbn [forallb] in Hs; rewrite ?andb_true_iff in Hs.
  - destruct r as [|b r]; [done|]. simpl in Hr. destruct (delim_ascii _ Hr) as [_ Hb].
    cbn [app read_token_loop]. rewrite bool_decide_eq_false_2 by done. by rewrite Hr.
  - destruct Hs as [[Hcr Hff] Hs]. breflect. cbn [app read_token_loop]. rewrite bool_decide_eq_false_2 by done.
    unfold is_ascii in Ha. by rewrite token_delim_out, Hd, Ha, IH.
  - cbn [app read_token_loop]. rewrite bool_decide_eq_true_2 by done.
    destruct Hs as [_ Hs]. rewrite IH, latin1_ascii by done. done.
  - destruct Hs as [_ Hs]. rewrite <- app_assoc, read_token_loop_char, IH by done. by rewrite length_app.
Qed.

(** Neither marker can arise across the end of a token. *)
Lemma starts_with_token_end m e r :
  (forall b, b ∈ m -> token_delim b = false) -> m <> [] ->
  token_end r = true -> starts_with m e = false -> starts_with m (e ++ r) = false.
Proof.
  intros Hm Hne Hr. revert e. induction m as [|a m IH]; [done|]. intros e He.
  destruct e as [|b e].
  - simpl. destruct r as [|b r]; [done|]. simpl in Hr |- *.
    rewrite bool_decide_eq_false_2; [done|]. intros <-. rewrite Hm in Hr; [done|by left].
  - simpl in He |- *. destruct (bool_decide (a = b)) eqn:Hab; [|done]. simpl in *.
    destruct m as [|a' m]; [by destruct e|]. apply IH; [|done|done].
    intros b' Hb'. apply Hm. by right.
Qed.

Lemma read_token_spells v e r :
  spells v e -> readable_opt v = true -> token_end r = true -> read_token (e ++ r) = Some (v, length e).
Proof.
  intros He Hv Hr. destruct He as [| |s e He H1 H2].
  - done.
  - done.
  - unfold read_token. rewrite !starts_with_token_end; try done.
    + by rewrite (read_token_loop_enc s e r He Hv Hr).
    + intros b [->|[->|[]%not_elem_of_nil]%elem_of_cons]%elem_of_cons; done.
    + intros b. vm_compute. intros [->|[->|[]%not_elem_of_nil]%elem_of_cons]%elem_of_cons; done.
Qed.

(** ** Nested text: what the body readers return *)

(** The bracket depth after [s], read from depth [d]; [None] when a closing
    bracket goes below zero or a backslash ends the text. *)
Fixpoint depth_after (op cl : byte) (d : nat) (s : bytes) : option nat :=
  match s with
  | [] => Some d
  | b :: r =>
    if b == BACKSLASH then
      match r with c :: r' => depth_after op cl d r' | [] => None end
    else if b == op then depth_after op cl (S d) r
    else if b == cl then
      match d with O => None | S d' => depth_after op cl d' r end
    else depth_after op cl d r
  end.

Definition balanced (op cl : byte) (s : bytes) : bool := depth_after op cl 0 s == Some 0%nat.

(** Induction on a text read with its escapes. *)
Lemma escaped_ind (P : bytes -> Prop) :
  P [] -> P [BACKSLASH] ->
  (forall c r, P r -> P (BACKSLASH :: c :: r)) ->
  (forall b r, b <> BACKSLASH -> P r -> P (b :: r)) ->
  forall s, P s.
Proof.
  intros H0 H1 H2 H3 s. induction s as [s IH] using list_length_ind.
  destruct s as [|b r]; [done|]. destruct (decide (b = BACKSLASH)) as [->|Hb].
  - destruct r as [|c r]; [done|]. apply H2, IH. simpl. lia.
  - apply H3; [done|]. apply IH. simpl. lia.
Qed.

(** Reading past a text moves the reader to that text's depth. *)
Lemma body_loop_app op cl s : forall d d' r,
  depth_after op cl d s = Some d' ->
  body_loop op cl d (s ++ r) = app s <$> body_loop op cl d' r.
Proof.
  induction s as [| |c s IH|b s Hb IH] using escaped_ind; intros d d' r Hd.
  - simpl in Hd. simplify_eq. simpl. by destruct (body_loop op cl d' r).
  - by simpl in Hd.
  - simpl in Hd |- *. rewrite (IH _ _ _ Hd). by destruct (body_loop op cl d' r).
  - cbn [depth_after body_loop app] in Hd |- *.
    rewrite (bool_decide_eq_false_2 _ Hb) in Hd |- *.
    repeat case_bool_decide; [| destruct d; [done|] |];
      rewrite (IH _ _ _ Hd); by destruct (body_loop op cl d' r).
Qed.

Lemma depth_after_app op cl s : forall d d' t,
  depth_after op cl d s = Some d' -> depth_after op cl d (s ++ t) = depth_after op cl d' t.
Proof.
  induction s as [| |c s IH|b s Hb IH] using escaped_ind; intros d d' t Hd.
  - simpl in Hd. by simplify_eq.
  - by simpl in Hd.
  - by apply IH.
  - cbn [depth_after app] in Hd |- *. rewrite (bool_decide_eq_false_2 _ Hb) in Hd |- *.
    repeat case_bool_decide; [| destruct d; [done|] |]; by apply IH.
Qed.

(** The body of a balanced text stops at the bracket that closes it. *)
Lemma node_body_balanced s r :
  balanced "{"%byte "}"%byte s = true -> node_body (s ++ str "}" ++ r) = s.
Proof.
  unfold balanced, node_body. intros Hs%bool_decide_eq_true.
  rewrite (body_loop_app _ _ _ _ _ _ Hs). simpl. by rewrite app_nil_r.
Qed.

Lemma paren_body_balanced s r :
  balanced "("%byte ")"%byte s = true -> paren_body (s ++ str ")" ++ r) = s.
Proof.
  unfold balanced, paren_body. intros Hs%bool_decide_eq_true.
  rewrite (body_loop_app _ _ _ _ _ _ Hs). simpl. by rewrite app_nil_r.
Qed.

Lemma depth_after_cons op cl d b r :
  b <> BACKSLASH -> b <> op -> b <> cl -> depth_after op cl d (b :: r) = depth_after op cl d r.
Proof. intros. simpl. by rewrite !bool_decide_eq_false_2 by done. Qed.

Lemma depth_after_plain op cl d s :
  BACKSLASH ∉ s -> op ∉ s -> cl ∉ s -> depth_after op cl d s = Some d.
Proof.
  induction s as [|b s IH]; intros H1 H2 H3; [done|].
  apply not_elem_of_cons in H1 as [? ?], H2 as [? ?], H3 as [? ?].
  simpl. rewrite !bool_decide_eq_false_2 by done. by apply IH.
Qed.

(** A spelled value never changes the depth, whatever brackets it holds. *)
Lemma depth_after_enc op cl d s e :
  out_delim op = true -> out_delim cl = true -> token_enc s e ->
  depth_after op cl d e = Some d.
Proof.
  intros Hop Hcl He.
  induction He as [|b s e Ha Hd Hb _ IH|b s e Ha _ IH|c s e Hc Hl _ IH].
  - done.
  - simpl. rewrite !bool_decide_eq_false_2; [done|congruence..].
  - done.
  - rewrite (depth_after_app _ _ c d d); [done|].
    destruct (single_char c Hc Hl) as (b & t & -> & Hf & Ha).
    assert (Forall (fun x => is_ascii x = false) (b :: t)) as Hall.
    { constructor; [done|]. pose proof (utf8_first_valid _ _ _ Hf) as (t' & ? & ? & Ht & _).
      simplify_eq. eapply Forall_impl; [|exact Ht]. intros x Hx.
      destruct (is_ascii x) eqn:E; [|done]. apply ascii_not_cont in E. congruence. }
    apply depth_after_plain; intros Hin%list_elem_of_In;
      eapply Forall_forall in Hall; try exact Hin; try done.
    + destruct (delim_ascii op (out_delim_token _ Hop)). congruence.
    + destruct (delim_ascii cl (out_delim_token _ Hcl)). congruence.
Qed.

Lemma depth_after_spells op cl d v e :
  out_delim op = true -> out_delim cl = true -> spells v e ->
  depth_after op cl d e = Some d.
Proof.
  intros Hop Hcl He. destruct He as [| |s e He _ _]; [| |by eapply depth_after_enc].
  all: apply depth_after_plain;
    intros [?|[?|[]%not_elem_of_nil]%elem_of_cons]%elem_of_cons; subst; done.
Qed.

(** ** The occurrences of a tag *)

Lemma occurrences_skip tag k s : occurrences tag k s = occurrences tag 0 (drop k s).
Proof. revert k. induction s as [|b s IH]; intros [|k]; try done. apply IH. Qed.

Lemma occurrences_suffix tag s x :
  x ∈ occurrences tag 0 s -> exists a, s = a ++ tag ++ x.
Proof.
  induction s as [s IH] using list_length_ind. destruct s as [|b r]; [set_solver|].
  cbn [occurrences]. destruct (starts_with tag (b :: r)) eqn:Hs.
  - apply starts_with_spec in Hs as [t Ht]. intros [->|Hx]%elem_of_cons.
    + exists []. rewrite Ht. by rewrite drop_app_length.
    + rewrite occurrences_skip in Hx. apply IH in Hx as [a Ha].
      * exists (b :: take (pred (length tag)) r ++ a).
        rewrite <- (take_drop (pred (length tag)) r) at 1. rewrite Ha. simpl. by rewrite <- app_assoc.
      * rewrite length_drop. simpl. lia.
  - intros [a ->]%IH; [|simpl; lia]. by exists (b :: a).
Qed.

(** No occurrence of a tag is missed: it cannot overlap an earlier one. *)
Lemma occurrences_complete tag a x :
  unbordered tag = true -> x ∈ occurrences tag 0 (a ++ tag ++ x).
Proof.
  intros Hu. assert (Hne : (0 < length tag)%nat) by (destruct tag; simpl in *; [done|lia]).
  remember (a ++ tag ++ x) as s eqn:Hs. revert a Hs.
  induction s as [s IH] using list_length_ind. intros a Hs.
  destruct s as [|b r]; [by destruct a, tag|]. cbn [occurrences].
  destruct (starts_with tag (b :: r)) eqn:Hst.
  - destruct a as [|b' a].
    + apply elem_of_cons. left. rewrite Hs. cbn [app]. by rewrite drop_app_length.
    + right. rewrite occurrences_skip.
      assert (0 + length tag <= S (length a))%nat as Hle.
      { eapply (unbordered_disjoint tag (b :: r)); [done|by rewrite drop_0| |lia].
        rewrite Hs. change (S (length a)) with (length (b' :: a)). rewrite drop_app_length.
        apply starts_with_app. }
      simpl in Hs. simplify_eq.
      eapply (IH _ _ (drop (pred (length tag)) a)). rewrite drop_app_le by lia. done.
  - destruct a as [|b' a]; [simpl in Hs; rewrite Hs, starts_with_app in Hst; done|].
    simpl in Hs. simplify_eq. eapply IH; [simpl; lia|done].
  Unshelve. rewrite length_drop. simpl. lia.
Qed.

Lemma sequence_elem {A} (l : list (option A)) rs x :
  sequence l = Some rs -> x ∈ l -> exists a, x = Some a /\ a ∈ rs.
Proof.
  revert rs. induction l as [|[a|] l IH]; intros rs Hs Hx; simpl in Hs; [set_solver| |done].
  destruct (sequence l) as [rs'|]; [|done]. simpl in Hs. simplify_eq.
  apply elem_of_cons in Hx as [->|Hx]; [set_solver|].
  destruct (IH _ eq_refl Hx) as (a' & -> & Ha'). set_solver.
Qed.

(** What one of the loops reports of an occurrence of its tag. *)
Lemma collect_complete {A} (f : bytes -> option (option A)) tag a x r rs :
  unbordered tag = true -> collect f tag (a ++ tag ++ x) = Some rs ->
  f x = Some (Some r) -> r ∈ rs.
Proof.
  intros Hu Hc Hf. unfold collect in Hc.
  destruct (sequence _) as [l|] eqn:Hs; [|done]. simplify_eq.
  pose proof (occurrences_complete tag a x Hu) as Hin.
  assert (f x ∈ map f (occurrences tag 0 (a ++ tag ++ x))) as Hin'.
  { apply list_elem_of_In, in_map, list_elem_of_In. done. }
  destruct (sequence_elem _ _ _ Hs Hin') as (o & Ho & Hol).
  unfold filter_map. apply list_elem_of_omap. exists o. split; [done|]. simpl. congruence.
Qed.

(** ** Fields *)

(** A text without a colon is skipped in the search for a field marker. *)
Lemma find_sub_skip c n x y :
  (c ∉ x) -> find_sub (c :: n) (x ++ y) = Nat.add (length x) <$> find_sub (c :: n) y.
Proof.
  induction x as [|b x IH]; intros Hc.
  - simpl. by destruct (find_sub (c :: n) y).
  - apply not_elem_of_cons in Hc as [Hb Hc]. cbn [app find_sub starts_with].
    rewrite bool_decide_eq_false_2 by done. cbn [andb]. rewrite IH by done.
    by destruct (find_sub (c :: n) y).
Qed.

(** One field of a node as the dump prints it. *)
Definition fld (name e : bytes) : bytes := str ":" ++ name ++ str " " ++ e ++ str " ".

(** A field name: letters only, so neither a colon nor a space. *)
Definition field_name (n : bytes) : bool := forallb is_ascii_lower n.

Lemma field_name_no b n : field_name n = true -> is_ascii_lower b = false -> b ∉ n.
Proof.
  unfold field_name. intros Hn Hb Hin. rewrite forallb_Forall in Hn.
  apply list_elem_of_In in Hin. eapply Forall_forall in Hn; [|exact Hin]. simpl in Hn. congruence.
Qed.

Lemma field_here name v e r :
  spells v e -> readable_opt v = true -> field (fld name e ++ r) name = Some v.
Proof.
  intros He Hv. unfold field, fld. rewrite <- !app_assoc.
  set (needle := str ":" ++ name ++ str " ").
  replace (str ":" ++ name ++ str " " ++ e ++ str " " ++ r)
    with (needle ++ e ++ str " " ++ r) by (unfold needle; by rewrite <- !app_assoc).
  assert (find_sub needle (needle ++ e ++ str " " ++ r) = Some 0%nat) as ->.
  { apply find_sub_first; [apply starts_with_app|lia]. }
  cbn iota. rewrite Nat.add_0_l, drop_app_length, (read_token_spells v e) by done. done.
Qed.

(** Another field without a colon in its value is passed over. *)
Lemma field_skip n1 n2 e y :
  field_name n1 = true -> field_name n2 = true -> n1 <> n2 -> (":"%byte ∉ e) ->
  field (fld n1 e ++ y) n2 = field y n2.
Proof.
  intros H1 H2 Hne He. unfold field. set (needle := str ":" ++ n2 ++ str " ").
  assert (find_sub needle (fld n1 e ++ y) = Nat.add (length (fld n1 e)) <$> find_sub needle y) as ->.
  { unfold needle, fld. change (str ":" ++ n2 ++ str " ") with (":"%byte :: n2 ++ str " ").
    change ((str ":" ++ n1 ++ str " " ++ e ++ str " ") ++ y)
      with (":"%byte :: (n1 ++ str " " ++ e ++ str " ") ++ y).
    cbn [find_sub]. destruct (starts_with _ _) eqn:Hs.
    - exfalso. apply starts_with_spec in Hs as [t Ht]. injection Ht as Ht.
      change (str " ") with [x20] in Ht. rewrite <- !app_assoc in Ht. cbn [app] in Ht.
      rewrite <- !app_assoc in Ht. cbn [app] in Ht.
      pose proof (proj2 (split_once_Some x20 _ n1 _) (conj (eq_sym Ht) (field_name_no x20 n1 H1 eq_refl))) as Hsp.
      pose proof (proj2 (split_once_Some x20 _ n2 t) (conj eq_refl
        (field_name_no x20 n2 H2 eq_refl))) as Hsp'.
      congruence.
    - rewrite find_sub_skip.
      + simpl. by destruct (find_sub _ y).
      + rewrite !not_elem_of_app. repeat split; try done; try by apply field_name_no.
        all: apply (bool_decide_eq_false_1 (":"%byte ∈ str " ")); reflexivity. }
  destruct (find_sub needle y) as [p|]; [|done]. simpl.
  rewrite <- Nat.add_assoc, <- drop_drop, drop_app_length. done.
Qed.

(** A [RangeVar] node as the dump prints it, behind its [{RANGEVAR ] opener. *)
Definition rangevar_text (ec es er tail : bytes) : bytes :=
  fld (str "catalogname") ec ++ fld (str "schemaname") es ++ fld (str "relname") er ++ tail.

Lemma depth_after_fld name v e r :
  field_name name = true -> spells v e ->
  depth_after "{"%byte "}"%byte 0 (fld name e ++ r) = depth_after "{"%byte "}"%byte 0 r.
Proof.
  intros Hn He. unfold fld. rewrite <- !app_assoc.
  rewrite (depth_after_app _ _ (str ":") 0 0) by done.
  rewrite (depth_after_app _ _ name 0 0) by (by apply depth_after_plain; apply field_name_no).
  rewrite (depth_after_app _ _ (str " ") 0 0) by done.
  rewrite (depth_after_app _ _ e 0 0) by (by eapply depth_after_spells).
  by rewrite (depth_after_app _ _ (str " ") 0 0).
Qed.

Lemma rangevar_balanced vc vs vr ec es er tail :
  spells vc ec -> spells vs es -> spells vr er -> balanced "{"%byte "}"%byte tail = true ->
  balanced "{"%byte "}"%byte (rangevar_text ec es er tail) = true.
Proof.
  intros Hc Hs Hr Ht. unfold balanced, rangevar_text in *.
  rewrite (depth_after_fld (str "catalogname") vc), (depth_after_fld (str "schemaname") vs),
    (depth_after_fld (str "relname") vr) by done. done.
Qed.

Lemma relation_of_rangevar vs n vc ec es er tail r :
  spells vc ec -> spells vs es -> spells (Some n) er -> readable_opt vs = true -> readable n = true ->
  (":"%byte ∉ ec) -> (":"%byte ∉ es) -> balanced "{"%byte "}"%byte tail = true ->
  relation_of (rangevar_text ec es er tail ++ str "}" ++ r) = Some (Some (vs, n)).
Proof.
  intros Hc Hs Hr Hvs Hvn Hcc Hcs Ht. unfold relation_of.
  rewrite node_body_balanced by (by eapply rangevar_balanced). unfold rangevar_text.
  rewrite !(field_skip (str "catalogname")), (field_skip (str "schemaname") (str "relname")) by done.
  by rewrite (field_here (str "relname") (Some n)), (field_here (str "schemaname") vs).
Qed.

(** What an analysis consists of. *)
Lemma analyze_dump_inv dump a :
  analyze_dump dump = Some (Analyzed a) ->
  collect relation_of (str "{RANGEVAR ") dump = Some (relations a)
  /\ collect cte_of (str ":ctename ") dump = Some (ctes a)
  /\ collect function_of (str ":funcname (") dump = Some (functions a)
  /\ statements a = length (kinds_of dump)
  /\ kind a = (if bool_decide (kinds_of dump = [str "SELECTSTMT"]) then str "select" else str "other")
  /\ writes a = has_into dump || has_dml dump.
Proof.
  unfold analyze_dump. destruct dump as [|b l] eqn:Hd; [done|]. rewrite <- Hd. clear Hd b l.
  destruct (collect relation_of _ _) as [rels|]; [|done].
  destruct (collect cte_of _ _) as [cs|]; [|done]. destruct (collect function_of _ _) as [fs|]; [|done].
  by intros [= <-].
Qed.

(** C12: no table reference escapes the analysis.  Wherever in a dump a [RangeVar]
    node is printed, with its catalog, schema and relation names spelled as [outToken]
    spells them (non-ASCII and escaped delimiters included) and any balanced text behind
    them, the analysis reports that schema and that relation among the relations, as
    long as catalog and schema hold no colon ([colon_in_schema_misread]) and schema and
    relation no carriage return and no form feed ([cr_in_name_misread]). *)
Theorem analyze_dump_reports_relation pre post vc vs n ec es er tail a :
  spells vc ec -> spells vs es -> spells (Some n) er -> readable_opt vs = true -> readable n = true ->
  (":"%byte ∉ ec) -> (":"%byte ∉ es) -> balanced "{"%byte "}"%byte tail = true ->
  analyze_dump (pre ++ str "{RANGEVAR " ++ rangevar_text ec es er tail ++ str "}" ++ post)
    = Some (Analyzed a) ->
  (vs, n) ∈ relations a.
Proof.
  intros Hc Hs Hr Hvs Hvn Hcc Hcs Ht (Hrel & _)%analyze_dump_inv.
  eapply collect_complete; [|exact Hrel|]; [done|]. by eapply relation_of_rangevar.
Qed.

Lemma analyze_dump_reports_relation_witness :
  exists a, analyze_dump (str "({RAWSTMT :stmt {SELECTSTMT :fromClause ({RANGEVAR :catalogname <> :schemaname ops :relname my\ table :inh true})}})") = Some (Analyzed a)
    /\ (Some (str "ops"), str "my table") ∈ relations a.
Proof.
  eexists. split; [vm_compute; reflexivity|].
  apply (analyze_dump_reports_relation
           (str "({RAWSTMT :stmt {SELECTSTMT :fromClause (") (str ")}})")
           None (Some (str "ops")) (str "my table")
           (str "<>") (str "ops") (str "my\ table") (str ":inh true"));
    try (vm_compute; reflexivity).
  - constructor.
  - apply sp_token; [|done|done]. repeat (apply te_plain; [done|done|done|]). constructor.
  - apply sp_token; [|done|done].
    do 2 (apply te_plain; [done|done|done|]). apply te_esc; [done|].
    repeat (apply te_plain; [done|done|done|]). constructor.
  - apply (bool_decide_eq_false_1 (":"%byte ∈ str "<>")). reflexivity.
  - apply (bool_decide_eq_false_1 (":"%byte ∈ str "ops")). reflexivity.
Defined.

(** ** Function names *)

(** A [List] of [String] nodes as the dump prints it, behind its parenthesis. *)
Fixpoint quoted_list (es : list bytes) : bytes :=
  match es with
  | [] => []
  | e :: es' => QUOTE :: e ++ QUOTE :: match es' with [] => [] | _ => x20 :: quoted_list es' end
  end.

(** A name and its spelling between quotes. *)
Definition quoted_name (n e : bytes) : Prop := token_enc n e /\ (QUOTE ∉ e).

Lemma quoted_loop_skip k cur s :
  (k <= length s)%nat -> quoted_loop k cur s = quoted_loop 0 cur (drop k s).
Proof.
  revert k. induction s as [|b s IH]; intros [|k] Hk; simpl in Hk; try done; try lia.
  apply IH. lia.
Qed.

Lemma quoted_loop_enc s e : token_enc s e -> (QUOTE ∉ e) -> forall t r,
  quoted_loop 0 (Some t) (e ++ r) = quoted_loop 0 (Some (t ++ s)) r.
Proof.
  intros He. induction He as [|b s e Ha Hd Hb _ IH|b s e Ha _ IH|c s e Hc Hl _ IH]; intros Hq t r.
  - by rewrite app_nil_r.
  - apply not_elem_of_cons in Hq as [? Hq]. cbn [app quoted_loop].
    rewrite !bool_decide_eq_false_2 by done. unfold is_ascii in Ha. rewrite Ha.
    rewrite IH by done. by rewrite <- app_assoc.
  - apply not_elem_of_cons in Hq as [? [? Hq]%not_elem_of_cons]. cbn [app quoted_loop].
    rewrite (bool_decide_eq_false_2 (BACKSLASH = QUOTE)), bool_decide_eq_true_2 by done.
    rewrite IH, latin1_ascii by done. by rewrite <- app_assoc.
  - apply not_elem_of_app in Hq as [_ Hq]. destruct (single_char c Hc Hl) as (b & u & -> & Hf & Ha).
    destruct (non_ascii_plain b Ha) as (Hb & Hbq & _ & Hu & _).
    rewrite <- app_assoc. cbn [app quoted_loop]. rewrite !bool_decide_eq_false_2 by done. rewrite Hu.
    unfold char_at. rewrite (utf8_first_app _ _ _ (e ++ r) Hf). cbn [length pred].
    rewrite quoted_loop_skip by (rewrite length_app; lia). rewrite drop_app_length, IH by done.
    by rewrite <- app_assoc.
Qed.

Lemma quoted_strings_list ns es :
  Forall2 quoted_name ns es -> quoted_strings (quoted_list es) = Some ns.
Proof.
  unfold quoted_strings. induction 1 as [|n e ns es [He Hq] H IH]; [done|].
  cbn [quoted_list app quoted_loop]. rewrite bool_decide_eq_true_2 by done.
  rewrite quoted_loop_enc with (s := n) by done. cbn [app quoted_loop].
  rewrite bool_decide_eq_true_2 by done. destruct H as [|n' e' ns es Hn H]; [done|].
  cbn [quoted_loop]. rewrite bool_decide_eq_false_2 by done. by rewrite IH.
Qed.

Lemma quoted_list_depth ns es :
  Forall2 quoted_name ns es -> depth_after "("%byte ")"%byte 0 (quoted_list es) = Some 0%nat.
Proof.
  induction 1 as [|n e ns es [He Hq] H IH]; [done|].
  cbn [quoted_list]. rewrite depth_after_cons by done.
  rewrite (depth_after_app _ _ e 0 0) by (by eapply depth_after_enc).
  rewrite depth_after_cons by done. destruct es as [|e' es]; [done|].
  by rewrite depth_after_cons.
Qed.

Lemma head_rev {A} (l : list A) : head (rev l) = list.last l.
Proof. induction l as [|x l _] using rev_ind; [done|]. by rewrite rev_app_distr, last_snoc. Qed.

Lemma function_of_list ns n es r :
  Forall2 quoted_name (ns ++ [n]) es ->
  function_of (quoted_list es ++ str ")" ++ r) = Some (Some (list.last ns, n)).
Proof.
  intros Hes. unfold function_of. rewrite paren_body_balanced
    by (apply bool_decide_eq_true_2; by eapply quoted_list_depth).
  rewrite (quoted_strings_list _ _ Hes), rev_app_distr. simpl.
  by rewrite head_rev.
Qed.

(** C13: no function call escapes the analysis.  Wherever in a dump a function name
    list is printed whose names hold no quote character ([quotes_in_name_misread]), the
    last name is reported as the function and the one before it, if any, as its
    schema. *)
Theorem analyze_dump_reports_function pre post ns es n a :
  Forall2 quoted_name (ns ++ [n]) es ->
  analyze_dump (pre ++ str ":funcname (" ++ quoted_list es ++ str ")" ++ post) = Some (Analyzed a) ->
  (list.last ns, n) ∈ functions a.
Proof.
  intros Hes (_ & _ & Hfs & _)%analyze_dump_inv.
  eapply collect_complete; [|exact Hfs|]; [done|]. by apply function_of_list.
Qed.

Lemma analyze_dump_reports_function_witness :
  exists a, analyze_dump (str "({FUNCCALL :funcname (" ++ quoted_list [str "pg_catalog"; str "now\(\)"] ++ str ") :args <>})")
    = Some (Analyzed a)
    /\ (Some (str "pg_catalog"), str "now()") ∈ functions a.
Proof.
  eexists. split; [vm_compute; reflexivity|].
  apply (analyze_dump_reports_function (str "({FUNCCALL ") (str " :args <>})")
           [str "pg_catalog"] [str "pg_catalog"; str "now\(\)"] (str "now()"));
    [|vm_compute; reflexivity].
  constructor; [split|constructor; [split|constructor]];
    try (repeat (apply te_plain; [done|done|done|])).
  - constructor.
  - apply (bool_decide_eq_false_1 (QUOTE ∈ str "pg_catalog")). reflexivity.
  - repeat (apply te_esc; [done|]). constructor.
  - apply (bool_decide_eq_false_1 (QUOTE ∈ str "now\(\)")). reflexivity.
Defined.

(** ** No panic *)

(** Every escaped byte is ASCII, as the printer escapes delimiters only. *)
Fixpoint escapes_ascii (s : bytes) : bool :=
  match s with
  | [] => true
  | b :: r =>
    if b == BACKSLASH then match r with c :: r' => is_ascii c && escapes_ascii r' | [] => true end
    else escapes_ascii r
  end.

Definition well_escaped (s : bytes) : bool := utf8_valid s && escapes_ascii s.

Lemma escapes_ascii_around p x q :
  x <> BACKSLASH -> escapes_ascii (p ++ x :: q) = true ->
  escapes_ascii p = true /\ escapes_ascii q = true.
Proof.
  intros Hx. induction p as [| |c p IH|b p Hb IH] using escaped_ind.
  - cbn [app escapes_ascii]. by rewrite bool_decide_eq_false_2.
  - cbn [app escapes_ascii]. rewrite bool_decide_eq_true_2 by done. intros. by breflect.
  - cbn [app escapes_ascii]. rewrite bool_decide_eq_true_2 by done.
    intros [Hc Hr]%andb_true_iff. rewrite Hc. by apply IH.
  - cbn [app escapes_ascii]. rewrite bool_decide_eq_false_2 by done. apply IH.
Qed.

Lemma well_escaped_around p x q :
  is_ascii x = true -> x <> BACKSLASH -> well_escaped (p ++ x :: q) = true ->
  well_escaped p = true /\ well_escaped q = true.
Proof.
  unfold well_escaped. intros Ha Hx [Hv He]%andb_true_iff.
  apply utf8_valid_around in Hv as [-> ->]; [|done].
  by apply escapes_ascii_around in He as [-> ->].
Qed.

(** Behind an ASCII text that holds no backslash. *)
Lemma well_escaped_after p n q :
  n <> [] -> Forall (fun b => is_ascii b = true /\ b <> BACKSLASH) n ->
  well_escaped (p ++ n ++ q) = true -> well_escaped q = true.
Proof.
  intros Hne Hn Hw. destruct (exists_last Hne) as (m & b & ->).
  apply Forall_app in Hn as [_ Hb]. apply Forall_cons_iff in Hb as [[Hb Hb'] _].
  rewrite <- app_assoc, app_assoc in Hw. simpl in Hw. by eapply well_escaped_around in Hw as [_ ?].
Qed.

(** The character at a well-escaped text's start, with the text behind it. *)
Lemma well_escaped_char b r :
  is_ascii b = false -> well_escaped (b :: r) = true ->
  exists c, char_at b r = Some c /\ (pred (length c) <= length r)%nat
            /\ well_escaped (drop (pred (length c)) r) = true.
Proof.
  intros Ha [Hv He]%andb_true_iff. apply utf8_valid_cons in Hv as (c & u & Hf & Hp & Hu & _).
  exists c. unfold char_at. rewrite Hf. split; [done|].
  destruct (utf8_first_valid _ _ _ Hf) as (t & -> & _ & Ht & _).
  simpl in Hp. injection Hp as ->. cbn [length pred]. split; [rewrite length_app; lia|].
  rewrite drop_app_length. unfold well_escaped. rewrite Hu. simpl.
  destruct (non_ascii_plain b Ha) as (Hb & _). simpl in He.
  rewrite bool_decide_eq_false_2 in He by done. clear -He Ht.
  induction Ht as [|x t Hx _ IH]; [done|]. simpl in He.
  rewrite bool_decide_eq_false_2 in He by (intros ->; done). auto.
Qed.

Lemma well_escaped_ascii b r :
  is_ascii b = true -> b <> BACKSLASH -> well_escaped (b :: r) = true -> well_escaped r = true.
Proof. intros Ha Hb Hw. by apply (well_escaped_around [] b) in Hw as [_ ?]. Qed.

Lemma well_escaped_escape c r :
  well_escaped (BACKSLASH :: c :: r) = true -> is_ascii c = true /\ well_escaped r = true.
Proof.
  unfold well_escaped. intros [Hv He]%andb_true_iff. cbn [escapes_ascii] in He.
  rewrite bool_decide_eq_true_2 in He by done. apply andb_true_iff in He as [Hc He].
  rewrite !utf8_valid_ascii_cons in Hv by done. by rewrite Hv, He.
Qed.

Lemma read_token_loop_total s :
  well_escaped s = true -> exists out n, read_token_loop 0 s = Some (out, n).
Proof.
  induction s as [s IH] using list_length_ind. intros Hw.
  destruct s as [|b r]; [by do 2 eexists|]. cbn [read_token_loop]. case_bool_decide as Hb.
  - subst b. destruct r as [|c r]; [by do 2 eexists|].
    apply well_escaped_escape in Hw as [_ Hw].
    destruct (IH r) as (out & n & ->); [simpl; lia|done|by do 2 eexists].
  - destruct (token_delim b); [by do 2 eexists|]. destruct (is_ascii b) eqn:Ha.
    + unfold is_ascii in Ha. rewrite Ha. apply well_escaped_ascii in Hw; [|done..].
      destruct (IH r) as (out & n & ->); [simpl; lia|done|by do 2 eexists].
    + destruct (well_escaped_char b r Ha Hw) as (c & -> & Hl & Hc).
      unfold is_ascii in Ha. rewrite Ha, read_token_loop_skip by done.
      destruct (IH (drop (pred (length c)) r)) as (out & n & ->);
        [rewrite length_drop; simpl; lia|done|by do 2 eexists].
Qed.

Lemma read_token_total s : well_escaped s = true -> is_Some (read_token s).
Proof.
  intros Hw. unfold read_token. repeat (case_match; [by eexists|]).
  destruct (read_token_loop_total s Hw) as (out & n & ->). by eexists.
Qed.

(** Inside a string the text read is well escaped; outside it is the rest of one. *)
Lemma quoted_loop_total s :
  (well_escaped s = true -> forall t, is_Some (quoted_loop 0 (Some t) s)) /\
  (forall p, well_escaped (p ++ s) = true -> is_Some (quoted_loop 0 None s)).
Proof.
  induction s as [s IH] using list_length_ind. split.
  - intros Hw t. destruct s as [|b r]; [by eexists|]. cbn [quoted_loop].
    case_bool_decide as Hq.
    + subst b. destruct (IH r) as [_ Ho]; [simpl; lia|]. apply fmap_is_Some.
      apply (Ho []). by apply well_escaped_ascii in Hw.
    + case_bool_decide as Hb.
      * subst b. destruct r as [|c r]; [by eexists|].
        apply well_escaped_escape in Hw as [_ Hw]. apply IH; [simpl; lia|done].
      * destruct (is_ascii b) eqn:Ha.
        -- unfold is_ascii in Ha. rewrite Ha. apply IH; [simpl; lia|].
           by apply well_escaped_ascii in Hw.
        -- destruct (well_escaped_char b r Ha Hw) as (c & -> & Hl & Hc).
           unfold is_ascii in Ha. rewrite Ha, quoted_loop_skip by done.
           apply IH; [rewrite length_drop; simpl; lia|done].
  - intros p Hw. destruct s as [|b r]; [by eexists|]. cbn [quoted_loop].
    case_bool_decide as Hq.
    + subst b. apply IH; [simpl; lia|]. by apply well_escaped_around in Hw as [_ Hw].
    + destruct (IH r) as [_ Ho]; [simpl; lia|]. apply (Ho (p ++ [b])). by rewrite <- app_assoc.
Qed.

(** A body is the text itself or the part of it before a closing bracket. *)
Lemma body_loop_prefix op cl s : forall d t,
  body_loop op cl d s = Some t -> exists r, s = t ++ cl :: r.
Proof.
  induction s as [| |c s IH|b s Hb IH] using escaped_ind; intros d t Ht; try done.
  - cbn [body_loop] in Ht. rewrite bool_decide_eq_true_2 in Ht by done.
    destruct (body_loop op cl d s) as [t'|] eqn:Hd; [|done]. simpl in Ht. simplify_eq.
    destruct (IH _ _ Hd) as [r ->]. by exists r.
  - cbn [body_loop] in Ht. rewrite bool_decide_eq_false_2 in Ht by done.
    repeat case_bool_decide; subst; [| destruct d; [simplify_eq; by exists s|] |];
      (destruct (body_loop _ _ _ s) as [t'|] eqn:Hd; [|done]; simpl in Ht; simplify_eq;
       destruct (IH _ _ Hd) as [r ->]; by exists r).
Qed.

Lemma body_well_escaped op cl s :
  is_ascii cl = true -> cl <> BACKSLASH -> well_escaped s = true ->
  well_escaped (default s (body_loop op cl 0 s)) = true.
Proof.
  intros Ha Hc Hw. destruct (body_loop op cl 0 s) as [t|] eqn:Ht; [|done]. simpl.
  apply body_loop_prefix in Ht as [r ->]. by apply well_escaped_around in Hw as [? _].
Qed.

(** The text of a tag or field marker. *)
Definition marker (n : bytes) : bool :=
  nonempty n && forallb (fun b => is_ascii b && (b != BACKSLASH)) n.

Lemma well_escaped_marker p n q :
  marker n = true -> well_escaped (p ++ n ++ q) = true -> well_escaped q = true.
Proof.
  unfold marker. intros [Hne Hn]%andb_true_iff. apply well_escaped_after.
  - by destruct n.
  - apply forallb_Forall in Hn. eapply Forall_impl; [|exact Hn]. intros b Hb. simpl in Hb.
    by breflect.
Qed.

Lemma field_total body name :
  marker (str ":" ++ name ++ str " ") = true -> well_escaped body = true ->
  is_Some (field body name).
Proof.
  intros Hm Hw. unfold field. destruct (find_sub _ body) as [p|] eqn:Hf; [|by eexists].
  apply fmap_is_Some, read_token_total. apply find_sub_Some in Hf as ([t Ht] & _).
  assert (drop p body = (str ":" ++ name ++ str " ") ++ t) as Hd.
  { apply (app_inv_head (take p body)). by rewrite take_drop. }
  rewrite <- drop_drop, Hd, drop_app_length. rewrite Ht in Hw. by eapply well_escaped_marker.
Qed.

Lemma sequence_total {A} (l : list (option A)) :
  Forall is_Some l -> is_Some (sequence l).
Proof.
  induction 1 as [|x l [a ->] _ [l' IH]]; [by eexists|]. simpl. rewrite IH. by eexists.
Qed.

Lemma collect_total {A} (f : bytes -> option (option A)) tag dump :
  marker tag = true -> (forall s, well_escaped s = true -> is_Some (f s)) ->
  well_escaped dump = true -> is_Some (collect f tag dump).
Proof.
  intros Hm Hf Hw. unfold collect.
  destruct (sequence_total (map f (occurrences tag 0 dump))) as [l ->]; [|by eexists].
  apply Forall_map. apply list.Forall_forall. intros x Hx. apply Hf.
  apply occurrences_suffix in Hx as [a ->]. by eapply well_escaped_marker.
Qed.

Lemma relation_of_total s : well_escaped s = true -> is_Some (relation_of s).
Proof.
  intros Hw. apply (body_well_escaped "{"%byte "}"%byte) in Hw; [|done..]. unfold relation_of.
  destruct (field_total (node_body s) (str "relname")) as [[name|] ->]; [done..| |by eexists].
  destruct (field_total (node_body s) (str "schemaname")) as [schema ->]; [done..|by eexists].
Qed.

Lemma function_of_total s : well_escaped s = true -> is_Some (function_of s).
Proof.
  intros Hw. apply (body_well_escaped "("%byte ")"%byte) in Hw; [|done..]. unfold function_of.
  destruct (proj2 (quoted_loop_total (paren_body s)) [] Hw) as [parts Hp].
  unfold quoted_strings. rewrite Hp. by eexists.
Qed.

(** The analysis never panics on a dump.  For every valid UTF-8 text in which
    escaped bytes are ASCII (what [nodeToString] prints: it escapes delimiters),
    balanced or not, truncated or not, [analyze_dump] returns, and a non-empty
    dump is analyzed. *)
Theorem analyze_dump_total dump :
  well_escaped dump = true -> dump <> [] -> exists a, analyze_dump dump = Some (Analyzed a).
Proof.
  intros Hw Hne. unfold analyze_dump. destruct dump as [|b r] eqn:Hd; [done|]. rewrite <- Hd in *.
  destruct (collect_total relation_of (str "{RANGEVAR ") dump) as [? ->];
    [done|apply relation_of_total|done|].
  destruct (collect_total cte_of (str ":ctename ") dump) as [? ->];
    [done|intros s Hs; by apply fmap_is_Some, read_token_total|done|].
  destruct (collect_total function_of (str ":funcname (") dump) as [? ->];
    [done|apply function_of_total|done|]. by eexists.
Qed.

Lemma analyze_dump_total_witness :
  exists a, analyze_dump (str "{RANGEVAR :relname a\ b" ++ [xed; x95; x9c] ++ str " :ctename \") = Some (Analyzed a).
Proof. apply analyze_dump_total; [vm_compute; reflexivity|discriminate]. Defined.

(** ** What a spelled name can and cannot forge *)

(** Every delimiter of a text stands behind a backslash. *)
Definition delims_escaped (e : bytes) : Prop :=
  (forall b q, e = b :: q -> out_delim b = false) /\
  (forall p x b q, e = p ++ x :: b :: q -> out_delim b = true -> x = BACKSLASH).

Lemma delims_escaped_cons b e :
  out_delim b = false -> delims_escaped e -> delims_escaped (b :: e).
Proof.
  intros Hb [H1 H2]. split; [intros; by simplify_eq|].
  intros [|y p] x b' q Hp Hd; simpl in Hp; simplify_eq; [|by eapply H2].
  by rewrite (H1 b' q eq_refl) in Hd.
Qed.

Lemma enc_delims_escaped s e : token_enc s e -> delims_escaped e.
Proof.
  intros He. induction He as [|b s e Ha Hd Hb _ IH|b s e Ha _ [H1 H2]|c s e Hc Hl _ IH].
  - split; [done|]. by intros [].
  - by apply delims_escaped_cons.
  - split; [by intros; simplify_eq|]. intros [|y [|z p]] x b' q Hp Hd; simpl in Hp; simplify_eq.
    + done.
    + by rewrite (H1 b' q eq_refl) in Hd.
    + by eapply H2.
  - destruct (single_char c Hc Hl) as (b & t & -> & Hf & Ha). cbn [app].
    apply delims_escaped_cons; [by destruct b|].
    destruct (utf8_first_valid _ _ _ Hf) as (t' & [= <-] & _ & Ht & _). clear -Ht IH.
    induction Ht as [|x t Hx _ IHt]; [done|]. apply delims_escaped_cons; [|done].
    destruct (out_delim x) eqn:Hd; [|done]. apply out_delim_token, delim_ascii in Hd as [Hd _].
    apply ascii_not_cont in Hd. congruence.
Qed.

(** The markers the analysis searches for that end in a delimiter. *)
Definition closed_markers : list bytes :=
  [str "{RANGEVAR "; str ":ctename "; str ":funcname ("; str ":intoClause {"].

(** The spelling of a text contains none of them. *)
Lemma enc_no_marker s e m : token_enc s e -> m ∈ closed_markers -> contains e m = false.
Proof.
  intros He Hm. destruct (contains e m) eqn:Hc; [|done]. exfalso.
  apply contains_spec in Hc as (p & q & ->). apply enc_delims_escaped in He as [_ H].
  unfold closed_markers in Hm. repeat (apply elem_of_cons in Hm as [->|Hm]);
    [.. | by apply not_elem_of_nil in Hm].
  - specialize (H (p ++ str "{RANGEVA") "R"%byte x20 q). rewrite <- app_assoc in H.
    discriminate H; done.
  - specialize (H (p ++ str ":ctenam") "e"%byte x20 q). rewrite <- app_assoc in H.
    discriminate H; done.
  - specialize (H (p ++ str ":funcname") " "%byte "("%byte q). rewrite <- app_assoc in H.
    discriminate H; done.
  - specialize (H (p ++ str ":intoClause") " "%byte "{"%byte q). rewrite <- app_assoc in H.
    discriminate H; done.
Qed.

(** A tag cannot lie across a byte it does not contain. *)
Lemma starts_with_across c m a b :
  (c ∉ m) -> starts_with m (a ++ c :: b) = starts_with m a.
Proof.
  revert a. induction m as [|x m IH]; intros a Hc; [done|].
  apply not_elem_of_cons in Hc as [Hx Hm]. destruct a as [|y a]; simpl.
  - by rewrite bool_decide_eq_false_2.
  - by rewrite IH.
Qed.

Lemma starts_with_length m s : starts_with m s = true -> (length m <= length s)%nat.
Proof. intros [t ->]%starts_with_spec. rewrite length_app. lia. Qed.

Lemma occurrences_across c tag a b :
  (c ∉ tag) -> tag <> [] ->
  occurrences tag 0 (a ++ c :: b)
  = map (fun x => x ++ c :: b) (occurrences tag 0 a) ++ occurrences tag 0 b.
Proof.
  intros Hc Hne. induction a as [a IH] using list_length_ind. destruct a as [|y a].
  - cbn [app occurrences map]. pose proof (starts_with_across c tag [] b Hc) as Hs.
    cbn [app] in Hs. rewrite Hs. by destruct tag.
  - cbn [app occurrences]. pose proof (starts_with_across c tag (y :: a) b Hc) as Hs.
    cbn [app] in Hs. rewrite Hs. destruct (starts_with tag (y :: a)) eqn:Hst.
    + apply starts_with_length in Hst. simpl in Hst.
      rewrite !(occurrences_skip _ (pred _)), (drop_app_le a) by lia.
      rewrite IH by (rewrite length_drop; simpl; lia). cbn [map app]. f_equal.
      change (y :: a ++ c :: b) with ((y :: a) ++ c :: b). by rewrite drop_app_le by (simpl; lia).
    + apply IH. simpl. lia.
Qed.

Lemma occurrences_none tag s : contains s tag = false -> occurrences tag 0 s = [].
Proof.
  intros Hc. destruct (occurrences tag 0 s) as [|x l] eqn:Ho; [done|]. exfalso.
  assert (x ∈ occurrences tag 0 s) as [a ->]%occurrences_suffix by (rewrite Ho; left).
  apply not_true_iff_false in Hc. apply Hc, contains_spec. by exists a, x.
Qed.

Lemma contains_occurrences s tag :
  unbordered tag = true -> (contains s tag = true <-> occurrences tag 0 s <> []).
Proof.
  intros Hu. split.
  - intros (a & x & ->)%contains_spec Ho. pose proof (occurrences_complete tag a x Hu) as Hx.
    rewrite Ho in Hx. by apply not_elem_of_nil in Hx.
  - intros Ho. destruct (contains s tag) eqn:Hc; [done|]. by rewrite occurrences_none in Ho.
Qed.

(** A string literal of the statement, as the dump prints it in its place. *)
Definition with_literal (pre e post : bytes) : bytes := pre ++ QUOTE :: e ++ QUOTE :: post.

Lemma occurrences_literal tag pre s e post :
  token_enc s e -> tag ∈ closed_markers ->
  occurrences tag 0 (with_literal pre e post)
  = map (fun x => with_literal x e post) (occurrences tag 0 pre) ++ occurrences tag 0 post.
Proof.
  intros He Hm. assert ((QUOTE ∉ tag) /\ tag <> []) as [Hq Hne].
  { unfold closed_markers in Hm. repeat (apply elem_of_cons in Hm as [->|Hm]);
      [.. | by apply not_elem_of_nil in Hm];
      (split; [by apply (bool_decide_eq_false_1 (QUOTE ∈ _))|done]). }
  unfold with_literal. rewrite !occurrences_across by done.
  by rewrite (occurrences_none tag e) by (by eapply enc_no_marker).
Qed.

(** ** Readers that have what they need

    A node, a list or a token that ends inside a text is read the same whatever
    follows the text. *)

Lemma body_loop_more op cl s : forall d t y,
  body_loop op cl d s = Some t -> body_loop op cl d (s ++ y) = Some t.
Proof.
  induction s as [| |c s IH|b s Hb IH] using escaped_ind; intros d t y Ht; try done.
  - cbn [app body_loop] in Ht |- *. rewrite bool_decide_eq_true_2 in Ht |- * by done.
    destruct (body_loop op cl d s) as [t'|] eqn:Hd; [|done]. by rewrite (IH _ _ y Hd).
  - cbn [app body_loop] in Ht |- *. rewrite bool_decide_eq_false_2 in Ht |- * by done.
    repeat case_bool_decide; [| destruct d; [done|] |];
      (destruct (body_loop _ _ _ s) as [t'|] eqn:Hd; [|done]; by rewrite (IH _ _ y Hd)).
Qed.

Lemma read_token_loop_more x : forall k out n y,
  read_token_loop k x = Some (out, n) -> (n < length x)%nat ->
  read_token_loop k (x ++ y) = Some (out, n).
Proof.
  induction x as [x IH] using list_length_ind. intros k out n y Hr Hn.
  destruct x as [|b r]; [simpl in Hn; lia|]. cbn [app read_token_loop length] in *.
  destruct k as [|k].
  - destruct (b == BACKSLASH).
    + destruct r as [|c r]; [simplify_eq; simpl in Hn; lia|]. cbn [app] in *.
      destruct (read_token_loop 0 r) as [[o m]|] eqn:Hl; [|done]. simplify_eq.
      rewrite (IH r ltac:(simpl; lia) _ _ _ y Hl) by (simpl in Hn; lia). done.
    + destruct (token_delim b); [done|]. destruct (u8 b <? 128)%Z.
      * destruct (read_token_loop 0 r) as [[o m]|] eqn:Hl; [|done]. simplify_eq.
        rewrite (IH r ltac:(simpl; lia) _ _ _ y Hl) by lia. done.
      * unfold char_at in *. destruct (utf8_first b r) as [c|] eqn:Hf; [|done].
        rewrite (utf8_first_app _ _ _ y Hf).
        destruct (read_token_loop _ r) as [[o m]|] eqn:Hl; [|done]. simplify_eq.
        rewrite (IH r ltac:(simpl; lia) _ _ _ y Hl) by lia. done.
  - destruct (read_token_loop k r) as [[o m]|] eqn:Hl; [|done]. simplify_eq.
    rewrite (IH r ltac:(simpl; lia) _ _ _ y Hl) by lia. done.
Qed.

(** The three tests of what precedes a literal. *)
Definition node_closed (x : bytes) : bool := bool_decide (is_Some (body_loop "{"%byte "}"%byte 0 x)).
Definition list_closed (x : bytes) : bool := bool_decide (is_Some (body_loop "("%byte ")"%byte 0 x)).
Definition token_closed (x : bytes) : bool :=
  (2 <=? length x)%nat
  && match read_token x with Some (_, n) => (n <? length x)%nat | None => false end.

Lemma relation_of_more x y : node_closed x = true -> relation_of (x ++ y) = relation_of x.
Proof.
  intros [t Ht]%bool_decide_eq_true. unfold relation_of, node_body.
  by rewrite (body_loop_more _ _ _ _ _ y Ht), Ht.
Qed.

Lemma function_of_more x y : list_closed x = true -> function_of (x ++ y) = function_of x.
Proof.
  intros [t Ht]%bool_decide_eq_true. unfold function_of, paren_body.
  by rewrite (body_loop_more _ _ _ _ _ y Ht), Ht.
Qed.

Lemma starts_with_two a b x y :
  (2 <= length x)%nat -> starts_with [a; b] (x ++ y) = starts_with [a; b] x.
Proof. by destruct x as [|? [|? x]]; simpl; intros; [lia|lia|]. Qed.

Lemma cte_of_more x y : token_closed x = true -> cte_of (x ++ y) = cte_of x.
Proof.
  unfold token_closed, cte_of, read_token. intros [Hl Hr]%andb_true_iff. apply Nat.leb_le in Hl.
  change (str "<>") with ["<"%byte; ">"%byte] in *. rewrite !starts_with_two by done.
  destruct (starts_with _ x); [done|]. destruct (starts_with _ x); [done|].
  destruct (read_token_loop 0 x) as [[out n]|] eqn:Hx; [|done]. apply Nat.ltb_lt in Hr.
  by rewrite (read_token_loop_more _ _ _ _ y Hx Hr).
Qed.

(** No relation node, function name or CTE name is still open at the end of [pre]. *)
Definition names_closed (pre : bytes) : bool :=
  forallb node_closed (occurrences (str "{RANGEVAR ") 0 pre)
  && forallb list_closed (occurrences (str ":funcname (") 0 pre)
  && forallb token_closed (occurrences (str ":ctename ") 0 pre).

Lemma collect_literal {A} (f : bytes -> option (option A)) (closed : bytes -> bool) tag pre post
    s1 e1 s2 e2 :
  (forall x y, closed x = true -> f (x ++ y) = f x) ->
  forallb closed (occurrences tag 0 pre) = true -> tag ∈ closed_markers ->
  token_enc s1 e1 -> token_enc s2 e2 ->
  collect f tag (with_literal pre e1 post) = collect f tag (with_literal pre e2 post).
Proof.
  intros Hf Hc Hm H1 H2. unfold collect.
  rewrite (occurrences_literal tag pre s1 e1), (occurrences_literal tag pre s2 e2) by done.
  rewrite !map_app, !map_map.
  replace (map (fun x => f (with_literal x e1 post)) (occurrences tag 0 pre))
    with (map (fun x => f (with_literal x e2 post)) (occurrences tag 0 pre)); [done|].
  apply map_ext_in. intros x Hx. apply forallb_forall with (x := x) in Hc; [|done].
  unfold with_literal. by rewrite !Hf.
Qed.

(** What the sandbox's policy decides on: the relations, functions and CTE names. *)
Definition names_of (r : option dump_result)
  : option (option (list (option bytes * bytes) * list (option bytes * bytes) * list bytes)) :=
  match r with
  | None => None
  | Some Unparseable => Some None
  | Some (Analyzed a) => Some (Some (relations a, functions a, ctes a))
  end.

(** C14: a string literal can never be mistaken for a table.  Take any dump with a
    string literal in it, printed where no relation node, function name or CTE name
    is open, and put any other text in the literal's place: the analysis reports
    the same relations, the same functions and the same CTE names, and decides
    alike whether there is an [INTO] target.  What an agent writes inside a literal
    can neither add a name to those nor hide one. *)
Theorem literals_name_nothing pre post s1 e1 s2 e2 :
  names_closed pre = true -> token_enc s1 e1 -> token_enc s2 e2 ->
  names_of (analyze_dump (with_literal pre e1 post)) = names_of (analyze_dump (with_literal pre e2 post))
  /\ has_into (with_literal pre e1 post) = has_into (with_literal pre e2 post).
Proof.
  intros [[Hr Hf]%andb_true_iff Hc]%andb_true_iff H1 H2. split.
  - assert (forall e, exists b l, with_literal pre e post = b :: l) as Hne.
    { intros e. unfold with_literal. destruct pre; by do 2 eexists. }
    destruct (Hne e1) as (b1 & l1 & Hd1), (Hne e2) as (b2 & l2 & Hd2).
    unfold analyze_dump. rewrite Hd1, Hd2, <- Hd1, <- Hd2.
    rewrite (collect_literal relation_of node_closed _ pre post s1 e1 s2 e2 relation_of_more Hr),
      (collect_literal cte_of token_closed _ pre post s1 e1 s2 e2 cte_of_more Hc),
      (collect_literal function_of list_closed _ pre post s1 e1 s2 e2 function_of_more Hf)
      by (done || (unfold closed_markers; set_solver)).
    by repeat case_match.
  - apply eq_true_iff_eq. unfold has_into. rewrite !contains_occurrences by done.
    rewrite (occurrences_literal _ pre s1 e1), (occurrences_literal _ pre s2 e2)
      by (done || (unfold closed_markers; set_solver)).
    by destruct (occurrences (str ":intoClause {") 0 pre); split.
Qed.

(** A literal that quotes a whole relation node, in place of an innocent one. *)
Lemma literals_name_nothing_witness :
  let pre := str "({RAWSTMT :stmt {SELECTSTMT :fromClause ({RANGEVAR :schemaname <> :relname t}) :val " in
  let post := str " :location 7}})" in
  names_of (analyze_dump (with_literal pre (str "\{RANGEVAR\ :relname\ x\}") post))
  = names_of (analyze_dump (with_literal pre (str "a") post)).
Proof.
  intros pre post.
  eapply (literals_name_nothing pre post (str "{RANGEVAR :relname x}") _ (str "a"));
    [vm_compute; reflexivity| |by repeat constructor].
  repeat first [apply te_plain; [done|done|done|] | apply te_esc; [done|]]. constructor.
Defined.

(** The four data-modifying tags and [{RAWSTMT] do not end in a delimiter, and
    their search ignores the backslash before the brace: a statement that only
    mentions such a tag in a string literal is reported as one that writes. *)
Theorem literal_tag_reported_as_write :
  token_enc (str "{INSERTSTMT") (str "\{INSERTSTMT") /\
  writes <$> (match analyze_dump
    (str "({RAWSTMT :stmt {SELECTSTMT :targetList ({A_CONST :val " ++ [QUOTE] ++ str "\{INSERTSTMT" ++ [QUOTE] ++ str "})}})")
    with Some (Analyzed a) => Some a | _ => None end) = Some true.
Proof.
  split; [|vm_compute; reflexivity].
  apply te_esc; [done|]. repeat (apply te_plain; [done|done|done|]). constructor.
Qed.

(** A colon is no delimiter, so it is not escaped: the value of an earlier field can
    end in the marker of a later one, and [field] then reads the next field's marker
    as the value.  A schema named ["x:relname"] hides the relation's name. *)
Theorem colon_in_schema_misread :
  spells (Some (str "x:relname")) (str "x:relname") /\
  relation_of (rangevar_text (str "<>") (str "x:relname") (str "secret") (str ":inh true") ++ str "}")
    = Some (Some (Some (str "x:relname"), str ":relname")).
Proof.
  split; [|vm_compute; reflexivity].
  apply sp_token; [|done|done]. repeat (apply te_plain; [done|done|done|]). constructor.
Qed.

(** A carriage return (or a form feed) is no delimiter for [outToken], so it is not
    escaped; [read_token] stops at it all the same.  A reference to the relation named
    v_sales, carriage return, x is reported as one to v_sales. *)
Theorem cr_in_name_misread :
  let name := str "v_sales" ++ [x0d] ++ str "x" in
  spells (Some name) name /\
  relation_of (rangevar_text (str "<>") (str "public") name (str ":inh true") ++ str "}")
    = Some (Some (Some (str "public"), str "v_sales")).
Proof.
  split; [|vm_compute; reflexivity].
  apply sp_token; [|done|done]. repeat (apply te_plain; [done|done|done|]). constructor.
Qed.

(** A quote inside a name is not escaped either, and [quoted_strings] ignores the
    backslashes between strings: a call of a function whose name is the
    words x, pg_catalog and now, set apart by a quote, a blank and a quote, is
    reported as a call of [pg_catalog.now]. *)
Theorem quotes_in_name_misread :
  let name := str "x" ++ [QUOTE; x20; QUOTE] ++ str "pg_catalog" ++ [QUOTE; x20; QUOTE] ++ str "now" in
  let spelled := str "x" ++ [QUOTE; BACKSLASH; x20; QUOTE] ++ str "pg_catalog"
                 ++ [QUOTE; BACKSLASH; x20; QUOTE] ++ str "now" in
  token_enc name spelled /\
  function_of (quoted_list [str "public"; spelled] ++ str ")")
    = Some (Some (Some (str "pg_catalog"), str "now")).
Proof.
  split; [|vm_compute; reflexivity].
  repeat first [apply te_plain; [done|done|done|] | apply te_esc; [done|]]. constructor.
Qed.
