(* ===== verification/Privilege.v ===== *)
(** * Dropping privileges, and what runs behind it

    [drop_privileges] of [src/runtime_worker.rs], the identifier checks of
    [src/rpc.rs], [src/sandbox.rs] and [src/function_exec.rs], the shape shared by
    the claim functions, and the monitor that says which statements a worker may
    issue before it has given up the bootstrap superuser. *)

From S2P Require Import Prelude Utf8 RustStr Json Spi.

(** ** [drop_privileges] *)

(** The process environment the worker started with. *)
Class WorkerEnv := {
  env_drop_privileges : option bytes   (* ALLGRES_DROP_PRIVILEGES *)
}.

Definition ASSUME_WORKER_ROLE : bytes := str "SELECT allgres.assume_worker_role()".

Definition drop_privileges `{WorkerEnv} : prog bool :=
  if env_drop_privileges == Some (str "0") then Ret true
  else
    let* r := spi_get_bool ASSUME_WORKER_ROLE [] in
    match r with
    | Ok (Some true) => Ret true
    | Ok (Some false) =>
      warning (str "Allgres: assume_worker_role() reports the worker role is not ready") ;; Ret false
    | Ok None => warning (str "Allgres: assume_worker_role() returned no result") ;; Ret false
    | Err e => warning (str "Allgres: assume_worker_role() failed: " ++ e) ;; Ret false
    end.

(** ** Identifiers *)

Definition hex32 (hex : bytes) : bool :=
  (length hex =? 32)%nat && forallb is_ascii_hexdigit hex.

Definition valid_pg_role (s : bytes) : bool :=
  match strip_prefix (str "allgres_agent_") s with Some hex => hex32 hex | None => false end.

Definition valid_sql_ident (s prefix : bytes) : bool :=
  match strip_prefix prefix s with Some hex => hex32 hex | None => false end.

(** The [all] of [valid_uuid], from position [i]. *)
Fixpoint uuid_from (i : nat) (s : bytes) : bool :=
  match s with
  | [] => true
  | b :: r =>
    (if ((i =? 8) || (i =? 13) || (i =? 18) || (i =? 23))%nat then b == "-"%byte
     else is_ascii_hexdigit b) && uuid_from (S i) r
  end.

Definition valid_uuid (s : bytes) : bool := (length s =? 36)%nat && uuid_from 0 s.

(** ** Claiming work *)

(** [json!({ "count": 0, field: [] })], what a claim yields when it cannot claim. *)
Definition nothing_claimed (field : bytes) : json :=
  jobj [(str "count", JInt 0); (field, JArr [])].

(** The body shared by the claim functions: one transaction, one claim. *)
Definition claim `{WorkerEnv} (sql field : bytes) (limit : Z) : prog json :=
  transaction (
    let* dropped := drop_privileges in
    if negb dropped then Ret (nothing_claimed field)
    else
      let* r := spi_get_json sql [AInt (Some limit)] in
      Ret (default (nothing_claimed field) (ok_flatten r))).

(** The body shared by the functions that record a result: one transaction, and a
    warning where the privileges could not be dropped or the statement fails. *)
Definition record `{WorkerEnv} {A} (skipped failed : bytes) (p : prog (result A)) : prog unit :=
  transaction (
    let* dropped := drop_privileges in
    if negb dropped then warning skipped
    else
      let* r := p in
      match r with
      | Ok _ => Ret tt
      | Err e => warning (failed ++ e)
      end).

(** ** What a run issues *)

(** The statements of a run besides the privilege drop, with their arguments. *)
Definition issued (t : trace) : list (bytes * list arg) :=
  omap (fun cr => match cr.1 with
                  | Spi sql args => if sql == ASSUME_WORKER_ROLE then None else Some (sql, args)
                  | _ => None end) t.

(** The arguments [sql] is issued with. *)
Definition completions (sql : bytes) (t : trace) : list (list arg) :=
  omap (fun sa => if sa.1 == sql then Some sa.2 else None) (issued t).

Lemma issued_app t t' : issued (t ++ t') = issued t ++ issued t'.
Proof. apply omap_app. Qed.

Lemma completions_app sql t t' : completions sql (t ++ t') = completions sql t ++ completions sql t'.
Proof. unfold completions. by rewrite issued_app, omap_app. Qed.

(** The privilege drop succeeds wherever it is tried. *)
Definition drop_ok (cr : call * reply) : bool :=
  match cr with
  | (Spi sql _, r) => (sql != ASSUME_WORKER_ROLE)
                      || match r with Done (Some (DBool true)) => true | _ => false end
  | _ => true
  end.

(** A transaction adds nothing to what its body issues. *)
Lemma transaction_run {A} db h (p : prog A) : exists h',
  issued (run db h (transaction p)).1 = issued (run db h' p).1
  /\ forallb drop_ok (run db h (transaction p)).1 = forallb drop_ok (run db h' p).1
  /\ (run db h (transaction p)).2 = (run db h' p).2.
Proof.
  exists (h ++ [(StartTransaction, db h StartTransaction)]).
  unfold transaction. cbn [do_ bind run]. rewrite run_bind.
  destruct (run db (h ++ _) p) as [t [a|m]]; cbn [bind run fst snd]; [|done].
  ands; [|cbn [forallb drop_ok andb]; by rewrite forallb_app, andb_true_r|done].
  change (?x :: t ++ ?y) with ([x] ++ t ++ y). rewrite !issued_app. cbn. by rewrite app_nil_r.
Qed.

(** Work behind the privilege drop issues what it issues, or nothing. *)
Lemma behind_drop_run `{WorkerEnv} db h skipped (work : prog unit) sas :
  (forall h', issued (run db h' work).1 = sas) ->
  let t := (run db h (let* dropped := drop_privileges in
                      if negb dropped then warning skipped else work)).1 in
  (issued t = [] \/ issued t = sas) /\ (forallb drop_ok t = true -> issued t = sas).
Proof.
  intros Hw. cbv zeta. unfold drop_privileges.
  destruct (env_drop_privileges == Some (str "0")); [cbn [bind negb]; rewrite Hw; by auto|].
  unfold spi_get_bool. cbn [bind run].
  destruct (db h (Spi ASSUME_WORKER_ROLE [])) as [[[[]| | |]|]|e|m]; cbn [bind run negb warning do_];
    try (split; [by left|done]).
  specialize (Hw (h ++ [(Spi ASSUME_WORKER_ROLE [], Done (Some (DBool true)))])).
  destruct (run db _ work) as [t o]. cbn [fst] in *. unfold issued in *. cbn [omap list_omap fst].
  rewrite bool_decide_eq_true_2 by done. rewrite Hw. by auto.
Qed.

(** Recording an outcome issues its statement at most once and nothing else; and once,
    where the privileges are dropped. *)
Lemma record_run `{WorkerEnv} {A} db h skipped failed sql args (k : reply -> prog (result A)) :
  sql <> ASSUME_WORKER_ROLE ->
  (forall r, (exists x, k r = Ret x) \/ exists m, k r = Throw m) ->
  let t := (run db h (record skipped failed (Do (Spi sql args) k))).1 in
  (issued t = [] \/ issued t = [(sql, args)])
  /\ (forallb drop_ok t = true -> issued t = [(sql, args)]).
Proof.
  intros Hs Hk. cbv zeta. unfold record.
  match goal with |- context [transaction ?b] =>
    destruct (transaction_run db h b) as (h' & -> & -> & _) end.
  apply behind_drop_run. clear h h'. intros h. cbn [bind run].
  destruct (Hk (db h (Spi sql args))) as [[[v|e] ->]|[m ->]]; cbn; by rewrite bool_decide_eq_false_2.
Qed.

(** ** The monitor of privileges *)

Definition EXTENSION_INSTALLED : bytes :=
  str "SELECT EXISTS (SELECT 1 FROM pg_extension WHERE extname = 'allgres')".

(** Whether the current transaction runs without the bootstrap superuser's rights:
    [assume_worker_role] reported success in it, and no rollback undid that. *)
Definition privileges_step (dropped : bool) (c : call) (r : reply) : bool :=
  match c with
  | Spi sql args =>
    if sql == ASSUME_WORKER_ROLE then
      match r with Done (Some (DBool true)) => true | _ => dropped end
    else dropped
  | StartTransaction | CommitTransaction => false
  | RollbackAndReleaseCurrentSubTransaction => false
  | _ => dropped
  end.

(** Before that, only [assume_worker_role] itself and the test whether the
    extension exists may be issued. *)
Definition privileges_allow (dropped : bool) (c : call) : Prop :=
  match c with
  | Spi sql args => sql = ASSUME_WORKER_ROLE \/ sql = EXTENSION_INSTALLED \/ dropped = true
  | _ => True
  end.

#[export] Instance privileges : Monitor :=
  {| mstate := bool; mstep := privileges_step; mallowed := privileges_allow |}.

(** ** Lemmas *)

Lemma strip_prefix_app p s : strip_prefix p (p ++ s) = Some s.
Proof. by apply strip_prefix_Some. Qed.

Lemma valid_sql_ident_spec s prefix :
  valid_sql_ident s prefix = true <-> exists hex, s = prefix ++ hex /\ hex32 hex = true.
Proof.
  unfold valid_sql_ident. split.
  - destruct (strip_prefix prefix s) as [hex|] eqn:Hs; [|done]. intros Hh.
    apply strip_prefix_Some in Hs as ->. by exists hex.
  - intros (hex & -> & Hh). by rewrite strip_prefix_app.
Qed.

(** A name that needs no quoting: letters, digits and underscores. *)
Definition plain_ident (s : bytes) : bool :=
  nonempty s && forallb (fun b => is_ascii_alphanumeric b || (b == "_"%byte)) s.

Lemma hexdigit_alnum b : is_ascii_hexdigit b = true -> is_ascii_alphanumeric b = true.
Proof. destruct b; vm_compute; done. Qed.

Lemma hex32_plain hex : hex32 hex = true -> plain_ident hex = true.
Proof.
  unfold hex32, plain_ident. intros [Hl Hh]%andb_true_iff. apply andb_true_iff. split.
  - by destruct hex.
  - apply forallb_Forall in Hh. apply forallb_Forall. eapply Forall_impl; [|exact Hh].
    intros b Hb. simpl in Hb |- *. by rewrite hexdigit_alnum.
Qed.

Lemma plain_ident_app a b : plain_ident a = true -> plain_ident b = true -> plain_ident (a ++ b) = true.
Proof.
  unfold plain_ident. intros [Ha1 Ha2]%andb_true_iff [Hb1 Hb2]%andb_true_iff.
  apply andb_true_iff. split; [by destruct a|]. by rewrite forallb_app, Ha2, Hb2.
Qed.

Lemma valid_sql_ident_plain s prefix :
  plain_ident prefix = true -> valid_sql_ident s prefix = true -> plain_ident s = true.
Proof.
  intros Hp (hex & -> & Hh)%valid_sql_ident_spec. by apply plain_ident_app, hex32_plain.
Qed.

Lemma valid_pg_role_plain s : valid_pg_role s = true -> plain_ident s = true.
Proof. by apply (valid_sql_ident_plain s (str "allgres_agent_")). Qed.

(** ** What holds while the server keeps a contract

    [keeps] says of a call and its reply whether they are as agreed.  The monitor
    remembers a breach; [ensures] states what a program's result satisfies if there is
    none. *)

Section contract.
Context (keeps : call * reply -> bool).

Definition assuming : Monitor :=
  {| mstate := bool; mstep := fun s c r => s && keeps (c, r); mallowed := fun _ _ => True |}.

Abbreviation ensures s p P :=
  (wp (M := assuming) s p (fun o s' => s' = true -> forall a, o = Returned a -> P a)).

Lemma assumed_after t : forallb keeps t = true -> mstate_after (M := assuming) true t = true.
Proof.
  intros Ht. unfold mstate_after. cut (forall s, fold_left (fun s cr => s && keeps (cr.1, cr.2)) t s = s).
  { intros E. apply E. }
  revert Ht. induction t as [|[c r] t IH]; intros Ht s; [done|].
  cbn [forallb] in Ht. apply andb_true_iff in Ht as [Hh Ht].
  cbn [fold_left fst snd]. rewrite Hh, andb_true_r. by apply IH.
Qed.

Lemma assuming_mono {A} (p : prog A) : forall s,
  wp (M := assuming) s p (fun _ s' => s' = true -> s = true).
Proof.
  induction p as [a|m|c k IH]; intros s; simpl; [done..|]. split; [done|]. intros r.
  eapply (wp_mono (M := assuming)); [apply IH|]. intros o s' Hs Hs'. specialize (Hs Hs').
  simpl in Hs. by apply andb_true_iff in Hs as [? _].
Qed.

Lemma ensures_bind {A B} (p : prog A) (f : A -> prog B) (P : A -> Prop) (Q : B -> Prop) s :
  ensures s p P -> (forall a s', P a -> ensures s' (f a) Q) -> ensures s (bind p f) Q.
Proof.
  intros Hp Hf. apply wp_bind. eapply (wp_mono (M := assuming)); [exact Hp|].
  intros [a|m] s' Ha; [|done]. destruct s' eqn:Es.
  - by apply Hf, Ha.
  - eapply (wp_mono (M := assuming)); [apply assuming_mono|]. by intros o s'' Hs Hs'%Hs.
Qed.

Lemma ensures_any {A} (p : prog A) s : ensures s p (fun _ => True).
Proof. eapply (wp_mono (M := assuming)); [apply assuming_mono|done]. Qed.

Lemma ensures_transaction {A} (p : prog A) (P : A -> Prop) s :
  (forall s', ensures s' p P) -> ensures s (transaction p) P.
Proof.
  intros Hp. split; [done|]. intros r. apply (ensures_bind p _ P P); [apply Hp|].
  intros a s' Ha. split; [done|]. intros r'. simpl. by intros _ a' [= <-].
Qed.

Lemma ensures_dropped `{WorkerEnv} {A} (no yes : prog A) (P : A -> Prop) s :
  (forall s', ensures s' no P) -> (forall s', ensures s' yes P) ->
  ensures s (let* d := drop_privileges in if negb d then no else yes) P.
Proof.
  intros Hno Hyes. apply (ensures_bind _ _ (fun _ => True)); [apply ensures_any|].
  intros [] s' _; [apply Hyes|apply Hno].
Qed.

(** A run against a server that keeps the contract throughout. *)
Lemma ensures_run {A} db h (p : prog A) (P : A -> Prop) a :
  ensures true p P -> forallb keeps (run db h p).1 = true -> (run db h p).2 = Returned a -> P a.
Proof.
  intros Hp Hk Ho. destruct (wp_run (M := assuming) db p _ true h Hp) as [_ Hq].
  exact (Hq (assumed_after _ Hk) _ Ho).
Qed.
End contract.
