(* ===== verification/Sandbox.v ===== *)
(** * [src/sandbox.rs]: running an agent's SQL

    Subtransactions that survive an ERROR, the sandboxed execution of a validated
    statement under the agent's own role, and the queue around it. *)

From S2P Require Import Prelude Utf8 RustStr Json Spi Privilege.

(** ** Constants of [src/lib.rs] *)

Definition SQL_CLAIM_LIMIT : Z := 1.
Definition SQL_STATEMENT_TIMEOUT_MS : Z := 5000.
Definition PROCEDURE_CALL_TIMEOUT_MS : Z := 60000.
Definition PG_STATEMENT_TIMEOUT_ID : Z := 3.

(** ** Subtransactions *)

Definition restore_context : prog unit := do_ SwitchToOldContext.

Definition run_in_subtransaction (f : prog (result json)) : prog (result json) :=
  do_ BeginInternalSubTransaction ;;
  restore_context ;;
  let* result := catch_others f (fun message =>
    restore_context ;;
    do_ RollbackAndReleaseCurrentSubTransaction ;;
    restore_context ;;
    do_ RestoreResourceOwner ;;
    Ret (Err message)) in
  (if is_ok result then
     restore_context ;;
     do_ ReleaseCurrentSubTransaction ;;
     restore_context ;;
     do_ RestoreResourceOwner
   else Ret tt) ;;
  Ret result.

(** ** Sandboxed execution *)

(** [pg_role.filter(|r| valid_pg_role(r)).unwrap_or("sandbox")] *)
Definition sandbox_role (pg_role : option bytes) : bytes :=
  match pg_role with
  | Some r => if valid_pg_role r then r else str "sandbox"
  | None => str "sandbox"
  end.

Definition SET_ROLE (role : bytes) : bytes := str "SET LOCAL ROLE " ++ role.
Definition SET_SEARCH_PATH : bytes := str "SET LOCAL search_path = pg_temp".
Definition SET_READ_ONLY : bytes := str "SET LOCAL transaction_read_only = on".
Definition SET_TIMEOUT (ms : Z) : bytes :=
  str "SET LOCAL statement_timeout = '" ++ format_radix 10 ms ++ str "ms'".
Definition SET_AGENT_ID : bytes := str "SELECT set_config('allgres.agent_id', $1, true)".
Definition RUN_SANDBOXED : bytes := str "SELECT allgres_public.fn_run_sandboxed_sql($1)".

(** [Ok(Some(v)) => Ok(v), Ok(None) => none, Err(e) => Err(e.to_string())] *)
Definition result_or (none : result json) (r : result (option json)) : result json :=
  match r with
  | Ok (Some v) => Ok v
  | Ok None => none
  | Err e => Err e
  end.

(** The statement of a sandboxed execution between arming and disarming the timer. *)
Definition with_statement_timeout (ms : Z) (sql : bytes) (args : list arg) (none : result json)
  : prog (result json) :=
  do_ (EnableTimeoutAfter PG_STATEMENT_TIMEOUT_ID ms) ;;
  let* r := spi_get_json sql args in
  do_ (DisableTimeout PG_STATEMENT_TIMEOUT_ID false) ;;
  Ret (result_or none r).

Section sandbox.
Context `{WorkerEnv}.

Definition claim_sql_jobs (limit : Z) : prog json :=
  claim (str "SELECT allgres_public.fn_claim_sql($1)") (str "calls") limit.

Definition run_sandboxed_sql (agent_id sql : bytes) (pg_role : option bytes) : prog (result json) :=
  let role := sandbox_role pg_role in
  transaction (run_in_subtransaction (
    let* dropped :=
      and_then drop_privileges
        (and_then (spi_run_ok (SET_ROLE role) [])
          (and_then (spi_run_ok SET_SEARCH_PATH [])
            (and_then (spi_run_ok SET_READ_ONLY [])
              (and_then (spi_run_ok (SET_TIMEOUT SQL_STATEMENT_TIMEOUT_MS) [])
                (spi_run_ok SET_AGENT_ID [AStr (Some agent_id)]))))) in
    if negb dropped then Ret (Err (str "sandbox role unavailable"))
    else with_statement_timeout SQL_STATEMENT_TIMEOUT_MS RUN_SANDBOXED [AStr (Some sql)]
           (Err (str "sandboxed execution returned nothing")))).

(** [n as i32]: the low 32 bits, read as a signed integer. *)
Definition as_i32 (n : Z) : Z := ((n + 2 ^ 31) mod 2 ^ 32 - 2 ^ 31)%Z.

(** The arguments of [fn_complete_sql] behind the call id. *)
Definition sql_completion (outcome : result json) : list arg :=
  match outcome with
  | Ok v =>
    if get_bool v (str "ok") == Some true then
      [ABool true; AJson (get v (str "rows"));
       AInt (as_i32 <$> (get v (str "row_count") ≫= as_i64));
       ABool (default false (get_bool v (str "truncated"))); AStr None]
    else
      [ABool false; AJson None; AInt None; ABool false;
       AStr (Some (default (str "sql execution failed") (get_str v (str "error"))))]
  | Err e => [ABool false; AJson None; AInt None; ABool false; AStr (Some e)]
  end.

Definition COMPLETE_SQL : bytes :=
  str "SELECT allgres_public.fn_complete_sql($1::uuid, $2, $3, $4, $5, $6)".

Definition submit_sql_result (call_id : bytes) (outcome : result json) : prog unit :=
  record
    (str "Allgres: skipping fn_complete_sql for call " ++ call_id ++ str " -- privilege drop failed")
    (str "Allgres: fn_complete_sql failed for call " ++ call_id ++ str ": ")
    (spi_get_json COMPLETE_SQL
       (AStr (Some call_id) :: sql_completion outcome)).

(** The [for] loop of [pump_sql], with the count so far. *)
Fixpoint pump_sql_calls (n : nat) (calls : list json) : prog nat :=
  match calls with
  | [] => Ret n
  | call :: rest =>
    match get_str call (str "call_id"), get_str call (str "agent_id"), get_str call (str "sql") with
    | Some call_id, Some agent_id, Some sql =>
      if negb (valid_uuid call_id) || negb (valid_uuid agent_id) then pump_sql_calls n rest
      else
        let* outcome := run_sandboxed_sql agent_id sql (get_str call (str "pg_role")) in
        submit_sql_result call_id outcome ;;
        pump_sql_calls (S n) rest
    | _, _, _ => pump_sql_calls n rest
    end
  end.

Definition pump_sql : prog nat :=
  let* claimed := claim_sql_jobs SQL_CLAIM_LIMIT in
  match get_array claimed (str "calls") with
  | None => Ret 0%nat
  | Some calls => pump_sql_calls 0 calls
  end.
End sandbox.

(** ** What an agent's statement runs under *)

#[local] Arguments str : simpl never.
#[local] Arguments format_radix : simpl never.

Lemma sandbox_role_plain pg_role :
  plain_ident (sandbox_role pg_role) = true
  /\ (sandbox_role pg_role = str "sandbox" \/ valid_pg_role (sandbox_role pg_role) = true).
Proof.
  unfold sandbox_role. destruct pg_role as [r|]; [|by auto].
  destruct (valid_pg_role r) eqn:Hr; [|by auto]. auto using valid_pg_role_plain.
Qed.

(** The calls that must come before an agent's statement. *)
Definition sandbox_prologue `{WorkerEnv} (agent_id role : bytes) : list call :=
  [StartTransaction; BeginInternalSubTransaction; SwitchToOldContext]
  ++ (if env_drop_privileges == Some (str "0") then [] else [Spi ASSUME_WORKER_ROLE []])
  ++ [Spi (SET_ROLE role) []; Spi SET_SEARCH_PATH []; Spi SET_READ_ONLY [];
      Spi (SET_TIMEOUT SQL_STATEMENT_TIMEOUT_MS) []; Spi SET_AGENT_ID [AStr (Some agent_id)];
      EnableTimeoutAfter PG_STATEMENT_TIMEOUT_ID SQL_STATEMENT_TIMEOUT_MS].

(** A statement that took effect; [assume_worker_role] must also say so. *)
Definition succeeded (cr : call * reply) : Prop :=
  match cr.1 with
  | Spi sql _ => if sql == ASSUME_WORKER_ROLE then cr.2 = Done (Some (DBool true))
                 else exists v, cr.2 = Done v
  | _ => True
  end.

(** The statement [stmt] is issued with the arguments [args], behind exactly the
    calls of [prologue], all of which succeeded. *)
Definition only_after (stmt : bytes) (args : list arg) (prologue : list call)
    (before : trace) (c : call) : Prop :=
  forall args', c = Spi stmt args' ->
    args' = args /\ map fst before = prologue /\ Forall succeeded before.

Lemma succeeded_spi sql args v :
  sql <> ASSUME_WORKER_ROLE -> succeeded (Spi sql args, Done v).
Proof. intros Hs. unfold succeeded. simpl. rewrite bool_decide_eq_false_2 by done. by exists v. Qed.

(** The calls of [c] that are no statements are always allowed. *)
Definition allows_control (M : Monitor) : Prop :=
  forall s c, match c with Spi _ _ => True | _ => mallowed s c end.

(** Inside [transaction] and [run_in_subtransaction] only the body issues
    statements, and no ERROR of it gets out. *)
Lemma wp_in_subtransaction_returns {M : Monitor} st f :
  allows_control M ->
  (forall r1 r2 r3,
     wp (mstep (mstep (mstep st StartTransaction r1) BeginInternalSubTransaction r2)
               SwitchToOldContext r3) f (fun _ _ => True)) ->
  wp st (transaction (run_in_subtransaction f)) (fun o _ => exists a, o = Returned a).
Proof.
  intros Hc Hf. split; [apply (Hc _ StartTransaction)|]. intros r1.
  split; [apply (Hc _ BeginInternalSubTransaction)|]. intros r2.
  split; [apply (Hc _ SwitchToOldContext)|]. intros r3. apply wp_bind.
  eapply (wp_mono _ (fun o s => exists a, o = Returned a)).
  - apply (wp_bind (catch_others f _)), wp_catch. eapply wp_mono; [apply Hf|]. intros [[v|e]|m] s _; simpl.
    + repeat (split; [apply (Hc _ SwitchToOldContext) || apply (Hc _ ReleaseCurrentSubTransaction)
                     || apply (Hc _ RestoreResourceOwner)|]; intros ?). by eexists.
    + by eexists.
    + repeat (split; [apply (Hc _ SwitchToOldContext)
                      || apply (Hc _ RollbackAndReleaseCurrentSubTransaction)
                      || apply (Hc _ RestoreResourceOwner)|]; intros ?). by eexists.
  - intros o s [a ->]. split; [apply (Hc _ CommitTransaction)|]. intros r. by eexists.
Qed.

Lemma wp_in_subtransaction {M : Monitor} st f :
  allows_control M ->
  (forall r1 r2 r3,
     wp (mstep (mstep (mstep st StartTransaction r1) BeginInternalSubTransaction r2)
               SwitchToOldContext r3) f (fun _ _ => True)) ->
  wp st (transaction (run_in_subtransaction f)) (fun _ _ => True).
Proof. intros Hc Hf. eapply wp_mono; [by apply wp_in_subtransaction_returns|done]. Qed.

(** What [drop_privileges] adds to the history where it succeeds. *)
Definition drop_calls `{WorkerEnv} : list call :=
  if env_drop_privileges == Some (str "0") then [] else [Spi ASSUME_WORKER_ROLE []].

Lemma drop_privileges_history `{WorkerEnv} allowed st (Q : outcome bool -> trace -> Prop) :
  (forall s, allowed s (Spi ASSUME_WORKER_ROLE [])) -> (forall s t, allowed s (Warning t)) ->
  (forall t, map fst t = drop_calls -> Forall succeeded t -> Q (Returned true) (st ++ t)) ->
  (forall s, Q (Returned false) s) -> (forall m s, Q (Raising m) s) ->
  @wp (history allowed) _ st drop_privileges Q.
Proof.
  intros Ha Hw Ht Hf Hm. unfold drop_privileges, drop_calls in *.
  destruct (env_drop_privileges == Some (str "0")).
  - simpl. rewrite <- (app_nil_r st). by apply Ht.
  - split; [apply Ha|]. intros [[[[]| | |]|]|e|m]; simpl; auto.
    apply Ht; [done|]. by constructor.
Qed.

(** Every guard of the chain is passed before the next statement is issued. *)
Lemma guard_step stmt sargs prologue sql' args st (calls : list call)
    (Q : outcome bool -> trace -> Prop) :
  sql' <> stmt -> sql' <> ASSUME_WORKER_ROLE ->
  map fst st = calls -> Forall succeeded st ->
  (forall t, map fst t = calls ++ [Spi sql' args] -> Forall succeeded t -> Q (Returned true) t) ->
  (forall s, Q (Returned false) s) -> (forall m s, Q (Raising m) s) ->
  @wp (history (only_after stmt sargs prologue)) _ st (spi_run_ok sql' args) Q.
Proof.
  intros Hr Ha Hst Hs Ht Hf Hm. apply (@wp_spi_run_ok (history _)); [|intros v|intros e|intros m].
  - intros args' [= ->]. done.
  - apply Ht; simpl; [by rewrite map_app, Hst|]. apply Forall_app. split; [done|].
    constructor; [|done]. by apply succeeded_spi.
  - apply Hf.
  - apply Hm.
Qed.

Lemma guards_step stmt sargs prologue sql' args st (calls : list call) (q : prog bool)
    (Q : outcome bool -> trace -> Prop) :
  sql' <> stmt -> sql' <> ASSUME_WORKER_ROLE ->
  map fst st = calls -> Forall succeeded st ->
  (forall t, map fst t = calls ++ [Spi sql' args] -> Forall succeeded t ->
     @wp (history (only_after stmt sargs prologue)) _ t q Q) ->
  (forall s, Q (Returned false) s) -> (forall m s, Q (Raising m) s) ->
  @wp (history (only_after stmt sargs prologue)) _ st (and_then (spi_run_ok sql' args) q) Q.
Proof. intros. apply wp_and_then. by eapply guard_step. Qed.

(** The privilege drop in front of such a chain. *)
Lemma drop_step `{WorkerEnv} stmt sargs prologue st (calls : list call) (q : prog bool)
    (Q : outcome bool -> trace -> Prop) :
  stmt <> ASSUME_WORKER_ROLE -> map fst st = calls -> Forall succeeded st ->
  (forall t, map fst t = calls ++ drop_calls -> Forall succeeded t ->
     @wp (history (only_after stmt sargs prologue)) _ t q Q) ->
  (forall s, Q (Returned false) s) -> (forall m s, Q (Raising m) s) ->
  @wp (history (only_after stmt sargs prologue)) _ st (and_then drop_privileges q) Q.
Proof.
  intros Ha Hst Hs Ht Hf Hm. apply wp_and_then, drop_privileges_history; [| | |done|done].
  - intros s args [=]. congruence.
  - by intros s t args [=].
  - intros t Ht' Hs'. apply Ht; [by rewrite map_app, Hst, Ht'|]. apply Forall_app. auto.
Qed.

(** The guarded statement itself. *)
Lemma timed_statement stmt sargs prologue ms none st :
  map fst st ++ [EnableTimeoutAfter PG_STATEMENT_TIMEOUT_ID ms] = prologue -> Forall succeeded st ->
  @wp (history (only_after stmt sargs prologue)) _ st
      (with_statement_timeout ms stmt sargs none) (fun _ _ => True).
Proof.
  intros Hst Hs. split; [by intros ? [=]|]. intros r. split.
  - intros args [= <-]. split; [done|]. simpl. rewrite map_app. split; [exact Hst|].
    apply Forall_app. split; [done|]. by constructor.
  - intros [[[]|]| |]; simpl; try done; split; try done; by intros ? [=].
Qed.

Ltac pass lem :=
  eapply lem; [discriminate|discriminate|eassumption|assumption| |done|done];
  let t := fresh "t" in let Ht := fresh "Ht" in let Hs := fresh "Hs" in intros t Ht Hs.

Ltac close_prologue :=
  match goal with H : map fst ?t = _ |- map fst ?t ++ _ = _ => rewrite H end;
  cbn [map fst app]; rewrite <- ?app_assoc; reflexivity.

Lemma run_sandboxed_sql_wp `{WorkerEnv} agent_id sql pg_role :
  @wp (history (only_after RUN_SANDBOXED [AStr (Some sql)]
                  (sandbox_prologue agent_id (sandbox_role pg_role)))) _ []
      (run_sandboxed_sql agent_id sql pg_role) (fun _ _ => True).
Proof.
  unfold run_sandboxed_sql, sandbox_prologue. fold drop_calls. set (role := sandbox_role pg_role).
  apply wp_in_subtransaction; [by intros s []|]. intros r1 r2 r3. apply wp_bind.
  eapply (@wp_mono (history _) _ _ (fun o (s : trace) => match o with
    | Returned true => map fst s ++ [EnableTimeoutAfter PG_STATEMENT_TIMEOUT_ID SQL_STATEMENT_TIMEOUT_MS]
                         = sandbox_prologue agent_id role /\ Forall succeeded s
    | _ => True end)).
  - eapply drop_step; [discriminate|reflexivity|by repeat constructor| |done|done].
    intros t Ht Hs. pass guards_step. pass guards_step. pass guards_step. pass guards_step.
    pass guard_step. split; [close_prologue|done].
  - intros [[]|m] s Hs; [|done|done]. destruct Hs. by apply timed_statement.
Qed.

(** An agent's statement runs confined or not at all.  Whatever the server
    replies, wherever [fn_run_sandboxed_sql] is issued it gets the validated
    statement as a bound parameter, and the calls before it in its transaction are
    exactly the privilege drop, the switch to the agent's role, the temporary
    search path, the read-only mode, the statement timeout, the agent id and the
    armed timer, each of which succeeded; the role interpolated into its statement
    is [sandbox] or [allgres_agent_] and 32 hexadecimal digits. *)
Theorem sandboxed_sql_confined `{WorkerEnv} db h agent_id sql pg_role pre args r post :
  (run db h (run_sandboxed_sql agent_id sql pg_role)).1 = pre ++ (Spi RUN_SANDBOXED args, r) :: post ->
  args = [AStr (Some sql)]
  /\ map fst pre = sandbox_prologue agent_id (sandbox_role pg_role)
  /\ Forall succeeded pre
  /\ plain_ident (sandbox_role pg_role) = true
  /\ (sandbox_role pg_role = str "sandbox" \/ valid_pg_role (sandbox_role pg_role) = true).
Proof.
  intros Ht. pose proof (history_at _ _ _ _ _ _ _ _ (run_sandboxed_sql_wp agent_id sql pg_role) Ht) as Hc.
  destruct (Hc args eq_refl) as (? & ? & ?). pose proof (sandbox_role_plain pg_role). tauto.
Qed.

(** A server on which every statement succeeds. *)
Definition obliging : server := fun _ c =>
  match c with
  | Spi sql _ => if sql == ASSUME_WORKER_ROLE then Done (Some (DBool true))
                 else Done (Some (DJson (jobj [(str "ok", JBool true)])))
  | _ => Done None
  end.

#[local] Instance plain_env : WorkerEnv := {| env_drop_privileges := None |}.

Definition sample_agent : bytes := str "00000000-0000-4000-8000-000000000001".
Definition sample_role : bytes := str "allgres_agent_0123456789abcdef0123456789abcdef".

Lemma sandboxed_sql_confined_witness :
  exists pre post, (run obliging [] (run_sandboxed_sql sample_agent (str "SELECT 1") (Some sample_role))).1
    = pre ++ (Spi RUN_SANDBOXED [AStr (Some (str "SELECT 1"))], obliging [] (Spi RUN_SANDBOXED [])) :: post
  /\ map fst pre = sandbox_prologue sample_agent sample_role /\ Forall succeeded pre.
Proof.
  set (t := (run obliging [] (run_sandboxed_sql sample_agent (str "SELECT 1") (Some sample_role))).1).
  exists (take 10 t), (drop 11 t).
  assert (Ht : t = take 10 t ++ (Spi RUN_SANDBOXED [AStr (Some (str "SELECT 1"))],
                                 obliging [] (Spi RUN_SANDBOXED [])) :: drop 11 t)
    by (vm_compute; reflexivity).
  destruct (sandboxed_sql_confined obliging [] sample_agent (str "SELECT 1") (Some sample_role)
              _ _ _ _ Ht) as (_ & H1 & H2 & _).
  split; [exact Ht|]. split; [exact H1|exact H2].
Defined.

(** ** Subtransactions *)

Definition calls (t : trace) : list call := map fst t.

Definition sub_opening : list call := [BeginInternalSubTransaction; SwitchToOldContext].
(** The history the closure starts from. *)
Definition sub_history (db : server) (h : trace) : trace :=
  let h1 := h ++ [(BeginInternalSubTransaction, db h BeginInternalSubTransaction)] in
  h1 ++ [(SwitchToOldContext, db h1 SwitchToOldContext)].
Definition sub_release : list call :=
  [SwitchToOldContext; ReleaseCurrentSubTransaction; SwitchToOldContext; RestoreResourceOwner].
Definition sub_rollback : list call :=
  [SwitchToOldContext; RollbackAndReleaseCurrentSubTransaction; SwitchToOldContext;
   RestoreResourceOwner].

(** [run_in_subtransaction] never lets an ERROR through.  It opens a
    subtransaction and runs its closure in it; a value releases the subtransaction,
    an ERROR rolls it back and becomes an [Err] with the message; and an [Err] the
    closure itself returns is passed on with the subtransaction neither released
    nor rolled back. *)
Theorem run_in_subtransaction_spec db h f :
  let whole := run db h (run_in_subtransaction f) in
  match run db (sub_history db h) f with
  | (t, Returned (Ok v)) =>
    calls whole.1 = sub_opening ++ calls t ++ sub_release /\ whole.2 = Returned (Ok v)
  | (t, Raising m) =>
    calls whole.1 = sub_opening ++ calls t ++ sub_rollback /\ whole.2 = Returned (Err m)
  | (t, Returned (Err e)) =>
    calls whole.1 = sub_opening ++ calls t /\ whole.2 = Returned (Err e)
  end.
Proof.
  unfold run_in_subtransaction, sub_history. cbn [bind do_ run restore_context].
  rewrite run_bind, run_catch, <- app_assoc. cbn [app].
  destruct (run db _ f) as [t [[v|e]|m]]; cbn; rewrite ?app_nil_r; split; try done;
    unfold calls; by rewrite ?map_app.
Qed.

(** Where [assume_worker_role] reports that the role is not ready, the transaction
    is committed with its subtransaction still open. *)
Theorem subtransaction_left_open :
  let db : server := fun _ c => match c with Spi _ _ => Done (Some (DBool false)) | _ => Done None end in
  calls (run db [] (run_sandboxed_sql sample_agent (str "SELECT 1") None)).1 =
  [StartTransaction; BeginInternalSubTransaction; SwitchToOldContext; Spi ASSUME_WORKER_ROLE [];
   Warning (str "Allgres: assume_worker_role() reports the worker role is not ready");
   CommitTransaction].
Proof. vm_compute. reflexivity. Qed.

(** ** The statement timer *)

(** The timer armed for a statement is disarmed behind it exactly where the
    statement does not raise. *)
Lemma with_statement_timeout_run db h ms sql args none :
  let (t, o) := run db h (with_statement_timeout ms sql args none) in
  match o with
  | Returned _ => calls t = [EnableTimeoutAfter PG_STATEMENT_TIMEOUT_ID ms; Spi sql args;
                             DisableTimeout PG_STATEMENT_TIMEOUT_ID false]
  | Raising _ => calls t = [EnableTimeoutAfter PG_STATEMENT_TIMEOUT_ID ms; Spi sql args]
  end.
Proof.
  unfold with_statement_timeout, spi_get_json. cbn [bind do_ run].
  destruct (db _ (Spi sql args)) as [[[]|]| |]; reflexivity.
Qed.

(** A statement that raises, cancelled by its timeout for one, leaves the timer
    armed: the subtransaction is rolled back, the transaction committed, and
    nothing calls [disable_timeout]. *)
Theorem timer_left_armed :
  let db : server := fun _ c =>
    match c with
    | Spi sql _ => if sql == RUN_SANDBOXED then Raised (str "canceling statement due to statement timeout")
                   else obliging [] c
    | _ => Done None
    end in
  let t := calls (run db [] (run_sandboxed_sql sample_agent (str "SELECT pg_sleep(9)") None)).1 in
  EnableTimeoutAfter PG_STATEMENT_TIMEOUT_ID SQL_STATEMENT_TIMEOUT_MS ∈ t
  /\ list.last t = Some CommitTransaction
  /\ Forall (fun c => match c with DisableTimeout _ _ => False | _ => True end) t.
Proof.
  cbv zeta. split; [|split; [vm_compute; reflexivity|vm_compute; repeat constructor]].
  apply list_elem_of_In. vm_compute. tauto.
Qed.
