(* ===== verification/FunctionExec.v ===== *)
(** * [src/function_exec.rs]: building and calling PL/pgSQL functions

    A function is built by a [CREATE FUNCTION] statement this worker assembles,
    with the author's body inside a dollar quote, and called under the agent's
    role. *)

From S2P Require Import Prelude Utf8 RustStr Json Spi Privilege Sandbox.

(** ** Dollar quotes *)

(** [format!("${tag}$")] *)
Definition dollar (tag : bytes) : bytes := str "$" ++ tag ++ str "$".

(** [while body.contains(..) { tag.push('x') }]: [None] when the fuel is used up. *)
Fixpoint dollar_tag (fuel : nat) (body tag : bytes) : option bytes :=
  if contains body (dollar tag) then
    match fuel with
    | O => None
    | S f => dollar_tag f body (tag ++ str "x")
    end
  else Some tag.

Definition dollar_quoted (tag body : bytes) : bytes :=
  dollar tag ++ [x0a] ++ body ++ [x0a] ++ dollar tag.

(** [dollar_quote] at the clock reading [nanos].  A tag longer than the body is not
    contained in it, so the body's length is fuel enough. *)
Definition dollar_quote (nanos : Z) (body : bytes) : option (bytes * bytes) :=
  match dollar_tag (length body) body (str "body_" ++ format_radix 16 nanos) with
  | Some tag => Some (tag, dollar_quoted tag body)
  | None => None
  end.

(** ** Building *)

Definition SET_FUNCTION_ADMIN : bytes := str "SET LOCAL ROLE allgres_function_admin".

(** The transaction of a build: the statement runs as [allgres_function_admin]. *)
Definition run_ddl `{WorkerEnv} (ddl : bytes) : prog (result json) :=
  transaction (run_in_subtransaction (
    let* dropped := and_then drop_privileges (spi_run_ok SET_FUNCTION_ADMIN []) in
    if negb dropped then Ret (Err (str "allgres_function_admin role unavailable"))
    else
      let* r := spi_run ddl [] in
      Ret (match r with Ok _ => Ok JNull | Err e => Err e end))).

Definition function_ddl (sql_ident quoted_body : bytes) : bytes :=
  str "CREATE OR REPLACE FUNCTION allgres_functions." ++ sql_ident
  ++ str "(p_args jsonb) RETURNS jsonb LANGUAGE plpgsql SECURITY INVOKER AS "
  ++ quoted_body ++ str ";".

(** The form shared by both kinds of build: [map(|_| ())] keeps the error. *)
Definition run_build `{WorkerEnv} (prefix : bytes) (mk_ddl : bytes -> bytes -> bytes)
    (nanos : Z) (sql_ident body : bytes) : prog (result unit) :=
  if negb (valid_sql_ident sql_ident prefix) then Ret (Err (str "invalid sql_ident"))
  else
    match dollar_quote nanos body with
    | None => Throw (str "no tag")
    | Some (_, quoted_body) =>
      let* r := run_ddl (mk_ddl sql_ident quoted_body) in
      Ret (match r with Ok _ => Ok tt | Err e => Err e end)
    end.

Section function_exec.
Context `{WorkerEnv}.

Definition claim_function_build_jobs (limit : Z) : prog json :=
  claim (str "SELECT allgres_public.fn_claim_function_builds($1)") (str "builds") limit.

Definition run_function_build (nanos : Z) (sql_ident body : bytes) : prog (result unit) :=
  run_build (str "fn_") function_ddl nanos sql_ident body.

(** The arguments of a build completion behind the id. *)
Definition build_completion (outcome : result unit) : list arg :=
  match outcome with
  | Ok _ => [ABool true; AStr None]
  | Err e => [ABool false; AStr (Some e)]
  end.

Definition submit_function_build_result (function_id : bytes) (outcome : result unit) : prog unit :=
  record
    (str "Allgres: skipping fn_complete_function_build for " ++ function_id
       ++ str " -- privilege drop failed")
    (str "Allgres: fn_complete_function_build failed for " ++ function_id ++ str ": ")
    (spi_run (str "SELECT allgres_public.fn_complete_function_build($1::uuid, $2, $3)")
       (AStr (Some function_id) :: build_completion outcome)).

(** The [for] loop of a build pump; [clock] reads the time of each build. *)
Fixpoint pump_builds (id_key : bytes) (clock : nat -> Z)
    (build : Z -> bytes -> bytes -> prog (result unit)) (submit : bytes -> result unit -> prog unit)
    (n : nat) (builds : list json) : prog nat :=
  match builds with
  | [] => Ret n
  | b :: rest =>
    match get_str b id_key, get_str b (str "sql_ident"), get_str b (str "body") with
    | Some id, Some sql_ident, Some body =>
      if negb (valid_uuid id) then pump_builds id_key clock build submit n rest
      else
        let* outcome := build (clock n) sql_ident body in
        submit id outcome ;;
        pump_builds id_key clock build submit (S n) rest
    | _, _, _ => pump_builds id_key clock build submit n rest
    end
  end.

Definition pump_function_builds (clock : nat -> Z) : prog nat :=
  let* claimed := claim_function_build_jobs SQL_CLAIM_LIMIT in
  match get_array claimed (str "builds") with
  | None => Ret 0%nat
  | Some builds =>
    pump_builds (str "function_id") clock run_function_build submit_function_build_result 0 builds
  end.

(** ** Calling *)

Definition claim_function_call_jobs (limit : Z) : prog json :=
  claim (str "SELECT allgres_public.fn_claim_function_calls($1)") (str "calls") limit.

(** The transaction of a call, under the agent's role. *)
Definition run_as_agent (role : bytes) (ms : Z) (unavailable sql : bytes) (args : json)
  : prog (result json) :=
  transaction (run_in_subtransaction (
    let* dropped :=
      and_then drop_privileges
        (and_then (spi_run_ok (SET_ROLE role) [])
          (and_then (spi_run_ok SET_SEARCH_PATH [])
            (spi_run_ok (SET_TIMEOUT ms) []))) in
    if negb dropped then Ret (Err unavailable)
    else with_statement_timeout ms sql [AJson (Some args)] (Ok JNull))).

Definition function_call_sql (sql_ident : bytes) : bytes :=
  str "SELECT allgres_functions." ++ sql_ident ++ str "($1::jsonb)".

Definition run_function_call (sql_ident : bytes) (args : json) (pg_role : option bytes)
  : prog (result json) :=
  if negb (valid_sql_ident sql_ident (str "fn_")) then Ret (Err (str "invalid sql_ident"))
  else run_as_agent (sandbox_role pg_role) SQL_STATEMENT_TIMEOUT_MS
         (str "function role unavailable") (function_call_sql sql_ident) args.

(** The arguments of a call completion behind the call id. *)
Definition call_completion (outcome : result json) : list arg :=
  match outcome with
  | Ok v => [ABool true; AJson (Some v); AStr None]
  | Err e => [ABool false; AJson None; AStr (Some e)]
  end.

Definition submit_function_call_result (call_id : bytes) (outcome : result json) : prog unit :=
  record
    (str "Allgres: skipping fn_complete_function_call for call " ++ call_id
       ++ str " -- privilege drop failed")
    (str "Allgres: fn_complete_function_call failed for call " ++ call_id ++ str ": ")
    (spi_get_json (str "SELECT allgres_public.fn_complete_function_call($1::uuid, $2, $3, $4)")
       (AStr (Some call_id) :: call_completion outcome)).

(** The [for] loop of a call pump. *)
Fixpoint pump_calls (run_call : bytes -> json -> option bytes -> prog (result json))
    (submit : bytes -> result json -> prog unit) (n : nat) (calls : list json) : prog nat :=
  match calls with
  | [] => Ret n
  | call :: rest =>
    match get_str call (str "call_id"), get_str call (str "sql_ident") with
    | Some call_id, Some sql_ident =>
      if negb (valid_uuid call_id) then pump_calls run_call submit n rest
      else
        let* outcome := run_call sql_ident (default (jobj []) (get call (str "args")))
                          (get_str call (str "pg_role")) in
        submit call_id outcome ;;
        pump_calls run_call submit (S n) rest
    | _, _ => pump_calls run_call submit n rest
    end
  end.

Definition pump_function_calls : prog nat :=
  let* claimed := claim_function_call_jobs SQL_CLAIM_LIMIT in
  match get_array claimed (str "calls") with
  | None => Ret 0%nat
  | Some calls => pump_calls run_function_call submit_function_call_result 0 calls
  end.
End function_exec.

#[local] Arguments str : simpl never.

(** ** The dollar quote holds the body *)

Lemma contains_length s n : contains s n = true -> (length n <= length s)%nat.
Proof. intros (a & b & ->)%contains_spec. rewrite !length_app. lia. Qed.

Lemma dollar_tag_total fuel body : forall tag,
  (length body < fuel + length (dollar tag))%nat ->
  exists k, dollar_tag fuel body tag = Some (tag ++ repeat "x"%byte k)
            /\ contains body (dollar (tag ++ repeat "x"%byte k)) = false.
Proof.
  induction fuel as [|f IH]; intros tag Hl.
  - assert (contains body (dollar tag) = false) as Hc.
    { destruct (contains body (dollar tag)) eqn:Hc; [|done].
      apply contains_length in Hc. lia. }
    exists 0%nat. simpl. by rewrite app_nil_r, Hc.
  - simpl. destruct (contains body (dollar tag)) eqn:Hc.
    + destruct (IH (tag ++ str "x")) as (k & Hk & Hk').
      { unfold dollar in *. rewrite !length_app in *. simpl in *. lia. }
      exists (S k). rewrite <- app_assoc in Hk, Hk'. done.
    + exists 0%nat. by rewrite app_nil_r.
Qed.

(** Behind a byte that a needle lacks, the first occurrence is the first one there. *)
Lemma find_sub_behind c n a b :
  (c ∉ n) -> contains a n = false ->
  find_sub n (a ++ c :: b) = Nat.add (S (length a)) <$> find_sub n b.
Proof.
  intros Hc. induction a as [|x a IH]; intros Ha.
  - cbn [app find_sub]. destruct (starts_with n (c :: b)) eqn:Hs.
    + exfalso. apply starts_with_spec in Hs as [t Ht]. destruct n as [|y n].
      * unfold contains in Ha. done.
      * injection Ht as -> _. set_solver.
    + by destruct (find_sub n b).
  - unfold contains in Ha. cbn [app find_sub] in Ha |- *.
    destruct (starts_with n (x :: a)) eqn:Hs'; [done|].
    destruct (starts_with n (x :: a ++ c :: b)) eqn:Hs.
    + exfalso. apply starts_with_spec in Hs as [t Ht].
      assert (length n <= length (x :: a))%nat as Hl.
      { destruct (decide (length n <= length (x :: a))%nat) as [|Hl]; [done|]. exfalso. apply Hc.
        apply (f_equal (take (length n))) in Ht. rewrite take_app_length in Ht.
        rewrite <- Ht. change (x :: a ++ c :: b) with ((x :: a) ++ c :: b).
        rewrite take_app_ge by lia. apply elem_of_app. right.
        destruct (length n - length (x :: a))%nat as [|k] eqn:Hk; [lia|]. left. }
      assert (starts_with n (x :: a) = true); [|congruence]. apply starts_with_spec.
      exists (drop (length n) (x :: a)).
      apply (f_equal (take (length n))) in Ht. rewrite take_app_length in Ht.
      change (x :: a ++ c :: b) with ((x :: a) ++ c :: b) in Ht.
      rewrite take_app_le in Ht by done. rewrite <- Ht at 1. by rewrite take_drop.
    + rewrite IH; [by destruct (find_sub n b)|]. unfold contains.
      by destruct (find_sub n a).
Qed.

Definition tag_byte (b : byte) : bool := is_ascii_alphanumeric b || (b == "_"%byte).

(** C27: the dollar quote ends where the body ends.  For every body and clock
    reading a tag is found, made of letters, digits and underscores; behind the
    opening [$tag$], the first occurrence of [$tag$] is the one that closes the
    literal, so whatever the body contains, the literal's text is the body between
    two line feeds. *)
Theorem dollar_quote_exact nanos body :
  exists tag, dollar_quote nanos body = Some (tag, dollar_quoted tag body)
    /\ forallb tag_byte tag = true
    /\ find_sub (dollar tag) (drop (length (dollar tag)) (dollar_quoted tag body))
       = Some (length body + 2)%nat.
Proof.
  set (tag0 := str "body_" ++ format_radix 16 nanos).
  destruct (dollar_tag_total (length body) body tag0) as (k & Hk & Hc).
  { unfold dollar. rewrite !length_app. simpl. lia. }
  exists (tag0 ++ repeat "x"%byte k). unfold dollar_quote. fold tag0. rewrite Hk.
  split; [done|]. set (tag := tag0 ++ repeat "x"%byte k) in *.
  assert (forallb tag_byte tag = true) as Htag.
  { unfold tag, tag0. rewrite !forallb_app. rewrite !andb_true_iff. split_and!.
    - done.
    - apply forallb_Forall. eapply Forall_impl; [|by apply format_radix_alnum].
      intros b Hb. unfold tag_byte. by rewrite Hb.
    - clear. induction k as [|k IH]; simpl; done. }
  split; [done|]. unfold dollar_quoted. rewrite drop_app_length.
  assert (x0a ∉ dollar tag) as Hnl.
  { unfold dollar. rewrite !not_elem_of_app. split_and!.
    - apply (bool_decide_eq_false_1 (x0a ∈ str "$")). reflexivity.
    - intros Hin%list_elem_of_In. apply forallb_Forall in Htag.
      eapply Forall_forall in Htag; [|exact Hin]. done.
    - apply (bool_decide_eq_false_1 (x0a ∈ str "$")). reflexivity. }
  change ([x0a] ++ body ++ [x0a] ++ dollar tag) with ([] ++ x0a :: (body ++ x0a :: dollar tag)).
  rewrite !find_sub_behind; [|done|done|done|done].
  assert (find_sub (dollar tag) (dollar tag) = Some 0%nat) as ->.
  { apply find_sub_first; [|lia]. rewrite drop_0. rewrite <- (app_nil_r (dollar tag)) at 2.
    apply starts_with_app. }
  simpl. f_equal. lia.
Qed.

(** ** Builds run as the function administrator *)

Definition build_prologue `{WorkerEnv} : list call :=
  [StartTransaction; BeginInternalSubTransaction; SwitchToOldContext]
  ++ drop_calls ++ [Spi SET_FUNCTION_ADMIN []].

(** The statements of a build: the privilege drop, the switch to the administrator,
    and the given statement behind both. *)
Definition build_statement `{WorkerEnv} (ddl : bytes) (before : trace) (c : call) : Prop :=
  match c with
  | Spi sql args =>
    (sql = ASSUME_WORKER_ROLE \/ sql = SET_FUNCTION_ADMIN)
    \/ (sql = ddl /\ args = [] /\ calls before = build_prologue /\ Forall succeeded before)
  | EnableTimeoutAfter _ _ => False
  | _ => True
  end.

Lemma run_ddl_wp `{WorkerEnv} ddl :
  @wp (history (build_statement ddl)) _ [] (run_ddl ddl) (fun _ _ => True).
Proof.
  unfold run_ddl. assert (Hx : forall s c,
    match c with Spi _ _ | EnableTimeoutAfter _ _ => True | _ => build_statement ddl s c end)
    by (by intros s []).
  split; [done|]. intros r1. split; [done|]. intros r2. split; [done|]. intros r3.
  apply wp_bind.
  eapply (wp_mono _ (fun o s => exists a, o = Returned a));
    [|intros o s [a ->]; by split]. apply (wp_bind (catch_others _ _)), wp_catch.
  eapply (@wp_mono (history _) _ _ (fun _ _ => True)).
  - apply wp_bind. eapply (@wp_mono (history _) _ _ (fun o (s : trace) => match o with
      | Returned true => calls s = build_prologue /\ Forall succeeded s | _ => True end)).
    + apply wp_and_then, drop_privileges_history; [by left; left|done| |done|done].
      intros t Ht Hs. apply (@wp_spi_run_ok (history _)); [by left; right| |done|done].
      intros v. simpl. unfold calls, build_prologue. rewrite !map_app, Ht. split; [done|].
      constructor; [done|]. repeat (constructor; [done|]). apply Forall_app. split; [done|].
      constructor; [|done]. by apply succeeded_spi.
    + intros [[]|m] s Hs; [|done|done]. destruct Hs as [H1 H2]. split.
      * right. done.
      * by intros [].
  - intros [[v|e]|m] s _; simpl; repeat (split; [done|]; intros ?); by eexists.
Qed.

Lemma run_build_wp `{WorkerEnv} prefix mk_ddl nanos sql_ident body :
  valid_sql_ident sql_ident prefix = true ->
  exists tag, dollar_quote nanos body = Some (tag, dollar_quoted tag body)
    /\ @wp (history (build_statement (mk_ddl sql_ident (dollar_quoted tag body)))) _ []
         (run_build prefix mk_ddl nanos sql_ident body) (fun _ _ => True).
Proof.
  intros Hv. destruct (dollar_tag_total (length body) body (str "body_" ++ format_radix 16 nanos))
    as (k & Hk & _). { unfold dollar. rewrite !length_app. simpl. lia. }
  eexists. unfold run_build, dollar_quote. rewrite Hk, Hv. cbn [negb]. split; [done|].
  apply wp_bind. eapply wp_mono; [apply run_ddl_wp|]. by intros [].
Qed.

(** What a build may issue, for either kind of object. *)
Lemma run_build_at `{WorkerEnv} prefix mk_ddl nanos sql_ident body db h pre sql args r post :
  (run db h (run_build prefix mk_ddl nanos sql_ident body)).1 = pre ++ (Spi sql args, r) :: post ->
  valid_sql_ident sql_ident prefix = true /\
  exists tag, dollar_quote nanos body = Some (tag, dollar_quoted tag body)
    /\ build_statement (mk_ddl sql_ident (dollar_quoted tag body)) pre (Spi sql args).
Proof.
  intros Ht. destruct (valid_sql_ident sql_ident prefix) eqn:Hv.
  - split; [done|]. destruct (run_build_wp prefix mk_ddl nanos sql_ident body Hv) as (tag & Hq & Hw).
    exists tag. split; [done|]. by eapply history_at.
  - exfalso. unfold run_build in Ht. rewrite Hv in Ht. simpl in Ht. by destruct pre.
Qed.

(** What a function build sends to the server.  Every statement of a build is
    the privilege drop, the switch to [allgres_function_admin], or the
    [CREATE OR REPLACE FUNCTION ... SECURITY INVOKER] statement, issued only after
    both of the others succeeded in the same subtransaction; the name spliced into
    it is [fn_] and 32 hexadecimal digits and the body is inside its dollar quote. *)
Theorem function_build_confined `{WorkerEnv} nanos sql_ident body db h pre sql args r post :
  (run db h (run_function_build nanos sql_ident body)).1 = pre ++ (Spi sql args, r) :: post ->
  plain_ident sql_ident = true /\
  exists tag, dollar_quote nanos body = Some (tag, dollar_quoted tag body)
    /\ build_statement (function_ddl sql_ident (dollar_quoted tag body)) pre (Spi sql args).
Proof.
  intros Ht. destruct (run_build_at (str "fn_") function_ddl nanos sql_ident body db h
                         pre sql args r post Ht) as [Hv Hs]. split; [|exact Hs].
  apply (valid_sql_ident_plain sql_ident (str "fn_")); [reflexivity|exact Hv].
Qed.

#[local] Instance plain_env : WorkerEnv := {| env_drop_privileges := None |}.

Definition sample_fn : bytes := str "fn_0123456789abcdef0123456789abcdef".

Lemma function_build_confined_witness :
  exists tag, dollar_quote 4096 (str "BEGIN END $body_1000$") = Some (tag, dollar_quoted tag (str "BEGIN END $body_1000$"))
    /\ build_statement (function_ddl sample_fn (dollar_quoted tag (str "BEGIN END $body_1000$")))
         (take 5 (run obliging [] (run_function_build 4096 sample_fn (str "BEGIN END $body_1000$"))).1)
         (Spi (function_ddl sample_fn (dollar_quoted (str "body_1000x") (str "BEGIN END $body_1000$"))) []).
Proof.
  eapply (function_build_confined 4096 sample_fn (str "BEGIN END $body_1000$") obliging []).
  vm_compute. reflexivity.
Defined.

(** No timer bounds a build: neither [SET LOCAL statement_timeout] nor
    [enable_timeout_after] is ever issued for one. *)
Theorem function_build_unbounded `{WorkerEnv} nanos sql_ident body db h ms pre c r post :
  (run db h (run_function_build nanos sql_ident body)).1 = pre ++ (c, r) :: post ->
  c <> Spi (SET_TIMEOUT ms) [] /\ c <> EnableTimeoutAfter PG_STATEMENT_TIMEOUT_ID ms.
Proof.
  intros Ht. destruct (valid_sql_ident sql_ident (str "fn_")) eqn:Hv.
  - destruct (run_build_wp (str "fn_") function_ddl nanos sql_ident body Hv) as (tag & _ & Hw).
    eapply history_at in Hw; [|exact Ht]. split; intros ->; simpl in Hw; [|done].
    destruct Hw as [[Hw|Hw]|[Hw _]]; discriminate.
  - exfalso. unfold run_function_build, run_build in Ht. rewrite Hv in Ht. by destruct pre.
Qed.

(** ** Calls run as the agent *)

Definition call_prologue `{WorkerEnv} (role : bytes) (ms : Z) : list call :=
  [StartTransaction; BeginInternalSubTransaction; SwitchToOldContext] ++ drop_calls
  ++ [Spi (SET_ROLE role) []; Spi SET_SEARCH_PATH []; Spi (SET_TIMEOUT ms) [];
      EnableTimeoutAfter PG_STATEMENT_TIMEOUT_ID ms].

(** A statement that is none of the session settings. *)
Definition no_setting (sql : bytes) : Prop :=
  forall rest, sql <> str "SET " ++ rest /\ sql <> ASSUME_WORKER_ROLE.

Lemma run_as_agent_wp `{WorkerEnv} role ms unavailable sql args :
  no_setting sql ->
  @wp (history (only_after sql [AJson (Some args)] (call_prologue role ms))) _ []
      (run_as_agent role ms unavailable sql args) (fun _ _ => True).
Proof.
  intros Hn. unfold run_as_agent.
  assert (H1 : forall r, SET_ROLE r <> sql)
    by (intros r E; by apply (proj1 (Hn (str "LOCAL ROLE " ++ r)))).
  assert (H2 : SET_SEARCH_PATH <> sql)
    by (intros E; by apply (proj1 (Hn (str "LOCAL search_path = pg_temp")))).
  assert (H3 : forall m, SET_TIMEOUT m <> sql).
  { intros m E. by apply (proj1 (Hn (str "LOCAL statement_timeout = '" ++ format_radix 10 m ++ str "ms'"))). }
  apply wp_in_subtransaction; [by intros s []|]. intros r1 r2 r3. apply wp_bind.
  eapply (@wp_mono (history _) _ _ (fun o (s : trace) => match o with
    | Returned true => map fst s ++ [EnableTimeoutAfter PG_STATEMENT_TIMEOUT_ID ms]
                         = call_prologue role ms /\ Forall succeeded s
    | _ => True end)).
  - eapply drop_step; [apply (Hn [])|reflexivity|by repeat constructor| |done|done].
    intros t Ht Hs.
    eapply guards_step; [apply H1|discriminate|exact Ht|exact Hs| |done|done]. intros t1 Ht1 Hs1.
    eapply guards_step; [exact H2|discriminate|exact Ht1|exact Hs1| |done|done]. intros t2 Ht2 Hs2.
    eapply guard_step; [apply H3|discriminate|exact Ht2|exact Hs2| |done|done]. intros t3 Ht3 Hs3.
    split; [close_prologue|done].
  - intros [[]|m] s Hs; [|done|done]. destruct Hs. by apply timed_statement.
Qed.

(** A function runs as the agent or not at all: wherever the call of a built
    function is issued, it is issued with the agent's arguments bound, behind
    exactly the successful privilege drop, role switch, search path and statement
    timeout and the armed timer; the role and the function's name are identifiers
    without quoting. *)
Theorem function_call_confined `{WorkerEnv} sql_ident args pg_role db h pre args' r post :
  (run db h (run_function_call sql_ident args pg_role)).1
    = pre ++ (Spi (function_call_sql sql_ident) args', r) :: post ->
  args' = [AJson (Some args)]
  /\ calls pre = call_prologue (sandbox_role pg_role) SQL_STATEMENT_TIMEOUT_MS
  /\ Forall succeeded pre
  /\ plain_ident sql_ident = true /\ plain_ident (sandbox_role pg_role) = true.
Proof.
  unfold run_function_call. intros Ht. destruct (valid_sql_ident sql_ident _) eqn:Hv.
  - eapply history_at in Ht; [|apply run_as_agent_wp; intros rest; split; discriminate].
    destruct (Ht args' eq_refl) as (? & ? & ?). apply valid_sql_ident_plain in Hv; [|done].
    destruct (sandbox_role_plain pg_role). done.
  - by destruct pre.
Qed.

Lemma function_call_confined_witness :
  exists post, (run obliging [] (run_function_call sample_fn JNull (Some sample_role))).1
    = take 8 (run obliging [] (run_function_call sample_fn JNull (Some sample_role))).1
      ++ (Spi (function_call_sql sample_fn) [AJson (Some JNull)],
          obliging [] (Spi (function_call_sql sample_fn) [])) :: post
  /\ calls (take 8 (run obliging [] (run_function_call sample_fn JNull (Some sample_role))).1)
     = call_prologue sample_role SQL_STATEMENT_TIMEOUT_MS.
Proof.
  set (t := (run obliging [] (run_function_call sample_fn JNull (Some sample_role))).1).
  exists (drop 9 t).
  assert (Ht : t = take 8 t ++ (Spi (function_call_sql sample_fn) [AJson (Some JNull)],
                                obliging [] (Spi (function_call_sql sample_fn) [])) :: drop 9 t)
    by (vm_compute; reflexivity).
  split; [exact Ht|].
  exact (proj1 (proj2 (function_call_confined sample_fn JNull (Some sample_role) obliging [] _ _ _ _ Ht))).
Defined.
