(* ===== verification/ProcedureExec.v ===== *)
(** * [src/procedure_exec.rs]: building and calling PL/pgSQL procedures

    The counterpart of [FunctionExec.v] with [CALL] and an [INOUT] result; the
    source repeats the control flow of [src/function_exec.rs] with other
    statements, and reuses its [dollar_quote] and [valid_sql_ident]. *)

From S2P Require Import Prelude Utf8 RustStr Json Spi Privilege Sandbox FunctionExec.

Section procedure_exec.
Context `{WorkerEnv}.

Definition claim_procedure_build_jobs (limit : Z) : prog json :=
  claim (str "SELECT allgres_public.fn_claim_procedure_builds($1)") (str "builds") limit.

Definition procedure_ddl (sql_ident quoted_body : bytes) : bytes :=
  str "CREATE OR REPLACE PROCEDURE allgres_functions." ++ sql_ident
  ++ str "(p_args jsonb, INOUT p_result jsonb) LANGUAGE plpgsql SECURITY INVOKER AS "
  ++ quoted_body ++ str ";".

Definition run_procedure_build (nanos : Z) (sql_ident body : bytes) : prog (result unit) :=
  run_build (str "proc_") procedure_ddl nanos sql_ident body.

Definition submit_procedure_build_result (procedure_id : bytes) (outcome : result unit) : prog unit :=
  record
    (str "Allgres: skipping fn_complete_procedure_build for " ++ procedure_id
       ++ str " -- privilege drop failed")
    (str "Allgres: fn_complete_procedure_build failed for " ++ procedure_id ++ str ": ")
    (spi_run (str "SELECT allgres_public.fn_complete_procedure_build($1::uuid, $2, $3)")
       (AStr (Some procedure_id) :: build_completion outcome)).

Definition pump_procedure_builds (clock : nat -> Z) : prog nat :=
  let* claimed := claim_procedure_build_jobs SQL_CLAIM_LIMIT in
  match get_array claimed (str "builds") with
  | None => Ret 0%nat
  | Some builds =>
    pump_builds (str "procedure_id") clock run_procedure_build submit_procedure_build_result 0 builds
  end.

Definition claim_procedure_call_jobs (limit : Z) : prog json :=
  claim (str "SELECT allgres_public.fn_claim_procedure_calls($1)") (str "calls") limit.

Definition procedure_call_sql (sql_ident : bytes) : bytes :=
  str "CALL allgres_functions." ++ sql_ident ++ str "($1::jsonb, '{}'::jsonb)".

Definition run_procedure_call (sql_ident : bytes) (args : json) (pg_role : option bytes)
  : prog (result json) :=
  if negb (valid_sql_ident sql_ident (str "proc_")) then Ret (Err (str "invalid sql_ident"))
  else run_as_agent (sandbox_role pg_role) PROCEDURE_CALL_TIMEOUT_MS
         (str "procedure role unavailable") (procedure_call_sql sql_ident) args.

Definition submit_procedure_call_result (call_id : bytes) (outcome : result json) : prog unit :=
  record
    (str "Allgres: skipping fn_complete_procedure_call for call " ++ call_id
       ++ str " -- privilege drop failed")
    (str "Allgres: fn_complete_procedure_call failed for call " ++ call_id ++ str ": ")
    (spi_get_json (str "SELECT allgres_public.fn_complete_procedure_call($1::uuid, $2, $3, $4)")
       (AStr (Some call_id) :: call_completion outcome)).

Definition pump_procedure_calls : prog nat :=
  let* claimed := claim_procedure_call_jobs SQL_CLAIM_LIMIT in
  match get_array claimed (str "calls") with
  | None => Ret 0%nat
  | Some calls => pump_calls run_procedure_call submit_procedure_call_result 0 calls
  end.
End procedure_exec.

(** What a procedure build sends to the server: the privilege drop, the switch to
    [allgres_function_admin], and, behind both and only where both succeeded, the
    [CREATE OR REPLACE PROCEDURE ... SECURITY INVOKER] statement for [proc_] and 32
    hexadecimal digits, with the body inside its dollar quote. *)
Theorem procedure_build_confined `{WorkerEnv} nanos sql_ident body db h pre sql args r post :
  (run db h (run_procedure_build nanos sql_ident body)).1 = pre ++ (Spi sql args, r) :: post ->
  plain_ident sql_ident = true /\
  exists tag, dollar_quote nanos body = Some (tag, dollar_quoted tag body)
    /\ build_statement (procedure_ddl sql_ident (dollar_quoted tag body)) pre (Spi sql args).
Proof.
  intros Ht. destruct (run_build_at (str "proc_") procedure_ddl nanos sql_ident body db h
                         pre sql args r post Ht) as [Hv Hs]. split; [|exact Hs].
  apply (valid_sql_ident_plain sql_ident (str "proc_")); [reflexivity|exact Hv].
Qed.

#[local] Instance plain_env : WorkerEnv := {| env_drop_privileges := None |}.

Definition sample_proc : bytes := str "proc_0123456789abcdef0123456789abcdef".

Lemma procedure_build_confined_witness :
  plain_ident sample_proc = true /\
  exists tag, dollar_quote 1 (str "BEGIN END") = Some (tag, dollar_quoted tag (str "BEGIN END"))
    /\ build_statement (procedure_ddl sample_proc (dollar_quoted tag (str "BEGIN END")))
         (take 5 (run obliging [] (run_procedure_build 1 sample_proc (str "BEGIN END"))).1)
         (Spi (procedure_ddl sample_proc (dollar_quoted (str "body_1") (str "BEGIN END"))) []).
Proof.
  eapply (procedure_build_confined 1 sample_proc (str "BEGIN END") obliging []).
  vm_compute. reflexivity.
Defined.

(** A procedure runs as the agent or not at all, under the longer timeout: its
    [CALL] is issued with the agent's arguments bound, behind exactly the successful
    privilege drop, role switch, search path and statement timeout and the timer
    armed for [PROCEDURE_CALL_TIMEOUT_MS]. *)
Theorem procedure_call_confined `{WorkerEnv} sql_ident args pg_role db h pre args' r post :
  (run db h (run_procedure_call sql_ident args pg_role)).1
    = pre ++ (Spi (procedure_call_sql sql_ident) args', r) :: post ->
  args' = [AJson (Some args)]
  /\ calls pre = call_prologue (sandbox_role pg_role) PROCEDURE_CALL_TIMEOUT_MS
  /\ Forall succeeded pre
  /\ plain_ident sql_ident = true /\ plain_ident (sandbox_role pg_role) = true.
Proof.
  unfold run_procedure_call. intros Ht. destruct (valid_sql_ident sql_ident _) eqn:Hv.
  - eapply history_at in Ht; [|apply run_as_agent_wp; intros rest; split; discriminate].
    destruct (Ht args' eq_refl) as (? & ? & ?). apply valid_sql_ident_plain in Hv; [|done].
    destruct (sandbox_role_plain pg_role). done.
  - by destruct pre.
Qed.

Lemma procedure_call_confined_witness :
  exists post, (run obliging [] (run_procedure_call sample_proc JNull None)).1
    = take 8 (run obliging [] (run_procedure_call sample_proc JNull None)).1
      ++ (Spi (procedure_call_sql sample_proc) [AJson (Some JNull)],
          obliging [] (Spi (procedure_call_sql sample_proc) [])) :: post
  /\ calls (take 8 (run obliging [] (run_procedure_call sample_proc JNull None)).1)
     = call_prologue (str "sandbox") PROCEDURE_CALL_TIMEOUT_MS.
Proof.
  set (t := (run obliging [] (run_procedure_call sample_proc JNull None)).1).
  exists (drop 9 t).
  assert (Ht : t = take 8 t ++ (Spi (procedure_call_sql sample_proc) [AJson (Some JNull)],
                                obliging [] (Spi (procedure_call_sql sample_proc) [])) :: drop 9 t)
    by (vm_compute; reflexivity).
  split; [exact Ht|].
  exact (proj1 (proj2 (procedure_call_confined sample_proc JNull None obliging [] _ _ _ _ Ht))).
Defined.
