(* ===== verification/LocalWork.v ===== *)
(** * The work the runtime worker does itself

    [pump_sql] of [src/sandbox.rs] and the build and call pumps of [src/function_exec.rs]
    and [src/procedure_exec.rs] are one loop five times: run each claimed item, report
    its outcome.  Here they are stated as such, with what all five promise; and
    the confinement of functions and procedures in one statement each. *)

From S2P Require Import Prelude Utf8 RustStr Json Spi Privilege Sandbox FunctionExec ProcedureExec.

#[local] Arguments str : simpl never.
#[local] Arguments format_radix : simpl never.

Inductive local_work :=
| Sql_calls | Function_builds | Function_calls | Procedure_builds | Procedure_calls.

(** ** The five instances *)

(** What a claimed item asks for, behind its id. *)
Definition job (w : local_work) : Type :=
  match w with
  | Sql_calls => bytes * bytes * option bytes                     (* agent, statement, role *)
  | Function_builds | Procedure_builds => bytes * bytes           (* name, body *)
  | Function_calls | Procedure_calls => bytes * json * option bytes   (* name, arguments, role *)
  end.

Definition outcome_of (w : local_work) : Type :=
  match w with Function_builds | Procedure_builds => result unit | _ => result json end.

(** The statement that reports an outcome, and its arguments behind the id. *)
Definition completion (w : local_work) : bytes :=
  match w with
  | Sql_calls => COMPLETE_SQL
  | Function_builds => str "SELECT allgres_public.fn_complete_function_build($1::uuid, $2, $3)"
  | Function_calls => str "SELECT allgres_public.fn_complete_function_call($1::uuid, $2, $3, $4)"
  | Procedure_builds => str "SELECT allgres_public.fn_complete_procedure_build($1::uuid, $2, $3)"
  | Procedure_calls => str "SELECT allgres_public.fn_complete_procedure_call($1::uuid, $2, $3, $4)"
  end.

Definition report (w : local_work) : outcome_of w -> list arg :=
  match w with
  | Sql_calls => sql_completion
  | Function_builds | Procedure_builds => build_completion
  | Function_calls | Procedure_calls => call_completion
  end.

(** The items a pump runs: those with the fields it needs and well-formed ids. *)
Definition runnable (w : local_work) (item : json) : option (bytes * job w) :=
  match w return option (bytes * job w) with
  | Sql_calls =>
    match get_str item (str "call_id"), get_str item (str "agent_id"), get_str item (str "sql") with
    | Some id, Some agent_id, Some sql =>
      if valid_uuid id && valid_uuid agent_id
      then Some (id, (agent_id, sql, get_str item (str "pg_role"))) else None
    | _, _, _ => None
    end
  | Function_builds =>
    match get_str item (str "function_id"), get_str item (str "sql_ident"), get_str item (str "body") with
    | Some id, Some name, Some body => if valid_uuid id then Some (id, (name, body)) else None
    | _, _, _ => None
    end
  | Procedure_builds =>
    match get_str item (str "procedure_id"), get_str item (str "sql_ident"), get_str item (str "body") with
    | Some id, Some name, Some body => if valid_uuid id then Some (id, (name, body)) else None
    | _, _, _ => None
    end
  | Function_calls | Procedure_calls =>
    match get_str item (str "call_id"), get_str item (str "sql_ident") with
    | Some id, Some name =>
      if valid_uuid id
      then Some (id, (name, default (jobj []) (get item (str "args")), get_str item (str "pg_role")))
      else None
    | _, _ => None
    end
  end.

Section local_work.
Context `{WorkerEnv} (clock : nat -> Z).

(** Running an item; the [n]th build reads the clock for its tag. *)
Definition run_job (w : local_work) (n : nat) : job w -> prog (outcome_of w) :=
  match w with
  | Sql_calls => fun '(agent_id, sql, role) => run_sandboxed_sql agent_id sql role
  | Function_builds => fun '(name, body) => run_function_build (clock n) name body
  | Procedure_builds => fun '(name, body) => run_procedure_build (clock n) name body
  | Function_calls => fun '(name, args, role) => run_function_call name args role
  | Procedure_calls => fun '(name, args, role) => run_procedure_call name args role
  end.

Definition submit (w : local_work) : bytes -> outcome_of w -> prog unit :=
  match w with
  | Sql_calls => submit_sql_result
  | Function_builds => submit_function_build_result
  | Function_calls => submit_function_call_result
  | Procedure_builds => submit_procedure_build_result
  | Procedure_calls => submit_procedure_call_result
  end.

(** The loop of each pump, as the executors have it. *)
Definition pump_loop (w : local_work) : nat -> list json -> prog nat :=
  match w with
  | Sql_calls => pump_sql_calls
  | Function_builds =>
    pump_builds (str "function_id") clock run_function_build submit_function_build_result
  | Function_calls => pump_calls run_function_call submit_function_call_result
  | Procedure_builds =>
    pump_builds (str "procedure_id") clock run_procedure_build submit_procedure_build_result
  | Procedure_calls => pump_calls run_procedure_call submit_procedure_call_result
  end.

(** One turn of any of the loops. *)
Lemma pump_loop_cons w n item rest :
  pump_loop w n (item :: rest) =
  match runnable w item with
  | Some (id, j) =>
    let* o := run_job w n j in submit w id o ;; pump_loop w (S n) rest
  | None => pump_loop w n rest
  end.
Proof.
  destruct w; cbn [pump_loop pump_sql_calls pump_builds pump_calls runnable];
    repeat (case_match; [|done]).
  1: by destruct (valid_uuid _), (valid_uuid _).
  all: by destruct (valid_uuid _).
Qed.

(** ** Running reports nothing; submitting reports once *)

(** The statements that claim calls or builds and those that complete them. *)
Definition control_statement (s : bytes) : bool :=
  starts_with (str "SELECT allgres_public.fn_claim_") s || starts_with (str "SELECT allgres_public.fn_complete_") s.

(** A program that issues none. *)
Definition silent : Monitor :=
  {| mstate := unit; mstep := fun _ _ _ => tt;
     mallowed := fun _ c => match c with Spi s _ => control_statement s = false | _ => True end |}.

Lemma silent_completions sql t :
  control_statement sql = true -> monitored (M := silent) tt t -> completions sql t = [].
Proof.
  intros Hsql. induction t as [|[c r] t IH]; [done|]. intros [Hc Ht]. change ((c, r) :: t) with ([(c, r)] ++ t).
  rewrite completions_app, (IH Ht), app_nil_r. destruct c as [s args| | | | | | | | | | | | |]; try done.
  unfold completions, issued. cbn. destruct (s == ASSUME_WORKER_ROLE); [done|]. cbn.
  rewrite bool_decide_eq_false_2; [done|]. intros ->. simpl in Hc. by rewrite Hsql in Hc.
Qed.

Lemma drop_silent : wp (M := silent) tt drop_privileges (fun o _ => True).
Proof.
  unfold drop_privileges. destruct (env_drop_privileges == _); [done|].
  split; [done|]. by intros [[[[]| | |]|]|e|m].
Qed.

(** The shape of all five runs: guards, then the work. *)
Lemma guarded_silent (guards : prog bool) unavailable (work : prog (result json)) :
  wp (M := silent) tt guards (fun _ _ => True) -> wp (M := silent) tt work (fun _ _ => True) ->
  wp (M := silent) tt
    (transaction (run_in_subtransaction (
       let* dropped := guards in if negb dropped then Ret (Err unavailable) else work)))
    (fun o _ => exists r, o = Returned r).
Proof.
  intros Hg Hw. apply (wp_in_subtransaction_returns (M := silent)); [by intros s []|].
  intros r1 r2 r3. apply (wp_bind (M := silent)).
  eapply (wp_mono (M := silent)); [exact Hg|]. by intros [[]|m] [].
Qed.

Lemma and_then_silent (p r : prog bool) :
  wp (M := silent) tt p (fun _ _ => True) -> wp (M := silent) tt r (fun _ _ => True) ->
  wp (M := silent) tt (and_then p r) (fun _ _ => True).
Proof.
  intros Hp Hr. apply (wp_and_then (M := silent)).
  eapply (wp_mono (M := silent)); [exact Hp|]. by intros [[]|m] [].
Qed.

Lemma spi_run_ok_silent s args : control_statement s = false -> wp (M := silent) tt (spi_run_ok s args) (fun _ _ => True).
Proof. intros Hs. by apply (wp_spi_run_ok (M := silent)). Qed.

Lemma timed_silent ms s args none :
  control_statement s = false -> wp (M := silent) tt (with_statement_timeout ms s args none) (fun _ _ => True).
Proof. intros Hs. split; [done|]. intros r. split; [done|]. by intros [[[]|]| |]. Qed.

#[local] Hint Resolve drop_silent and_then_silent spi_run_ok_silent timed_silent : allgres.
#[local] Hint Extern 1 (control_statement _ = false) => reflexivity : allgres.

Lemma run_build_silent prefix mk_ddl nanos name body :
  (forall b, control_statement (mk_ddl name b) = false) ->
  wp (M := silent) tt (run_build prefix mk_ddl nanos name body) (fun o _ => exists r, o = Returned r).
Proof.
  intros Hd. unfold run_build. destruct (negb _); [by eexists|].
  destruct (dollar_tag_total (length body) body (str "body_" ++ format_radix 16 nanos)) as (k & Hk & _).
  { unfold dollar. rewrite !length_app. simpl. lia. }
  unfold dollar_quote. rewrite Hk. apply (wp_bind (M := silent)).
  eapply (wp_mono (M := silent) _ (fun o _ => exists r, o = Returned r)).
  - apply guarded_silent; [by auto with allgres|]. split; [by apply Hd|]. by intros [].
  - intros o [] [[v|e] ->]; by eexists.
Qed.

Lemma run_as_agent_silent role ms unavailable s args :
  control_statement s = false ->
  wp (M := silent) tt (run_as_agent role ms unavailable s args) (fun o _ => exists r, o = Returned r).
Proof. intros. apply guarded_silent; auto 7 with allgres. Qed.

(** Running an item reports nothing and always returns. *)
Lemma run_job_silent w n j :
  wp (M := silent) tt (run_job w n j) (fun o _ => exists r, o = Returned r).
Proof.
  destruct w; [destruct j as [[agent_id sql] role]|destruct j as [name body]|destruct j as [[name args] role]
              |destruct j as [name body]|destruct j as [[name args] role]]; cbn [run_job].
  - apply guarded_silent; auto 9 with allgres.
  - by apply run_build_silent.
  - unfold run_function_call. destruct (negb _); [by eexists|].
    by apply run_as_agent_silent.
  - by apply run_build_silent.
  - unfold run_procedure_call. destruct (negb _); [by eexists|].
    by apply run_as_agent_silent.
Qed.

Lemma run_job_run db h w n j :
  exists t o, run db h (run_job w n j) = (t, Returned o) /\ completions (completion w) t = [].
Proof.
  destruct (wp_run (M := silent) db _ _ tt h (run_job_silent w n j)) as [Hm [o Ho]].
  destruct (run db h _) as [t r]. simpl in *. subst r. exists t, o. split; [done|].
  apply silent_completions; [by destruct w|done].
Qed.

Lemma submit_run db h w id o :
  let t := (run db h (submit w id o)).1 in
  forallb drop_ok t = true -> completions (completion w) t = [AStr (Some id) :: report w o].
Proof.
  cbv zeta. intros Hd. assert (issued (run db h (submit w id o)).1 = [(completion w, AStr (Some id) :: report w o)]) as Hi.
  { revert Hd. destruct w; apply record_run; try discriminate; intros [[[]|]|e|m]; eauto. }
  unfold completions. rewrite Hi. cbn. by rewrite bool_decide_eq_true_2.
Qed.

(** ** Every claimed item is answered *)

(** [args] reports the item [ij] with what its own run came to, at some point of the
    run [t] that started from [h]. *)
Definition answers (db : server) (h t : trace) (w : local_work) (ij : bytes * job w) (args : list arg) : Prop :=
  exists pre n o, pre `prefix_of` t
    /\ (run db (h ++ pre) (run_job w n ij.2)).2 = Returned o
    /\ args = AStr (Some ij.1) :: report w o.

Lemma answers_shift db h t0 t w ij args :
  answers db (h ++ t0) t w ij args -> answers db h (t0 ++ t) w ij args.
Proof.
  intros (pre & n & o & Hp & Hr & ->). exists (t0 ++ pre), n, o.
  split; [by apply prefix_app|]. by rewrite app_assoc.
Qed.

(** C26: every claimed item is answered, once and with its own outcome.  When one of the
    five pumps gets through the items it claimed, with the privilege drop succeeding
    each time, it has counted the well-formed ones, and the completions it issued
    are, in order, one for each of them, carrying its id and the result of the
    run of its own statement, body or arguments under its own role. *)
Theorem claimed_work_answered db h w n claimed m :
  let r := run db h (pump_loop w n claimed) in
  r.2 = Returned m -> forallb drop_ok r.1 = true ->
  m = (n + length (omap (runnable w) claimed))%nat
  /\ Forall2 (answers db h r.1 w) (omap (runnable w) claimed) (completions (completion w) r.1).
Proof.
  cbv zeta. revert h n. induction claimed as [|item rest IH]; intros h n.
  { destruct w; intros [= <-] _; (split; [simpl; lia|constructor]). }
  rewrite pump_loop_cons. cbn [omap list_omap].
  destruct (runnable w item) as [[id j]|]; [|apply IH]. rewrite run_bind.
  destruct (run_job_run db h w n j) as (t1 & o1 & Hr1 & Hc1). rewrite Hr1.
  rewrite run_bind. pose proof (submit_run db (h ++ t1) w id o1) as Hs. cbv zeta in Hs.
  destruct (run db (h ++ t1) (submit w id o1)) as [t2 [[]|e]]; [|done].
  specialize (IH ((h ++ t1) ++ t2) (S n)).
  destruct (run db ((h ++ t1) ++ t2) (pump_loop w (S n) rest)) as [t3 o3]. cbn [fst snd] in *.
  rewrite !forallb_app, !andb_true_iff. intros Ho (_ & H2 & H3).
  destruct (IH Ho H3) as [-> Hf]. split; [simpl; lia|].
  rewrite !completions_app, Hc1, (Hs H2). cbn [app]. constructor.
  - exists [], n, o1. split; [by apply prefix_nil|]. rewrite app_nil_r. cbn [fst snd]. by rewrite Hr1.
  - eapply Forall2_impl; [|exact Hf]. intros ij args Ha. rewrite app_assoc. apply answers_shift.
    by rewrite <- app_assoc in Ha.
Qed.
End local_work.

#[local] Instance plain_env : WorkerEnv := {| env_drop_privileges := None |}.

(** Two procedure calls, of which the first has no well-formed id. *)
Lemma claimed_work_answered_witness :
  let item id := jobj [(str "call_id", JStr id); (str "sql_ident", JStr sample_proc)] in
  let t := (run obliging [] (pump_loop (fun _ => 0%Z) Procedure_calls 0 [item (str "x"); item sample_agent])).1 in
  exists args, completions (completion Procedure_calls) t = [args]
    /\ answers (fun _ => 0%Z) obliging [] t Procedure_calls (sample_agent, (sample_proc, jobj [], None)) args.
Proof.
  intros item t.
  destruct (claimed_work_answered (fun _ => 0%Z) obliging [] Procedure_calls 0
              [item (str "x"); item sample_agent] 1) as [_ Hf];
    [vm_compute; reflexivity|vm_compute; reflexivity|].
  change (omap (runnable Procedure_calls) [item (str "x"); item sample_agent])
    with [(sample_agent, (sample_proc, jobj [], @None bytes))] in Hf.
  apply Forall2_cons_inv_l in Hf as (args & argss & Ha & Hn & Ht). apply Forall2_nil_inv_l in Hn as ->.
  exists args. split; [exact Ht|exact Ha].
Defined.

(** ** Functions and procedures *)

Inductive routine := Function | Procedure.

Definition routine_prefix (k : routine) : bytes := match k with Function => str "fn_" | Procedure => str "proc_" end.
Definition routine_ddl (k : routine) := match k with Function => function_ddl | Procedure => procedure_ddl end.
Definition routine_call_sql (k : routine) :=
  match k with Function => function_call_sql | Procedure => procedure_call_sql end.
Definition routine_timeout (k : routine) : Z :=
  match k with Function => SQL_STATEMENT_TIMEOUT_MS | Procedure => PROCEDURE_CALL_TIMEOUT_MS end.
Definition run_routine_build `{WorkerEnv} (k : routine) :=
  match k with Function => run_function_build | Procedure => run_procedure_build end.
Definition run_routine_call `{WorkerEnv} (k : routine) :=
  match k with Function => run_function_call | Procedure => run_procedure_call end.

(** C28: what a build sends to the server.  Every statement of the build of a function or
    a procedure is the privilege drop, the switch to [allgres_function_admin], or the
    [CREATE OR REPLACE ... SECURITY INVOKER] statement, issued only after both of the
    others succeeded in the same subtransaction; the name spliced into it is [fn_] or
    [proc_] and 32 hexadecimal digits and the body is inside its dollar quote. *)
Theorem routine_build_confined `{WorkerEnv} k nanos name body db h pre sql args r post :
  (run db h (run_routine_build k nanos name body)).1 = pre ++ (Spi sql args, r) :: post ->
  valid_sql_ident name (routine_prefix k) = true /\ plain_ident name = true /\
  exists tag, dollar_quote nanos body = Some (tag, dollar_quoted tag body)
    /\ build_statement (routine_ddl k name (dollar_quoted tag body)) pre (Spi sql args).
Proof.
  intros Ht. assert (plain_ident (routine_prefix k) = true) as Hp by by destruct k.
  destruct (run_build_at (routine_prefix k) (routine_ddl k) nanos name body db h pre sql args r post)
    as [Hv Hs]; [by destruct k|].
  split; [done|]. split; [by apply (valid_sql_ident_plain name (routine_prefix k))|exact Hs].
Qed.

Lemma routine_build_confined_witness :
  exists tag, dollar_quote 1 (str "BEGIN END") = Some (tag, dollar_quoted tag (str "BEGIN END"))
    /\ build_statement (procedure_ddl sample_proc (dollar_quoted tag (str "BEGIN END")))
         (take 5 (run obliging [] (run_procedure_build 1 sample_proc (str "BEGIN END"))).1)
         (Spi (procedure_ddl sample_proc (dollar_quoted (str "body_1") (str "BEGIN END"))) []).
Proof.
  eapply (routine_build_confined Procedure 1 sample_proc (str "BEGIN END") obliging []).
  vm_compute. reflexivity.
Defined.

(** C29: a function or a procedure runs as the agent or not at all: wherever its call is
    issued, it is issued with the agent's arguments bound, behind exactly the
    successful privilege drop, role switch, search path and statement timeout and the
    timer armed for as long; the role and the name are identifiers without
    quoting.  A procedure gets the longer timeout. *)
Theorem routine_call_confined `{WorkerEnv} k name args role db h pre args' r post :
  (run db h (run_routine_call k name args role)).1 = pre ++ (Spi (routine_call_sql k name) args', r) :: post ->
  args' = [AJson (Some args)]
  /\ calls pre = call_prologue (sandbox_role role) (routine_timeout k)
  /\ Forall succeeded pre
  /\ plain_ident name = true /\ plain_ident (sandbox_role role) = true.
Proof.
  destruct k; [apply function_call_confined|apply procedure_call_confined].
Qed.

Lemma routine_call_confined_witness :
  let t := (run obliging [] (run_procedure_call sample_proc JNull None)).1 in
  calls (take 8 t) = call_prologue (str "sandbox") PROCEDURE_CALL_TIMEOUT_MS /\ length t = 15%nat.
Proof.
  set (t := (run obliging [] (run_procedure_call sample_proc JNull None)).1). cbv zeta.
  assert (Ht : t = take 8 t ++ (Spi (procedure_call_sql sample_proc) [AJson (Some JNull)],
                                obliging [] (Spi (procedure_call_sql sample_proc) [])) :: drop 9 t)
    by (vm_compute; reflexivity).
  split; [|vm_compute; reflexivity].
  exact (proj1 (proj2 (routine_call_confined Procedure sample_proc JNull None obliging [] _ _ _ _ Ht))).
Defined.
