(* ===== verification/Outbound.v ===== *)
(** * [src/outbound.rs]: outbound HTTP

    The address guard against server-side request forgery, cooperative
    cancellation of a running request, the request built for a queued call and the
    thread pool.  The HTTP client ([ureq]), its resolver and its transport are
    parameters. *)

From S2P Require Import Prelude Utf8 RustStr Net Json.

(** ** Blocked addresses *)

Definition is_blocked_ipv4 (o0 o1 o2 o3 : byte) : bool :=
  let a := u8 o0 in let b := u8 o1 in let c := u8 o2 in
  ((a =? 0) || (a =? 10) || (a =? 127)
   || ((a =? 169) && (b =? 254))
   || ((a =? 172) && in_range 16 31 o1)
   || ((a =? 192) && (b =? 168))
   || ((a =? 192) && (b =? 0) && ((c =? 0) || (c =? 2)))
   || ((a =? 198) && ((b =? 18) || (b =? 19)))
   || ((a =? 100) && in_range 64 127 o1)
   || (224 <=? a))%Z.

(** The two octets of a segment. *)
Definition seg_hi (s : Z) : byte := default x00 (Byte.of_N (Z.to_N (s / 256))).
Definition seg_lo (s : Z) : byte := default x00 (Byte.of_N (Z.to_N (s mod 256))).

(** [Ipv6Addr::to_ipv4_mapped]: [::ffff:a.b.c.d]. *)
Definition to_ipv4_mapped (s : list Z) : option (byte * byte * byte * byte) :=
  match s with
  | [s0; s1; s2; s3; s4; s5; ab; cd] =>
    if ((s0 =? 0) && (s1 =? 0) && (s2 =? 0) && (s3 =? 0) && (s4 =? 0) && (s5 =? 65535))%Z
    then Some (seg_hi ab, seg_lo ab, seg_hi cd, seg_lo cd) else None
  | _ => None
  end.

Definition is_blocked_ip (ip : IpAddr) : bool :=
  match ip with
  | V4 a b c d => is_blocked_ipv4 a b c d
  | V6 s =>
    match to_ipv4_mapped s with
    | Some (a, b, c, d) => is_blocked_ipv4 a b c d
    | None =>
      if (s == [0; 0; 0; 0; 0; 0; 0; 1]%Z) || (s == [0; 0; 0; 0; 0; 0; 0; 0]%Z) then true
      else
        let first := default 0%Z (head s) in
        ((Z.land first 65024 =? 64512) || (Z.land first 65472 =? 65152))%Z
    end
  end.

(** ** The guarded resolver *)

(** [ureq::Error], as far as the code distinguishes it. *)
Inductive error :=
| HostNotFound
| Timeout
| Cancelled            (* Io(ConnectionAborted, "cancelled by operator") *)
| Other (text : bytes).

Record SocketAddr := mk_addr { ip : IpAddr; port : Z }.

(** [GuardedResolver::resolve], on the answer of the default resolver. *)
Definition resolve (allow_private : bool) (inner : error + list SocketAddr) : error + list SocketAddr :=
  match inner with
  | inl e => inl e
  | inr addrs =>
    if negb allow_private && existsb (fun a => is_blocked_ip (ip a)) addrs
    then inl HostNotFound else inr addrs
  end.

(** ** Cancellation flags: [OUTBOUND_CANCEL_FLAGS] *)

(** The shared map from call ids to flags.  A flag is an [Arc<AtomicBool>]: the map
    and the running call hold the same cell of [cells]. *)
Record Flags := mk_flags {
  by_call : gmap bytes nat;
  cells : gmap nat bool;
  next_cell : nat
}.

Definition OUTBOUND_CANCEL_FLAGS_init : Flags := mk_flags ∅ ∅ 0.

Record CancelGuard := mk_guard { call_id : bytes; flag : nat }.

Definition register (fl : Flags) (id : bytes) : Flags * CancelGuard :=
  let l := next_cell fl in
  (mk_flags (<[id := l]> (by_call fl)) (<[l := false]> (cells fl)) (S l), mk_guard id l).

(** [Drop for CancelGuard]. *)
Definition drop_guard (fl : Flags) (g : CancelGuard) : Flags :=
  mk_flags (delete (call_id g) (by_call fl)) (cells fl) (next_cell fl).

(** [self.cancel.load(Ordering::Relaxed)] *)
Definition is_cancelled (fl : Flags) (g : CancelGuard) : bool := default false (cells fl !! flag g).

(** The loop of [propagate_outbound_cancellations] that sets the flags of the lost
    calls. *)
Fixpoint set_flags (fl : Flags) (lost : list bytes) : Flags :=
  match lost with
  | [] => fl
  | id :: rest =>
    set_flags (match by_call fl !! id with
               | Some l => mk_flags (by_call fl) (<[l := true]> (cells fl)) (next_cell fl)
               | None => fl
               end) rest
  end.

(** ** Waiting on the transport: [CancellableTransport] *)

(** What the rest of ureq asks a transport without waiting; what it is asked to wait for
    is in the turns below. *)
Class Transport (T : Type) := {
  can_use_input : T -> bool;            (* [self.buffers().can_use_input()] *)
  is_open : T -> bool;
  is_tls : T -> bool
}.

(** The client's transport with the flag of the call it is made for. *)
Record CancellableTransport (T : Type) := mk_cancellable { inner : T; cancel : nat }.
Arguments mk_cancellable {T}.
Arguments inner {T}.
Arguments cancel {T}.

(** [CancellableConnector::connect], from what the client's own connector answers. *)
Definition connect {T} (cancel : nat) (inner : error + option T)
  : error + option (CancellableTransport T) :=
  match inner with
  | inl e => inl e
  | inr (Some t) => inr (Some (mk_cancellable t cancel))
  | inr None => inr None
  end.

Definition cancellable_transport `{Transport T} : Transport (CancellableTransport T) := {|
  can_use_input t := can_use_input (inner t);
  is_open t := is_open (inner t);
  is_tls t := is_tls (inner t)
|}.
#[export] Existing Instance cancellable_transport.

(** [self.cancel.load(Ordering::Relaxed)], as [check_cancelled] does. *)
Definition check_cancelled {T} (fl : Flags) (t : CancellableTransport T) : error + unit :=
  if default false (cells fl !! cancel t) then inl Cancelled else inr tt.

Definition CANCEL_POLL_INTERVAL : Z := from_millis 150.

(** [Instant + Duration]: seconds are an [i64], and an overflow panics. *)
Definition instant_add (now after : Z) : option Z :=
  if ((now + after) / 1000000000 <=? i64_max)%Z then Some (now + after)%Z else None.

(** One turn of the loop: the flag it loads, the clock it reads, and what the inner
    transport answers if asked. *)
Record turn (A : Type) := mk_turn { t_cancel : bool; t_now : Z; t_inner : error + A }.
Arguments mk_turn {A}.
Arguments t_cancel {A}.
Arguments t_now {A}.
Arguments t_inner {A}.

(** [Self::sliced(remaining, reason)] *)
Definition sliced (remaining : Z) : Z := Z.min remaining CANCEL_POLL_INTERVAL.

(** The loop of [transmit_output] and [await_input], which differ in the answers
    ([again]) that make them go on: the timeouts handed to the inner transport, and
    the result, [None] while it still waits. *)
Fixpoint wait_loop {A} (again : error + A -> bool) (deadline after : Z) (turns : list (turn A))
  : list Z * option (error + A) :=
  match turns with
  | [] => ([], None)
  | t :: rest =>
    if t_cancel t then ([], Some (inl Cancelled))
    else
      let remaining := duration_since deadline (t_now t) in
      if (remaining =? 0)%Z then ([after], Some (t_inner t))
      else if again (t_inner t) then
        let (ws, o) := wait_loop again deadline after rest in (sliced remaining :: ws, o)
      else ([sliced remaining], Some (t_inner t))
  end.

Definition transmit_again (r : error + unit) : bool :=
  match r with inl Timeout => true | _ => false end.

Definition await_again (r : error + bool) : bool :=
  match r with inl Timeout => true | inr false => true | _ => false end.

(** [None] where computing the deadline panics. *)
Definition transmit_output (now after : Z) (turns : list (turn unit))
  : option (list Z * option (error + unit)) :=
  (fun deadline => wait_loop transmit_again deadline after turns) <$> instant_add now after.

Definition await_input (now after : Z) (turns : list (turn bool))
  : option (list Z * option (error + bool)) :=
  (fun deadline => wait_loop await_again deadline after turns) <$> instant_add now after.

Definition maybe_await_input `{Transport T} (t : CancellableTransport T) (now after : Z) (turns : list (turn bool))
  : option (list Z * option (error + bool)) :=
  if can_use_input t then Some ([], Some (inr true)) else await_input now after turns.

(** ** Requests *)

Definition MAX_RESPONSE_BYTES : nat := N.to_nat 200000.

Inductive payload :=
| NoBody
| JsonBody (v : json)
| FormBody (fields : list (bytes * bytes)).

Record http_request := mk_http_request {
  rq_method : bytes;
  rq_url : bytes;
  rq_headers : list (bytes * bytes);
  rq_payload : payload
}.

(** A response; [None] where reading its body as text fails. *)
Record http_response := mk_response { rs_status : Z; rs_text : option bytes }.

Definition resolver := (error + list SocketAddr) -> error + list SocketAddr.

(** The HTTP client: the addresses a request connects to and what it yields, given
    the resolver it was built with ([ureq::Agent::with_parts]; no redirects), and the
    text of an error. *)
Class HttpClient := {
  http_send : resolver -> http_request -> list SocketAddr * (error + http_response);
  error_text : error -> bytes
}.

(** The client connects only to what its resolver returned. *)
Class HttpClientLaws (C : HttpClient) := {
  dials_resolved : forall res rq a,
    a ∈ (http_send res rq).1 -> exists inner addrs, res inner = inr addrs /\ a ∈ addrs
}.

(** [for (k, v) in h { if let Some(s) = v.as_str() { req = req.header(k, s) } }] *)
Definition string_fields (h : option (list (bytes * json))) : list (bytes * bytes) :=
  filter_map (fun kv => (fun s => (kv.1, s)) <$> as_str kv.2) (default [] h).

Definition scheme_allowed (url : bytes) : bool :=
  let lowered := to_ascii_lowercase url in
  starts_with (str "http://") lowered || starts_with (str "https://") lowered.

(** The request of a [function] call. *)
Definition function_request (url : bytes) (call : json) (hs : list (bytes * bytes)) (body : json)
  : http_request :=
  let method := to_ascii_uppercase (default (str "GET") (get_str call (str "method"))) in
  if (method == str "POST") || (method == str "PUT") || (method == str "PATCH")
  then mk_http_request method url hs (JsonBody body)
  else mk_http_request (if method == str "DELETE" then str "DELETE" else str "GET") url hs NoBody.

Definition oauth_headers (hs : option (list (bytes * json))) : list (bytes * bytes) :=
  string_fields (List.filter (fun kv => negb (eq_ignore_ascii_case kv.1 (str "content-type")))
                   <$> hs).

(** The request [perform_http] sends for a call. *)
Definition outbound_request (url : bytes) (call : json) : http_request :=
  let kind := default (str "llm") (get_str call (str "kind")) in
  let headers := get call (str "headers") ≫= as_object in
  let body := default (jobj []) (get call (str "body")) in
  if kind == str "function" then function_request url call (string_fields headers) body
  else if kind == str "oauth" then
    mk_http_request (str "POST") url (oauth_headers headers) (FormBody (string_fields (as_object body)))
  else mk_http_request (str "POST") url (string_fields headers) (JsonBody body).

Section perform.
Context `{HttpClient}.

(** [match outcome { Ok(r) => .., Err(e) => (0, e.to_string()) }] *)
Definition http_outcome (o : error + http_response) : Z * bytes :=
  match o with
  | inr r => (rs_status r, truncate_utf8 (default [] (rs_text r)) MAX_RESPONSE_BYTES)
  | inl e => (0%Z, error_text e)
  end.

(** What [perform_http] does between registering and dropping its guard: the
    addresses it connects to, and its result. *)
Definition perform_call (call : json) : list SocketAddr * (Z * bytes) :=
  match get_str call (str "url") with
  | None => ([], (0%Z, str "missing outbound URL"))
  | Some url =>
    if negb (scheme_allowed url) then ([], (0%Z, str "outbound URL scheme not allowed"))
    else
      let allow_private := default false (get_bool call (str "allow_private")) in
      let (dialed, o) := http_send (resolve allow_private) (outbound_request url call) in
      (dialed, http_outcome o)
  end.

Definition perform_http (fl : Flags) (id : bytes) (call : json) : Flags * (Z * bytes) :=
  let (fl', guard) := register fl id in
  (drop_guard fl' guard, (perform_call call).2).

Definition guarded_post_json (url : bytes) (headers : option (list (bytes * json))) (body : json)
    (allow_private : bool) : list SocketAddr * (Z * bytes) :=
  if negb (scheme_allowed url) then ([], (0%Z, str "outbound URL scheme not allowed"))
  else
    let (dialed, o) := http_send (resolve allow_private)
      (mk_http_request (str "POST") url (string_fields headers) (JsonBody body)) in
    (dialed, http_outcome o).

(** [allgres.native_llm_http_send] of [src/lib.rs]. *)
Definition native_llm_http_send (url : bytes) (headers body : json) (allow_private : bool) : json :=
  let '(_, (status, resp_body)) := guarded_post_json url (as_object headers) body allow_private in
  jobj [(str "status", JInt status); (str "body", JStr resp_body)].
End perform.

(** ** Jobs and results *)

Inductive OutboundQueue := Outbound | Oauth | AgentEmbedding | ProviderProbe.

#[export] Instance OutboundQueue_eq_dec : EqDecision OutboundQueue.
Proof. solve_decision. Defined.

Record OutboundJob := mk_job { j_id : bytes; j_queue : OutboundQueue; j_call : json }.

Record OutboundResult := mk_result {
  r_id : bytes; r_queue : OutboundQueue; r_status : Z; r_body : bytes
}.

(** ** The address guard, as address ranges *)

(** An IPv4 address as a 32-bit number. *)
Definition v4_value (o0 o1 o2 o3 : byte) : Z :=
  (u8 o0 * 2 ^ 24 + u8 o1 * 2 ^ 16 + u8 o2 * 2 ^ 8 + u8 o3)%Z.

(** An IPv6 address as a 128-bit number. *)
Definition v6_value (s : list Z) : Z := fold_left (fun v x => v * 65536 + x)%Z s 0%Z.

(** [value] lies in the block of addresses that share the first [len] of [width] bits
    with [base]. *)
Definition in_cidr (width : Z) (value : Z) (block : Z * Z) : bool :=
  let (base, len) := block in (value / 2 ^ (width - len) =? base / 2 ^ (width - len))%Z.

Definition v4_block (a b c d len : Z) : Z * Z := ((a * 2 ^ 24 + b * 2 ^ 16 + c * 2 ^ 8 + d)%Z, len).

(** The ranges [allgres_private.is_blocked_host] lists. *)
Definition blocked_v4_blocks : list (Z * Z) :=
  [v4_block 0 0 0 0 8; v4_block 10 0 0 0 8; v4_block 127 0 0 0 8; v4_block 169 254 0 0 16;
   v4_block 172 16 0 0 12; v4_block 192 168 0 0 16; v4_block 192 0 0 0 24; v4_block 192 0 2 0 24;
   v4_block 198 18 0 0 15; v4_block 100 64 0 0 10; v4_block 224 0 0 0 3].

(** [::1/128], [::/128], [fc00::/7] and [fe80::/10]. *)
Definition blocked_v6_blocks : list (Z * Z) :=
  [(1, 128); (0, 128); (64512 * 2 ^ 112, 7); (65152 * 2 ^ 112, 10)]%Z.

(** [::ffff:0:0/96]. *)
Definition mapped_block : Z * Z := (65535 * 2 ^ 32, 96)%Z.

Definition blocked_by_ranges (ip : IpAddr) : bool :=
  match ip with
  | V4 a b c d => existsb (in_cidr 32 (v4_value a b c d)) blocked_v4_blocks
  | V6 s =>
    if in_cidr 128 (v6_value s) mapped_block
    then existsb (in_cidr 32 (v6_value s mod 2 ^ 32)) blocked_v4_blocks
    else existsb (in_cidr 128 (v6_value s)) blocked_v6_blocks
  end.

Lemma in_cidr_iff width value base len :
  in_cidr width value (base, len) = true <-> (value / 2 ^ (width - len) = base / 2 ^ (width - len))%Z.
Proof. apply Z.eqb_eq. Qed.

(** Division of an address by the size of a block of 8, 16, 24 and 32 bits. *)
Lemma octets_div a b c d :
  (0 <= a < 256)%Z -> (0 <= b < 256)%Z -> (0 <= c < 256)%Z -> (0 <= d < 256)%Z ->
  let v := (a * 2 ^ 24 + b * 2 ^ 16 + c * 2 ^ 8 + d)%Z in
  (v / 2 ^ 24 = a /\ v / 2 ^ 16 = a * 256 + b /\ v / 2 ^ 8 = a * 65536 + b * 256 + c)%Z.
Proof.
  intros. cbv zeta. split_and!; symmetry.
  - apply Z.div_unique with (r := (b * 2 ^ 16 + c * 2 ^ 8 + d)%Z); lia.
  - apply Z.div_unique with (r := (c * 2 ^ 8 + d)%Z); lia.
  - apply Z.div_unique with (r := d); lia.
Qed.

Lemma div_eq a n q : (0 < n)%Z -> (a / n = q <-> q * n <= a < (q + 1) * n)%Z.
Proof.
  intros Hn. split.
  - intros <-. pose proof (Z.div_mod a n). pose proof (Z.mod_pos_bound a n). nia.
  - intros H. symmetry. apply Z.div_unique with (r := (a - q * n)%Z); nia.
Qed.

Lemma blocked_v4_ranges a b c d :
  is_blocked_ipv4 a b c d = existsb (in_cidr 32 (v4_value a b c d)) blocked_v4_blocks.
Proof.
  apply eq_true_iff_eq. unfold is_blocked_ipv4, blocked_v4_blocks, v4_block. cbn [existsb].
  rewrite !orb_true_iff, !andb_true_iff, !orb_true_iff, !in_range_spec, !in_cidr_iff.
  rewrite !Z.eqb_eq, Z.leb_le. unfold v4_value.
  destruct (octets_div (u8 a) (u8 b) (u8 c) (u8 d)) as (H1 & H2 & H3); try apply u8_range.
  set (v := (u8 a * 2 ^ 24 + u8 b * 2 ^ 16 + u8 c * 2 ^ 8 + u8 d)%Z) in *.
  change (2 ^ (32 - 8))%Z with (2 ^ 24)%Z. change (2 ^ (32 - 16))%Z with (2 ^ 16)%Z.
  change (2 ^ (32 - 24))%Z with (2 ^ 8)%Z. change (2 ^ (32 - 12))%Z with (2 ^ 16 * 16)%Z.
  change (2 ^ (32 - 15))%Z with (2 ^ 16 * 2)%Z. change (2 ^ (32 - 10))%Z with (2 ^ 16 * 64)%Z.
  change (2 ^ (32 - 3))%Z with (2 ^ 24 * 32)%Z.
  rewrite <- !(Z.div_div v) by lia. rewrite H1, H2, H3.
  repeat match goal with
  | |- context [((?x * 2 ^ 24 + ?y * 2 ^ 16 + ?z * 2 ^ 8 + ?w) / ?n)%Z] =>
    let r := eval vm_compute in ((x * 2 ^ 24 + y * 2 ^ 16 + z * 2 ^ 8 + w) / n)%Z in
    change ((x * 2 ^ 24 + y * 2 ^ 16 + z * 2 ^ 8 + w) / n)%Z with r
  end.
  pose proof (u8_range a) as Ha. pose proof (u8_range b) as Hb. pose proof (u8_range c) as Hc.
  clear H1 H2 H3 v. clear d. generalize dependent (u8 a). generalize dependent (u8 b).
  generalize dependent (u8 c). clear a b c. intros c Hc b Hb a Ha.
  assert (forall x y, 0 <= y < 256 -> a * 256 + b = x * 256 + y <-> a = x /\ b = y)%Z as E2 by lia.
  assert (forall x y z, 0 <= y < 256 -> 0 <= z < 256 ->
    a * 65536 + b * 256 + c = x * 65536 + y * 256 + z <-> a = x /\ b = y /\ c = z)%Z as E3 by lia.
  rewrite !div_eq by lia.
  rewrite (E2 169 254)%Z, (E2 192 168)%Z, (E3 192 0 0)%Z, (E3 192 0 2)%Z by lia.
  assert (2753 * 16 <= a * 256 + b < (2753 + 1) * 16 <-> a = 172 /\ 16 <= b <= 31)%Z as -> by lia.
  assert (25353 * 2 <= a * 256 + b < (25353 + 1) * 2 <-> a = 198 /\ (b = 18 \/ b = 19))%Z as -> by lia.
  assert (401 * 64 <= a * 256 + b < (401 + 1) * 64 <-> a = 100 /\ 64 <= b <= 127)%Z as -> by lia.
  assert (7 * 32 <= a < (7 + 1) * 32 <-> 224 <= a)%Z as -> by lia.
  split; intros; intuition (try discriminate).
Qed.

(** A mask of the leading bits of a segment selects its quotient. *)
Lemma land_leading x k n :
  (0 <= k)%Z -> (0 <= n)%Z -> (0 <= x < 2 ^ (k + n))%Z ->
  Z.land x (Z.shiftl (Z.ones k) n) = (x / 2 ^ n * 2 ^ n)%Z.
Proof.
  intros Hk Hn Hx. rewrite <- Z.shiftr_div_pow2, <- Z.shiftl_mul_pow2 by done.
  assert (Z.shiftr x n = Z.land (Z.shiftr x n) (Z.ones k)) as Hs.
  { rewrite Z.land_ones by done. symmetry. apply Z.mod_small. rewrite Z.shiftr_div_pow2 by done.
    rewrite Z.pow_add_r in Hx by done. split; [apply Z.div_pos; lia|].
    apply Z.div_lt_upper_bound; lia. }
  apply Z.bits_inj'. intros m Hm. rewrite Z.land_spec.
  destruct (Z.lt_ge_cases m n) as [Hmn|Hmn].
  - by rewrite !Z.shiftl_spec_low, andb_false_r by done.
  - rewrite !Z.shiftl_spec by done. rewrite Hs, Z.land_spec, Z.shiftr_spec by lia.
    by replace (m - n + n)%Z with m by lia.
Qed.

Lemma mask7 x : (0 <= x < 65536)%Z -> (Z.land x 65024 =? 64512)%Z = (x / 512 =? 126)%Z.
Proof.
  intros Hx. change 65024%Z with (Z.shiftl (Z.ones 7) 9). rewrite (land_leading x 7 9) by (simpl; lia). change (2 ^ 9)%Z with 512%Z.
  apply eq_true_iff_eq. rewrite !Z.eqb_eq. lia.
Qed.

Lemma mask10 x : (0 <= x < 65536)%Z -> (Z.land x 65472 =? 65152)%Z = (x / 64 =? 1018)%Z.
Proof.
  intros Hx. change 65472%Z with (Z.shiftl (Z.ones 10) 6). rewrite (land_leading x 10 6) by (simpl; lia). change (2 ^ 6)%Z with 64%Z.
  apply eq_true_iff_eq. rewrite !Z.eqb_eq. lia.
Qed.

Lemma segment_octets x :
  (0 <= x < 65536)%Z -> u8 (seg_hi x) = (x / 256)%Z /\ u8 (seg_lo x) = (x mod 256)%Z.
Proof.
  assert (forall y, (0 <= y < 256)%Z -> u8 (default x00 (Byte.of_N (Z.to_N y))) = y) as Hb.
  { intros y Hy. destruct (Byte.of_N (Z.to_N y)) as [b|] eqn:Hb; simpl.
    - apply Byte.to_of_N in Hb. unfold u8. rewrite Hb. lia.
    - apply Byte.of_N_None_iff in Hb. lia. }
  intros Hx. split; apply Hb; [|apply Z.mod_pos_bound; lia].
  split; [apply Z.div_pos; lia|apply Z.div_lt_upper_bound; lia].
Qed.

(** The eight segments of a well-formed address. *)
Lemma wf_v6 s :
  wf_ip (V6 s) = true ->
  exists s0 s1 s2 s3 s4 s5 s6 s7, s = [s0; s1; s2; s3; s4; s5; s6; s7]
    /\ Forall (fun x => 0 <= x < 65536)%Z s.
Proof.
  simpl. intros [Hl Hs]%andb_true_iff. apply Nat.eqb_eq in Hl.
  do 8 (destruct s as [|? s]; [discriminate Hl|]). destruct s; [|discriminate Hl].
  do 8 eexists. split; [done|]. apply forallb_Forall in Hs.
  eapply Forall_impl; [|exact Hs]. intros x Hx. simpl in Hx. breflect. lia.
Qed.

Lemma v6_quotients s0 s1 s2 s3 s4 s5 s6 s7 :
  Forall (fun x => 0 <= x < 65536)%Z [s0; s1; s2; s3; s4; s5; s6; s7] ->
  let v := v6_value [s0; s1; s2; s3; s4; s5; s6; s7] in
  (v / 2 ^ 112 = s0 /\ v mod 2 ^ 32 = s6 * 65536 + s7
   /\ v / 2 ^ 32 = s0 * 2 ^ 80 + s1 * 2 ^ 64 + s2 * 2 ^ 48 + s3 * 2 ^ 32 + s4 * 2 ^ 16 + s5)%Z.
Proof.
  rewrite !Forall_cons_iff. intros (? & ? & ? & ? & ? & ? & ? & ? & _). cbv zeta.
  unfold v6_value. simpl fold_left. split_and!; symmetry.
  - apply Z.div_unique with
      (r := (s1 * 2 ^ 96 + s2 * 2 ^ 80 + s3 * 2 ^ 64 + s4 * 2 ^ 48 + s5 * 2 ^ 32 + s6 * 2 ^ 16 + s7)%Z); lia.
  - apply Z.mod_unique with
      (q := (s0 * 2 ^ 80 + s1 * 2 ^ 64 + s2 * 2 ^ 48 + s3 * 2 ^ 32 + s4 * 2 ^ 16 + s5)%Z); lia.
  - apply Z.div_unique with (r := (s6 * 65536 + s7)%Z); lia.
Qed.

(** Segments are the digits of the value. *)
Lemma v6_value_inj s0 s1 s2 s3 s4 s5 s6 s7 k :
  Forall (fun x => 0 <= x < 65536)%Z [s0; s1; s2; s3; s4; s5; s6; s7] -> (0 <= k < 65536)%Z ->
  bool_decide ([s0; s1; s2; s3; s4; s5; s6; s7] = [0; 0; 0; 0; 0; 0; 0; k]%Z)
  = (v6_value [s0; s1; s2; s3; s4; s5; s6; s7] =? k)%Z.
Proof.
  rewrite !Forall_cons_iff. intros (? & ? & ? & ? & ? & ? & ? & ? & _) Hk.
  apply eq_true_iff_eq. rewrite bool_decide_eq_true, Z.eqb_eq. unfold v6_value. simpl fold_left.
  split; [intros; simplify_eq; lia|]. intros Hv.
  assert (s0 = 0 /\ s1 = 0 /\ s2 = 0 /\ s3 = 0 /\ s4 = 0 /\ s5 = 0 /\ s6 = 0 /\ s7 = k)%Z by lia.
  by destruct_and!; subst.
Qed.

(** C38: the guard is a list of address blocks.  [is_blocked_ip] answers yes exactly
    for the addresses in the blocks the comments of [outbound.rs] name: for IPv4 the
    eleven blocks, for IPv6 the loopback and the unspecified address, [fc00::/7] and
    [fe80::/10], and for an IPv4-mapped IPv6 address the blocks of the address it maps.
    An IPv4-compatible address ([::a.b.c.d]) is in none of them but for [::] and [::1];
    [HostCheck.v] compares the guard with the check in the control plane, which blocks
    more of those. *)
Theorem is_blocked_ip_ranges ip : wf_ip ip = true -> is_blocked_ip ip = blocked_by_ranges ip.
Proof.
  destruct ip as [a b c d|s]; intros Hwf; [apply blocked_v4_ranges|].
  apply wf_v6 in Hwf as (s0 & s1 & s2 & s3 & s4 & s5 & s6 & s7 & -> & Hs).
  destruct (v6_quotients _ _ _ _ _ _ _ _ Hs) as (H0 & H6 & H5).
  pose proof Hs as Hs'. rewrite !Forall_cons_iff in Hs'.
  destruct Hs' as (? & ? & ? & ? & ? & ? & ? & ? & _).
  set (s := [s0; s1; s2; s3; s4; s5; s6; s7]) in *.
  unfold is_blocked_ip, blocked_by_ranges.
  assert (in_cidr 128 (v6_value s) mapped_block =
    ((s0 =? 0) && (s1 =? 0) && (s2 =? 0) && (s3 =? 0) && (s4 =? 0) && (s5 =? 65535))%Z) as ->.
  { apply eq_true_iff_eq. unfold mapped_block. rewrite in_cidr_iff.
    change (128 - 96)%Z with 32%Z. rewrite H5, Z.div_mul by lia.
    rewrite !andb_true_iff, !Z.eqb_eq. lia. }
  cbn [to_ipv4_mapped s]. destruct (_ && _ && _ && _ && _ && _)%Z eqn:Hm.
  - rewrite blocked_v4_ranges, H6. f_equal. unfold v4_value.
    destruct (segment_octets s6) as [-> ->]; [done|]. destruct (segment_octets s7) as [-> ->]; [done|].
    f_equal. pose proof (Z.div_mod s6 256). pose proof (Z.div_mod s7 256). lia.
  - assert (existsb (in_cidr 128 (v6_value s)) blocked_v6_blocks
            = ((v6_value s =? 1) || (v6_value s =? 0) || (s0 / 512 =? 126) || (s0 / 64 =? 1018))%Z) as ->.
    { unfold blocked_v6_blocks, in_cidr. cbn [existsb]. rewrite orb_false_r, !orb_assoc.
      change (128 - 128)%Z with 0%Z. rewrite !Z.div_1_r.
      change (2 ^ (128 - 7))%Z with (2 ^ 112 * 512)%Z. change (2 ^ (128 - 10))%Z with (2 ^ 112 * 64)%Z.
      rewrite <- !(Z.div_div (v6_value s)), H0 by lia. done. }
    rewrite mask7, mask10 by done. cbn [head s default].
    assert (bool_decide (s = [0; 0; 0; 0; 0; 0; 0; 1]%Z) = (v6_value s =? 1)%Z) as ->
      by (apply v6_value_inj; done).
    assert (bool_decide (s = [0; 0; 0; 0; 0; 0; 0; 0]%Z) = (v6_value s =? 0)%Z) as ->
      by (apply v6_value_inj; done).
    by destruct (v6_value s =? 1)%Z, (v6_value s =? 0)%Z.
Qed.

Lemma is_blocked_ip_ranges_witness :
  is_blocked_ip (V6 [0; 0; 0; 0; 0; 65535; 43518; 43518]%Z) = true.
Proof.
  rewrite is_blocked_ip_ranges by reflexivity. vm_compute. reflexivity.
Defined.

(** ** No request reaches a blocked address *)

Lemma resolve_unblocked inner addrs a :
  resolve false inner = inr addrs -> a ∈ addrs -> is_blocked_ip (ip a) = false.
Proof.
  unfold resolve. destruct inner as [e|l]; [done|]. simpl. intros Hr Ha.
  destruct (existsb _ l) eqn:He; [done|]. simplify_eq.
  destruct (is_blocked_ip (ip a)) eqn:Hb; [|done].
  apply not_true_iff_false in He. exfalso. apply He, existsb_exists. exists a.
  split; [by apply list_elem_of_In|done].
Qed.

(** No server-side request forgery.  Whatever name a queued call's URL carries
    and whatever the resolver answers for it, unless the call was queued with
    [allow_private] set, every address the request connects to lies outside the
    blocked ranges; and a call whose URL is no [http] or [https] URL connects to
    nothing. *)
Theorem perform_call_never_dials_blocked `{C : HttpClient} `{!HttpClientLaws C} call a :
  a ∈ (perform_call call).1 ->
  (exists url, get_str call (str "url") = Some url /\ scheme_allowed url = true)
  /\ (get_bool call (str "allow_private") <> Some true -> is_blocked_ip (ip a) = false).
Proof.
  unfold perform_call. destruct (get_str call (str "url")) as [url|]; [|by intros ?%not_elem_of_nil].
  destruct (scheme_allowed url) eqn:Hs; simpl; [|by intros ?%not_elem_of_nil].
  destruct (http_send _ _) as [dialed o] eqn:Hd. simpl. intros Ha. split; [by exists url|].
  intros Hp. assert (default false (get_bool call (str "allow_private")) = false) as Hf.
  { by destruct (get_bool call (str "allow_private")) as [[]|]. }
  rewrite Hf in Hd. pose proof (dials_resolved (resolve false) (outbound_request url call) a) as Hl.
  rewrite Hd in Hl. destruct (Hl Ha) as (inner & addrs & Hr & Hin). by eapply resolve_unblocked.
Qed.

(** A client of a network in which every name has one public and one private
    address: it dials what the resolver lets through. *)
Definition rebinding_answer : error + list SocketAddr :=
  inr [mk_addr (V4 x08 x08 x08 x08) 443].

Definition sample_client : HttpClient :=
  {| http_send := fun res rq =>
       match res rebinding_answer with
       | inr addrs => (addrs, inr (mk_response 200 (Some (str "ok"))))
       | inl e => ([], inl e)
       end;
     error_text := fun _ => str "error" |}.

#[export] Instance sample_client_laws : HttpClientLaws sample_client.
Proof.
  constructor. intros res rq a. simpl. destruct (res rebinding_answer) as [e|addrs] eqn:Hr.
  - by intros ?%not_elem_of_nil.
  - intros Ha. by exists rebinding_answer, addrs.
Qed.

Definition sample_call : json := jobj [(str "url", JStr (str "https://api.example.com/v1"))].

Lemma perform_call_never_dials_blocked_witness :
  is_blocked_ip (ip (mk_addr (V4 x08 x08 x08 x08) 443)) = false.
Proof.
  apply (perform_call_never_dials_blocked (C := sample_client) sample_call).
  - vm_compute. left.
  - vm_compute. discriminate.
Defined.

(** ** Waiting *)

Section waiting.
Context {A : Type} (again : error + A -> bool).

(** The clock of the turns: a turn that is repeated used up the wait it was given. *)
Fixpoint paced (deadline : Z) (turns : list (turn A)) : Prop :=
  match turns with
  | t :: (t' :: _) as rest =>
    (t_now t + sliced (duration_since deadline (t_now t)) <= t_now t')%Z /\ paced deadline rest
  | _ => True
  end.

(** The wait asked for at each turn: what is left of the timeout, cut to one poll
    interval; the caller's own timeout only where nothing is left, and then for the last
    time. *)
Lemma wait_loop_waits deadline after turns : forall k w,
  (wait_loop again deadline after turns).1 !! k = Some w ->
  exists t, turns !! k = Some t /\ t_cancel t = false
    /\ ((t_now t < deadline)%Z /\ w = Z.min (deadline - t_now t) CANCEL_POLL_INTERVAL
        \/ (deadline <= t_now t)%Z /\ w = after /\ length (wait_loop again deadline after turns).1 = S k).
Proof.
  induction turns as [|t rest IH]; intros k w; simpl; [done|].
  destruct (t_cancel t) eqn:Hc; [done|].
  destruct (duration_since deadline (t_now t) =? 0)%Z eqn:Hz; breflect; unfold duration_since in Hz.
  { destruct k as [|k]; [|done]. intros [= <-]. exists t. split; [done|]. split; [done|]. right. split; [lia|done]. }
  assert (exists t0, (t :: rest) !! 0 = Some t0 /\ t_cancel t0 = false
    /\ (t_now t0 < deadline)%Z /\ sliced (duration_since deadline (t_now t)) = Z.min (deadline - t_now t0) CANCEL_POLL_INTERVAL)
    as (t0 & H0 & H1 & H2 & H3).
  { exists t. unfold sliced, duration_since. split; [done|]. split; [done|]. split; [lia|]. f_equal. lia. }
  destruct (again (t_inner t)).
  - destruct (wait_loop again deadline after rest) as [ws o]. simpl in *. destruct k as [|k]; simpl.
    + intros [= <-]. exists t0. split; [done|]. split; [done|]. by left.
    + intros (t' & Ht & Hn & Hor)%IH. exists t'. split; [done|]. split; [done|].
      destruct Hor as [Hl|(Hd & Hw & Hlen)]; [by left|right]. by rewrite Hlen.
  - destruct k as [|k]; [|done]. simpl. intros [= <-]. exists t0. split; [done|]. split; [done|]. by left.
Qed.

(** A flag set at turn [k] ends the loop by turn [k]: with [Cancelled] unless a turn
    before it had a result. *)
Lemma wait_loop_cancelled deadline after turns k t :
  turns !! k = Some t -> t_cancel t = true ->
  exists r, (wait_loop again deadline after turns).2 = Some r
    /\ (r = inl Cancelled \/ exists j t', (j < k)%nat /\ turns !! j = Some t' /\ r = t_inner t').
Proof.
  revert k. induction turns as [|u rest IH]; intros k Hk Hc; [done|]. simpl.
  destruct (t_cancel u) eqn:Hu; [simpl; eauto|].
  destruct k as [|k]; [simpl in Hk; simplify_eq; congruence|]. simpl in Hk.
  destruct (_ =? 0)%Z.
  { simpl. eexists. split; [done|]. right. exists 0%nat, u. split; [lia|done]. }
  destruct (again (t_inner u)).
  - destruct (IH k Hk Hc) as (r & Hr & Hor).
    destruct (wait_loop again deadline after rest) as [ws o]. simpl in *. exists r. split; [done|].
    destruct Hor as [->|(j & t' & Hj & Hjt & ->)]; [by left|]. right. exists (S j), t'.
    split; [lia|done].
  - simpl. eexists. split; [done|]. right. exists 0%nat, u. split; [lia|done].
Qed.

(** An answer that means "again" is only reported once the deadline has passed. *)
Lemma wait_loop_no_early_again deadline after turns r :
  again (inl Cancelled) = false -> (wait_loop again deadline after turns).2 = Some r -> again r = true ->
  exists t, t ∈ turns /\ (deadline <= t_now t)%Z.
Proof.
  intros Hc. induction turns as [|u rest IH]; simpl; [done|]. destruct (t_cancel u).
  { simpl. intros [= <-] Ha. congruence. }
  destruct (duration_since deadline (t_now u) =? 0)%Z eqn:Hz.
  { intros _ _. exists u. split; [left|]. breflect. unfold duration_since in Hz. lia. }
  destruct (again (t_inner u)) eqn:Ha.
  - destruct (wait_loop again deadline after rest) as [ws o]. simpl in *. intros Ho Hr.
    destruct (IH Ho Hr) as (t & Ht & Hd). exists t. split; [by right|done].
  - simpl. intros [= <-] Hr. congruence.
Qed.

(** Where every repeated turn uses up its wait, the loop ends: one turn per poll
    interval up to the deadline, and one to notice it. *)
Lemma wait_loop_terminates deadline after turns t0 :
  head turns = Some t0 -> paced deadline turns ->
  (duration_since deadline (t_now t0) < (Z.of_nat (length turns) - 1) * CANCEL_POLL_INTERVAL
   \/ deadline <= t_now t0)%Z ->
  exists r, (wait_loop again deadline after turns).2 = Some r.
Proof.
  revert t0. induction turns as [|u rest IH]; intros t0 Hh Hp Hl; [done|]. simpl in Hh. simplify_eq.
  cbn [wait_loop]. destruct (t_cancel t0); [by eexists|].
  destruct (duration_since deadline (t_now t0) =? 0)%Z eqn:Hz; [by eexists|]. breflect.
  destruct (again (t_inner t0)); [|by eexists].
  unfold duration_since, CANCEL_POLL_INTERVAL, from_millis in *.
  destruct rest as [|u rest]; [simpl in Hl; lia|].
  simpl in Hp. destruct Hp as [Hu Hp].
  destruct (IH u eq_refl Hp) as [r Hr].
  - unfold sliced, duration_since, CANCEL_POLL_INTERVAL, from_millis in *.
    cbn [length] in Hl |- *. lia.
  - destruct (wait_loop again deadline after (u :: rest)) as [ws o]. simpl in *. eauto.
Qed.
End waiting.

(** The two waits of the transport, with the answers that make them go on. *)
Inductive transport_wait : forall A, (Z -> Z -> list (turn A) -> option (list Z * option (error + A)))
                                     -> (error + A -> bool) -> Prop :=
| waits_to_send : transport_wait unit transmit_output transmit_again
| waits_for_input : transport_wait bool await_input await_again.

Lemma transport_wait_loop {A} (wait : Z -> Z -> list (turn A) -> option (list Z * option (error + A))) again
    now after turns out :
  transport_wait A wait again -> wait now after turns = Some out ->
  out = wait_loop again (now + after) after turns /\ again (inl Cancelled) = false.
Proof.
  intros Hop. revert turns out.
  destruct Hop; intros turns out; unfold transmit_output, await_input, instant_add;
    (destruct (_ <=? _)%Z; [|done]); by intros [= <-].
Qed.

(** C35: a wait of the transport ends when it should.  [transmit_output] and
    [await_input] alike: if the flag is set when some turn loads it, the wait ends at
    that turn with the cancellation error, unless an earlier turn already had a
    result; every turn that asks the inner transport to wait found the flag clear, and
    asks for what is left of the timeout, but for no more than 150 ms, the poll
    interval: the caller's own timeout is handed on only by a turn that finds the
    deadline passed, and that is the last; and where a repeated turn takes the time it was given, the wait is over
    after at most one turn per poll interval of the timeout and two more, reporting a
    timeout or the absence of input only when a clock reading at or past the deadline
    was seen. *)
Theorem transport_waits_end A wait again now after turns ws o :
  transport_wait A wait again -> wait now after turns = Some (ws, o) ->
  (forall k t, turns !! k = Some t -> t_cancel t = true ->
     exists r, o = Some r
       /\ (r = inl Cancelled \/ exists j t', (j < k)%nat /\ turns !! j = Some t' /\ r = t_inner t'))
  /\ (forall k w, ws !! k = Some w ->
     exists t, turns !! k = Some t /\ t_cancel t = false
       /\ ((t_now t < now + after)%Z /\ w = Z.min (now + after - t_now t) (from_millis 150)
           \/ (now + after <= t_now t)%Z /\ w = after /\ length ws = S k))
  /\ (forall t0, head turns = Some t0 -> t_now t0 = now -> (0 <= after)%Z -> paced (now + after) turns ->
     (after / CANCEL_POLL_INTERVAL + 2 <= Z.of_nat (length turns))%Z ->
     exists r, o = Some r /\ (again r = true -> exists t, t ∈ turns /\ (now + after <= t_now t)%Z)).
Proof.
  intros Hop Hw. destruct (transport_wait_loop _ _ _ _ _ _ Hop Hw) as [Heq Hc].
  assert (o = (wait_loop again (now + after) after turns).2) as -> by by rewrite <- Heq.
  assert (ws = (wait_loop again (now + after) after turns).1) as -> by by rewrite <- Heq.
  ands; [intros k t; by apply wait_loop_cancelled|by apply (wait_loop_waits again (now + after) after turns)|].
  intros t0 Hh Hn Ha Hp Hl.
  destruct (wait_loop_terminates again (now + after) after turns t0 Hh Hp) as [r Hr].
  - rewrite Hn. unfold duration_since. left.
    pose proof (Z.mul_succ_div_gt after CANCEL_POLL_INTERVAL ltac:(reflexivity)).
    unfold CANCEL_POLL_INTERVAL, from_millis in *. lia.
  - exists r. split; [done|]. by apply (wait_loop_no_early_again again _ after turns r).
Qed.

Definition slow_turn (now : Z) (c : bool) : turn bool := mk_turn c now (inl Timeout).

(** Three turns of a wait of 200 ms, uncancelled, and two turns with a cancellation. *)
Definition patient_turns : list (turn bool) :=
  [slow_turn 0 false; slow_turn (from_millis 150) false; slow_turn (from_millis 200) false].

Definition cancelled_turns : list (turn bool) := [slow_turn 0 false; slow_turn (from_millis 150) true].

Lemma transport_waits_end_witness :
  (exists r, (wait_loop await_again (from_millis 200) (from_millis 200) patient_turns).2 = Some r
     /\ (await_again r = true -> exists t, t ∈ patient_turns /\ (0 + from_millis 200 <= t_now t)%Z))
  /\ exists r, (wait_loop await_again (from_secs 45) (from_secs 45) cancelled_turns).2 = Some r
     /\ (r = inl Cancelled
         \/ exists j t', (j < 1)%nat /\ cancelled_turns !! j = Some t' /\ r = t_inner t').
Proof.
  split.
  - destruct (transport_waits_end bool await_input await_again 0 (from_millis 200) patient_turns
                [from_millis 150; from_millis 50; from_millis 200] (Some (inl Timeout)) waits_for_input
                ltac:(vm_compute; reflexivity)) as (_ & _ & H).
    eapply (H (slow_turn 0 false)); [reflexivity..| | |].
    + vm_compute. discriminate.
    + repeat split; vm_compute; discriminate.
    + vm_compute. discriminate.
  - destruct (transport_waits_end bool await_input await_again 0 (from_secs 45) cancelled_turns
                [CANCEL_POLL_INTERVAL] (Some (inl Cancelled)) waits_for_input
                ltac:(vm_compute; reflexivity)) as (H & _).
    by apply (H 1%nat (slow_turn (from_millis 150) true)).
Defined.

(** End of input is not reported either: while the deadline has not passed and
    nobody cancels, a transport that keeps answering [Ok(false)] is asked again, as
    often as it answers, without any wait taking place. *)
Theorem await_input_repeats_end_of_input now after turns deadline :
  instant_add now after = Some deadline ->
  Forall (fun t => t_cancel t = false /\ (t_now t < deadline)%Z /\ t_inner t = inr false) turns ->
  exists ws, await_input now after turns = Some (ws, None) /\ length ws = length turns.
Proof.
  intros Hd Ht. unfold await_input. rewrite Hd. simpl.
  assert (exists ws, wait_loop await_again deadline after turns = (ws, None) /\ length ws = length turns)
    as (ws & -> & Hl); [|eauto].
  induction Ht as [|t rest (Hc & Hn & Hi) _ (ws & IH & Hl)]; [by exists []|].
  simpl. rewrite Hc, Hi. assert ((duration_since deadline (t_now t) =? 0)%Z = false) as ->.
  { apply Z.eqb_neq. unfold duration_since. lia. }
  simpl. rewrite IH. eexists. split; [done|]. simpl. by rewrite Hl.
Qed.

Definition u64_max : Z := 2 ^ 64 - 1.

(** Without a configured timeout the wait is [u64::MAX] seconds, and the deadline
    overflows: the wait panics at any clock reading. *)
Theorem await_without_timeout_panics now turns :
  (0 <= now)%Z -> await_input now (from_secs u64_max) turns = None.
Proof.
  intros Hn. unfold await_input, instant_add.
  assert ((now + from_secs u64_max) / 1000000000 >= u64_max)%Z as Hd.
  { apply Z.le_ge, Z.div_le_lower_bound; [lia|]. unfold from_secs. lia. }
  destruct (_ <=? i64_max)%Z eqn:Hle; [|done]. breflect. unfold u64_max, i64_max in *. lia.
Qed.

(** ** The cancellation flags refine a table of running calls *)

(** What the threads do to the flags: a pool thread starts a call and finishes it,
    the main loop marks calls lost. *)
Inductive flag_op :=
| OpStart (id : bytes)
| OpFinish (id : bytes)
| OpLost (ids : list bytes).

(** The flags with the guards of the running calls. *)
Definition flag_state : Type := Flags * gmap bytes CancelGuard.

Definition flag_step (st : flag_state) (op : flag_op) : flag_state :=
  let (fl, guards) := st in
  match op with
  | OpStart id => let (fl', g) := register fl id in (fl', <[id := g]> guards)
  | OpFinish id => match guards !! id with
                   | Some g => (drop_guard fl g, delete id guards)
                   | None => st
                   end
  | OpLost ids => (set_flags fl ids, guards)
  end.

(** The abstract table: the running calls, and whether each is cancelled. *)
Definition table_step (t : gmap bytes bool) (op : flag_op) : gmap bytes bool :=
  match op with
  | OpStart id => <[id := false]> t
  | OpFinish id => delete id t
  | OpLost ids => map_imap (fun id b => Some (b || bool_decide (id ∈ ids))) t
  end.

(** A call id is running at most once. *)
Fixpoint starts_once (running : gset bytes) (ops : list flag_op) : Prop :=
  match ops with
  | [] => True
  | OpStart id :: rest => (id ∉ running) /\ starts_once ({[id]} ∪ running) rest
  | OpFinish id :: rest => starts_once (running ∖ {[id]}) rest
  | OpLost _ :: rest => starts_once running rest
  end.

Definition flags_agree (st : flag_state) (t : gmap bytes bool) : Prop :=
  let (fl, guards) := st in
  by_call fl = flag <$> guards
  /\ (forall id g, guards !! id = Some g ->
        call_id g = id /\ (flag g < next_cell fl)%nat /\ cells fl !! flag g = t !! id)
  /\ (forall id id' g g', guards !! id = Some g -> guards !! id' = Some g' -> flag g = flag g' -> id = id')
  /\ dom guards = dom t.

Lemma agree_start fl guards t id :
  flags_agree (fl, guards) t -> guards !! id = None ->
  flags_agree (flag_step (fl, guards) (OpStart id)) (table_step t (OpStart id)).
Proof.
  intros (Hm & Hg & Hinj & Hd) Hid. simpl. split; [|split; [|split]].
  - by rewrite fmap_insert, Hm.
  - intros id' g Hg'. apply lookup_insert_Some in Hg' as [[<- <-]|[Hne Hg']]; cbn [flag call_id].
    + rewrite !lookup_insert, !decide_True by done. cbn [next_cell]. split_and!; [done|lia|done].
    + destruct (Hg _ _ Hg') as (? & ? & Hc). cbn [next_cell cells].
      rewrite !lookup_insert_ne by (done || lia). split_and!; [done|lia|done].
  - intros id1 id2 g1 g2 [[<- <-]|[_ H1]]%lookup_insert_Some [[<- <-]|[_ H2]]%lookup_insert_Some Hf.
    + done.
    + destruct (Hg _ _ H2) as (_ & ? & _). simpl in *. lia.
    + destruct (Hg _ _ H1) as (_ & ? & _). simpl in *. lia.
    + by eapply Hinj.
  - by rewrite !dom_insert_L, Hd.
Qed.

Lemma agree_finish st t id :
  flags_agree st t -> flags_agree (flag_step st (OpFinish id)) (table_step t (OpFinish id)).
Proof.
  destruct st as [fl guards]. intros (Hm & Hg & Hinj & Hd). simpl.
  destruct (guards !! id) as [g|] eqn:Hid.
  - destruct (Hg _ _ Hid) as (Hc & _ & _). split; [|split; [|split]]; simpl.
    + by rewrite fmap_delete, Hm, Hc.
    + intros id' g'. rewrite lookup_delete_Some. intros [Hne Hg'].
      rewrite lookup_delete_ne by done. by apply Hg.
    + intros id1 id2 g1 g2. rewrite !lookup_delete_Some. intros [_ ?] [_ ?]. by eapply Hinj.
    + by rewrite !dom_delete_L, Hd.
  - split_and!; try done.
    + intros id' g' Hg'. rewrite lookup_delete_ne by congruence. by apply Hg.
    + rewrite dom_delete_L, <- Hd. apply not_elem_of_dom in Hid. set_solver.
Qed.

Lemma table_lost_cons (t : gmap bytes bool) id ids :
  table_step t (OpLost (id :: ids))
  = table_step (map_imap (fun id' b => Some (b || bool_decide (id' = id))) t) (OpLost ids).
Proof.
  simpl. apply map_eq. intros k. rewrite !map_lookup_imap.
  destruct (t !! k) as [b|]; [|done]. simpl. rewrite <- orb_assoc. repeat f_equal.
  apply eq_true_iff_eq. rewrite orb_true_iff, !bool_decide_eq_true, elem_of_cons. done.
Qed.

Lemma agree_lost fl guards t ids :
  flags_agree (fl, guards) t ->
  flags_agree (flag_step (fl, guards) (OpLost ids)) (table_step t (OpLost ids)).
Proof.
  revert fl t. induction ids as [|id ids IH]; intros fl t Ha.
  - replace (table_step t (OpLost [])) with t; [done|]. apply map_eq. intros k. simpl.
    rewrite map_lookup_imap. destruct (t !! k) as [b|]; [|done]. simpl. by rewrite orb_false_r.
  - rewrite table_lost_cons. apply IH. clear IH. destruct Ha as (Hm & Hg & Hinj & Hd).
    rewrite Hm, lookup_fmap. split; [by destruct (guards !! id)|]. split; [|split; [done|]].
    + intros id' g Hg'. destruct (Hg _ _ Hg') as (? & ? & Hc). rewrite map_lookup_imap.
      destruct (guards !! id) as [gi|] eqn:Hi; simpl; (split; [done|]; split; [done|]).
      * destruct (decide (flag g = flag gi)) as [Hf|Hf].
        -- rewrite (Hinj _ _ _ _ Hg' Hi Hf) in *. rewrite Hf, lookup_insert, decide_True by done.
           assert (is_Some (t !! id)) as [b ->] by (apply elem_of_dom; rewrite <- Hd; by eapply elem_of_dom_2).
           simpl. by rewrite bool_decide_eq_true_2, orb_true_r.
        -- rewrite lookup_insert_ne, Hc by done. destruct (t !! id') as [b|]; [|done]. simpl.
           rewrite bool_decide_eq_false_2, orb_false_r; [done|]. intros ->. congruence.
      * rewrite Hc. destruct (t !! id') as [b|]; [|done]. simpl.
        rewrite bool_decide_eq_false_2, orb_false_r; [done|]. intros ->. congruence.
    + rewrite Hd. apply set_eq. intros k. rewrite !elem_of_dom, map_lookup_imap.
      destruct (t !! k) as [b|]; simpl; [|done]. split; by eexists.
Qed.

(** The cancellation flags do their job under every interleaving.  However the
    pool threads start and finish calls (an id running at most once) and the main
    loop marks ids lost, the map's keys are exactly the running calls, and the flag
    a running call polls is set exactly when its id was marked lost since it
    started: no cancellation is missed, and none reaches another call. *)
Theorem cancel_flags_refine_table ops :
  starts_once ∅ ops ->
  let st := fold_left flag_step ops (OUTBOUND_CANCEL_FLAGS_init, ∅) in
  let t := fold_left table_step ops ∅ in
  dom (by_call st.1) = dom t
  /\ forall id g, st.2 !! id = Some g -> t !! id = Some (is_cancelled st.1 g).
Proof.
  intros Ho. cbv zeta.
  assert (flags_agree (fold_left flag_step ops (OUTBOUND_CANCEL_FLAGS_init, ∅))
            (fold_left table_step ops ∅)) as Ha.
  { assert (forall st t, starts_once (dom t) ops -> flags_agree st t ->
      flags_agree (fold_left flag_step ops st) (fold_left table_step ops t)) as H.
    { clear. induction ops as [|op ops IH]; intros [fl guards] t Ho Ha; [done|]. cbn [fold_left].
      destruct op as [id|id|ids]; simpl in Ho.
      - destruct Ho as [Hid Ho]. apply IH; [by simpl; rewrite dom_insert_L|].
        apply agree_start; [done|]. apply not_elem_of_dom. destruct Ha as (_ & _ & _ & ->). done.
      - apply IH; [by simpl; rewrite dom_delete_L|]. by apply (agree_finish (fl, guards)).
      - apply IH; [|by apply agree_lost]. destruct (agree_lost _ _ _ ids Ha) as (_ & _ & _ & <-).
        destruct Ha as (_ & _ & _ & Hd). by rewrite Hd. }
    apply H; [by rewrite dom_empty_L|]. repeat split; try done. }
  destruct (fold_left flag_step ops _) as [fl guards], Ha as (Hm & Hg & _ & Hd). simpl. split.
  - by rewrite Hm, dom_fmap_L.
  - intros id g Hid. destruct (Hg _ _ Hid) as (_ & _ & Hc). unfold is_cancelled. rewrite Hc.
    assert (is_Some (fold_left table_step ops ∅ !! id)) as [b ->]; [|done].
    apply elem_of_dom. rewrite <- Hd. by eapply elem_of_dom_2.
Qed.

Lemma cancel_flags_refine_table_witness :
  let ops := [OpStart (str "a"); OpStart (str "b"); OpLost [str "a"]; OpFinish (str "a"); OpStart (str "a")] in
  dom (by_call (fold_left flag_step ops (OUTBOUND_CANCEL_FLAGS_init, ∅)).1)
  = dom (fold_left table_step ops (∅ : gmap bytes bool)).
Proof.
  cbv zeta. eapply cancel_flags_refine_table. simpl.
  split_and!; try done; intros Hin; repeat (rewrite ?elem_of_union, ?elem_of_difference,
    ?elem_of_singleton, ?elem_of_empty in Hin); naive_solver.
Defined.

(** ** Requests *)

Lemma function_request_shape url call hs body :
  let rq := function_request url call hs body in
  rq_url rq = url
  /\ (rq_payload rq = NoBody <-> rq_method rq = str "GET" \/ rq_method rq = str "DELETE")
  /\ rq_method rq ∈ [str "GET"; str "DELETE"; str "POST"; str "PUT"; str "PATCH"].
Proof.
  cbv zeta. unfold function_request. set (m := to_ascii_uppercase _).
  destruct ((m == str "POST") || (m == str "PUT") || (m == str "PATCH")) eqn:Hm.
  - assert (m = str "POST" \/ m = str "PUT" \/ m = str "PATCH") as Hor.
    { rewrite !orb_true_iff, !bool_decide_eq_true in Hm. tauto. }
    cbn [rq_url rq_payload rq_method]. split_and!; [done| |set_solver].
    split; [done|]. intros [E|E]; rewrite E in Hor; naive_solver.
  - cbn [rq_url rq_payload rq_method]. destruct (m == str "DELETE"); split_and!; try done; set_solver.
Qed.

(** An OAuth exchange brings no content type of its own. *)
Lemma oauth_headers_typed hs :
  Forall (fun kv => eq_ignore_ascii_case kv.1 (str "content-type") = false) (oauth_headers hs).
Proof.
  unfold oauth_headers, string_fields, filter_map. destruct hs as [hs|]; [|done]. simpl.
  induction hs as [|[k v] hs IH]; [done|]. simpl.
  destruct (eq_ignore_ascii_case k (str "content-type")) eqn:Hk; simpl; [done|].
  destruct (as_str v); simpl; [|done]. by constructor.
Qed.

(** The request fits its kind.  The URL is the call's own; a request carries no
    body exactly when its method is [GET] or [DELETE], and no other methods than
    these, [POST], [PUT] and [PATCH] are sent; whatever the call says, a token
    exchange is a form and brings no content type of its own. *)
Theorem outbound_request_shape url call :
  let rq := outbound_request url call in
  rq_url rq = url
  /\ (rq_payload rq = NoBody <-> rq_method rq = str "GET" \/ rq_method rq = str "DELETE")
  /\ rq_method rq ∈ [str "GET"; str "DELETE"; str "POST"; str "PUT"; str "PATCH"]
  /\ (get_str call (str "kind") = Some (str "oauth") ->
      rq_method rq = str "POST"
      /\ (exists fields, rq_payload rq = FormBody fields)
      /\ Forall (fun kv => eq_ignore_ascii_case kv.1 (str "content-type") = false) (rq_headers rq)).
Proof.
  cbv zeta. unfold outbound_request.
  set (headers := get call (str "headers") ≫= as_object).
  set (body := default (jobj []) (get call (str "body"))).
  destruct (get_str call (str "kind")) as [kind|]; cbn [default].
  2: { rewrite !bool_decide_eq_false_2 by discriminate. simpl.
       split_and!; [done|split; [done|by intros [|]]|set_solver|done]. }
  change (default (str "llm") (Some kind)) with kind.
  destruct (decide (kind = str "function")) as [Hf|Hf];
    [rewrite (bool_decide_eq_true_2 _ Hf)|rewrite (bool_decide_eq_false_2 _ Hf)].
  - destruct (function_request_shape url call (string_fields headers) body) as (H1 & H2 & H3).
    subst kind. split_and!; [done|done|done|discriminate].
  - destruct (decide (kind = str "oauth")) as [Ho|Ho];
      [rewrite (bool_decide_eq_true_2 _ Ho)|rewrite (bool_decide_eq_false_2 _ Ho)]; simpl.
    + split_and!; [done|split; [done|by intros [|]]|set_solver|]. intros _.
      split_and!; [done|by eexists|]. apply oauth_headers_typed.
    + split_and!; [done|split; [done|by intros [|]]|set_solver|]. intros [= ->]. done.
Qed.

Lemma outbound_request_shape_witness :
  let rq := outbound_request (str "https://idp.example/token")
    (jobj [(str "kind", JStr (str "oauth"));
           (str "headers", jobj [(str "Content-Type", JStr (str "application/json"))])]) in
  rq_method rq = str "POST" /\ rq_headers rq = [].
Proof.
  cbv zeta. split; [|vm_compute; reflexivity].
  eapply (outbound_request_shape (str "https://idp.example/token")
    (jobj [(str "kind", JStr (str "oauth"));
           (str "headers", jobj [(str "Content-Type", JStr (str "application/json"))])])).
  vm_compute. reflexivity.
Defined.
