(* ===== verification/HostCheck.v ===== *)
(** * [src/sql/control_plane.sql]: [is_blocked_host]

    The check the control plane makes of an address as it is written in a URL, before a
    call is queued, and the guard [src/outbound.rs] repeats on the address dialled
    ([is_blocked_ip] of [Outbound.v]): where they agree and where they do not. *)

From S2P Require Import Prelude Utf8 RustStr Net Json Outbound.

#[local] Arguments str : simpl never.

(** ** The regular expressions *)

Definition DOT : byte := "."%byte.
Definition COLON : byte := ":"%byte.

(** [[0-9a-f]] *)
Definition hex_lower (b : byte) : bool := is_ascii_digit b || in_range 97 102 b.

(** [[0-9]{1,3}] and [[0-9]{1,3}(\.[0-9]{1,3}){3}], of the whole text. *)
Definition short_number (s : bytes) : bool := nonempty s && (length s <=? 3)%nat && forallb is_ascii_digit s.
Definition is_quad (s : bytes) : bool := (length (split_on DOT s) =? 4)%nat && forallb short_number (split_on DOT s).

(** [^::(ffff:)?([0-9]{1,3}(\.[0-9]{1,3}){3})$], what the second pair of parentheses holds. *)
Definition v4_part (h : bytes) : option bytes :=
  match strip_prefix (str "::ffff:") h with
  | Some v4 => if is_quad v4 then Some v4 else None
  | None => match strip_prefix (str "::") h with
            | Some v4 => if is_quad v4 then Some v4 else None
            | None => None
            end
  end.

(** [^[0-9]+$], [^0x[0-9a-f]+$] and [^0[0-7]*(\.|$)]. *)
Definition all_digits (h : bytes) : bool := nonempty h && forallb is_ascii_digit h.
Definition hex_number (h : bytes) : bool :=
  match strip_prefix (str "0x") h with Some r => nonempty r && forallb hex_lower r | None => false end.
Definition octal_start (h : bytes) : bool :=
  match h with
  | b :: r => (b == "0"%byte) && match drop_while (in_range 48 55) r with [] => true | c :: _ => c == DOT end
  | [] => false
  end.

(** [(^|\.)(local|localhost|internal|intranet|corp|home|lan)$] *)
Definition local_name (h : bytes) : bool :=
  bool_decide (default [] (list.last (split_on DOT h)) ∈
    [str "local"; str "localhost"; str "internal"; str "intranet"; str "corp"; str "home"; str "lan"]).

(** [^f[cd][0-9a-f]{2}:] and [^fe[89ab][0-9a-f]:] *)
Definition unique_local (h : bytes) : bool :=
  match h with
  | f :: c :: x :: y :: e :: _ =>
    (f == "f"%byte) && ((c == "c"%byte) || (c == "d"%byte)) && hex_lower x && hex_lower y && (e == COLON)
  | _ => false
  end.
Definition link_local (h : bytes) : bool :=
  match h with
  | f :: c :: x :: y :: e :: _ =>
    (f == "f"%byte) && (c == "e"%byte) && ((x == "8"%byte) || (x == "9"%byte) || (x == "a"%byte) || (x == "b"%byte))
    && hex_lower y && (e == COLON)
  | _ => false
  end.

(** A decimal number, and [^n1\.n2\.] with the alternatives of each written out. *)
Definition dec (n : Z) : bytes := format_radix 10 n.
Definition begins (numbers : list Z) (h : bytes) : bool :=
  starts_with (concat (map (fun n => dec n ++ [DOT]) numbers)) h.
Definition from_to (lo hi : Z) : list Z := map (fun i => lo + Z.of_nat i)%Z (seq 0 (Z.to_nat (hi - lo + 1))).

Definition blocked_quad (h : bytes) : bool :=
  existsb (fun n => begins [n] h) [0; 10; 127]%Z
  || begins [169; 254]%Z h
  || existsb (fun n => begins [172; n]%Z h) (from_to 16 31)
  || begins [192; 168]%Z h
  || existsb (fun n => begins [192; 0; n]%Z h) [0; 2]%Z
  || existsb (fun n => begins [198; n]%Z h) [18; 19]%Z
  || existsb (fun n => begins [100; n]%Z h) (from_to 64 127)
  || existsb (fun n => begins [n] h) (from_to 224 259)
  || (h == str "255.255.255.255").

(** ** The function *)

(** What follows the reduction of an embedded IPv4 address. *)
Definition blocked_rest (h : bytes) : bool :=
  if all_digits h || hex_number h || octal_start h then true
  else if bool_decide (h ∈ [str "localhost"; str "localhost.localdomain"; str "ip6-localhost"; str "ip6-loopback"]) then true
  else if local_name h then true
  else if bool_decide (h ∈ [str "::"; str "::1"]) then true
  else if unique_local h then true
  else if link_local h then true
  else if is_quad h then blocked_quad h
  else false.

(** The function calls itself on the address it takes out of an IPv6 spelling, and never
    again: [fuel] counts the calls, and [v4_part_again] shows that two are enough. *)
Fixpoint host_check (lower : bytes -> bytes) (fuel : nat) (p_host : option bytes) : bool :=
  match fuel with
  | O => false
  | S fuel' =>
    let h := lower (default [] p_host) in
    if h == [] then true
    else match v4_part h with
         | Some v4 => host_check lower fuel' (Some v4)
         | None => blocked_rest h
         end
  end.

Definition is_blocked_host (lower : bytes -> bytes) (p_host : option bytes) : bool := host_check lower 2 p_host.

(** ** Addresses as they are written *)

Definition dotted (a b c d : byte) : bytes :=
  dec (u8 a) ++ [DOT] ++ dec (u8 b) ++ [DOT] ++ dec (u8 c) ++ [DOT] ++ dec (u8 d).

(** The segment of two octets. *)
Definition segment (hi lo : byte) : Z := (u8 hi * 256 + u8 lo)%Z.

(** The spellings the check knows how to read, and, for an IPv6 address whose first
    segment is not zero, that segment with whatever groups behind it. *)
Inductive written : IpAddr -> bytes -> Prop :=
| written_v4 a b c d : written (V4 a b c d) (dotted a b c d)
| written_mapped a b c d :
    written (V6 [0; 0; 0; 0; 0; 65535; segment a b; segment c d]%Z) (str "::ffff:" ++ dotted a b c d)
| written_loopback : written (V6 [0; 0; 0; 0; 0; 0; 0; 1]%Z) (str "::1")
| written_unspecified : written (V6 [0; 0; 0; 0; 0; 0; 0; 0]%Z) (str "::")
| written_v6 s0 segs text :
    s0 <> 0%Z -> forallb (fun b => hex_lower b || (b == COLON)) text = true ->
    written (V6 (s0 :: segs)) (format_radix 16 s0 ++ [COLON] ++ text).

(** ** Decimal and hexadecimal labels *)

Lemma dec_octet b : exists x l, dec (u8 b) = x :: l /\ forallb is_ascii_digit (x :: l) = true.
Proof. destruct b; vm_compute; by eexists _, _. Qed.

Lemma dec_short b : short_number (dec (u8 b)) = true.
Proof. by_byte b. Qed.

Lemma digits_no s c : forallb is_ascii_digit s = true -> is_ascii_digit c = false -> c ∉ s.
Proof.
  intros Hs Hc Hin%list_elem_of_In. rewrite forallb_forall in Hs. rewrite (Hs _ Hin) in Hc. done.
Qed.

Lemma dec_no b c : is_ascii_digit c = false -> c ∉ dec (u8 b).
Proof. destruct (dec_octet b) as (x & l & -> & Hl). by apply digits_no. Qed.

Lemma split_dotted a b c d : split_on DOT (dotted a b c d) = [dec (u8 a); dec (u8 b); dec (u8 c); dec (u8 d)].
Proof.
  unfold dotted. cbn [app]. rewrite !split_on_app by (by apply dec_no). by rewrite split_on_none by (by apply dec_no).
Qed.

Lemma dotted_quad a b c d : is_quad (dotted a b c d) = true.
Proof. unfold is_quad. rewrite split_dotted. cbn [length forallb]. by rewrite !dec_short. Qed.

(** A text up to a separator against another. *)
Lemma starts_with_label c p q m t :
  (c ∉ p) -> (c ∉ q) -> starts_with (p ++ c :: m) (q ++ c :: t) = (p == q) && starts_with m t.
Proof.
  revert q. induction p as [|x p IH]; intros [|y q] Hp Hq; cbn [app starts_with].
  - by rewrite bool_decide_eq_true_2.
  - apply not_elem_of_cons in Hq as [Hy _]. by rewrite (bool_decide_eq_false_2 (c = y)) by done.
  - apply not_elem_of_cons in Hp as [Hx _]. by rewrite (bool_decide_eq_false_2 (x = c)) by done.
  - apply not_elem_of_cons in Hp as [_ Hp], Hq as [_ Hq]. rewrite IH by done.
    destruct (decide (x = y)) as [->|Hne].
    + rewrite (bool_decide_eq_true_2 (y = y)) by done. cbn [andb]. f_equal.
      apply bool_decide_ext. split; [by intros ->|by intros [=]].
    + rewrite (bool_decide_eq_false_2 (x = y)) by done. cbn [andb]. rewrite bool_decide_eq_false_2; [done|by intros [= ? _]].
Qed.

Lemma begins_label n ns a t :
  DOT ∉ dec n ->
  begins (n :: ns) (dec (u8 a) ++ DOT :: t) = (dec n == dec (u8 a)) && begins ns t.
Proof.
  intros Hn. unfold begins. cbn [map concat]. rewrite <- app_assoc. cbn [app].
  apply starts_with_label; [done|by apply dec_no].
Qed.

Lemma begins_nil t : begins [] t = true.
Proof. done. Qed.

(** The numbers written in the expressions. *)
Definition plain_number (n : Z) : bool :=
  forallb is_ascii_digit (dec n).

Lemma plain_number_no n : plain_number n = true -> DOT ∉ dec n.
Proof. intros Hn. by apply digits_no. Qed.

Lemma existsb_begins ns ms a t :
  forallb plain_number ns = true ->
  existsb (fun n => begins (n :: ms) (dec (u8 a) ++ DOT :: t)) ns
  = existsb (fun n => dec n == dec (u8 a)) ns && begins ms t.
Proof.
  induction ns as [|n ns IH]; intros Hns; [done|]. cbn [forallb] in Hns.
  apply andb_true_iff in Hns as [Hn Hns]. cbn [existsb].
  rewrite IH, begins_label by (try apply plain_number_no; done).
  by rewrite andb_orb_distrib_l.
Qed.

(** What each alternative asks of an octet. *)
Lemma octet_number n a :
  n ∈ [0; 2; 18; 19; 100; 169; 172; 192; 198; 254; 168]%Z -> (dec n == dec (u8 a)) = (u8 a =? n)%Z.
Proof.
  rewrite !elem_of_cons, elem_of_nil. intros Hn. destruct_or!; subst; try done; by_byte a.
Qed.

Lemma octet_low a :
  existsb (fun n => dec n == dec (u8 a)) [0; 10; 127]%Z = ((u8 a =? 0) || (u8 a =? 10) || (u8 a =? 127))%Z.
Proof. by_byte a. Qed.

Lemma octet_range lo hi a :
  (lo, hi) ∈ [(16, 31); (64, 127)]%Z ->
  existsb (fun n => dec n == dec (u8 a)) (from_to lo hi) = in_range lo hi a.
Proof.
  rewrite !elem_of_cons, elem_of_nil. intros Hn. destruct_or!; simplify_eq; try done; by_byte a.
Qed.

Lemma octet_high a : existsb (fun n => dec n == dec (u8 a)) (from_to 224 259) = (224 <=? u8 a)%Z.
Proof. by_byte a. Qed.

(** An expression of one or two numbers, and of three. *)
Lemma quad_one a b c d n :
  plain_number n = true -> begins [n] (dotted a b c d) = (dec n == dec (u8 a)).
Proof. intros Hn. unfold dotted. cbn [app]. by rewrite begins_label, andb_true_r by by apply plain_number_no. Qed.

Lemma quad_two a b c d n m :
  plain_number n = true -> plain_number m = true ->
  begins [n; m] (dotted a b c d) = (dec n == dec (u8 a)) && (dec m == dec (u8 b)).
Proof.
  intros Hn Hm. unfold dotted. cbn [app].
  by rewrite !begins_label, andb_true_r by by apply plain_number_no.
Qed.

Lemma quad_ones a b c d ns :
  forallb plain_number ns = true ->
  existsb (fun n => begins [n] (dotted a b c d)) ns = existsb (fun n => dec n == dec (u8 a)) ns.
Proof. intros Hn. unfold dotted. cbn [app]. by rewrite existsb_begins, andb_true_r. Qed.

Lemma quad_twos a b c d n ms :
  plain_number n = true -> forallb plain_number ms = true ->
  existsb (fun m => begins [n; m] (dotted a b c d)) ms
  = (dec n == dec (u8 a)) && existsb (fun m => dec m == dec (u8 b)) ms.
Proof.
  intros Hn Hms. induction ms as [|m ms IH]; cbn [existsb forallb] in *; [by rewrite andb_false_r|].
  apply andb_true_iff in Hms as [Hm Hms]. by rewrite quad_two, IH, andb_orb_distrib_r.
Qed.

Lemma quad_threes a b c d n m ks :
  plain_number n = true -> plain_number m = true -> forallb plain_number ks = true ->
  existsb (fun k => begins [n; m; k] (dotted a b c d)) ks
  = (dec n == dec (u8 a)) && (dec m == dec (u8 b)) && existsb (fun k => dec k == dec (u8 c)) ks.
Proof.
  intros Hn Hm Hks. induction ks as [|k ks IH]; cbn [existsb forallb] in *; [by rewrite andb_false_r|].
  apply andb_true_iff in Hks as [Hk Hks]. rewrite IH by done. unfold dotted. cbn [app].
  rewrite !begins_label, andb_true_r by by apply plain_number_no.
  by rewrite andb_orb_distrib_r, andb_assoc.
Qed.

(** The highest address is multicast or reserved anyway. *)
Lemma broadcast_high a b c d :
  (224 <=? u8 a)%Z || (dotted a b c d == str "255.255.255.255") = (224 <=? u8 a)%Z.
Proof.
  destruct (bool_decide_reflect (dotted a b c d = str "255.255.255.255")) as [He|_]; [|apply orb_false_r].
  assert (begins [255]%Z (dotted a b c d) = true) as Hb by (rewrite He; reflexivity).
  rewrite quad_one in Hb by reflexivity. revert Hb. clear. destruct a; vm_compute; done.
Qed.

Lemma blocked_quad_v4 a b c d : blocked_quad (dotted a b c d) = is_blocked_ipv4 a b c d.
Proof.
  unfold blocked_quad, is_blocked_ipv4.
  rewrite !quad_ones, !quad_two, !quad_twos, quad_threes by reflexivity.
  rewrite octet_low, octet_high, <- !orb_assoc, broadcast_high.
  rewrite !octet_number, !octet_range by (rewrite !elem_of_cons; auto 20).
  cbn [existsb]. by rewrite !octet_number, !orb_false_r by (rewrite !elem_of_cons; auto 20).
Qed.

(** ** The other tests on an address *)

Lemma no_colon_v4 x l : x <> COLON -> v4_part (x :: l) = None.
Proof.
  intros Hx. assert (forall p, starts_with (COLON :: p) (x :: l) = false) as Hp.
  { intros p. cbn [starts_with]. by rewrite bool_decide_eq_false_2. }
  unfold v4_part, strip_prefix.
  change (str "::ffff:") with (COLON :: str ":ffff:"). change (str "::") with (COLON :: str ":").
  by rewrite !Hp.
Qed.

Lemma no_f_v6 x l : x <> "f"%byte -> unique_local (x :: l) = false /\ link_local (x :: l) = false.
Proof.
  intros Hx. do 4 (destruct l as [|? l]; [done|]). cbn [unique_local link_local].
  by rewrite bool_decide_eq_false_2.
Qed.

Lemma digit_no_name x l :
  is_ascii_digit x = true ->
  (x :: l ∉ [str "localhost"; str "localhost.localdomain"; str "ip6-localhost"; str "ip6-loopback"])
  /\ (x :: l ∉ [str "::"; str "::1"]).
Proof.
  intros Hx. split; intros Hin; repeat (apply elem_of_cons in Hin as [Hin|Hin];
    [injection Hin as -> _; discriminate Hx|]); by apply not_elem_of_nil in Hin.
Qed.

Lemma digits_last_no_name b : bool_decide (dec (u8 b) ∈
    [str "local"; str "localhost"; str "internal"; str "intranet"; str "corp"; str "home"; str "lan"]) = false.
Proof. by_byte b. Qed.

Lemma octal_dotted a t : octal_start (dec (u8 a) ++ DOT :: t) = (u8 a =? 0)%Z.
Proof. destruct a; reflexivity. Qed.

Lemma hex_number_dotted a t : hex_number (dec (u8 a) ++ DOT :: t) = false.
Proof. destruct a; reflexivity. Qed.

Lemma all_digits_dotted a b c d : all_digits (dotted a b c d) = false.
Proof.
  unfold all_digits, dotted. rewrite !forallb_app. cbn [forallb].
  by rewrite andb_false_r, ?andb_false_r.
Qed.

Lemma local_dotted a b c d : local_name (dotted a b c d) = false.
Proof. unfold local_name. rewrite split_dotted. apply digits_last_no_name. Qed.

(** An address of four numbers goes through to the ranges. *)
Lemma rest_dotted a b c d : blocked_rest (dotted a b c d) = is_blocked_ipv4 a b c d.
Proof.
  unfold blocked_rest. rewrite all_digits_dotted, local_dotted, dotted_quad, blocked_quad_v4.
  assert (octal_start (dotted a b c d) = (u8 a =? 0)%Z) as -> by apply octal_dotted.
  assert (hex_number (dotted a b c d) = false) as -> by apply hex_number_dotted.
  assert (exists x l, dotted a b c d = x :: l /\ is_ascii_digit x = true) as (x & l & -> & Hx).
  { destruct (dec_octet a) as (x & l & Ha & [Hx _]%andb_true_iff). unfold dotted. rewrite Ha. by eexists _, _. }
  destruct (no_f_v6 x l) as [-> ->]; [by intros ->|]. destruct (digit_no_name x l Hx) as [H1 H2].
  rewrite !bool_decide_eq_false_2 by done. cbn [orb]. unfold is_blocked_ipv4.
  by destruct (u8 a =? 0)%Z.
Qed.

(** The embedded address is not itself such a spelling. *)
Lemma v4_part_again h v4 : v4_part h = Some v4 -> v4_part v4 = None.
Proof.
  intros Hh. assert (is_quad v4 = true) as Hq by (unfold v4_part in Hh; by repeat case_match; simplify_eq).
  destruct v4 as [|x l]; [done|]. apply no_colon_v4. intros ->. revert Hq. unfold is_quad.
  assert (exists k ks, split_on DOT (COLON :: l) = (COLON :: k) :: ks) as (k & ks & ->).
  { cbn [split_on]. rewrite bool_decide_eq_false_2 by done. destruct (split_on DOT l) as [|k ks]; by eexists _, _. }
  cbn [forallb]. unfold short_number at 1. cbn [nonempty forallb]. by rewrite !andb_false_r.
Qed.

(** ** IPv6 addresses *)

(** The digits of a segment of four, and the letters the two tests look for. *)
Lemma four_digits s :
  (4096 <= s < 65536)%Z ->
  format_radix 16 s = map digit_char [s / 16 / 16 / 16; s / 16 / 16 mod 16; s / 16 mod 16; s mod 16]%Z.
Proof.
  intros Hs. unfold format_radix.
  assert (12 <= Z.log2 s)%Z by (apply Z.log2_le_pow2; lia).
  replace (S (Z.to_nat (Z.log2 s))) with (4 + (Z.to_nat (Z.log2 s) - 3))%nat by lia.
  cbn [radix_digits Nat.add].
  rewrite (proj2 (Z.ltb_ge s 16)), (proj2 (Z.ltb_ge (s / 16) 16)), (proj2 (Z.ltb_ge (s / 16 / 16) 16)),
    (proj2 (Z.ltb_lt (s / 16 / 16 / 16) 16)) by (Z.div_mod_to_equations; lia).
  by rewrite (Z.mod_small (s / 16 / 16 / 16)) by (Z.div_mod_to_equations; lia).
Qed.

Definition digit_letters (d : Z) : bool :=
  hex_lower (digit_char d)
  && forallb (fun p => Bool.eqb (digit_char d == p.1) (d =? p.2)%Z)
       [("0", 0); ("8", 8); ("9", 9); ("a", 10); ("b", 11); ("c", 12); ("d", 13); ("e", 14); ("f", 15)]%Z%byte.

Lemma hex_digit d :
  (0 <= d < 16)%Z -> digit_letters d = true.
Proof.
  intros Hd. assert (d ∈ seqZ 0 16) as Hin by (apply elem_of_seqZ; lia).
  clear Hd. revert d Hin. apply list.Forall_forall. repeat constructor.
Qed.

Lemma hex_digit_lower d : (0 <= d < 16)%Z -> hex_lower (digit_char d) = true.
Proof. intros [H _]%hex_digit%andb_true_iff. done. Qed.

Lemma hex_digit_is d b n :
  (0 <= d < 16)%Z ->
  (b, n) ∈ [("0", 0); ("8", 8); ("9", 9); ("a", 10); ("b", 11); ("c", 12); ("d", 13); ("e", 14); ("f", 15)]%Z%byte ->
  (digit_char d == b) = (d =? n)%Z.
Proof.
  intros [_ H]%hex_digit%andb_true_iff Hin%list_elem_of_In. rewrite forallb_forall in H.
  specialize (H _ Hin). by apply Bool.eqb_prop in H.
Qed.

(** The shorter segments. *)
Definition short_segment (s : Z) : bool :=
  match format_radix 16 s with
  | x :: l => negb (x == "0"%byte) && forallb hex_lower (x :: l) && (length l <? 3)%nat
  | [] => false
  end.

Lemma short_segments s : (1 <= s < 4096)%Z -> short_segment s = true.
Proof.
  intros Hs. assert (forallb short_segment (seqZ 1 4095) = true) as H by (vm_compute; reflexivity).
  rewrite forallb_forall in H. apply H, list_elem_of_In, elem_of_seqZ. lia.
Qed.

(** A nonzero segment begins with another digit than zero. *)
Lemma segment_digits s :
  (1 <= s < 65536)%Z ->
  exists x l, format_radix 16 s = x :: l /\ x <> "0"%byte /\ forallb hex_lower (x :: l) = true.
Proof.
  intros Hs. destruct (Z.lt_ge_cases s 4096) as [Hlt|Hge].
  - pose proof (short_segments s ltac:(lia)) as H. unfold short_segment in H.
    destruct (format_radix 16 s) as [|x l]; [done|]. breflect. by exists x, l.
  - rewrite four_digits by lia. cbn [map]. eexists _, _. split; [done|].
    assert (forall d, 0 <= d < 16 -> hex_lower (digit_char d) = true)%Z as Hd by apply hex_digit_lower.
    split.
    + intros H. apply (bool_decide_eq_true_2 (digit_char (s / 16 / 16 / 16) = "0"%byte)) in H.
      rewrite (hex_digit_is _ _ 0) in H by (first [by left|Z.div_mod_to_equations; lia]).
      apply Z.eqb_eq in H. Z.div_mod_to_equations; lia.
    + cbn [forallb]. by rewrite !Hd by (Z.div_mod_to_equations; lia).
Qed.

(** Before the fourth digit there is no colon to find at the fifth place. *)
Lemma short_no_test x l text :
  forallb hex_lower (x :: l) = true -> (length l < 3)%nat ->
  unique_local ((x :: l) ++ COLON :: text) = false /\ link_local ((x :: l) ++ COLON :: text) = false.
Proof.
  intros _ Hl. destruct l as [|y [|z [|? l]]]; cbn [app length] in *; try lia.
  - do 3 (destruct text as [|? text]; [done|]). cbn [unique_local link_local].
    change (COLON == "c"%byte) with false. change (COLON == "d"%byte) with false.
    change (COLON == "e"%byte) with false. by rewrite !andb_false_r.
  - do 2 (destruct text as [|? text]; [done|]). cbn [unique_local link_local].
    change (hex_lower COLON) with false. change (COLON == "8"%byte) with false.
    change (COLON == "9"%byte) with false. change (COLON == "a"%byte) with false.
    change (COLON == "b"%byte) with false. by rewrite !andb_false_r.
  - destruct text as [|? text]; [done|]. cbn [unique_local link_local].
    change (hex_lower COLON) with false. by rewrite !andb_false_r.
Qed.

Lemma segment_tests s text :
  (1 <= s < 65536)%Z ->
  unique_local (format_radix 16 s ++ COLON :: text) = (Z.land s 65024 =? 64512)%Z
  /\ link_local (format_radix 16 s ++ COLON :: text) = (Z.land s 65472 =? 65152)%Z.
Proof.
  intros Hs. rewrite mask7, mask10 by lia. destruct (Z.lt_ge_cases s 4096) as [Hlt|Hge].
  - pose proof (short_segments s ltac:(lia)) as H. unfold short_segment in H.
    destruct (format_radix 16 s) as [|x l]; [done|]. breflect.
    destruct (short_no_test x l text) as [-> ->]; [done|done|].
    split; symmetry; apply Z.eqb_neq; Z.div_mod_to_equations; lia.
  - rewrite four_digits by lia. cbn [map app unique_local link_local].
    rewrite !hex_digit_lower, !(bool_decide_eq_true_2 (COLON = COLON)), !andb_true_r by (first [done|Z.div_mod_to_equations; lia]).
    rewrite (hex_digit_is _ "f" 15), (hex_digit_is _ "c" 12), (hex_digit_is _ "d" 13), (hex_digit_is _ "e" 14),
      (hex_digit_is _ "8" 8), (hex_digit_is _ "9" 9), (hex_digit_is _ "a" 10), (hex_digit_is _ "b" 11)
      by (first [by rewrite !elem_of_cons; auto 20|Z.div_mod_to_equations; lia]).
    split; apply eq_true_iff_eq; rewrite ?andb_true_iff, ?orb_true_iff, !Z.eqb_eq;
      Z.div_mod_to_equations; lia.
Qed.

(** Digits, the letters a to f, colons and dots. *)
Definition address_char (b : byte) : bool := hex_lower b || (b == COLON) || (b == DOT).

Lemma forallb_impl {A} (p q : A -> bool) l :
  (forall x, p x = true -> q x = true) -> forallb p l = true -> forallb q l = true.
Proof. intros Hpq. rewrite !forallb_forall. auto. Qed.

Lemma colon_text_no_dot h :
  forallb (fun b => hex_lower b || (b == COLON)) h = true -> DOT ∉ h.
Proof. intros Hh Hin%list_elem_of_In. rewrite forallb_forall in Hh. by specialize (Hh _ Hin). Qed.

(** A text with a colon is none of the names. *)
Lemma colon_no_name h :
  COLON ∈ h ->
  (h ∉ [str "localhost"; str "localhost.localdomain"; str "ip6-localhost"; str "ip6-loopback"])
  /\ (h ∉ [str "local"; str "localhost"; str "internal"; str "intranet"; str "corp"; str "home"; str "lan"]).
Proof.
  intros Hc. split; intros Hin; repeat (apply elem_of_cons in Hin as [->|Hin];
    [apply (bool_decide_eq_true_2 _) in Hc; discriminate Hc|]); by apply not_elem_of_nil in Hin.
Qed.

(** An IPv6 address whose first segment is not zero goes through to the two prefixes. *)
Lemma rest_v6 s text :
  (1 <= s < 65536)%Z -> forallb (fun b => hex_lower b || (b == COLON)) text = true ->
  v4_part (format_radix 16 s ++ COLON :: text) = None
  /\ blocked_rest (format_radix 16 s ++ COLON :: text)
     = ((Z.land s 65024 =? 64512) || (Z.land s 65472 =? 65152))%Z.
Proof.
  intros Hs Ht. destruct (segment_tests s text Hs) as [<- <-].
  destruct (segment_digits s Hs) as (x & l & -> & Hx & Hl).
  assert (x <> COLON) as Hxc by (intros ->; discriminate Hl).
  cbn [app]. split; [by apply no_colon_v4|].
  set (h := x :: l ++ COLON :: text) in *.
  assert (forallb (fun b => hex_lower b || (b == COLON)) h = true) as Hh.
  { change h with ((x :: l) ++ COLON :: text). rewrite forallb_app. apply andb_true_iff. split; [|exact Ht].
    eapply forallb_impl; [|exact Hl]. intros b ->. done. }
  assert (COLON ∈ h) as Hc by (change h with ((x :: l) ++ COLON :: text); apply elem_of_app; right; left).
  destruct (colon_no_name h Hc) as [H1 H2]. unfold blocked_rest.
  assert (all_digits h = false) as ->.
  { change h with ((x :: l) ++ COLON :: text). unfold all_digits. rewrite forallb_app. cbn [forallb].
    by rewrite andb_false_r, ?andb_false_r. }
  assert (hex_number h = false) as ->.
  { unfold hex_number, strip_prefix, h. change (str "0x") with ("0"%byte :: str "x"). cbn [starts_with].
    by rewrite bool_decide_eq_false_2. }
  assert (octal_start h = false) as -> by (unfold octal_start, h; by rewrite bool_decide_eq_false_2).
  assert (split_on DOT h = [h]) as Hsplit by by apply split_on_none, colon_text_no_dot.
  assert (local_name h = false) as -> by (unfold local_name; rewrite Hsplit; by apply bool_decide_eq_false_2).
  assert (is_quad h = false) as -> by (unfold is_quad; by rewrite Hsplit).
  rewrite (bool_decide_eq_false_2 _ H1), (bool_decide_eq_false_2 (h ∈ [str "::"; str "::1"])).
  - cbn [orb]. by destruct (unique_local h), (link_local h).
  - unfold h. intros Hin. repeat (apply elem_of_cons in Hin as [Hin|Hin]; [injection Hin as -> _; done|]).
    by apply not_elem_of_nil in Hin.
Qed.

(** ** The host check on the spelling of an address *)

Section agreement.
Context (lower : bytes -> bytes).
(** PostgreSQL's [lower] leaves digits, small letters, colons and dots alone. *)
Hypothesis lower_address : forall s, forallb address_char s = true -> lower s = s.

Lemma host_check_step fuel h :
  forallb address_char h = true ->
  host_check lower (S fuel) (Some h)
  = if h == [] then true
    else match v4_part h with Some v4 => host_check lower fuel (Some v4) | None => blocked_rest h end.
Proof. intros Hh. cbn [host_check]. change (default [] (Some h)) with h. by rewrite (lower_address h Hh). Qed.

Lemma host_plain h :
  forallb address_char h = true -> h <> [] -> v4_part h = None -> is_blocked_host lower (Some h) = blocked_rest h.
Proof.
  intros Hh Hne Hv. unfold is_blocked_host. rewrite host_check_step by done.
  by rewrite Hv, bool_decide_eq_false_2.
Qed.

(** The call for an embedded address is the last. *)
Lemma host_embedded h v4 :
  forallb address_char h = true -> forallb address_char v4 = true -> v4 <> [] -> v4_part h = Some v4 ->
  is_blocked_host lower (Some h) = blocked_rest v4.
Proof.
  intros Hh H4 Hne Hv. unfold is_blocked_host. rewrite host_check_step, Hv, host_check_step by done.
  rewrite (v4_part_again _ _ Hv), (bool_decide_eq_false_2 (v4 = [])) by done.
  rewrite bool_decide_eq_false_2; [done|by intros ->].
Qed.
End agreement.

Lemma dotted_chars a b c d : forallb address_char (dotted a b c d) = true.
Proof.
  assert (forall o, forallb address_char (dec (u8 o)) = true) as Ho.
  { intros o. destruct (dec_octet o) as (x & l & -> & H). eapply forallb_impl; [|exact H].
    intros y Hy. unfold address_char, hex_lower. by rewrite Hy. }
  unfold dotted. rewrite !forallb_app, !Ho. done.
Qed.

Lemma dotted_nonempty a b c d : dotted a b c d <> [].
Proof. unfold dotted. destruct (dec_octet a) as (x & l & -> & _). done. Qed.

Lemma mapped_spelling a b c d : v4_part (str "::ffff:" ++ dotted a b c d) = Some (dotted a b c d).
Proof.
  unfold v4_part. destruct (strip_prefix (str "::ffff:") _) as [v|] eqn:Hs.
  - apply strip_prefix_Some, app_inv_head in Hs as <-. by rewrite dotted_quad.
  - rewrite (proj2 (strip_prefix_Some _ _ (dotted a b c d))) in Hs by done. done.
Qed.

Lemma compatible_spelling a b c d : v4_part (str "::" ++ dotted a b c d) = Some (dotted a b c d).
Proof.
  unfold v4_part. destruct (strip_prefix (str "::ffff:") _) as [v|] eqn:Hs.
  - exfalso. apply strip_prefix_Some in Hs. change (str "::ffff:") with (str "::" ++ str "ffff:") in Hs.
    rewrite <- app_assoc in Hs. apply app_inv_head in Hs. unfold dotted in Hs.
    destruct (dec_octet a) as (x & l & Ha & [Hx _]%andb_true_iff). rewrite Ha in Hs.
    injection Hs as -> _. discriminate Hx.
  - rewrite (proj2 (strip_prefix_Some _ _ (dotted a b c d))) by done. by rewrite dotted_quad.
Qed.

Lemma segment_back a b :
  seg_hi (segment a b) = a /\ seg_lo (segment a b) = b /\ (0 <= segment a b < 65536)%Z.
Proof.
  pose proof (u8_range a). pose proof (u8_range b).
  assert (0 <= segment a b < 65536)%Z as Hs by (unfold segment; lia).
  destruct (segment_octets _ Hs) as [Hh Hl]. unfold segment in Hh, Hl at 2.
  rewrite Z.div_add_l, Z.div_small, Z.add_0_r in Hh by lia.
  rewrite Z.add_comm, Z.mod_add, Z.mod_small in Hl by lia.
  split_and!; [by apply u8_inj|by apply u8_inj|lia|lia].
Qed.

Lemma host_v6 lower s0 segs text :
  (forall s, forallb address_char s = true -> lower s = s) ->
  wf_ip (V6 (s0 :: segs)) = true -> s0 <> 0%Z ->
  forallb (fun b => hex_lower b || (b == COLON)) text = true ->
  is_blocked_host lower (Some (format_radix 16 s0 ++ [COLON] ++ text)) = is_blocked_ip (V6 (s0 :: segs)).
Proof.
  intros Hlower Hwf Hs0 Ht.
  assert (0 <= s0 < 65536)%Z as Hr.
  { apply wf_v6 in Hwf as (? & ? & ? & ? & ? & ? & ? & ? & _ & Hf). by apply Forall_cons_iff in Hf as [? _]. }
  destruct (rest_v6 s0 text) as [Hv Hb]; [lia|done|]. cbn [app].
  destruct (segment_digits s0 ltac:(lia)) as (x & l & Hx & _ & Hl).
  rewrite host_plain, Hb; [|done| |by rewrite Hx|done].
  - unfold is_blocked_ip.
    assert (to_ipv4_mapped (s0 :: segs) = None) as ->.
    { unfold to_ipv4_mapped. rewrite (proj2 (Z.eqb_neq s0 0)) by done. by repeat case_match. }
    rewrite (bool_decide_eq_false_2 (s0 :: segs = [0; 0; 0; 0; 0; 0; 0; 1]%Z)) by (by intros [= ? _]).
    by rewrite (bool_decide_eq_false_2 (s0 :: segs = [0; 0; 0; 0; 0; 0; 0; 0]%Z)) by (by intros [= ? _]).
  - rewrite Hx, forallb_app. apply andb_true_iff.
    split; [|cbn [forallb]; apply andb_true_iff; split; [done|]].
    + eapply forallb_impl; [|exact Hl]. intros y Hy. unfold address_char. by rewrite Hy.
    + eapply forallb_impl; [|exact Ht]. intros y Hy. unfold address_char. by rewrite Hy.
Qed.

Lemma zeros_and x y k :
  bool_decide ([0; 0; 0; 0; 0; 0; x; y]%Z = [0; 0; 0; 0; 0; 0; 0; k]%Z) = ((x =? 0) && (y =? k))%Z.
Proof.
  apply eq_true_iff_eq. rewrite bool_decide_eq_true, andb_true_iff, !Z.eqb_eq.
  split; [by intros [= -> ->]|by intros [-> ->]].
Qed.

(** C39: the address guard answers as the SQL check does, for the spellings the check
    knows how to read, and not for IPv4-compatible addresses.  [is_blocked_host] of an
    address written as four numbers, as [::ffff:] and four numbers, as [::], [::1], or
    in hexadecimal groups of which the first is not zero, is [is_blocked_ip] of the
    address.  An IPv4-compatible address, written [::] and four numbers, the check
    reduces to its IPv4 part; the guard blocks it only as [::] and [::1], whatever the
    four numbers are, so [::10.0.0.1] is refused before a call is queued and let
    through when it is dialled. *)
Theorem guards_agree (lower : bytes -> bytes) :
  (forall s, forallb address_char s = true -> lower s = s) ->
  (forall ip t, wf_ip ip = true -> written ip t -> is_blocked_host lower (Some t) = is_blocked_ip ip)
  /\ (forall a b c d, is_blocked_host lower (Some (str "::" ++ dotted a b c d)) = is_blocked_ipv4 a b c d)
  /\ forall a b c d,
       is_blocked_ip (V6 [0; 0; 0; 0; 0; 0; segment a b; segment c d]%Z)
       = ((segment a b =? 0) && ((segment c d =? 0) || (segment c d =? 1)))%Z.
Proof.
  intros Hlower. split_and!.
  - intros ip t Hwf Hw. destruct Hw as [a b c d|a b c d| | |s0 segs text Hs0 Ht].
    + rewrite host_plain; [apply rest_dotted|done|apply dotted_chars|apply dotted_nonempty|].
      unfold dotted. destruct (dec_octet a) as (x & l & -> & [Hx _]%andb_true_iff).
      apply no_colon_v4. by intros ->.
    + rewrite (host_embedded lower Hlower _ (dotted a b c d)), rest_dotted;
        [|by rewrite forallb_app, dotted_chars|apply dotted_chars|apply dotted_nonempty|apply mapped_spelling].
      destruct (segment_back a b) as (Ha & Hb & _), (segment_back c d) as (Hc & Hd & _).
      unfold is_blocked_ip. cbn [to_ipv4_mapped]. by rewrite Ha, Hb, Hc, Hd.
    + by rewrite host_plain.
    + by rewrite host_plain.
    + by apply host_v6.
  - intros a b c d. rewrite (host_embedded lower Hlower _ (dotted a b c d)), rest_dotted; try done;
      [by rewrite forallb_app, dotted_chars|apply dotted_chars|apply dotted_nonempty|apply compatible_spelling].
  - intros a b c d. unfold is_blocked_ip. cbn [to_ipv4_mapped head default].
    change (Z.land 0 65024 =? 64512)%Z with false. change (Z.land 0 65472 =? 65152)%Z with false.
    cbn [Z.eqb andb]. rewrite !zeros_and.
    by destruct (segment a b =? 0)%Z, (segment c d =? 0)%Z, (segment c d =? 1)%Z.
Qed.

Lemma guards_agree_witness :
  is_blocked_host to_ascii_lowercase (Some (str "fe80::1")) = true
  /\ is_blocked_host to_ascii_lowercase (Some (str "::10.0.0.1")) = true
  /\ is_blocked_ip (V6 [0; 0; 0; 0; 0; 0; 2560; 1]%Z) = false.
Proof.
  assert (forall s, forallb address_char s = true -> to_ascii_lowercase s = s) as Hl.
  { induction s as [|b s IH]; [done|]. cbn [forallb]. intros [Hb Hs]%andb_true_iff.
    cbn [to_ascii_lowercase map]. f_equal; [|exact (IH Hs)]. revert Hb. destruct b; done. }
  destruct (guards_agree to_ascii_lowercase Hl) as (H1 & H2 & H3). split_and!.
  - apply (H1 (V6 [65152; 0; 0; 0; 0; 0; 0; 1]%Z)); [reflexivity|].
    apply (written_v6 65152 [0; 0; 0; 0; 0; 0; 1]%Z (str ":1")); [lia|reflexivity].
  - apply (H2 x0a x00 x00 x01).
  - apply (H3 x0a x00 x00 x01).
Defined.

(** Other spellings of a blocked address pass the check by name and are caught by the
    guard. *)
Example mapped_in_hexadecimal :
  is_blocked_host to_ascii_lowercase (Some (str "::ffff:7f00:1")) = false
  /\ is_blocked_ip (V6 [0; 0; 0; 0; 0; 65535; 32512; 1]%Z) = true.
Proof. split; reflexivity. Qed.
