(* ===== verification/Pool.v ===== *)
(** * [src/outbound.rs]: the pool's threads and the cancellation flags

    [spawn_http_pool] as a step relation: the job and result channels, what each thread
    is doing, and the flags the threads share with the main loop.  A thread receives a
    job, registers its guard ([perform_http]), performs the request, drops the guard
    and sends the result, each a step of its own. *)

From S2P Require Import Prelude Utf8 RustStr Net Json Outbound.

(** ** Threads, channels, flags *)

Inductive worker_thread :=
| Idle
| Holding (j : OutboundJob)                    (* received; no guard yet *)
| Performing (j : OutboundJob) (g : CancelGuard)
| Sending (r : OutboundResult).                (* guard dropped, result not sent *)

Record Pool := mk_pool {
  waiting : list OutboundJob;
  workers : list worker_thread;
  finished : list OutboundResult;
  flags : Flags
}.

(** A process starts with idle threads, empty channels and no flag. *)
Definition spawn_http_pool (threads : nat) : Pool :=
  mk_pool [] (repeat Idle threads) [] OUTBOUND_CANCEL_FLAGS_init.

(** The steps of the threads, and those of the main loop: sending a job, receiving a
    result, marking calls cancelled. *)
Inductive pool_event :=
| Sent (j : OutboundJob)
| Taken
| Registered (id : bytes)
| Dropped (id : bytes)
| Completed
| Received (r : OutboundResult)
| Marked (ids : list bytes).

(** The result is whatever [perform_http] comes to. *)
Inductive pool_step : Pool -> pool_event -> Pool -> Prop :=
| pool_send p j :
    pool_step p (Sent j) (mk_pool (waiting p ++ [j]) (workers p) (finished p) (flags p))
| pool_take p j rest i :
    waiting p = j :: rest -> workers p !! i = Some Idle ->
    pool_step p Taken (mk_pool rest (<[i := Holding j]> (workers p)) (finished p) (flags p))
| pool_register p i j :
    workers p !! i = Some (Holding j) ->
    pool_step p (Registered (j_id j))
      (mk_pool (waiting p) (<[i := Performing j (register (flags p) (j_id j)).2]> (workers p)) (finished p)
         (register (flags p) (j_id j)).1)
| pool_drop p i j g status body :
    workers p !! i = Some (Performing j g) ->
    pool_step p (Dropped (j_id j))
      (mk_pool (waiting p) (<[i := Sending (mk_result (j_id j) (j_queue j) status body)]> (workers p))
         (finished p) (drop_guard (flags p) g))
| pool_finish p i r :
    workers p !! i = Some (Sending r) ->
    pool_step p Completed
      (mk_pool (waiting p) (<[i := Idle]> (workers p)) (finished p ++ [r]) (flags p))
| pool_recv p r rest :
    finished p = r :: rest ->
    pool_step p (Received r) (mk_pool (waiting p) (workers p) rest (flags p))
| pool_mark p ids :
    pool_step p (Marked ids) (mk_pool (waiting p) (workers p) (finished p) (set_flags (flags p) ids)).

Inductive pool_run : Pool -> list pool_event -> Pool -> Prop :=
| pool_done p : pool_run p [] p
| pool_more p e p' es p'' : pool_step p e p' -> pool_run p' es p'' -> pool_run p (e :: es) p''.

(** ** The pool loses no job *)

Definition job_call (j : OutboundJob) : bytes * OutboundQueue := (j_id j, j_queue j).
Definition result_call (r : OutboundResult) : bytes * OutboundQueue := (r_id r, r_queue r).

Definition thread_call (w : worker_thread) : option (bytes * OutboundQueue) :=
  match w with
  | Idle => None
  | Holding j | Performing j _ => Some (job_call j)
  | Sending r => Some (result_call r)
  end.

(** The calls in the pool, by id and queue. *)
Definition pool_calls (p : Pool) : list (bytes * OutboundQueue) :=
  map job_call (waiting p) ++ omap thread_call (workers p) ++ map result_call (finished p).

Definition sends (es : list pool_event) : list OutboundJob :=
  omap (fun e => match e with Sent j => Some j | _ => None end) es.
Definition receives (es : list pool_event) : list OutboundResult :=
  omap (fun e => match e with Received r => Some r | _ => None end) es.
Definition marks (es : list pool_event) : list (list bytes) :=
  omap (fun e => match e with Marked ids => Some ids | _ => None end) es.

(** What a thread holds before and after its step. *)
Lemma omap_update {A B} (f : A -> option B) l i x y :
  l !! i = Some x ->
  option_list (f x) ++ omap f (<[i := y]> l) ≡ₚ option_list (f y) ++ omap f l.
Proof.
  revert i. induction l as [|z l IH]; intros [|i] Hi; [done..| |].
  - injection Hi as ->. change (<[0 := y]> (x :: l)) with (y :: l). cbn [omap list_omap].
    destruct (f x), (f y); simpl; try done. apply Permutation_swap.
  - change (<[S i := y]> (z :: l)) with (z :: <[i := y]> l). cbn [omap list_omap].
    specialize (IH i Hi). destruct (f z) as [b|]; [|exact IH].
    rewrite <- !Permutation_middle. by rewrite IH.
Qed.

Lemma pool_step_conserves p e p' :
  pool_step p e p' ->
  pool_calls p ++ map job_call (sends [e]) ≡ₚ map result_call (receives [e]) ++ pool_calls p'.
Proof.
  unfold pool_calls. intros Hs.
  destruct Hs as [p j|p j rest i Hw Hi|p i j Hi|p i j g st bd Hi|p i r Hi|p r rest Hf|p ids];
    cbn [sends receives omap list_omap map waiting workers finished app]; rewrite ?app_nil_r; try done.
  - rewrite map_app. simpl. solve_Permutation.
  - pose proof (omap_update thread_call _ _ _ (Holding j) Hi) as Hu. simpl in Hu. rewrite Hw, Hu. simpl.
    solve_Permutation.
  - pose proof (omap_update thread_call _ _ _ (Performing j (register (flags p) (j_id j)).2) Hi) as Hu.
    simpl in Hu. apply Permutation_cons_inv in Hu. by rewrite Hu.
  - pose proof (omap_update thread_call _ _ _ (Sending (mk_result (j_id j) (j_queue j) st bd)) Hi) as Hu.
    simpl in Hu. apply Permutation_cons_inv in Hu. by rewrite Hu.
  - pose proof (omap_update thread_call _ _ _ Idle Hi) as Hu. simpl in Hu. rewrite map_app, <- Hu. simpl.
    solve_Permutation.
  - rewrite Hf. simpl. solve_Permutation.
Qed.

Lemma sends_cons e es : sends (e :: es) = sends [e] ++ sends es.
Proof. by destruct e. Qed.
Lemma receives_cons e es : receives (e :: es) = receives [e] ++ receives es.
Proof. by destruct e. Qed.

(** The pool neither loses nor duplicates nor misroutes a call: in every interleaving of
    the threads with the main loop, what was in it and what is sent is, by id and
    queue, what is received and what is left in it. *)
Lemma pool_run_conserves p es p' :
  pool_run p es p' ->
  pool_calls p ++ map job_call (sends es) ≡ₚ map result_call (receives es) ++ pool_calls p'.
Proof.
  intros Hr. induction Hr as [p|p e p1 es p' Hs _ IH]; [by rewrite app_nil_r|].
  rewrite sends_cons, receives_cons, !map_app.
  rewrite app_assoc, (pool_step_conserves _ _ _ Hs), <- app_assoc, IH. by rewrite <- app_assoc.
Qed.

Lemma pool_calls_init threads : pool_calls (spawn_http_pool threads) = [].
Proof. unfold pool_calls. simpl. rewrite app_nil_r. by induction threads as [|n IH]. Qed.

(** ** No id in flight twice *)

Definition unique (p : Pool) : Prop := NoDup (map fst (pool_calls p)).

(** Every state of the run is [unique]. *)
Inductive unique_run : Pool -> list pool_event -> Pool -> Prop :=
| unique_done p : unique p -> unique_run p [] p
| unique_more p e p' es p'' :
    unique p -> pool_step p e p' -> unique_run p' es p'' -> unique_run p (e :: es) p''.

Lemma unique_sub p l l' : l ++ pool_calls p ≡ₚ l' -> NoDup (map fst l') -> unique p.
Proof.
  intros Hp Hn. unfold unique. rewrite <- Hp, map_app in Hn. by apply list.NoDup_app in Hn as (_ & _ & ?).
Qed.

(** Where nothing is sent, uniqueness at the start is enough; where nothing is received,
    uniqueness at the end. *)
Lemma unique_run_forward p es p' : pool_run p es p' -> sends es = [] -> unique p -> unique_run p es p'.
Proof.
  intros Hr. induction Hr as [p|p e p1 es p' Hs _ IH]; intros Hn Hu; [by apply unique_done|].
  rewrite sends_cons in Hn. apply app_eq_nil in Hn as [Hn1 Hn2].
  eapply unique_more; [done|exact Hs|]. apply IH; [done|].
  pose proof (pool_step_conserves _ _ _ Hs) as Hc. rewrite Hn1, app_nil_r in Hc.
  eapply unique_sub; [symmetry; exact Hc|exact Hu].
Qed.

Lemma unique_run_backward p es p' : pool_run p es p' -> receives es = [] -> unique p' -> unique_run p es p'.
Proof.
  intros Hr. induction Hr as [p|p e p1 es p' Hs Hr IH]; intros Hn Hu; [by apply unique_done|].
  rewrite receives_cons in Hn. apply app_eq_nil in Hn as [Hn1 Hn2].
  specialize (IH Hn2 Hu). assert (unique p1) as Hu1 by by destruct IH.
  eapply unique_more; [|exact Hs|exact IH].
  pose proof (pool_step_conserves _ _ _ Hs) as Hc. rewrite Hn1 in Hc. simpl in Hc.
  eapply unique_sub; [|exact Hu1]. rewrite <- Hc. apply Permutation_app_comm.
Qed.

Lemma unique_run_app p es p1 es' p' : unique_run p es p1 -> unique_run p1 es' p' -> unique_run p (es ++ es') p'.
Proof.
  intros Hr Hr'. induction Hr as [p Hu|p e p2 es p1 Hu Hs _ IH]; [done|].
  eapply unique_more; [done|exact Hs|by apply IH].
Qed.

Lemma omap_NoDup_ne {A B} (f : A -> option (bytes * B)) l i i' x x' c c' :
  NoDup (map fst (omap f l)) -> l !! i = Some x -> l !! i' = Some x' ->
  f x = Some c -> f x' = Some c' -> fst c = fst c' -> i = i'.
Proof.
  intros Hn Hi Hi' Hx Hx' He. revert i i' Hi Hi'. induction l as [|z l IH]; intros i i' Hi Hi'; [done|].
  assert (forall k y d, l !! k = Some y -> f y = Some d -> fst d ∈ map fst (omap f l)) as Hin.
  { intros k y d Hk Hy. apply list_elem_of_In, in_map_iff. exists d. split; [done|].
    apply list_elem_of_In, list_elem_of_omap. exists y. split; [by eapply list_elem_of_lookup_2|done]. }
  cbn [omap list_omap] in Hn. destruct i as [|i], i' as [|i']; [done|..]; simpl in Hi, Hi'.
  - injection Hi as ->. rewrite Hx in Hn. simpl in Hn. apply list.NoDup_cons in Hn as [Hn _].
    exfalso. apply Hn. rewrite He. by eapply Hin.
  - injection Hi' as ->. rewrite Hx' in Hn. simpl in Hn. apply list.NoDup_cons in Hn as [Hn _].
    exfalso. apply Hn. rewrite <- He. by eapply Hin.
  - f_equal. apply IH; [|done..]. destruct (f z); [|exact Hn]. by apply list.NoDup_cons in Hn as [_ ?].
Qed.

(** Two threads never hold calls of one id. *)
Lemma unique_threads p i i' w w' c c' :
  unique p -> workers p !! i = Some w -> workers p !! i' = Some w' ->
  thread_call w = Some c -> thread_call w' = Some c' -> fst c = fst c' -> i = i'.
Proof.
  intros Hu. apply omap_NoDup_ne. unfold unique, pool_calls in Hu. rewrite !map_app in Hu.
  apply list.NoDup_app in Hu as (_ & _ & Hu). by apply list.NoDup_app in Hu as (? & _ & _).
Qed.

(** ** The flags the threads see *)

(** The events as operations on the flags. *)
Definition flag_ops (es : list pool_event) : list flag_op :=
  omap (fun e => match e with
                 | Registered id => Some (OpStart id)
                 | Dropped id => Some (OpFinish id)
                 | Marked ids => Some (OpLost ids)
                 | _ => None end) es.

Definition performs (p : Pool) (id : bytes) (g : CancelGuard) : Prop :=
  exists i j, workers p !! i = Some (Performing j g) /\ j_id j = id.

(** The pool's flags are in step with the abstract table [t] of running calls. *)
Definition flags_track (p : Pool) (t : gmap bytes bool) : Prop :=
  exists guards, flags_agree (flags p, guards) t
    /\ forall id g, guards !! id = Some g <-> performs p id g.

Lemma flags_track_init threads : flags_track (spawn_http_pool threads) ∅.
Proof.
  exists ∅. split; [by repeat split|]. intros id g. rewrite lookup_empty. split; [done|].
  intros (i & j & Hi & _). simpl in Hi. apply list_elem_of_lookup_2, list_elem_of_In, repeat_spec in Hi. done.
Qed.

(** A thread that neither performs before nor after its step changes no guard. *)
Lemma performs_insert p p' i w id g :
  workers p' = <[i := w]> (workers p) ->
  (forall j g, w <> Performing j g) ->
  (forall j g, workers p !! i <> Some (Performing j g)) ->
  performs p' id g <-> performs p id g.
Proof.
  intros Hw Hn Ho. split; intros (k & j & Hk & Hid); exists k, j; (split; [|done]).
  - rewrite Hw in Hk. apply list_lookup_insert_Some in Hk as [(_ & Hj & _)|[_ Hk]]; [by apply Hn in Hj|done].
  - rewrite Hw. destruct (decide (i = k)) as [->|Hne]; [by apply Ho in Hk|].
    by rewrite list_lookup_insert_ne.
Qed.

Lemma flags_track_step p e p' t :
  unique p -> pool_step p e p' -> flags_track p t ->
  flags_track p' (fold_left table_step (flag_ops [e]) t).
Proof.
  intros Hu Hs (guards & Ha & Hg).
  destruct Hs as [p j|p j rest i Hw Hi|p i j Hi|p i j g st bd Hi|p i r Hi|p r rest Hf|p ids];
    cbn [flag_ops omap list_omap fold_left]; try (by exists guards).
  - exists guards. split; [done|]. intros id g. rewrite Hg. symmetry.
    apply (performs_insert p _ i (Holding j)); [done|done|]. intros j' g'. by rewrite Hi.
  - assert (guards !! j_id j = None) as Hfresh.
    { apply eq_None_not_Some. intros [g (i' & j' & Hi' & Hid)%Hg].
      assert (i = i') as <-.
      { by eapply (unique_threads p i i' _ _ (job_call j) (job_call j')). }
      congruence. }
    exists (<[j_id j := (register (flags p) (j_id j)).2]> guards). split.
    + pose proof (agree_start (flags p) guards t (j_id j) Ha Hfresh) as Hs. cbn [flag_step] in Hs.
      by destruct (register (flags p) (j_id j)).
    + intros id g. rewrite lookup_insert_Some. split.
      * intros [[<- <-]|[Hne (i' & j' & Hi' & Hid)%Hg]].
        -- exists i, j. split; [|done]. cbn [workers]. apply list_lookup_insert_eq. by eapply lookup_lt_Some.
        -- exists i', j'. split; [|done]. cbn [workers]. rewrite list_lookup_insert_ne; [done|]. congruence.
      * intros (i' & j' & Hi' & Hid). cbn [workers] in Hi'.
        apply list_lookup_insert_Some in Hi' as [(_ & [= <- <-] & _)|[Hne Hi']]; [by left|].
        right. split; [|apply Hg; by exists i', j']. intros He. apply Hne.
        eapply (unique_threads p i i' _ _ (job_call j) (job_call j')); [done..|]. simpl. congruence.
  - assert (guards !! j_id j = Some g) as Hgj by (apply Hg; by exists i, j).
    exists (delete (j_id j) guards). split.
    + pose proof (agree_finish (flags p, guards) t (j_id j) Ha) as Hs. cbn [flag_step] in Hs.
      by rewrite Hgj in Hs.
    + intros id g'. rewrite lookup_delete_Some. split.
      * intros [Hne (i' & j' & Hi' & Hid)%Hg]. exists i', j'. split; [|done]. cbn [workers].
        rewrite list_lookup_insert_ne; [done|]. congruence.
      * intros (i' & j' & Hi' & Hid). cbn [workers] in Hi'.
        apply list_lookup_insert_Some in Hi' as [(_ & Hj & _)|[Hne Hi']]; [done|].
        split; [|apply Hg; by exists i', j']. intros He. apply Hne.
        eapply (unique_threads p i i' _ _ (job_call j) (job_call j')); [done..|]. simpl. congruence.
  - exists guards. split; [done|]. intros id g. rewrite Hg. symmetry.
    apply (performs_insert p _ i Idle); [done|done|]. intros j' g'. by rewrite Hi.
  - exists guards. split; [|done]. by apply (agree_lost (flags p) guards t ids).
Qed.

Lemma flag_ops_app es es' : flag_ops (es ++ es') = flag_ops es ++ flag_ops es'.
Proof. apply omap_app. Qed.

Lemma flags_track_run p es p' : unique_run p es p' -> forall t,
  flags_track p t -> flags_track p' (fold_left table_step (flag_ops es) t).
Proof.
  intros Hr. induction Hr as [p Hu|p e p1 es p' Hu Hs _ IH]; intros t Ht; [done|].
  change (e :: es) with ([e] ++ es). rewrite flag_ops_app, fold_left_app.
  apply IH. by eapply flags_track_step.
Qed.

(** What the table says of a running call: it is cancelled where some marking since it
    registered named it. *)
Definition marked_since (id : bytes) (ops : list flag_op) : Prop :=
  exists pre ids post, ops = pre ++ OpLost ids :: post /\ id ∈ ids /\ OpStart id ∉ post.

Lemma table_marked ops id b :
  fold_left table_step ops ∅ !! id = Some b -> (b = true <-> marked_since id ops).
Proof.
  revert b. induction ops as [|op ops IH] using rev_ind; intros b; [done|].
  rewrite fold_left_app. cbn [fold_left]. set (t := fold_left table_step ops ∅) in *.
  assert (forall op', op' <> OpStart id -> (forall ids, op' = OpLost ids -> id ∉ ids) ->
    marked_since id (ops ++ [op']) <-> marked_since id ops) as Hkeep.
  { intros op' Hs Hl. split.
    - intros (pre & ids & post & He & Hin & Hn).
      destruct post as [|x post _] using rev_ind.
      + apply app_inj_tail in He as [-> ->]. by apply (Hl ids) in Hin.
      + rewrite app_comm_cons, app_assoc in He. apply app_inj_tail in He as [-> ->].
        exists pre, ids, post. split; [done|]. split; [done|]. set_solver.
    - intros (pre & ids & post & -> & Hin & Hn). exists pre, ids, (post ++ [op']).
      split; [by rewrite <- app_assoc|]. split; [done|]. set_solver. }
  destruct op as [id'|id'|ids]; cbn [table_step].
  - rewrite lookup_insert_Some. intros [[-> <-]|[Hne Hb]].
    + split; [done|]. intros (pre & ids & post & He & Hin & Hn). exfalso.
      destruct post as [|x post _] using rev_ind.
      * apply app_inj_tail in He as [_ He]. done.
      * rewrite app_comm_cons, app_assoc in He. apply app_inj_tail in He as [_ <-]. set_solver.
    + rewrite (IH b Hb). symmetry. apply Hkeep; congruence.
  - rewrite lookup_delete_Some. intros [Hne Hb]. rewrite (IH b Hb). symmetry. by apply Hkeep.
  - rewrite map_lookup_imap. destruct (t !! id) as [b0|] eqn:Hb; [|done]. simpl. intros [= <-].
    destruct (decide (id ∈ ids)) as [Hin|Hin].
    + rewrite bool_decide_eq_true_2, orb_true_r by done. split; [|done]. intros _.
      exists ops, ids, []. split; [done|]. split; [done|]. apply not_elem_of_nil.
    + rewrite bool_decide_eq_false_2, orb_false_r by done. rewrite (IH b0 eq_refl).
      symmetry. apply Hkeep; [done|]. by intros ids' [= <-].
Qed.
