(* ===== verification/RuntimeWorker.v ===== *)
(** * [src/runtime_worker.rs] and [src/rpc.rs]: the runtime worker

    The transactions the worker runs (claims, completions, the dashboard RPC), the
    RPC socket's protocol, and one turn of the main loop. *)

From S2P Require Import Prelude Utf8 RustStr Net Json Spi Privilege Sandbox.
From S2P Require Import FunctionExec ProcedureExec Outbound.

(** ** Constants of [src/lib.rs] *)

Definition HTTP_THREADS : nat := 4.
Definition HTTP_TIMEOUT_SECS : Z := 45.
Definition PUMP_BUSY : Z := from_millis 150.
Definition PUMP_IDLE_MIN : Z := from_millis 500.
Definition PUMP_IDLE_MAX : Z := from_secs 4.
Definition MAX_REQUEST_BYTES : nat := N.to_nat 1048576.

Section worker.
Context `{WorkerEnv}.

(** ** Transactions *)

Definition extension_is_installed : prog bool :=
  transaction (
    let* r := spi_get_bool EXTENSION_INSTALLED [] in
    Ret (default false (ok_flatten r))).

(** [v.as_array().map(|a| a.iter().filter_map(as_str))] *)
Definition strings_of (v : json) : list bytes := filter_map as_str (default [] (as_array v)).

Definition CHECK_LOST : bytes :=
  str "SELECT to_jsonb(allgres_public.fn_check_lost_outbound($1::text[]::uuid[]))".

(** The transaction of [propagate_outbound_cancellations]. *)
Definition lost_calls (ids : list bytes) : prog (list bytes) :=
  transaction (
    let* dropped := drop_privileges in
    if negb dropped then Ret []
    else
      let* r := spi_get_json CHECK_LOST [ATexts ids] in
      Ret (match r with Ok (Some v) => strings_of v | _ => [] end)).

(** The ids to mark, given the keys the map had when its lock was first taken; the lock
    is taken again for the marking ([set_flags]), on whatever the map holds by then. *)
Definition propagate_outbound_cancellations (ids : list bytes) : prog (list bytes) :=
  match ids with
  | [] => Ret []
  | _ => lost_calls ids
  end.

Definition CLAIM_OUTBOUND : bytes := str "SELECT allgres_public.fn_claim_outbound($1)".
Definition CLAIM_OAUTH : bytes := str "SELECT allgres_public.fn_claim_oauth($1)".
Definition CLAIM_EMBEDDING : bytes := str "SELECT allgres_public.fn_claim_agent_embedding($1)".
Definition CLAIM_PROBE : bytes := str "SELECT allgres_public.fn_claim_provider_probe($1)".

(** [if let Err(e) = .. { warning!(..) }] *)
Definition warn_err {A} (text : bytes) (p : prog (result A)) : prog unit :=
  let* r := p in match r with Ok _ => Ret tt | Err e => warning (text ++ e) end.

Definition dispatch_and_claim (limit : nat) : prog json :=
  transaction (
    let* dropped := drop_privileges in
    if negb dropped then Ret (nothing_claimed (str "calls"))
    else
      warn_err (str "Allgres: fn_watchdog failed: ")
        (spi_get_json (str "SELECT allgres_public.fn_watchdog($1)")
           [AInt (Some (as_i32 HTTP_TIMEOUT_SECS * 2)%Z)]) ;;
      warn_err (str "Allgres: fn_dispatch_tasks failed: ")
        (spi_get_json (str "SELECT allgres_public.fn_dispatch_tasks()") []) ;;
      let* r := spi_get_json CLAIM_OUTBOUND [AInt (Some (as_i32 (Z.of_nat limit)))] in
      Ret (default (nothing_claimed (str "calls")) (ok_flatten r))).

Definition claim_oauth_jobs (limit : Z) : prog json := claim CLAIM_OAUTH (str "calls") limit.

Definition claim_agent_embedding_jobs (limit : Z) : prog json :=
  claim CLAIM_EMBEDDING (str "calls") limit.

Definition claim_provider_probe_jobs (limit : Z) : prog json :=
  claim CLAIM_PROBE (str "calls") limit.

(** [truncate_utf8(&body.replace('\0', ""), MAX_RESPONSE_BYTES)] *)
Definition clean_body (body : bytes) : bytes :=
  truncate_utf8 (List.filter (fun b => b != x00) body) MAX_RESPONSE_BYTES.

(** The body shared by the four functions that record an HTTP result, with the name
    of the SQL function. *)
Definition submit_result_to (fn : bytes) (call_id : bytes) (status : Z) (body : bytes) : prog unit :=
  record
    (str "Allgres: skipping " ++ fn ++ str " for call " ++ call_id ++ str " -- privilege drop failed")
    (str "Allgres: " ++ fn ++ str " failed for call " ++ call_id ++ str ": ")
    (spi_get_json (str "SELECT allgres_public." ++ fn ++ str "($1::uuid, $2, $3)")
       [AStr (Some call_id); AInt (Some status); AStr (Some (clean_body body))]).

Definition submit_http_result := submit_result_to (str "fn_complete_outbound").
Definition submit_oauth_result := submit_result_to (str "fn_complete_oauth").
Definition submit_agent_embedding_result := submit_result_to (str "fn_complete_agent_embedding").
Definition submit_provider_probe_result := submit_result_to (str "fn_complete_provider_probe").

(** ** The RPC socket *)

Section rpc.
Context `{SerdeJson}.

Definition rpc_error (code : string) : bytes :=
  to_string (jobj [(str "ok", JBool false); (str "error", JStr (str code))]).

Definition DASHBOARD_RPC : bytes := str "SELECT allgres.dashboard_rpc($1::jsonb)".

Definition dashboard_rpc (request : bytes) : prog bytes :=
  transaction (
    let* dropped := drop_privileges in
    if negb dropped then Ret (rpc_error "privilege_drop_failed")
    else
      let* r := spi_get_json DASHBOARD_RPC [AStr (Some request)] in
      Ret (match ok_flatten r with
           | Some v => to_string v
           | None => rpc_error "empty_rpc_result"
           end)).

(** [handle_rpc_stream] on what the stream yields up to its end; [None] where reading
    fails.  The result is what is written back. *)
Definition handle_rpc_stream (stream : option bytes) (ready : bool) : prog bytes :=
  match stream with
  | None => Ret (rpc_error "rpc_read_failed")
  | Some data =>
    let body := take MAX_REQUEST_BYTES data in
    if utf8_valid body && (match from_str body with Some _ => true | None => false end) then
      if ready then dashboard_rpc body else Ret (rpc_error "extension_not_installed")
    else Ret (rpc_error "invalid_json_request")
  end.

(** ** The main loop *)

Record LoopState := mk_loop {
  in_flight : nat;
  ready : bool;
  next_pump : Z;
  idle_delay : Z
}.

(** The capacity of the pool, and the state the loop starts from. *)
Definition capacity : nat := HTTP_THREADS * 2.

Definition loop_init (now : Z) : LoopState := mk_loop 0 false now PUMP_IDLE_MIN.

(** What one turn of the loop meets: the connections waiting on the RPC socket, the
    results in the channel, the clock when the turn checks its schedule and when it
    sets the next one, the clock of the builds, and whether the pool's threads still
    take jobs. *)
Record Turn := mk_loop_turn {
  streams : list (option bytes);
  results : list OutboundResult;
  now_check : Z;
  now_end : Z;
  build_clock : nat -> Z;
  pool_open : bool
}.

(** 1. Dashboard RPC. *)
Fixpoint serve_rpc (rdy : bool) (ss : list (option bytes)) : prog unit :=
  match ss with
  | [] => Ret tt
  | s :: rest => handle_rpc_stream s rdy ;; serve_rpc rdy rest
  end.

Definition submit_result (r : OutboundResult) : prog unit :=
  match r_queue r with
  | Outbound => submit_http_result (r_id r) (r_status r) (r_body r)
  | Oauth => submit_oauth_result (r_id r) (r_status r) (r_body r)
  | AgentEmbedding => submit_agent_embedding_result (r_id r) (r_status r) (r_body r)
  | ProviderProbe => submit_provider_probe_result (r_id r) (r_status r) (r_body r)
  end.

(** 2. Harvest. *)
Fixpoint harvest (n : nat) (rs : list OutboundResult) : prog nat :=
  match rs with
  | [] => Ret n
  | r :: rest => submit_result r ;; harvest (pred n) rest
  end.

(** [if let Some(obj) = call.as_object_mut() { obj.insert("kind", ..) }], where the
    queue forces a kind. *)
Definition with_kind (kind : option bytes) (call : json) : json :=
  match kind, call with
  | Some k, JObj m => JObj (obj_insert (str "kind") (JStr k) m)
  | _, _ => call
  end.

(** The [for] loop that turns claimed calls into jobs. *)
Fixpoint enqueue (q : OutboundQueue) (kind : option bytes) (open : bool) (calls : list json)
  : list OutboundJob :=
  match calls with
  | [] => []
  | call :: rest =>
    match get_str call (str "call_id") with
    | None => enqueue q kind open rest
    | Some cid =>
      if negb (valid_uuid cid) then enqueue q kind open rest
      else if negb open then []
      else mk_job cid q (with_kind kind call) :: enqueue q kind open rest
    end
  end.

(** 3. One of the four claims: the jobs it sends, [n] calls being in flight. *)
Definition pump_queue (rdy open : bool) (q : OutboundQueue) (kind : option bytes)
    (claim_jobs : nat -> prog json) (n : nat) : prog (list OutboundJob) :=
  if rdy && (n <? capacity)%nat then
    let* claimed := claim_jobs (capacity - n)%nat in
    Ret (match get_array claimed (str "calls") with
         | Some calls => enqueue q kind open calls
         | None => []
         end)
  else Ret [].

Definition i32_of (f : Z -> prog json) (n : nat) : prog json := f (as_i32 (Z.of_nat n)).

(** The backoff at the end of a pump. *)
Definition reschedule (worked : bool) (now idle : Z) : Z * Z :=
  if worked then ((now + PUMP_BUSY)%Z, PUMP_IDLE_MIN)
  else ((now + idle)%Z, Z.min (idle * 2) PUMP_IDLE_MAX).

Definition when (c : bool) (p : prog nat) : prog nat := if c then p else Ret 0%nat.

(** 3. to 6.: the pump, with [n] calls in flight. *)
Definition pump (st : LoopState) (t : Turn) (n : nat) : prog (LoopState * list OutboundJob) :=
  let* rdy := extension_is_installed in
  let open := pool_open t in
  let* j1 := pump_queue rdy open Outbound None dispatch_and_claim n in
  let n1 := (n + length j1)%nat in
  let* j2 := pump_queue rdy open Oauth (Some (str "oauth")) (i32_of claim_oauth_jobs) n1 in
  let n2 := (n1 + length j2)%nat in
  let* j3 := pump_queue rdy open AgentEmbedding (Some (str "embedding"))
               (i32_of claim_agent_embedding_jobs) n2 in
  let n3 := (n2 + length j3)%nat in
  let* j4 := pump_queue rdy open ProviderProbe (Some (str "function"))
               (i32_of claim_provider_probe_jobs) n3 in
  let n4 := (n3 + length j4)%nat in
  let* sql_ran := when rdy pump_sql in
  let* f1 := when rdy (pump_function_builds (build_clock t)) in
  let* f2 := when rdy pump_function_calls in
  let* p1 := when rdy (pump_procedure_builds (build_clock t)) in
  let* p2 := when rdy pump_procedure_calls in
  let jobs := j1 ++ j2 ++ j3 ++ j4 in
  let worked := ((0 <? length jobs) || (0 <? sql_ran) || (0 <? f1 + f2) || (0 <? p1 + p2))%nat in
  let '(next, idle) := reschedule worked (now_end t) (idle_delay st) in
  Ret (mk_loop n4 rdy next idle, jobs).

(** One turn of the loop, with the ids that run on the pool's threads: the state, the
    ids to mark cancelled and the jobs sent to the pool. *)
Definition loop_turn (st : LoopState) (ids : list bytes) (t : Turn)
  : prog (LoopState * list bytes * list OutboundJob) :=
  serve_rpc (ready st) (streams t) ;;
  let* n := harvest (in_flight st) (results t) in
  let* lost := propagate_outbound_cancellations ids in
  if (now_check t <? next_pump st)%Z
  then Ret (mk_loop n (ready st) (next_pump st) (idle_delay st), lost, [])
  else
    let* r := pump st t n in
    Ret (fst r, lost, snd r).
End rpc.
End worker.

#[local] Arguments str : simpl never.

(** ** Privileges *)

Section privileges.
Context `{WorkerEnv} (Henv : env_drop_privileges <> Some (str "0")).
Implicit Types (st : @mstate privileges).

(** A program that issues nothing it may not, in whatever state it starts. *)
Definition priv_safe {A} (p : prog A) : Prop := forall st, wp (M := privileges) st p (fun _ _ => True).

Lemma priv_safe_ret {A} (a : A) : priv_safe (Ret a).
Proof. done. Qed.

Lemma priv_safe_bind {A B} (p : prog A) (f : A -> prog B) :
  priv_safe p -> (forall a, priv_safe (f a)) -> priv_safe (bind p f).
Proof.
  intros Hp Hf st. apply wp_bind. eapply wp_mono; [apply Hp|]. intros [a|m] s _; [apply Hf|done].
Qed.

Lemma priv_safe_if {A} (c : bool) (p q : prog A) :
  priv_safe p -> priv_safe q -> priv_safe (if c then p else q).
Proof. by destruct c. Qed.

Lemma priv_safe_control {A} c (k : reply -> prog A) :
  (forall sql args, c <> Spi sql args) -> (forall r, priv_safe (k r)) -> priv_safe (Do c k).
Proof. intros Hc Hk st. split; [by destruct c; try done; destruct (Hc sql args)|]. intros r. apply Hk. Qed.

Lemma drop_privileges_wp st (Q : outcome bool -> bool -> Prop) :
  Q (Returned true) true -> (forall s, Q (Returned false) s) -> (forall m s, Q (Raising m) s) ->
  wp (M := privileges) st drop_privileges Q.
Proof.
  intros Ht Hf Hm. unfold drop_privileges. rewrite bool_decide_eq_false_2 by done.
  split; [by left|]. intros [[[[]| | |]|]|e|m]; simpl; auto.
Qed.

(** The body of a transaction that drops its privileges first. *)
Lemma priv_safe_dropped {A} (p q : prog A) :
  priv_safe q -> wp (M := privileges) true p (fun _ _ => True) ->
  priv_safe (let* d := drop_privileges in if negb d then q else p).
Proof. intros Hq Hp st. apply wp_bind, drop_privileges_wp; [done|intros s; apply Hq|done]. Qed.

Lemma priv_safe_transaction {A} (p : prog A) : priv_safe p -> priv_safe (transaction p).
Proof.
  intros Hp. apply priv_safe_control; [done|]. intros r.
  apply priv_safe_bind; [done|]. intros a. by apply priv_safe_control.
Qed.

Lemma dropped_json sql args (Q : _ -> bool -> Prop) :
  sql <> ASSUME_WORKER_ROLE -> (forall o, Q o true) ->
  wp (M := privileges) true (spi_get_json sql args) Q.
Proof.
  intros Hs HQ. apply wp_spi_get_json; [by right; right|intros x r|intros m r];
    simpl; rewrite bool_decide_eq_false_2 by done; apply HQ.
Qed.

Lemma claim_safe sql field limit : sql <> ASSUME_WORKER_ROLE -> priv_safe (claim sql field limit).
Proof.
  intros Hs. apply priv_safe_transaction, priv_safe_dropped; [done|].
  apply wp_bind, dropped_json; [done|]. by intros [].
Qed.

Lemma record_safe {A} skipped failed (p : prog (result A)) :
  wp (M := privileges) true p (fun _ _ => True) -> priv_safe (record skipped failed p).
Proof.
  intros Hp. apply priv_safe_transaction, priv_safe_dropped; [by apply priv_safe_control|].
  apply wp_bind. eapply wp_mono; [exact Hp|]. by intros [[]|] s _.
Qed.

Lemma dropped_run sql args :
  wp (M := privileges) true (spi_run sql args) (fun _ _ => True).
Proof. split; [by right; right|]. by intros []. Qed.

Lemma subtransaction_safe f : priv_safe f -> priv_safe (transaction (run_in_subtransaction f)).
Proof. intros Hf st. apply wp_in_subtransaction; [by intros s []|]. intros. apply Hf. Qed.

(** A chain of settings behind the drop. *)
Lemma guarded_safe {A} (q : prog bool) (no yes : prog A) :
  priv_safe no ->
  wp (M := privileges) true q (fun o s => o = Returned true -> s = true) ->
  wp (M := privileges) true yes (fun _ _ => True) ->
  priv_safe (let* d := and_then drop_privileges q in if negb d then no else yes).
Proof.
  intros Hno Hq Hyes st. apply wp_bind, wp_and_then, drop_privileges_wp; [|intros s; apply Hno|done].
  eapply wp_mono; [exact Hq|]. intros [[]|m] s Hs; [|apply Hno|done]. by rewrite Hs.
Qed.

Lemma setting_safe sql args :
  sql <> ASSUME_WORKER_ROLE ->
  wp (M := privileges) true (spi_run_ok sql args) (fun o s => o = Returned true -> s = true).
Proof.
  intros Hs. apply wp_spi_run_ok; [by right; right|..]; intros; try done.
  simpl. by rewrite bool_decide_eq_false_2.
Qed.

Lemma settings_safe sql args q :
  sql <> ASSUME_WORKER_ROLE ->
  wp (M := privileges) true q (fun o s => o = Returned true -> s = true) ->
  wp (M := privileges) true (and_then (spi_run_ok sql args) q) (fun o s => o = Returned true -> s = true).
Proof.
  intros Hs Hq. apply wp_and_then. apply wp_spi_run_ok; [by right; right|..]; intros; try done.
  simpl. by rewrite bool_decide_eq_false_2.
Qed.

Lemma timed_safe ms sql args none :
  wp (M := privileges) true (with_statement_timeout ms sql args none) (fun _ _ => True).
Proof. split; [done|]. intros r. split; [by right; right|]. intros [[[]|]| |]; simpl; auto. Qed.

Lemma run_sandboxed_sql_safe agent_id sql pg_role : priv_safe (run_sandboxed_sql agent_id sql pg_role).
Proof.
  apply subtransaction_safe, guarded_safe; [done| |apply timed_safe].
  repeat (apply settings_safe; [discriminate|]). by apply setting_safe.
Qed.

Lemma run_as_agent_safe role ms unavailable sql args :
  priv_safe (run_as_agent role ms unavailable sql args).
Proof.
  apply subtransaction_safe, guarded_safe; [done| |apply timed_safe].
  repeat (apply settings_safe; [discriminate|]). by apply setting_safe.
Qed.

Lemma run_ddl_safe ddl : priv_safe (run_ddl ddl).
Proof.
  apply subtransaction_safe, guarded_safe; [done|by apply setting_safe|].
  apply wp_bind. eapply wp_mono; [apply dropped_run|]. by intros [].
Qed.

Lemma pump_sql_calls_safe n cs : priv_safe (pump_sql_calls n cs).
Proof.
  revert n. induction cs as [|c cs IH]; intros n; [done|]. cbn [pump_sql_calls].
  repeat (case_match; [|apply IH]). apply priv_safe_if; [apply IH|].
  apply priv_safe_bind; [apply run_sandboxed_sql_safe|]. intros o.
  apply priv_safe_bind; [|intros; apply IH]. by apply record_safe, dropped_json.
Qed.

Lemma pump_builds_safe key clock build submit n bs :
  (forall z i b, priv_safe (build z i b)) -> (forall i o, priv_safe (submit i o)) ->
  priv_safe (pump_builds key clock build submit n bs).
Proof.
  intros Hb Hs. revert n. induction bs as [|b bs IH]; intros n; [done|]. cbn [pump_builds].
  repeat (case_match; [|apply IH]). apply priv_safe_if; [apply IH|].
  apply priv_safe_bind; [apply Hb|]. intros o. apply priv_safe_bind; [apply Hs|]. intros. apply IH.
Qed.

Lemma pump_calls_safe run_call submit n cs :
  (forall i a r, priv_safe (run_call i a r)) -> (forall i o, priv_safe (submit i o)) ->
  priv_safe (pump_calls run_call submit n cs).
Proof.
  intros Hc Hs. revert n. induction cs as [|c cs IH]; intros n; [done|]. cbn [pump_calls].
  repeat (case_match; [|apply IH]). apply priv_safe_if; [apply IH|].
  apply priv_safe_bind; [apply Hc|]. intros o. apply priv_safe_bind; [apply Hs|]. intros. apply IH.
Qed.

Lemma run_build_safe prefix mk_ddl nanos i b : priv_safe (run_build prefix mk_ddl nanos i b).
Proof.
  unfold run_build. apply priv_safe_if; [done|]. destruct (dollar_quote nanos b) as [[? q]|]; [|done].
  apply priv_safe_bind; [apply run_ddl_safe|done].
Qed.

(** The five pumps that run on this thread. *)
Lemma local_pumps_safe clock :
  priv_safe pump_sql /\ priv_safe (pump_function_builds clock) /\ priv_safe pump_function_calls
  /\ priv_safe (pump_procedure_builds clock) /\ priv_safe pump_procedure_calls.
Proof.
  split_and!; (apply priv_safe_bind; [by apply claim_safe|]; intros v;
               destruct (get_array v _) as [l|]; [|done]).
  - apply pump_sql_calls_safe.
  - apply pump_builds_safe; [intros; apply run_build_safe|]. intros. apply record_safe, dropped_run.
  - apply pump_calls_safe; intros; [apply priv_safe_if; [done|apply run_as_agent_safe]|].
    by apply record_safe, dropped_json.
  - apply pump_builds_safe; [intros; apply run_build_safe|]. intros. apply record_safe, dropped_run.
  - apply pump_calls_safe; intros; [apply priv_safe_if; [done|apply run_as_agent_safe]|].
    by apply record_safe, dropped_json.
Qed.

Lemma dispatch_safe n : priv_safe (dispatch_and_claim n).
Proof.
  apply priv_safe_transaction, priv_safe_dropped; [done|].
  assert (forall A text sql args (k : prog A), sql <> ASSUME_WORKER_ROLE ->
    wp (M := privileges) true k (fun _ _ => True) ->
    wp (M := privileges) true (warn_err text (spi_get_json sql args) ;; k) (fun _ _ => True)) as Hw.
  { intros A text sql args k Hs Hk. apply wp_bind, wp_bind, dropped_json; [done|]. by intros [[]|]. }
  apply Hw; [discriminate|]. apply Hw; [discriminate|].
  apply wp_bind, dropped_json; [discriminate|]. by intros [].
Qed.

Lemma pump_queue_safe rdy open q kind claim_jobs n :
  (forall m, priv_safe (claim_jobs m)) -> priv_safe (pump_queue rdy open q kind claim_jobs n).
Proof. intros Hc. apply priv_safe_if; [|done]. apply priv_safe_bind; [apply Hc|done]. Qed.

Lemma extension_is_installed_safe : priv_safe extension_is_installed.
Proof.
  apply priv_safe_transaction. intros st. split; [by right; left|]. by intros [[[]|]| |].
Qed.

Lemma submit_result_safe r : priv_safe (submit_result r).
Proof. unfold submit_result. destruct (r_queue r); by apply record_safe, dropped_json. Qed.

Lemma harvest_safe n rs : priv_safe (harvest n rs).
Proof.
  revert n. induction rs as [|r rs IH]; intros n; [done|].
  apply priv_safe_bind; [apply submit_result_safe|]. intros. apply IH.
Qed.

Lemma propagate_safe ids : priv_safe (propagate_outbound_cancellations ids).
Proof.
  unfold propagate_outbound_cancellations. case_match; [done|]. apply priv_safe_transaction, priv_safe_dropped; [done|].
  apply wp_bind, dropped_json; [discriminate|]. by intros [].
Qed.

Context `{SerdeJson}.

Lemma serve_rpc_safe rdy ss : priv_safe (serve_rpc rdy ss).
Proof.
  induction ss as [|s ss IH]; [done|]. apply priv_safe_bind; [|done].
  unfold handle_rpc_stream. destruct s as [data|]; [|done]. do 2 (apply priv_safe_if; [|done]).
  apply priv_safe_transaction, priv_safe_dropped; [done|].
  apply wp_bind, dropped_json; [discriminate|]. by intros [].
Qed.

Lemma pump_safe ls t n : priv_safe (pump ls t n).
Proof.
  destruct (local_pumps_safe (build_clock t)) as (H1 & H2 & H3 & H4 & H5).
  apply priv_safe_bind; [apply extension_is_installed_safe|]. intros rdy.
  do 4 (apply priv_safe_bind;
        [apply pump_queue_safe; intros; (apply dispatch_safe || by apply claim_safe)|intros ?]).
  do 5 (apply priv_safe_bind; [by apply priv_safe_if|intros ?]).
  cbv zeta. by match goal with |- context [reschedule ?a ?b ?c] => destruct (reschedule a b c) end.
Qed.

Lemma loop_turn_safe ls ids t : priv_safe (loop_turn ls ids t).
Proof.
  apply priv_safe_bind; [apply serve_rpc_safe|]. intros _.
  apply priv_safe_bind; [apply harvest_safe|]. intros n.
  apply priv_safe_bind; [apply propagate_safe|]. intros fl'.
  apply priv_safe_if; [done|]. apply priv_safe_bind; [apply pump_safe|done].
Qed.
End privileges.

#[local] Instance plain_env : WorkerEnv := {| env_drop_privileges := None |}.

(** JSON text of which only the empty object is recognised. *)
Definition tiny_json : SerdeJson :=
  {| from_str := fun s => if s == str "{}" then Some (JObj []) else None;
     to_string := fun _ => str "{}" |}.
#[local] Existing Instance tiny_json.

(** ** Capacity and schedule *)

Definition is_claim (sql : bytes) : bool :=
  (sql == CLAIM_OUTBOUND) || (sql == CLAIM_OAUTH) || (sql == CLAIM_EMBEDDING) || (sql == CLAIM_PROBE).

Definition claimed_calls (v : json) : list json := default [] (get_array v (str "calls")).

(** The claim functions' contract: no more calls than asked for, if any are asked for. *)
Definition honours (cr : call * reply) : bool :=
  match cr with
  | (Spi sql [AInt (Some n)], Done (Some (DJson v))) =>
    negb (is_claim sql) || (Z.of_nat (length (claimed_calls v)) <=? Z.max 1 n)%Z
  | _ => true
  end.

(** Facts that hold while the server keeps to it. *)
Abbreviation honouring := (assuming honours).

Section capacity_proofs.
Context `{WorkerEnv} `{SerdeJson}.

Definition bounded_by (n : Z) (v : json) : Prop := (Z.of_nat (length (claimed_calls v)) <= n)%Z.

Lemma nothing_bounded n : (0 <= n)%Z -> bounded_by n (nothing_claimed (str "calls")).
Proof. unfold bounded_by. intros. vm_compute claimed_calls. simpl. lia. Qed.

(** The statement of a claim yields at most as many calls as its limit. *)
Lemma claim_statement_bounded sql n s :
  is_claim sql = true -> (1 <= n)%Z ->
  wp (M := honouring) s (let* r := spi_get_json sql [AInt (Some n)] in
                         Ret (default (nothing_claimed (str "calls")) (ok_flatten r)))
     (fun o s' => s' = true -> forall v, o = Returned v -> bounded_by n v).
Proof.
  intros Hc Hn. split; [done|]. intros [[[b|v| |]|]|e|m]; simpl; try done; intros Hs v' [= <-];
    try (apply nothing_bounded; lia).
  unfold honours in Hs. rewrite Hc in Hs. simpl in Hs. apply andb_true_iff in Hs as [_ Hs].
  apply Z.leb_le in Hs. unfold bounded_by. lia.
Qed.

Lemma claim_bounded sql n s :
  is_claim sql = true -> (1 <= n)%Z ->
  wp (M := honouring) s (claim sql (str "calls") n)
     (fun o s' => s' = true -> forall v, o = Returned v -> bounded_by n v).
Proof.
  intros Hc Hn. apply (ensures_transaction honours). intros s1. apply (ensures_dropped honours); intros s2.
  - simpl. intros _ v [= <-]. apply nothing_bounded. lia.
  - by apply claim_statement_bounded.
Qed.

Lemma as_i32_small n : (n <= capacity)%nat -> as_i32 (Z.of_nat n) = Z.of_nat n.
Proof.
  intros Hn. assert (Z.of_nat n <= 8)%Z by (unfold capacity, HTTP_THREADS in Hn; lia).
  unfold as_i32. rewrite Z.mod_small by lia. lia.
Qed.

Lemma dispatch_bounded n s :
  (1 <= n <= capacity)%nat ->
  wp (M := honouring) s (dispatch_and_claim n)
     (fun o s' => s' = true -> forall v, o = Returned v -> bounded_by (Z.of_nat n) v).
Proof.
  intros Hn. apply (ensures_transaction honours). intros s1. apply (ensures_dropped honours); intros s2.
  - simpl. intros _ v [= <-]. apply nothing_bounded. lia.
  - do 2 (apply (ensures_bind honours _ _ (fun _ => True)); [apply (ensures_any honours)|]; intros _ ? _).
    rewrite as_i32_small by lia. apply claim_statement_bounded; [done|lia].
Qed.

Lemma enqueue_length q kind open cs : (length (enqueue q kind open cs) <= length cs)%nat.
Proof.
  induction cs as [|c cs IH]; simpl; [done|]. repeat (case_match; simpl; try lia).
Qed.

(** The jobs of a queue are well-formed and carry its name. *)
Definition job_ok (q : OutboundQueue) (j : OutboundJob) : Prop :=
  j_queue j = q /\ valid_uuid (j_id j) = true.

Lemma enqueue_ok q kind open cs : Forall (job_ok q) (enqueue q kind open cs).
Proof.
  induction cs as [|c cs IH]; simpl; [done|]. destruct (get_str c _) as [cid|]; [|done].
  destruct (valid_uuid cid) eqn:Hv; simpl; [|done]. destruct open; simpl; [|done]. by constructor.
Qed.

Lemma pump_queue_bounded rdy open q kind claim_jobs n s :
  (forall m s', (1 <= m <= capacity)%nat ->
     wp (M := honouring) s' (claim_jobs m)
        (fun o s'' => s'' = true -> forall v, o = Returned v -> bounded_by (Z.of_nat m) v)) ->
  (n <= capacity)%nat ->
  wp (M := honouring) s (pump_queue rdy open q kind claim_jobs n)
     (fun o s' => s' = true -> forall js, o = Returned js ->
        (n + length js <= capacity)%nat /\ Forall (job_ok q) js).
Proof.
  intros Hc Hn. unfold pump_queue. destruct (rdy && (n <? capacity)%nat) eqn:Hr.
  - eapply (ensures_bind honours _ _ (bounded_by (Z.of_nat (capacity - n)))); [apply Hc; breflect; lia|].
    intros v s' Hv. simpl. intros _ js [= <-]. unfold bounded_by, claimed_calls in Hv.
    destruct (get_array v (str "calls")) as [cs|]; simpl in Hv |- *; [|split; [lia|done]].
    split; [|apply enqueue_ok]. pose proof (enqueue_length q kind open cs). lia.
  - simpl. intros _ js [= <-]. simpl. split; [lia|done].
Qed.

Lemma harvest_count n rs s :
  wp (M := honouring) s (harvest n rs)
     (fun o s' => s' = true -> forall m, o = Returned m -> m = (n - length rs)%nat).
Proof.
  revert n s. induction rs as [|r rs IH]; intros n s.
  - simpl. intros _ m [= <-]. lia.
  - apply (ensures_bind honours _ _ (fun _ => True)); [apply (ensures_any honours)|]. intros _ s' _.
    eapply (wp_mono (M := honouring)); [apply IH|]. intros o s'' Ho Hs m Hm.
    rewrite (Ho Hs m Hm). simpl. lia.
Qed.

Lemma reschedule_bounds worked now idle next idle' :
  (PUMP_IDLE_MIN <= idle <= PUMP_IDLE_MAX)%Z -> reschedule worked now idle = (next, idle') ->
  (PUMP_IDLE_MIN <= idle' <= PUMP_IDLE_MAX)%Z /\ (now < next <= now + PUMP_IDLE_MAX)%Z.
Proof.
  unfold reschedule, PUMP_BUSY, PUMP_IDLE_MIN, PUMP_IDLE_MAX, from_secs, from_millis.
  destruct worked; intros; simplify_eq; lia.
Qed.

(** What holds behind a pump that started with [n] calls in flight. *)
Definition pump_post (ls : LoopState) (t : Turn) (n : nat) (r : LoopState * list OutboundJob) : Prop :=
  in_flight r.1 = (n + length r.2)%nat
  /\ (in_flight r.1 <= capacity)%nat
  /\ Forall (fun j => valid_uuid (j_id j) = true) r.2
  /\ (PUMP_IDLE_MIN <= idle_delay r.1 <= PUMP_IDLE_MAX)%Z
  /\ (now_end t < next_pump r.1 <= now_end t + PUMP_IDLE_MAX)%Z.

Lemma jobs_valid q js : Forall (job_ok q) js -> Forall (fun j => valid_uuid (j_id j) = true) js.
Proof. intros Hj. eapply Forall_impl; [|exact Hj]. by intros j [_ ?]. Qed.

Lemma pump_bounded ls t n s :
  (n <= capacity)%nat -> (PUMP_IDLE_MIN <= idle_delay ls <= PUMP_IDLE_MAX)%Z ->
  wp (M := honouring) s (pump ls t n)
     (fun o s' => s' = true -> forall r, o = Returned r -> pump_post ls t n r).
Proof.
  intros Hn Hi. assert (Hclaim : forall sql m s', is_claim sql = true -> (1 <= m <= capacity)%nat ->
    wp (M := honouring) s' (i32_of (fun z => claim sql (str "calls") z) m)
       (fun o s'' => s'' = true -> forall v, o = Returned v -> bounded_by (Z.of_nat m) v)).
  { intros sql m s' Hc Hm. unfold i32_of. rewrite as_i32_small by lia. apply claim_bounded; [done|lia]. }
  eapply (ensures_bind honours _ _ (fun _ => True)); [apply (ensures_any honours)|]. intros rdy s0 _.
  eapply (ensures_bind honours); [apply pump_queue_bounded; [|exact Hn]; intros; by apply dispatch_bounded|].
  intros j1 s1 [Hn1 Hj1].
  eapply (ensures_bind honours); [apply pump_queue_bounded; [|exact Hn1]; intros; by apply Hclaim|].
  intros j2 s2 [Hn2 Hj2].
  eapply (ensures_bind honours); [apply pump_queue_bounded; [|exact Hn2]; intros; by apply Hclaim|].
  intros j3 s3 [Hn3 Hj3].
  eapply (ensures_bind honours); [apply pump_queue_bounded; [|exact Hn3]; intros; by apply Hclaim|].
  intros j4 s4 [Hn4 Hj4].
  do 5 (eapply (ensures_bind honours _ _ (fun _ => True)); [apply (ensures_any honours)|]; intros ? ? _).
  cbv zeta. destruct (reschedule _ _ _) as [next idle] eqn:Hr. simpl. intros _ r [= <-].
  apply reschedule_bounds in Hr as [Hi' Hx]; [|done]. unfold pump_post. cbn [fst snd in_flight idle_delay next_pump].
  rewrite !length_app. split_and!; try lia; try tauto.
  rewrite !Forall_app. split_and!; by eapply jobs_valid.
Qed.

Lemma loop_turn_bounded ls ids t s :
  (in_flight ls <= capacity)%nat -> (PUMP_IDLE_MIN <= idle_delay ls <= PUMP_IDLE_MAX)%Z ->
  wp (M := honouring) s (loop_turn ls ids t)
     (fun o s' => s' = true -> forall r, o = Returned r ->
        in_flight r.1.1 = (in_flight ls - length (results t) + length r.2)%nat
        /\ (in_flight r.1.1 <= capacity)%nat
        /\ Forall (fun j => valid_uuid (j_id j) = true) r.2
        /\ (PUMP_IDLE_MIN <= idle_delay r.1.1 <= PUMP_IDLE_MAX)%Z).
Proof.
  intros Hn Hi. eapply (ensures_bind honours _ _ (fun _ => True)); [apply (ensures_any honours)|]. intros _ s0 _.
  eapply (ensures_bind honours); [apply harvest_count|]. intros n s1 ->.
  eapply (ensures_bind honours _ _ (fun _ => True)); [apply (ensures_any honours)|]. intros fl' s2 _.
  destruct (now_check t <? next_pump ls)%Z.
  - simpl. intros _ r [= <-]. simpl. split_and!; try lia. done.
  - eapply (ensures_bind honours); [apply pump_bounded; [lia|done]|].
    intros [ls' jobs] s3 (H1 & H2 & H3 & H4 & _). simpl in *. intros _ r [= <-]. simpl. done.
Qed.
End capacity_proofs.

(** One turn: as long as no claim yields more calls than it was asked for, the count of
    calls in flight drops by the results harvested and grows by the jobs sent. *)
Lemma loop_turn_capacity `{WorkerEnv} `{SerdeJson} db h ls ids t ls' lost jobs :
  (run db h (loop_turn ls ids t)).2 = Returned (ls', lost, jobs) ->
  forallb honours (run db h (loop_turn ls ids t)).1 = true ->
  (in_flight ls <= capacity)%nat -> (PUMP_IDLE_MIN <= idle_delay ls <= PUMP_IDLE_MAX)%Z ->
  in_flight ls' = (in_flight ls - length (results t) + length jobs)%nat
  /\ (in_flight ls' <= capacity)%nat
  /\ Forall (fun j => valid_uuid (j_id j) = true) jobs
  /\ (PUMP_IDLE_MIN <= idle_delay ls' <= PUMP_IDLE_MAX)%Z.
Proof.
  intros Ho Ht Hn Hi.
  destruct (wp_run (M := honouring) db _ _ true h (loop_turn_bounded ls ids t true Hn Hi)) as [_ Hp].
  exact (Hp ((assumed_after honours) _ Ht) _ Ho).
Qed.

(** ** Completions *)

(** The SQL function that completes a call of each queue. *)
Definition completion_fn (q : OutboundQueue) : bytes :=
  match q with
  | Outbound => str "fn_complete_outbound"
  | Oauth => str "fn_complete_oauth"
  | AgentEmbedding => str "fn_complete_agent_embedding"
  | ProviderProbe => str "fn_complete_provider_probe"
  end.

Definition completion_sql (q : OutboundQueue) : bytes :=
  str "SELECT allgres_public." ++ completion_fn q ++ str "($1::uuid, $2, $3)".

(** The completion of a result. *)
Definition completing (r : OutboundResult) : bytes * list arg :=
  (completion_sql (r_queue r),
   [AStr (Some (r_id r)); AInt (Some (r_status r)); AStr (Some (clean_body (r_body r)))]).

Lemma submit_result_run `{WorkerEnv} db h r :
  let t := (run db h (submit_result r)).1 in
  (issued t = [] \/ issued t = [completing r]) /\ (forallb drop_ok t = true -> issued t = [completing r]).
Proof.
  assert (submit_result r = submit_result_to (completion_fn (r_queue r)) (r_id r) (r_status r) (r_body r)) as ->
    by by unfold submit_result; destruct (r_queue r).
  apply record_run; [by destruct (r_queue r)|]. intros [[[]|]|e|m]; eauto.
Qed.

Lemma clean_body_spec body :
  utf8_valid body = true ->
  utf8_valid (clean_body body) = true /\ (x00 ∉ clean_body body)
  /\ (length (clean_body body) <= MAX_RESPONSE_BYTES)%nat.
Proof.
  intros Hb. apply utf8_valid_without_nul in Hb.
  destruct (truncate_utf8_valid _ MAX_RESPONSE_BYTES Hb) as (Hv & [k Hk] & Hl).
  split_and!; [done| |done]. intros Hin.
  assert (x00 ∈ List.filter (fun b => b != x00) body) as Hf
    by (rewrite Hk; apply elem_of_app; by left).
  apply list_elem_of_In, filter_In in Hf as [_ Hf]. done.
Qed.

(** C32: every harvested result is answered once, where its call came from.  The
    statements a harvest issues besides the privilege drop are completions of its
    results, in order and each at most once, by the function of the queue the result
    belongs to, with its call id and status and its body, which is then valid text
    without NUL of at most [MAX_RESPONSE_BYTES] bytes, as [text] columns require; and
    when the harvest gets through with the privilege drop succeeding, no result is
    left out and as many calls are in flight less. *)
Theorem harvest_answers_results `{WorkerEnv} db h n rs :
  let out := run db h (harvest n rs) in
  issued out.1 `sublist_of` map completing rs
  /\ (forall r, r ∈ rs -> utf8_valid (r_body r) = true ->
        utf8_valid (clean_body (r_body r)) = true /\ (x00 ∉ clean_body (r_body r))
        /\ (length (clean_body (r_body r)) <= MAX_RESPONSE_BYTES)%nat)
  /\ (forall m, out.2 = Returned m -> forallb drop_ok out.1 = true ->
        issued out.1 = map completing rs /\ m = (n - length rs)%nat).
Proof.
  cbv zeta. ands; [| |].
  - revert h n. induction rs as [|r rs IH]; intros h n; [constructor|]. cbn [harvest map].
    rewrite run_bind. pose proof (proj1 (submit_result_run db h r)) as Hs.
    destruct (run db h (submit_result r)) as [t1 [[]|e]]; cbn [fst] in *.
    + specialize (IH (h ++ t1) (pred n)). destruct (run db _ (harvest _ rs)) as [t2 o]. cbn [fst] in *.
      rewrite issued_app. destruct Hs as [-> | ->]; [by apply sublist_cons|by apply sublist_skip].
    + destruct Hs as [-> | ->]; [apply sublist_nil_l|apply sublist_skip, sublist_nil_l].
  - intros r _. apply clean_body_spec.
  - revert h n. induction rs as [|r rs IH]; intros h n m; [intros [= <-] _; split; [done|simpl; lia]|].
    cbn [harvest map length]. rewrite run_bind. pose proof (proj2 (submit_result_run db h r)) as Hs.
    destruct (run db h (submit_result r)) as [t1 [[]|e]]; [|done]. cbn [fst] in *.
    specialize (IH (h ++ t1) (pred n)). destruct (run db _ (harvest _ rs)) as [t2 o]. cbn [fst snd] in *.
    rewrite issued_app, forallb_app. intros Ho [H1 H2]%andb_true_iff. rewrite (Hs H1).
    destruct (IH m Ho H2) as [-> ->]. split; [done|lia].
Qed.

Lemma harvest_answers_results_witness :
  let r := mk_result sample_agent Oauth 200 (str "ok" ++ [x00]) in
  issued (run obliging [] (harvest 3 [r; r])).1 = [completing r; completing r]
  /\ (x00 ∉ clean_body (r_body r)).
Proof.
  intros r. destruct (harvest_answers_results obliging [] 3 [r; r]) as (_ & Hb & Hm). split.
  - apply (Hm 1%nat); vm_compute; reflexivity.
  - apply (Hb r); [left|vm_compute; reflexivity].
Defined.

(** ** The RPC socket *)

Definition forwards (body : bytes) (before : trace) (c : call) : Prop :=
  match c with
  | Spi sql args =>
    sql = ASSUME_WORKER_ROLE \/ (sql = DASHBOARD_RPC /\ args = [AStr (Some body)])
  | _ => True
  end.

Lemma dashboard_rpc_wp `{WorkerEnv} `{SerdeJson} body st :
  wp (M := history (forwards body)) st (dashboard_rpc body) (fun _ _ => True).
Proof.
  apply (wp_transaction (M := history (forwards body))); [done|]. intros r1.
  apply wp_bind, drop_privileges_history; [by left|done| |by intros s; simpl|done].
  intros t _ _. apply wp_bind.
  apply (wp_spi_get_json (M := history (forwards body))); [by right|by intros [a|e] rp; simpl|done].
Qed.

(** C33: nothing but well-formed JSON reaches the database from the RPC socket.  A
    connection makes the worker issue a statement only once the extension is
    installed and only if the bytes read, at most [MAX_REQUEST_BYTES] of them, are
    valid UTF-8 and parse as JSON; the statement is then [dashboard_rpc] with
    exactly these bytes bound to its parameter, behind the privilege drop. *)
Theorem rpc_forwards_valid_json `{WorkerEnv} `{SerdeJson} db h stream rdy pre sql args r post :
  (run db h (handle_rpc_stream stream rdy)).1 = pre ++ (Spi sql args, r) :: post ->
  rdy = true /\ exists data v,
    stream = Some data
    /\ utf8_valid (take MAX_REQUEST_BYTES data) = true
    /\ from_str (take MAX_REQUEST_BYTES data) = Some v
    /\ (sql = ASSUME_WORKER_ROLE
        \/ (sql = DASHBOARD_RPC /\ args = [AStr (Some (take MAX_REQUEST_BYTES data))])).
Proof.
  unfold handle_rpc_stream. destruct stream as [data|]; [|by destruct pre].
  destruct (utf8_valid _) eqn:Hv; cbn [andb]; [|by destruct pre].
  destruct (from_str _) as [v|] eqn:Hj; [|by destruct pre].
  destruct rdy; [|by destruct pre]. intros Ht. split; [done|]. exists data, v.
  split_and!; [done..|].
  exact (history_at (forwards (take MAX_REQUEST_BYTES data)) _ _ _ _ _ _ _ (dashboard_rpc_wp _ []) Ht).
Qed.

Lemma rpc_forwards_valid_json_witness :
  true = true /\ exists data v,
    Some (str "{}") = Some data
    /\ utf8_valid (take MAX_REQUEST_BYTES data) = true
    /\ from_str (take MAX_REQUEST_BYTES data) = Some v
    /\ (DASHBOARD_RPC = ASSUME_WORKER_ROLE
        \/ (DASHBOARD_RPC = DASHBOARD_RPC
            /\ [AStr (Some (str "{}"))] = [AStr (Some (take MAX_REQUEST_BYTES data))])).
Proof.
  set (t := (run obliging [] (handle_rpc_stream (Some (str "{}")) true)).1).
  eapply (rpc_forwards_valid_json obliging [] (Some (str "{}")) true (take 2 t) DASHBOARD_RPC
            [AStr (Some (str "{}"))] (obliging [] (Spi DASHBOARD_RPC [])) (drop 3 t)).
  vm_compute. reflexivity.
Defined.
