(* ===== verification/System.v ===== *)
(** * The runtime worker and its pool together

    Whole lifetimes of the worker: turns of the main loop ([RuntimeWorker.v])
    interleaved with the threads of the pool ([Outbound.v]) that run the jobs the
    loop sends and yield the results it harvests, and a new process in place of one
    that an ERROR ended. *)

From stdpp Require Import relations.
From S2P Require Import Prelude Utf8 RustStr Net Json Spi Privilege Sandbox Outbound Pool RuntimeWorker.

(** ** States and steps *)

(** Every call made to the server so far, by whatever process; the loop's state and the
    pool of the process that runs now, the jobs it has sent and the results it has
    harvested. *)
Record Sys := mk_sys {
  s_trace : trace;
  s_loop : LoopState;
  s_pool : Pool;
  s_sent : list OutboundJob;
  s_harvested : list OutboundResult;
  s_events : list pool_event;         (* since the process started *)
  s_born : trace                      (* the calls made before it started *)
}.

(** A process starts with nothing in flight. *)
Definition sys_start (h : trace) (now : Z) (threads : nat) : Sys :=
  mk_sys h (loop_init now) (spawn_http_pool threads) [] [] [] h.

(** The keys of the cancellation map. *)
Definition registered (p : Pool) : list bytes := (map_to_list (by_call (flags p))).*1.

Section system.
Context `{WorkerEnv} `{SerdeJson} (db : server) (threads : nat).

(** A turn harvests what the channel yields, asks the server about the calls that are
    registered then, marks those it says are lost, and sends what it claimed; the
    threads go on all the while, between the two times the flags are locked too.  A
    turn that an ERROR ends is followed by a new process, which the postmaster starts;
    and a process may end between two turns, when [wait_latch] reports the shutdown or
    it dies, with another one after it.  The jobs of a turn reach the pool when the turn is
    over: those sent in a turn that raises later on end with their process, without a
    thread having taken one up. *)
Inductive sys_step : Sys -> Sys -> Prop :=
| sys_turn s t tr ls' lost jobs es1 p1 es2 p2 es3 p3 :
    pool_run (s_pool s) es1 p1 -> receives es1 = results t -> sends es1 = [] -> marks es1 = [] ->
    run db (s_trace s) (loop_turn (s_loop s) (registered p1) t) = (tr, Returned (ls', lost, jobs)) ->
    pool_run p1 es2 p2 -> receives es2 = [] -> sends es2 = [] -> marks es2 = [] ->
    pool_run p2 (Marked lost :: es3) p3 -> receives es3 = [] -> sends es3 = jobs -> marks es3 = [] ->
    sys_step s (mk_sys (s_trace s ++ tr) ls' p3 (s_sent s ++ jobs) (s_harvested s ++ results t)
                  (s_events s ++ es1 ++ es2 ++ Marked lost :: es3) (s_born s))
| sys_restart s t tr m now es1 p1 :
    pool_run (s_pool s) es1 p1 -> receives es1 = results t -> sends es1 = [] -> marks es1 = [] ->
    run db (s_trace s) (loop_turn (s_loop s) (registered p1) t) = (tr, Raising m) ->
    sys_step s (sys_start (s_trace s ++ tr) now threads)
| sys_stop s now : sys_step s (sys_start (s_trace s) now threads).
End system.

(** ** Privileges over a lifetime *)

Section lifetime.
Context `{WorkerEnv} `{SerdeJson} (db : server) (threads : nat).
Context (Henv : env_drop_privileges <> Some (str "0")).

Lemma step_monitored s s' :
  sys_step db threads s s' ->
  monitored (M := privileges) false (s_trace s) -> monitored (M := privileges) false (s_trace s').
Proof.
  intros Hs Hm.
  assert (forall ids t, monitored (M := privileges) (mstate_after (M := privileges) false (s_trace s))
            (run db (s_trace s) (loop_turn (s_loop s) ids t)).1) as Ht.
  { intros ids t. apply (wp_run (M := privileges) db _ (fun _ _ => True)). by apply loop_turn_safe. }
  destruct Hs as [s t tr ls' lost jobs es1 p1 es2 p2 es3 p3 _ _ _ _ Hr _ _ _ _ _ _ _ _
                 |s t tr m now es1 p1 _ _ _ _ Hr|s now]; [..|done];
    apply monitored_app; (split; [done|]); specialize (Ht (registered p1) t); by rewrite Hr in Ht.
Qed.
End lifetime.

(** C1: the worker never acts as the bootstrap superuser, unless the operator set
    [ALLGRES_DROP_PRIVILEGES] to 0, which is the documented way to keep it one.  Over its
    whole lifetime, any number of turns and of processes that an ERROR ended, against
    every behaviour of the server, each statement other than the privilege drop itself
    and the test for the extension is issued in a transaction in which
    [assume_worker_role] reported success, and no rollback has undone it since; that
    covers claims, completions, the dashboard RPC, sandboxed SQL, builds and calls. *)
Theorem worker_never_superuser `{WorkerEnv} `{SerdeJson} db threads now s pre sql args r post :
  env_drop_privileges <> Some (str "0") ->
  rtc (sys_step db threads) (sys_start [] now threads) s ->
  s_trace s = pre ++ (Spi sql args, r) :: post ->
  sql = ASSUME_WORKER_ROLE \/ sql = EXTENSION_INSTALLED
  \/ mstate_after (M := privileges) false pre = true.
Proof.
  intros He Hr Ht.
  assert (monitored (M := privileges) false (s_trace s)) as Hm.
  { eapply (rtc_ind_r (fun s => monitored (M := privileges) false (s_trace s)) (sys_start [] now threads)); [done| |exact Hr].
    intros s1 s2 _ Hs. by eapply step_monitored. }
  exact (monitored_at (M := privileges) _ _ _ _ _ _ Hm Ht).
Qed.

(** ** The books *)

(** What holds between turns of a process. *)
Record books (s : Sys) : Prop := {
  books_count : in_flight (s_loop s) = length (pool_calls (s_pool s));
  books_capacity : (in_flight (s_loop s) <= capacity)%nat;
  books_idle : (PUMP_IDLE_MIN <= idle_delay (s_loop s) <= PUMP_IDLE_MAX)%Z;
  books_calls : map job_call (s_sent s) ≡ₚ map result_call (s_harvested s) ++ pool_calls (s_pool s);
  books_ids : Forall (fun j => valid_uuid (j_id j) = true) (s_sent s)
}.

Lemma books_start h now threads : books (sys_start h now threads).
Proof.
  split; simpl; rewrite ?pool_calls_init; simpl; try done; try lia.
Qed.

Lemma books_step `{WorkerEnv} `{SerdeJson} db threads s s' :
  sys_step db threads s s' -> forallb honours (s_trace s') = true -> books s -> books s'.
Proof.
  intros Hs Hh [Hc Hcap Hi Hp Hv].
  destruct Hs as [s t tr ls' lost jobs es1 p1 es2 p2 es3 p3 H1 Hr1 Hs1 _ Hrun H2 Hr2 Hs2 _ H3 Hr3 Hs3 _| |];
    [|apply books_start..].
  simpl in Hh. rewrite forallb_app in Hh. apply andb_true_iff in Hh as [_ Hh].
  destruct (loop_turn_capacity db (s_trace s) (s_loop s) (registered p1) t ls' lost jobs) as (E1 & E2 & E3 & E4);
    [by rewrite Hrun|by rewrite Hrun|done..|].
  apply pool_run_conserves in H1, H2, H3. rewrite Hr1, Hs1 in H1. rewrite Hr2, Hs2 in H2.
  rewrite sends_cons, receives_cons in H3. cbn [sends receives omap list_omap app] in H3.
  rewrite Hr3, Hs3 in H3. simpl in H1, H2, H3. rewrite app_nil_r in H1, H2. rewrite <- H2 in H3.
  pose proof (Permutation_length H1) as L1. pose proof (Permutation_length H3) as L3.
  rewrite !length_app, !length_map in L1, L3.
  split; simpl; [lia|done|done| |by apply Forall_app].
  rewrite !map_app, Hp, <- app_assoc, H1, <- !app_assoc, H3. done.
Qed.

Lemma step_extends `{WorkerEnv} `{SerdeJson} db threads s s' :
  sys_step db threads s s' -> exists tr, s_trace s' = s_trace s ++ tr.
Proof. intros [| |s0 now]; [by eexists..|]. exists []. by rewrite app_nil_r. Qed.

Lemma books_reach `{WorkerEnv} `{SerdeJson} db threads now s :
  rtc (sys_step db threads) (sys_start [] now threads) s -> forallb honours (s_trace s) = true -> books s.
Proof.
  intros Hr. eapply (rtc_ind_r (fun s => forallb honours (s_trace s) = true -> books s) (sys_start [] now threads));
    [intros _; apply books_start| |exact Hr].
  intros s1 s2 _ Hs IH Hh. eapply books_step; [exact Hs|exact Hh|]. apply IH.
  destruct (step_extends _ _ _ _ Hs) as [tr Ht]. rewrite Ht, forallb_app in Hh.
  by apply andb_true_iff in Hh as [? _].
Qed.

(** C30: the loop keeps its books.  Over any number of turns and restarts, with the
    pool's threads running at their own pace, as long as no claim yields more calls
    than it was asked for: the count of calls in flight is the number of calls in the
    pool, which never holds more than its capacity; and the calls sent are, by id and
    queue, exactly the results harvested and the calls still in the pool, so no call
    is lost, answered twice or answered to another queue.  Every call sent has a
    well-formed id, and the idle delay stays between its bounds. *)
Theorem worker_keeps_books `{WorkerEnv} `{SerdeJson} db threads now s :
  rtc (sys_step db threads) (sys_start [] now threads) s ->
  forallb honours (s_trace s) = true ->
  in_flight (s_loop s) = length (pool_calls (s_pool s))
  /\ (length (pool_calls (s_pool s)) <= capacity)%nat
  /\ map job_call (s_sent s) ≡ₚ map result_call (s_harvested s) ++ pool_calls (s_pool s)
  /\ Forall (fun j => valid_uuid (j_id j) = true) (s_sent s)
  /\ (PUMP_IDLE_MIN <= idle_delay (s_loop s) <= PUMP_IDLE_MAX)%Z.
Proof.
  intros Hr Hh. destruct (books_reach _ _ _ _ Hr Hh) as [Hc Hcap Hi Hp Hv]. by rewrite <- Hc.
Qed.

(** ** Cancellation *)

(** What holds of the flags in every state of a process. *)
Definition cancel_inv (s : Sys) : Prop :=
  unique (s_pool s) /\ flags_track (s_pool s) (fold_left table_step (flag_ops (s_events s)) ∅).

Lemma cancel_inv_start h now threads : cancel_inv (sys_start h now threads).
Proof.
  split; [|apply flags_track_init]. unfold unique. simpl. rewrite pool_calls_init. constructor.
Qed.

(** No id is in flight twice anywhere in a turn, where none is before and after it. *)
Lemma turn_unique_runs p es1 p1 es2 p2 es3 p3 :
  unique p -> pool_run p es1 p1 -> sends es1 = [] -> pool_run p1 es2 p2 -> receives es2 = [] ->
  pool_run p2 es3 p3 -> receives es3 = [] -> unique p3 ->
  unique_run p es1 p1 /\ unique_run p1 es2 p2 /\ unique_run p2 es3 p3.
Proof.
  intros Hu H1 S1 H2 R2 H3 R3 Hu3.
  assert (unique_run p2 es3 p3) as U3 by by eapply unique_run_backward.
  split; [by eapply unique_run_forward|]. split; [|done].
  eapply unique_run_backward; [exact H2|done|]. by destruct U3.
Qed.

(** The keys of the map are the calls being performed. *)
Lemma registered_performs p t id : flags_track p t -> id ∈ registered p <-> exists g, performs p id g.
Proof.
  intros (guards & (Hm & _ & _ & _) & Hg). unfold registered. rewrite Hm. setoid_rewrite <- Hg. split.
  - intros ([id' l] & -> & Hin%elem_of_map_to_list)%list_elem_of_fmap.
    rewrite lookup_fmap in Hin. simpl. destruct (guards !! id') as [g|]; [|done]. by exists g.
  - intros [g Hid]. apply list_elem_of_fmap. exists (id, flag g). split; [done|].
    apply elem_of_map_to_list. by rewrite lookup_fmap, Hid.
Qed.

Lemma cancel_inv_step `{WorkerEnv} `{SerdeJson} db threads s s' :
  sys_step db threads s s' -> unique (s_pool s') -> cancel_inv s -> cancel_inv s'.
Proof.
  intros Hs Hu' [Hu Hf].
  destruct Hs as [s t tr ls' lost jobs es1 p1 es2 p2 es3 p3 H1 Hr1 Hs1 _ Hrun H2 Hr2 Hs2 _ H3 Hr3 Hs3 _| |];
    [|apply cancel_inv_start..].
  split; [done|]. cbn [s_pool s_events] in *. rewrite flag_ops_app, fold_left_app.
  eapply flags_track_run; [|exact Hf].
  destruct (turn_unique_runs _ _ _ _ _ _ _ Hu H1 Hs1 H2 Hr2 H3 Hr3 Hu') as (U1 & U2 & U3).
  eapply unique_run_app; [exact U1|]. by eapply unique_run_app.
Qed.

Lemma cancel_inv_reach `{WorkerEnv} `{SerdeJson} db threads now s :
  rtc (fun s s' => sys_step db threads s s' /\ unique (s_pool s')) (sys_start [] now threads) s -> cancel_inv s.
Proof.
  intros Hr. eapply (rtc_ind_r cancel_inv (sys_start [] now threads)); [apply cancel_inv_start| |exact Hr].
  intros s1 s2 _ [Hs Hu] IH. by eapply cancel_inv_step.
Qed.

(** Cancellations reach the calls they are meant for, and no others.  Over any number of
    turns and restarts, with the threads registering and dropping their guards at any
    moment, as long as no id is in flight twice: the map the worker asks the server
    about holds exactly the ids of the calls being performed, and the flag such a
    call polls is set exactly when the server has reported its id lost in some turn
    since it registered. *)
Theorem cancel_flags_in_step `{WorkerEnv} `{SerdeJson} db threads now s :
  rtc (fun s s' => sys_step db threads s s' /\ unique (s_pool s')) (sys_start [] now threads) s ->
  (forall id, id ∈ registered (s_pool s) <-> exists g, performs (s_pool s) id g)
  /\ (forall id g, performs (s_pool s) id g ->
        is_cancelled (flags (s_pool s)) g = true <-> marked_since id (flag_ops (s_events s))).
Proof.
  intros Hr. destruct (cancel_inv_reach _ _ _ _ Hr) as [_ Ht]. split; [intros id; by eapply registered_performs|].
  destruct Ht as (guards & (Hm & Hc & _ & Hd) & Hg).
  intros id g Hp%Hg. destruct (Hc _ _ Hp) as (_ & _ & Hcell). unfold is_cancelled. rewrite Hcell.
  assert (is_Some (fold_left table_step (flag_ops (s_events s)) ∅ !! id)) as [b Hb]
      by (apply elem_of_dom; rewrite <- Hd; by eapply elem_of_dom_2).
  rewrite Hb. simpl. by apply table_marked.
Qed.

(** ** A sample lifetime *)

Lemma sys_step_eq `{WorkerEnv} `{SerdeJson} db threads s s1 s2 :
  sys_step db threads s s1 -> s1 = s2 -> sys_step db threads s s2.
Proof. by intros Hs <-. Qed.

#[local] Instance plain_env : WorkerEnv := {| env_drop_privileges := None |}.

#[local] Existing Instance tiny_json.

Definition sample_call : json := jobj [(str "call_id", JStr sample_agent)].
Definition sample_job : OutboundJob := mk_job sample_agent Outbound sample_call.
Definition sample_result : OutboundResult := mk_result sample_agent Outbound 200 (str "ok").

(** A server with one outbound call to claim, whose session is cancelled at once. *)
Definition sample_db : server := fun h c =>
  match c with
  | Spi sql _ =>
    if sql == CLAIM_OUTBOUND then Done (Some (DJson (jobj [(str "calls", JArr [sample_call])])))
    else if sql == CHECK_LOST then Done (Some (DJson (JArr [JStr sample_agent])))
    else if sql == EXTENSION_INSTALLED then Done (Some (DBool true))
    else obliging h c
  | _ => Done None
  end.

(** The first turn claims the call; a thread takes it, and in the second turn the server
    reports it lost and a dashboard request is served; in the third its result is
    harvested. *)
Definition turn1 : Turn := mk_loop_turn [] [] 1 1 (fun _ => 0%Z) true.
Definition turn2 : Turn := mk_loop_turn [Some (str "{}")] [] 2 2 (fun _ => 0%Z) true.
Definition turn3 : Turn := mk_loop_turn [] [sample_result] 3 3 (fun _ => 0%Z) true.

Definition sample_run (h : trace) (ls : LoopState) (ids : list bytes) (t : Turn) :=
  run sample_db h (loop_turn ls ids t).

Definition loop1 : LoopState := mk_loop 1 true (1 + PUMP_BUSY) PUMP_IDLE_MIN.
Definition loop3 : LoopState := mk_loop 0 true (1 + PUMP_BUSY) PUMP_IDLE_MIN.

Definition flags1 : Flags := (register OUTBOUND_CANCEL_FLAGS_init sample_agent).1.
Definition guard1 : CancelGuard := (register OUTBOUND_CANCEL_FLAGS_init sample_agent).2.
Definition flags2 : Flags := set_flags flags1 [sample_agent].
Definition pool1 : Pool := mk_pool [sample_job] [Idle] [] OUTBOUND_CANCEL_FLAGS_init.
Definition pool1' : Pool := mk_pool [] [Performing sample_job guard1] [] flags1.
Definition pool2 : Pool := mk_pool [] [Performing sample_job guard1] [] flags2.
Definition pool3 : Pool := mk_pool [] [Idle] [] (drop_guard flags2 guard1).

Definition trace1 : trace := (sample_run [] (loop_init 0) [] turn1).1.
Definition trace2 : trace := (sample_run trace1 loop1 [sample_agent] turn2).1.
Definition trace3 : trace := (sample_run (trace1 ++ trace2) loop1 [] turn3).1.

Lemma sample_turn1 :
  sample_run [] (loop_init 0) (registered (spawn_http_pool 1)) turn1 = (trace1, Returned (loop1, [], [sample_job])).
Proof. vm_compute. reflexivity. Qed.

Lemma sample_turn2 :
  sample_run trace1 loop1 (registered pool1') turn2 = (trace2, Returned (loop1, [sample_agent], [])).
Proof. vm_compute. reflexivity. Qed.

Lemma sample_turn3 :
  sample_run (trace1 ++ trace2) loop1 (registered pool3) turn3 = (trace3, Returned (loop3, [], [])).
Proof. vm_compute. reflexivity. Qed.

Definition events1 : list pool_event := [Marked []; Sent sample_job].
Definition events2 : list pool_event := events1 ++ [Taken; Registered sample_agent; Marked [sample_agent]].
Definition events3 : list pool_event := events2 ++ [Dropped sample_agent; Completed; Received sample_result; Marked []].

Definition sample_s0 : Sys := sys_start [] 0 1.
Definition sample_s1 : Sys := mk_sys trace1 loop1 pool1 [sample_job] [] events1 [].
Definition sample_s2 : Sys := mk_sys (trace1 ++ trace2) loop1 pool2 [sample_job] [] events2 [].
Definition sample_s3 : Sys :=
  mk_sys ((trace1 ++ trace2) ++ trace3) loop3 pool3 [sample_job] [sample_result] events3 [].

Lemma sample_step1 : sys_step sample_db 1 sample_s0 sample_s1.
Proof.
  eapply sys_step_eq; [|vm_compute; reflexivity].
  refine (sys_turn sample_db 1 sample_s0 turn1 trace1 loop1 [] [sample_job]
            [] (spawn_http_pool 1) [] (spawn_http_pool 1) [Sent sample_job] pool1
            (pool_done _) eq_refl eq_refl eq_refl sample_turn1 (pool_done _) eq_refl eq_refl eq_refl
            _ eq_refl eq_refl eq_refl).
  eapply pool_more; [apply pool_mark|]. eapply pool_more; [apply pool_send|]. apply pool_done.
Qed.

Lemma sample_step2 : sys_step sample_db 1 sample_s1 sample_s2.
Proof.
  eapply sys_step_eq; [|vm_compute; reflexivity].
  refine (sys_turn sample_db 1 sample_s1 turn2 trace2 loop1 [sample_agent] []
            [Taken; Registered sample_agent] pool1' [] pool1' [] pool2
            _ eq_refl eq_refl eq_refl sample_turn2 (pool_done _) eq_refl eq_refl eq_refl
            _ eq_refl eq_refl eq_refl).
  - eapply pool_more; [by eapply (pool_take _ sample_job [] 0)|].
    eapply pool_more; [by eapply (pool_register _ 0 sample_job)|]. apply pool_done.
  - eapply pool_more; [apply pool_mark|]. apply pool_done.
Qed.

Lemma sample_step3 : sys_step sample_db 1 sample_s2 sample_s3.
Proof.
  eapply sys_step_eq; [|vm_compute; reflexivity].
  refine (sys_turn sample_db 1 sample_s2 turn3 trace3 loop3 [] []
            [Dropped sample_agent; Completed; Received sample_result] pool3 [] pool3 [] pool3
            _ eq_refl eq_refl eq_refl sample_turn3 (pool_done _) eq_refl eq_refl eq_refl
            _ eq_refl eq_refl eq_refl).
  - eapply pool_more; [by eapply (pool_drop _ 0 sample_job guard1 200 (str "ok"))|].
    eapply pool_more; [by eapply (pool_finish _ 0 sample_result)|].
    eapply pool_more; [by eapply pool_recv|]. apply pool_done.
  - eapply pool_more; [apply pool_mark|]. apply pool_done.
Qed.

Lemma sample_lifetime : rtc (sys_step sample_db 1) sample_s0 sample_s3.
Proof.
  eapply rtc_l; [exact sample_step1|]. eapply rtc_l; [exact sample_step2|].
  eapply rtc_l; [exact sample_step3|apply rtc_refl].
Qed.

(** The dashboard request of the second turn reached the server without privileges. *)
Lemma worker_never_superuser_witness :
  exists pre post, s_trace sample_s3 = pre ++ (Spi DASHBOARD_RPC [AStr (Some (str "{}"))],
                                               sample_db [] (Spi DASHBOARD_RPC [])) :: post
    /\ mstate_after (M := privileges) false pre = true.
Proof.
  exists (trace1 ++ take 2 trace2), (drop 3 trace2 ++ trace3).
  assert (s_trace sample_s3 = (trace1 ++ take 2 trace2)
    ++ (Spi DASHBOARD_RPC [AStr (Some (str "{}"))], sample_db [] (Spi DASHBOARD_RPC [])) :: drop 3 trace2 ++ trace3)
    as Ht by (vm_compute; reflexivity).
  split; [exact Ht|].
  assert (env_drop_privileges <> Some (str "0")) as He by discriminate.
  pose proof (worker_never_superuser sample_db 1 0 sample_s3 (trace1 ++ take 2 trace2) DASHBOARD_RPC
    [AStr (Some (str "{}"))] (sample_db [] (Spi DASHBOARD_RPC [])) (drop 3 trace2 ++ trace3) He
    sample_lifetime Ht) as [E|[E|E]]; [discriminate E|discriminate E|exact E].
Defined.

Lemma worker_keeps_books_witness :
  map job_call (s_sent sample_s3) ≡ₚ map result_call (s_harvested sample_s3) ++ pool_calls (s_pool sample_s3)
  /\ in_flight (s_loop sample_s1) = 1%nat.
Proof.
  destruct (worker_keeps_books sample_db 1 0 sample_s3 sample_lifetime ltac:(vm_compute; reflexivity))
    as (_ & _ & Hp & _). split; [exact Hp|reflexivity].
Defined.

(** After the second turn the thread's flag is set. *)
Lemma cancel_flags_in_step_witness :
  is_cancelled (flags (s_pool sample_s2)) guard1 = true
  /\ marked_since sample_agent (flag_ops (s_events sample_s2)).
Proof.
  assert (is_cancelled (flags (s_pool sample_s2)) guard1 = true) as Hc by (vm_compute; reflexivity).
  split; [exact Hc|].
  refine (proj1 (proj2 (cancel_flags_in_step sample_db 1 0 sample_s2 _) sample_agent guard1 _) Hc).
  - eapply rtc_l; [split; [exact sample_step1|apply NoDup_singleton]|].
    eapply rtc_l; [split; [exact sample_step2|apply NoDup_singleton]|apply rtc_refl].
  - by exists 0%nat, sample_job.
Defined.
