(* ===== verification/Stop.v ===== *)
(** * Stopping a call

    What [propagate_outbound_cancellations] of [src/runtime_worker.rs] sets off in
    [src/outbound.rs]: the flag a turn of the main loop sets on one side ([System.v]) is
    the one the transport of the call loads on the other ([Outbound.v]), while threads
    and loop go on. *)

From stdpp Require Import relations.
From S2P Require Import Prelude Utf8 RustStr Net Json Spi Privilege Sandbox Outbound Pool RuntimeWorker System.

(** ** The flag and the transport *)

(** The loads of the turns of a wait of [tp], in order, while the pool goes on. *)
Inductive polls {T A} (tp : CancellableTransport T) : Pool -> list (turn A) -> Prop :=
| polls_end p : polls tp p []
| polls_turn p es p' t ts :
    pool_run p es p' ->
    check_cancelled (flags p') tp = (if t_cancel t then inl Cancelled else inr tt) ->
    polls tp p' ts -> polls tp p (t :: ts).

(** A flag that is set: an allocated cell that holds [true]. *)
Definition flag_set (fl : Flags) (l : nat) : Prop := l < next_cell fl /\ cells fl !! l = Some true.

Lemma set_flags_set fl lost l : flag_set fl l -> flag_set (set_flags fl lost) l.
Proof.
  revert fl. induction lost as [|id lost IH]; intros fl Hl; [done|]. simpl. apply IH.
  destruct (by_call fl !! id) as [l'|]; [|done]. destruct Hl as [Hl Hs]. split; [done|]. simpl.
  destruct (decide (l' = l)) as [->|Hne]; [apply lookup_insert_eq|by rewrite lookup_insert_ne].
Qed.

(** Nothing the pool does clears it: a call registering gets a new cell, and a guard
    dropped takes an entry of the map with it, no cell. *)
Lemma pool_step_set p e p' l : pool_step p e p' -> flag_set (flags p) l -> flag_set (flags p') l.
Proof.
  intros Hs Hl. destruct Hs; cbn [flags]; [done|done| | |done|done|by apply set_flags_set].
  - destruct Hl as [Hl Hc]. split; simpl; [lia|]. rewrite lookup_insert_ne by lia. done.
  - exact Hl.
Qed.

Lemma pool_run_set p es p' l : pool_run p es p' -> flag_set (flags p) l -> flag_set (flags p') l.
Proof. intros Hr. induction Hr as [|p e p1 es p' Hs _ IH]; [done|]. intros Hl. eapply IH, pool_step_set; done. Qed.

Lemma polls_set {T A} (tp : CancellableTransport T) p (ts : list (turn A)) :
  polls tp p ts -> flag_set (flags p) (cancel tp) -> Forall (fun t => t_cancel t = true) ts.
Proof.
  intros Hp. induction Hp as [|p es p' t ts Hr Hc _ IH]; [by constructor|]. intros Hl.
  pose proof (pool_run_set _ _ _ _ Hr Hl) as Hl'. constructor; [|by apply IH].
  unfold check_cancelled in Hc. rewrite (proj2 Hl') in Hc. simpl in Hc. by destruct (t_cancel t).
Qed.

(** A wait asks the transport at most once for each turn before the first that finds the
    flag set. *)
Lemma wait_loop_stopped {A} (again : error + A -> bool) deadline after earlier later :
  later <> [] -> Forall (fun t => t_cancel t = true) later ->
  length (wait_loop again deadline after (earlier ++ later)).1 <= length earlier
  /\ exists r, (wait_loop again deadline after (earlier ++ later)).2 = Some r
     /\ (r = inl Cancelled \/ exists t, t ∈ earlier /\ r = t_inner t).
Proof.
  intros Hne Hl. induction earlier as [|u earlier IH]; cbn [app wait_loop].
  - destruct Hl as [|t later Ht _]; [done|]. cbn [wait_loop]. rewrite Ht. split; [simpl; lia|]. exists (inl Cancelled). split; [done|by left].
  - destruct (t_cancel u); [split; [simpl; lia|]; exists (inl Cancelled); split; [done|by left]|].
    assert (exists t, t ∈ u :: earlier /\ t_inner u = t_inner t) as Hu by (exists u; split; [left|done]).
    destruct (_ =? 0)%Z; [split; [simpl; lia|]; exists (t_inner u); split; [done|by right]|].
    destruct (again (t_inner u)); [|split; [simpl; lia|]; exists (t_inner u); split; [done|by right]].
    destruct IH as (Hlen & r & Hr & Hor). destruct (wait_loop again deadline after (earlier ++ later)) as [ws o].
    simpl in *. split; [lia|]. exists r. split; [done|].
    destruct Hor as [->|(t & Ht & ->)]; [by left|]. right. exists t. split; [by right|done].
Qed.

Lemma stopped_wait {T A} (tp : CancellableTransport T) p wait again start after (earlier later : list (turn A)) ws o :
  flag_set (flags p) (cancel tp) ->
  transport_wait A wait again -> polls tp p later -> later <> [] -> wait start after (earlier ++ later) = Some (ws, o) ->
  Forall (fun t => t_cancel t = true) later
  /\ length ws <= length earlier
  /\ exists r, o = Some r /\ (r = inl Cancelled \/ exists t, t ∈ earlier /\ r = t_inner t).
Proof.
  intros Hl Hop Hpo Hne Hw. pose proof (polls_set _ _ _ Hpo Hl) as Hf.
  destruct (transport_wait_loop _ _ _ _ _ _ Hop Hw) as [Heq _]. split; [done|].
  pose proof (wait_loop_stopped again (start + after) after earlier later Hne Hf) as Hs.
  rewrite <- Heq in Hs. exact Hs.
Qed.

(** The transport's flag is the guard's. *)
Lemma connect_flag {T} l (made : error + option T) tp : connect l made = inr (Some tp) -> cancel tp = l.
Proof. unfold connect. destruct made as [e|[t|]]; [done| |done]. by intros [= <-]. Qed.

Lemma set_check {T} fl (tp : CancellableTransport T) : flag_set fl (cancel tp) -> check_cancelled fl tp = inl Cancelled.
Proof. intros [_ Hs]. unfold check_cancelled. by rewrite Hs. Qed.

(** What a reachable state says of the flag of a call a thread performs. *)
Lemma performed_flag p t id g :
  flags_track p t -> performs p id g ->
  flag g < next_cell (flags p) /\ exists b, cells (flags p) !! flag g = Some b /\ t !! id = Some b.
Proof.
  intros (guards & (_ & Hc & _ & Hd) & Hg) Hp%Hg. destruct (Hc _ _ Hp) as (_ & Hl & Hcell). split; [done|].
  assert (is_Some (t !! id)) as [b Hb] by (apply elem_of_dom; rewrite <- Hd; by eapply elem_of_dom_2).
  exists b. by rewrite Hcell.
Qed.

(** The stop button reaches the thread.  In every state the worker reaches, as long as
    no id is in flight twice, for the transport a performing thread was given: its check
    fails exactly when some turn of the main loop has found the call lost since the
    thread registered it.  From then on, whatever the threads and the loop do: every
    load finds the flag set; a wait that is under way ends without asking the client's
    transport again, with the cancellation unless the transport had already answered;
    and a wait that begins later asks nothing and is cancelled at once. *)
Theorem stop_reaches_thread `{WorkerEnv} `{SerdeJson} {T} db threads now s id g
    (made : error + option T) tp A wait again start after earlier later ws o :
  rtc (fun s s' => sys_step db threads s s' /\ unique (s_pool s')) (sys_start [] now threads) s ->
  performs (s_pool s) id g -> connect (flag g) made = inr (Some tp) ->
  (check_cancelled (flags (s_pool s)) tp = inl Cancelled <-> marked_since id (flag_ops (s_events s)))
  /\ (marked_since id (flag_ops (s_events s)) ->
      transport_wait A wait again -> polls tp (s_pool s) later -> later <> [] ->
      wait start after (earlier ++ later) = Some (ws, o) ->
      Forall (fun t => t_cancel t = true) later
      /\ length ws <= length earlier
      /\ exists r, o = Some r /\ (r = inl Cancelled \/ exists t, t ∈ earlier /\ r = t_inner t)).
Proof.
  intros Hr Hp Htp. destruct (cancel_inv_reach _ _ _ _ Hr) as [_ Ht].
  destruct (performed_flag _ _ _ _ Ht Hp) as (Hl & b & Hc & Hb). pose proof (table_marked _ _ _ Hb) as Hm.
  pose proof (connect_flag _ _ _ Htp) as Hg. split.
  - unfold check_cancelled. rewrite Hg, Hc, <- Hm. simpl. by destruct b.
  - intros Hb'%Hm. subst b. apply stopped_wait. rewrite Hg. by split.
Qed.

#[local] Instance plain_env : WorkerEnv := {| env_drop_privileges := None |}.
#[local] Existing Instance tiny_json.

Definition sample_transport : CancellableTransport unit := mk_cancellable tt (flag guard1).

(** The call of the sample lifetime, lost in its second turn: of a wait of 45 seconds that
    had one slice behind it nothing is left; another call is sent in between. *)
Lemma stop_reaches_thread_witness :
  check_cancelled (flags (s_pool sample_s2)) sample_transport = inl Cancelled
  /\ await_input 0 (from_secs 45) [slow_turn 0 false; slow_turn (from_millis 150) true]
     = Some ([CANCEL_POLL_INTERVAL], Some (inl Cancelled))
  /\ exists r : error + bool, Some (inl Cancelled) = Some r
     /\ (r = inl Cancelled \/ exists t, t ∈ [slow_turn 0 false] /\ r = t_inner t).
Proof.
  assert (rtc (fun s s' => sys_step sample_db 1 s s' /\ unique (s_pool s')) (sys_start [] 0 1) sample_s2) as Hr.
  { eapply rtc_l; [split; [exact sample_step1|apply NoDup_singleton]|].
    eapply rtc_l; [split; [exact sample_step2|apply NoDup_singleton]|apply rtc_refl]. }
  assert (performs (s_pool sample_s2) sample_agent guard1) as Hp by (by exists 0, sample_job).
  assert (await_input 0 (from_secs 45) ([slow_turn 0 false] ++ [slow_turn (from_millis 150) true])
     = Some ([CANCEL_POLL_INTERVAL], Some (inl Cancelled))) as Hw by (vm_compute; reflexivity).
  destruct (stop_reaches_thread sample_db 1 0 sample_s2 sample_agent guard1 (inr (Some tt)) sample_transport
    bool await_input await_again 0 (from_secs 45) [slow_turn 0 false] [slow_turn (from_millis 150) true]
    [CANCEL_POLL_INTERVAL] (Some (inl Cancelled)) Hr Hp eq_refl) as [Hiff Hs].
  assert (check_cancelled (flags (s_pool sample_s2)) sample_transport = inl Cancelled) as Hc
    by (vm_compute; reflexivity).
  split; [exact Hc|]. split; [exact Hw|].
  destruct (Hs (proj1 Hiff Hc) waits_for_input) as (_ & _ & Hd); [|done|exact Hw|exact Hd].
  eapply (polls_turn sample_transport (s_pool sample_s2) [Sent sample_job]);
    [eapply pool_more; [apply pool_send|apply pool_done]|vm_compute; reflexivity|apply polls_end].
Defined.
