(* ===== verification/Drain.v ===== *)
(** * The pool answers what it is sent

    Progress of the threads of [spawn_http_pool] ([Pool.v]), in the lifetimes of
    [System.v]: every call goes through four steps of a thread and no more, whatever the
    main loop does in between, a step is open to some thread as long as a call is not
    over, and so the pool runs empty. *)

From stdpp Require Import relations.
From S2P Require Import Prelude Utf8 RustStr Net Json Spi Privilege Sandbox Outbound Pool RuntimeWorker System.

(** ** The work that is left *)

(** The steps of the threads; the other events are the main loop's. *)
Definition own (e : pool_event) : bool :=
  match e with
  | Taken | Registered _ | Dropped _ | Completed => true
  | Sent _ | Received _ | Marked _ => false
  end.

Definition own_steps (es : list pool_event) : nat := length (List.filter own es).

(** A call is taken, its guard registered, the guard dropped, the result sent. *)
Definition thread_work (w : worker_thread) : nat :=
  match w with Idle => 0 | Holding _ => 3 | Performing _ _ => 2 | Sending _ => 1 end.

Definition threads_work (ws : list worker_thread) : nat := sum_list (map thread_work ws).

Definition pool_work (p : Pool) : nat := 4 * length (waiting p) + threads_work (workers p).

Lemma threads_work_update ws i x y :
  ws !! i = Some x ->
  threads_work (<[i := y]> ws) + thread_work x = threads_work ws + thread_work y.
Proof.
  unfold threads_work. revert i. induction ws as [|w ws IH]; intros [|i] Hi; [done..| |].
  - injection Hi as ->. simpl. lia.
  - specialize (IH i Hi). simpl. lia.
Qed.

(** Every step of a thread is one unit of the work, every call sent brings four, and
    the main loop's other steps change nothing. *)
Lemma pool_step_work p e p' :
  pool_step p e p' -> own_steps [e] + pool_work p' = pool_work p + 4 * length (sends [e]).
Proof.
  unfold pool_work, own_steps. intros Hs.
  destruct Hs as [p j|p j rest i Hw Hi|p i j Hi|p i j g st bd Hi|p i r Hi|p r rest Hf|p ids];
    cbn [own List.filter sends omap list_omap waiting workers];
    try (pose proof (fun w => threads_work_update _ _ _ w Hi) as Hu; cbn [thread_work] in Hu).
  - rewrite length_app. cbn [length]. lia.
  - specialize (Hu (Holding j)). rewrite Hw. cbn [length thread_work] in *. lia.
  - specialize (Hu (Performing j (register (flags p) (j_id j)).2)). cbn [length thread_work] in *. lia.
  - specialize (Hu (Sending (mk_result (j_id j) (j_queue j) st bd))). cbn [length thread_work] in *. lia.
  - specialize (Hu Idle). cbn [length thread_work] in *. lia.
  - cbn [length]. lia.
  - cbn [length]. lia.
Qed.

Lemma own_steps_cons e es : own_steps (e :: es) = own_steps [e] + own_steps es.
Proof. unfold own_steps. simpl. by destruct (own e). Qed.

(** A step of a thread makes the work less. *)
Lemma own_step_work p e p' : pool_step p e p' -> own e = true -> S (pool_work p') = pool_work p.
Proof.
  intros Hs%pool_step_work He. destruct e; simpl in He; try done; unfold own_steps in Hs;
    cbn [own List.filter sends omap list_omap length] in Hs; lia.
Qed.

Lemma pool_run_work p es p' :
  pool_run p es p' -> own_steps es + pool_work p' = pool_work p + 4 * length (sends es).
Proof.
  intros Hr. induction Hr as [p|p e p1 es p' Hs _ IH]; [cbn; lia|].
  apply pool_step_work in Hs. rewrite own_steps_cons, sends_cons, length_app. lia.
Qed.

(** ** The threads stay *)

Lemma pool_step_threads p e p' : pool_step p e p' -> length (workers p') = length (workers p).
Proof. intros Hs. by destruct Hs; cbn [workers]; rewrite ?length_insert. Qed.

Lemma pool_run_threads p es p' : pool_run p es p' -> length (workers p') = length (workers p).
Proof.
  intros Hr. induction Hr as [|p e p1 es p' Hs _ IH]; [done|]. by rewrite IH, (pool_step_threads _ _ _ Hs).
Qed.

Lemma threads_reach `{WorkerEnv} `{SerdeJson} db threads now s :
  rtc (sys_step db threads) (sys_start [] now threads) s -> length (workers (s_pool s)) = threads.
Proof.
  intros Hr. eapply (rtc_ind_r (fun s => length (workers (s_pool s)) = threads) (sys_start [] now threads));
    [apply repeat_length| |exact Hr].
  intros s1 s2 _ Hs IH.
  destruct Hs as [s3 t tr ls' lost jobs es1 p1 es2 p2 es3 p3 H1 _ _ _ _ H2 _ _ _ H3 _ _ _| |];
    [|apply repeat_length..].
  cbn [s_pool]. by rewrite (pool_run_threads _ _ _ H3), (pool_run_threads _ _ _ H2), (pool_run_threads _ _ _ H1).
Qed.

(** ** No standstill *)

(** A thread that is not idle can go on, and an idle one can take what waits. *)
Lemma thread_ready p i w :
  workers p !! i = Some w -> w <> Idle -> exists e p', pool_step p e p' /\ own e = true.
Proof.
  intros Hi Hw. destruct w as [|j|j g|r]; [done|..].
  - eexists _, _. split; [by eapply pool_register|done].
  - eexists _, _. split; [by apply (pool_drop _ i j g 0%Z [])|done].
  - eexists _, _. split; [by eapply pool_finish|done].
Qed.

Lemma all_idle ws : Forall (fun w => w = Idle) ws \/ exists i w, ws !! i = Some w /\ w <> Idle.
Proof.
  induction ws as [|w ws [IH|(i & v & Hi & Hv)]]; [by left| |].
  - destruct w; [left; by constructor|right; by eexists 0, _..].
  - right. by exists (S i), v.
Qed.

Lemma idle_no_work ws : Forall (fun w => w = Idle) ws -> threads_work ws = 0.
Proof. intros Hi. induction Hi as [|w ws -> _ IH]; [done|exact IH]. Qed.

Lemma pool_progress p :
  0 < length (workers p) -> 0 < pool_work p -> exists e p', pool_step p e p' /\ own e = true.
Proof.
  intros Hn Hw. destruct (all_idle (workers p)) as [Hi|(i & w & Hi & Hne)]; [|by eapply thread_ready].
  unfold pool_work in Hw. rewrite (idle_no_work _ Hi) in Hw.
  destruct (waiting p) as [|j rest] eqn:Hwt; [simpl in Hw; lia|].
  destruct (workers p) as [|w ws] eqn:Hws; [simpl in Hn; lia|]. apply Forall_cons_iff in Hi as [-> _].
  eexists _, _. split; [apply (pool_take p j rest 0); [done|by rewrite Hws]|done].
Qed.

(** The threads alone bring the work to its end. *)
Lemma pool_finishes p :
  0 < length (workers p) ->
  exists es p', pool_run p es p' /\ forallb own es = true /\ pool_work p' = 0.
Proof.
  remember (pool_work p) as n eqn:Hn. revert p Hn. induction n as [n IH] using lt_wf_ind. intros p -> Ht.
  destruct (decide (pool_work p = 0)) as [Hz|Hz]; [by exists [], p; repeat split; [constructor|]|].
  destruct (pool_progress p Ht) as (e & p1 & Hs & He); [lia|].
  destruct (IH (pool_work p1)) with (p := p1) as (es & p' & Hr & Ho & Hz').
  - pose proof (own_step_work _ _ _ Hs He). lia.
  - done.
  - by rewrite (pool_step_threads _ _ _ Hs).
  - exists (e :: es), p'. split; [by eapply pool_more|]. simpl. by rewrite He.
Qed.

(** Without work every call in the pool is a result. *)
Lemma no_work_calls p : pool_work p = 0 -> pool_calls p = map result_call (finished p).
Proof.
  unfold pool_work, pool_calls. intros Hw. destruct (waiting p); [|simpl in Hw; lia]. simpl in *.
  induction (workers p) as [|w ws IH]; [done|]. unfold threads_work in Hw. simpl in Hw.
  destruct w; simpl in Hw; [|lia..]. exact (IH Hw).
Qed.

(** And the work is at most four steps for each of the calls. *)
Lemma pool_work_calls p : pool_work p <= 4 * length (pool_calls p).
Proof.
  unfold pool_work, pool_calls. rewrite !length_app, !length_map.
  assert (threads_work (workers p) <= 4 * length (omap thread_call (workers p))); [|lia].
  unfold threads_work. induction (workers p) as [|w ws IH]; [done|].
  destruct w; cbn [omap list_omap map sum_list sum_list_with thread_call thread_work length id] in *; lia.
Qed.

(** C37: the pool answers what it is sent.  In every state the worker reaches, however the
    threads and the main loop go on from there: the steps the threads make and the work
    left are together the work there was and four steps for each call sent since, so no
    run of the threads goes on for ever without new calls; at the start that is at most
    four steps for each call in the pool, 32 as long as no claim yields more calls than
    it was asked for; the threads come to a halt only when no work is left; then every
    call that was in the pool or was sent since has, by id and queue, exactly one
    result, received or ready to be; and from any point the threads alone get there. *)
Theorem pool_answers_everything `{WorkerEnv} `{SerdeJson} db threads now s es p' :
  0 < threads ->
  rtc (sys_step db threads) (sys_start [] now threads) s ->
  pool_run (s_pool s) es p' ->
  own_steps es + pool_work p' = pool_work (s_pool s) + 4 * length (sends es)
  /\ pool_work (s_pool s) <= 4 * length (pool_calls (s_pool s))
  /\ (forallb honours (s_trace s) = true -> pool_work (s_pool s) <= 32)
  /\ (pool_work p' = 0 <-> forall e p'', pool_step p' e p'' -> own e = false)
  /\ (pool_work p' = 0 ->
      pool_calls (s_pool s) ++ map job_call (sends es)
        ≡ₚ map result_call (receives es) ++ map result_call (finished p'))
  /\ exists es' p'', pool_run p' es' p'' /\ forallb own es' = true /\ pool_work p'' = 0.
Proof.
  intros Ht Hr He. pose proof (threads_reach _ _ _ _ Hr) as Hn.
  assert (0 < length (workers p')) as Hp by (rewrite (pool_run_threads _ _ _ He); lia).
  pose proof (pool_work_calls (s_pool s)) as Hc. split_and!.
  - by apply pool_run_work.
  - done.
  - intros Hh. destruct (books_reach _ _ _ _ Hr Hh) as [Hl Hcap _ _ _].
    unfold capacity, HTTP_THREADS in Hcap. lia.
  - split.
    + intros Hz e p'' Hs. destruct (own e) eqn:Ho; [|done]. pose proof (own_step_work _ _ _ Hs Ho). lia.
    + intros Hs. destruct (decide (pool_work p' = 0)) as [|Hz]; [done|].
      destruct (pool_progress p' Hp) as (e & p'' & Hs' & Ho); [lia|]. by rewrite (Hs _ _ Hs') in Ho.
  - intros Hz. rewrite (pool_run_conserves _ _ _ He). by rewrite (no_work_calls _ Hz).
  - by apply pool_finishes.
Qed.

#[local] Instance plain_env : WorkerEnv := {| env_drop_privileges := None |}.
#[local] Existing Instance tiny_json.

(** The call of the sample lifetime, from the turn that claimed it: four steps of the one
    thread, with a marking and another call of the loop in between. *)
Definition other_job : OutboundJob := mk_job (str "b") Oauth (JObj []).

Lemma pool_answers_everything_witness :
  pool_work pool1 = 4
  /\ (exists es' p'', pool_run (mk_pool [other_job] [Performing sample_job guard1] [] flags2) es' p''
      /\ forallb own es' = true /\ pool_work p'' = 0)
  /\ pool_work (mk_pool [other_job] [Performing sample_job guard1] [] flags2) = 6.
Proof.
  assert (rtc (sys_step sample_db 1) sample_s0 sample_s1) as Hr
    by (eapply rtc_l; [exact sample_step1|apply rtc_refl]).
  assert (pool_run pool1 [Taken; Registered sample_agent; Sent other_job; Marked [sample_agent]]
    (mk_pool [other_job] [Performing sample_job guard1] [] flags2)) as He.
  { eapply pool_more; [by eapply (pool_take _ sample_job [] 0)|].
    eapply pool_more; [by eapply (pool_register _ 0 sample_job)|].
    eapply pool_more; [apply pool_send|]. eapply pool_more; [apply pool_mark|]. apply pool_done. }
  destruct (pool_answers_everything sample_db 1 0 sample_s1 _ _ ltac:(lia) Hr He)
    as (_ & _ & _ & _ & _ & Hd).
  split; [reflexivity|]. split; [exact Hd|reflexivity].
Defined.
