(* ===== verification/JobTypes.v ===== *)
(** * The jobs of the pool, as typed values

    What the main loop hands to the pool's threads is claimed JSON; the queue of a job
    decides, through the [kind] the loop forces on it, what request a thread makes of
    it.  Here is the invariant that makes this safe, over whole lifetimes. *)

From stdpp Require Import relations.
From S2P Require Import Prelude Utf8 RustStr Net Json Spi Privilege Sandbox Outbound Pool RuntimeWorker System.

#[local] Arguments str : simpl never.

(** Every JSON value the server returns is one. *)
Definition typed_reply (cr : call * reply) : bool :=
  match cr.2 with Done (Some (DJson v)) => wf_json v | _ => true end.

(** The kind the loop forces on the calls of a queue. *)
Definition forced_kind (q : OutboundQueue) : option bytes :=
  match q with
  | Outbound => None
  | Oauth => Some (str "oauth")
  | AgentEmbedding => Some (str "embedding")
  | ProviderProbe => Some (str "function")
  end.

(** A job is an object with the id it is filed under and its queue's kind. *)
Definition job_typed (j : OutboundJob) : Prop :=
  wf_json (j_call j) = true
  /\ get_str (j_call j) (str "call_id") = Some (j_id j)
  /\ forall k, forced_kind (j_queue j) = Some k -> get_str (j_call j) (str "kind") = Some k.

Section typing.
Context `{WorkerEnv} `{SerdeJson}.

Abbreviation ensures s p P :=
  (wp (M := assuming typed_reply) s p (fun o s' => s' = true -> forall a, o = Returned a -> P a)).

Lemma with_kind_typed q call id :
  wf_json call = true -> get_str call (str "call_id") = Some id ->
  job_typed (mk_job id q (with_kind (forced_kind q) call)).
Proof.
  intros Hw Hid. destruct call as [| | | | | |m]; try done. unfold get_str, get in Hid.
  unfold job_typed, with_kind. cbn [j_call j_id j_queue].
  destruct (forced_kind q) as [k|] eqn:Hk; [|done]. ands.
  - by apply obj_insert_wf.
  - unfold get_str, get. rewrite obj_get_insert_ne; [done|]. discriminate.
  - intros k' [= <-]. unfold get_str, get. by rewrite obj_get_insert.
Qed.

Lemma enqueue_typed q open calls :
  forallb wf_json calls = true -> Forall job_typed (enqueue q (forced_kind q) open calls).
Proof.
  induction calls as [|call calls IH]; [done|]. cbn [forallb enqueue].
  intros [Hc Hcs]%andb_true_iff. destruct (get_str call (str "call_id")) as [id|] eqn:Hid; [|auto].
  destruct (valid_uuid id); cbn [negb]; [|auto]. destruct open; cbn [negb]; [|done].
  constructor; [by apply with_kind_typed|auto].
Qed.

Lemma claim_typed sql n s : ensures s (claim sql (str "calls") n) (fun v => wf_json v = true).
Proof.
  apply (ensures_transaction typed_reply). intros s1. apply (ensures_dropped typed_reply); intros s2.
  - by intros _ v [= <-].
  - split; [done|]. intros [[[b|v| |]|]|e|m]; simpl; try done; intros Hs v' [= <-]; try done.
    by apply andb_true_iff in Hs as [_ Hs].
Qed.

Lemma dispatch_typed n s : ensures s (dispatch_and_claim n) (fun v => wf_json v = true).
Proof.
  apply (ensures_transaction typed_reply). intros s1. apply (ensures_dropped typed_reply); intros s2.
  - by intros _ v [= <-].
  - do 2 (apply (ensures_bind typed_reply _ _ (fun _ => True)); [apply ensures_any|]; intros _ ? _).
    split; [done|]. intros [[[b|v| |]|]|e|m]; simpl; try done; intros Hs v' [= <-]; try done.
    by apply andb_true_iff in Hs as [_ Hs].
Qed.

Lemma pump_queue_typed rdy open q claim_jobs n s :
  (forall m s', ensures s' (claim_jobs m) (fun v => wf_json v = true)) ->
  ensures s (pump_queue rdy open q (forced_kind q) claim_jobs n) (Forall job_typed).
Proof.
  intros Hc. unfold pump_queue. destruct (rdy && _); [|by intros _ js [= <-]].
  apply (ensures_bind typed_reply _ _ (fun v => wf_json v = true)); [apply Hc|].
  intros v s' Hv _ js [= <-]. unfold get_array. destruct (get v (str "calls")) as [x|] eqn:Hx; [|done].
  apply get_wf in Hx; [|done]. destruct x; try done. by apply enqueue_typed.
Qed.

Lemma pump_typed ls t n s : ensures s (pump ls t n) (fun r => Forall job_typed r.2).
Proof.
  apply (ensures_bind typed_reply _ _ (fun _ => True)); [apply ensures_any|]. intros rdy s0 _.
  apply (ensures_bind typed_reply _ _ (Forall job_typed));
    [apply (pump_queue_typed _ _ Outbound); intros; apply dispatch_typed|]. intros j1 s1 H1.
  apply (ensures_bind typed_reply _ _ (Forall job_typed));
    [apply (pump_queue_typed _ _ Oauth); intros; apply claim_typed|]. intros j2 s2 H2.
  apply (ensures_bind typed_reply _ _ (Forall job_typed));
    [apply (pump_queue_typed _ _ AgentEmbedding); intros; apply claim_typed|]. intros j3 s3 H3.
  apply (ensures_bind typed_reply _ _ (Forall job_typed));
    [apply (pump_queue_typed _ _ ProviderProbe); intros; apply claim_typed|]. intros j4 s4 H4.
  do 5 (apply (ensures_bind typed_reply _ _ (fun _ => True)); [apply ensures_any|]; intros ? ? _).
  cbv zeta. destruct (reschedule _ _ _) as [next idle]. intros _ r [= <-]. simpl.
  rewrite !Forall_app. done.
Qed.

Lemma loop_turn_typed ls ids t s : ensures s (loop_turn ls ids t) (fun r => Forall job_typed r.2).
Proof.
  do 3 (apply (ensures_bind typed_reply _ _ (fun _ => True)); [apply ensures_any|]; intros ? ? _).
  destruct (_ <? _)%Z; [by intros _ r [= <-]|].
  apply (ensures_bind typed_reply _ _ (fun r => Forall job_typed r.2)); [apply pump_typed|].
  intros r s9 Hr _ r9 [= <-]. exact Hr.
Qed.
End typing.

(** ** In the pool *)

Definition thread_job (w : worker_thread) : option OutboundJob :=
  match w with Holding j | Performing j _ => Some j | _ => None end.

(** What holds of every job waiting or with a thread. *)
Definition pool_all (P : OutboundJob -> Prop) (p : Pool) : Prop :=
  Forall P (waiting p) /\ Forall P (omap thread_job (workers p)).

Lemma omap_insert_Forall {A B} (P : B -> Prop) (f : A -> option B) l i x y :
  l !! i = Some x -> (forall b, f y = Some b -> P b) ->
  Forall P (omap f l) -> Forall P (omap f (<[i := y]> l)).
Proof.
  intros Hi Hy Hl. pose proof (omap_update f l i x y Hi) as Hp.
  assert (Forall P (option_list (f x) ++ omap f (<[i := y]> l))) as Hf.
  { rewrite Hp. apply Forall_app. split; [|done]. destruct (f y) as [b|]; [|done].
    repeat constructor. by apply Hy. }
  by apply Forall_app in Hf as [_ ?].
Qed.

Lemma omap_lookup_Forall {A B} (P : B -> Prop) (f : A -> option B) l i x b :
  l !! i = Some x -> f x = Some b -> Forall P (omap f l) -> P b.
Proof.
  intros Hi Hb Hl. eapply list.Forall_forall; [exact Hl|].
  apply list_elem_of_omap. exists x. split; [by eapply list_elem_of_lookup_2|done].
Qed.

Lemma pool_run_all P p es p' :
  pool_run p es p' -> Forall P (sends es) -> pool_all P p -> pool_all P p'.
Proof.
  intros Hr. induction Hr as [p|p e p1 es p' Hs _ IH]; [done|].
  rewrite sends_cons, Forall_app. intros [He Hes] [Hw Ht]. apply IH; [done|]. clear IH.
  destruct Hs as [p j|p j rest i Hwt Hi|p i j Hi|p i j g st bd Hi|p i r Hi|p r rest Hf|p ids];
    (split; cbn [waiting workers]); try done.
  - by apply Forall_app.
  - rewrite Hwt in Hw. by apply Forall_cons_iff in Hw as [_ ?].
  - eapply omap_insert_Forall; [exact Hi| |done]. intros j' [= <-].
    rewrite Hwt in Hw. by apply Forall_cons_iff in Hw as [? _].
  - eapply omap_insert_Forall; [exact Hi| |done]. intros j' [= <-].
    exact (omap_lookup_Forall _ thread_job _ _ _ _ Hi eq_refl Ht).
  - by apply (omap_insert_Forall _ _ _ _ _ _ Hi).
  - by apply (omap_insert_Forall _ _ _ _ _ _ Hi).
Qed.

Lemma pool_start_all P h now threads : pool_all P (s_pool (sys_start h now threads)).
Proof. split; [constructor|]. cbn. by induction threads. Qed.

(** Over a turn. *)
Lemma turn_pool_all P p es1 p1 es2 p2 lost es3 p3 :
  pool_run p es1 p1 -> sends es1 = [] -> pool_run p1 es2 p2 -> sends es2 = [] ->
  pool_run p2 (Marked lost :: es3) p3 -> Forall P (sends es3) -> pool_all P p -> pool_all P p3.
Proof.
  intros H1 S1 H2 S2 H3 S3 Hp. eapply pool_run_all; [exact H3|by rewrite sends_cons|].
  eapply pool_run_all; [exact H2|by rewrite S2|]. eapply pool_run_all; [exact H1|by rewrite S1|done].
Qed.

(** What a typed job makes a thread send. *)
Definition request_typed (q : OutboundQueue) (rq : http_request) : Prop :=
  match q with
  | Outbound | ProviderProbe => True
  | Oauth => rq_method rq = str "POST" /\ (exists fields, rq_payload rq = FormBody fields)
             /\ Forall (fun kv => eq_ignore_ascii_case kv.1 (str "content-type") = false) (rq_headers rq)
  | AgentEmbedding => rq_method rq = str "POST" /\ exists v, rq_payload rq = JsonBody v /\ wf_json v = true
  end.

Lemma job_request j url : job_typed j -> request_typed (j_queue j) (outbound_request url (j_call j)).
Proof.
  intros (Hw & _ & Hk). unfold outbound_request. destruct (j_queue j); try done; rewrite (Hk _ eq_refl).
  - change (default (str "llm") (Some (str "oauth"))) with (str "oauth"). cbv zeta.
    rewrite bool_decide_eq_false_2 by discriminate. rewrite bool_decide_eq_true_2 by done.
    split; [done|]. split; [by eexists|]. apply oauth_headers_typed.
  - change (default (str "llm") (Some (str "embedding"))) with (str "embedding"). cbv zeta.
    rewrite !bool_decide_eq_false_2 by discriminate. split; [done|]. eexists. split; [done|].
    destruct (get (j_call j) (str "body")) as [b|] eqn:Hb; [|done]. by apply get_wf in Hb.
Qed.

(** C31: jobs are well-typed.  Over any number of turns and restarts, as long as the JSON
    the server returns is well-formed, every job a thread performs is a well-formed
    object filed under the id it carries, with the kind its queue demands; so an
    OAuth exchange is always sent as a form without a caller's content type, and an
    embedding always as a JSON body, whatever the claimed call says. *)
Theorem jobs_well_typed `{WorkerEnv} `{SerdeJson} db threads now s i j g url :
  rtc (sys_step db threads) (sys_start [] now threads) s ->
  forallb typed_reply (s_trace s) = true ->
  workers (s_pool s) !! i = Some (Performing j g) ->
  job_typed j /\ request_typed (j_queue j) (outbound_request url (j_call j)).
Proof.
  intros Hr Ht Hi. assert (pool_all job_typed (s_pool s)) as [_ Hp].
  { revert Ht. clear Hi. eapply (rtc_ind_r (fun s => forallb typed_reply (s_trace s) = true -> pool_all job_typed (s_pool s))
      (sys_start [] now threads)); [| |exact Hr].
    - intros _. apply pool_start_all.
    - intros s1 s2 _ Hs IH Ht.
      destruct Hs as [s1 t tr ls' lost jobs es1 p1 es2 p2 es3 p3 H1 _ Hs1 _ Hrun H2 _ Hs2 _ H3 _ Hs3 _| |];
        [|apply pool_start_all..].
      cbn [s_trace s_pool] in *. rewrite forallb_app in Ht. apply andb_true_iff in Ht as [Ht1 Ht2].
      assert (Forall job_typed jobs) as Hj.
      { apply (ensures_run typed_reply db (s_trace s1) (loop_turn (s_loop s1) (registered p1) t)
                 (fun r => Forall job_typed r.2) (ls', lost, jobs)); [apply loop_turn_typed| |]; by rewrite Hrun. }
      eapply turn_pool_all; [exact H1|done|exact H2|done|exact H3|by rewrite Hs3|by apply IH]. }
  assert (job_typed j) as Hj by exact (omap_lookup_Forall _ thread_job _ _ _ _ Hi eq_refl Hp).
  split; [done|]. by apply job_request.
Qed.

#[local] Instance plain_env : WorkerEnv := {| env_drop_privileges := None |}.
#[local] Existing Instance tiny_json.

(** The claimed call of the sample lifetime, while a thread performs it. *)
Lemma jobs_well_typed_witness :
  job_typed sample_job /\ workers (s_pool sample_s2) !! 0 = Some (Performing sample_job guard1).
Proof.
  split; [|reflexivity].
  refine (proj1 (jobs_well_typed sample_db 1 0 sample_s2 0 sample_job guard1 [] _ _ _)).
  - eapply rtc_l; [exact sample_step1|]. eapply rtc_l; [exact sample_step2|apply rtc_refl].
  - vm_compute. reflexivity.
  - reflexivity.
Defined.
