(* ===== verification/Dashboard.v ===== *)
(** * The dashboard, end to end

    The two workers meet at a unix socket: what [rpc] of [src/web.rs] writes is what
    [handle_rpc_stream] of [src/rpc.rs] reads, and back.  Here they are put together: a
    dashboard request is a call of [allgres.dashboard_rpc], and its response is the
    call's result. *)

From S2P Require Import Prelude Utf8 RustStr Json HttpProtocol WebAuth Web WebClient Spi Privilege RuntimeWorker.

#[local] Arguments str : simpl never.

(** What the server answered to each [dashboard_rpc] of a run. *)
Definition rpc_replies (t : trace) : list reply :=
  omap (fun cr => match cr.1 with
                  | Spi sql _ => if sql == DASHBOARD_RPC then Some cr.2 else None
                  | _ => None end) t.

Definition failure (code : string) : json := json_error (str code).

(** The specification of the dashboard's backend: the value the client is to see. *)
Definition rpc_answer (rdy : bool) (t : trace) : json :=
  if negb rdy then failure "extension_not_installed"
  else match rpc_replies t with
       | [] => failure "privilege_drop_failed"
       | Done (Some (DJson v)) :: _ => v
       | _ => failure "empty_rpc_result"
       end.

(** The status the client is to see with it. *)
Definition answer_status (v : json) : string :=
  if get_bool v (str "ok") == Some false then "400 Bad Request" else "200 OK".

Definition rpc_call (req : bytes) : bytes * list arg := (DASHBOARD_RPC, [AStr (Some req)]).

Section dashboard.
Context `{WorkerEnv} `{SerdeJson}.

(** ** In the runtime worker *)

(** One call, behind the privilege drop, and its answer. *)
Lemma dashboard_rpc_run db h req t reply :
  run db h (dashboard_rpc req) = (t, Returned reply) ->
  reply = to_string (rpc_answer true t)
  /\ (issued t = [] \/ issued t = [rpc_call req])
  /\ (forallb drop_ok t = true -> issued t = [rpc_call req]).
Proof.
  unfold dashboard_rpc, transaction, drop_privileges, spi_get_json, spi_get_bool, rpc_error.
  intros Hr.
  destruct (env_drop_privileges == Some (str "0")); cbn [do_ bind run negb] in Hr.
  - destruct (db _ (Spi DASHBOARD_RPC _)) as [[[]|]|e|m]; cbn [bind run ok_flatten] in Hr;
      try done; injection Hr as <- <-; (split; [done|]); (split; [by right|done]).
  - destruct (db _ (Spi ASSUME_WORKER_ROLE _)) as [[[[]| | |]|]|e|m]; cbn [bind run negb warning do_] in Hr;
      try (destruct (db _ (Spi DASHBOARD_RPC _)) as [[[]|]|e'|m']; cbn [bind run ok_flatten] in Hr);
      try done; injection Hr as <- <-; (split; [done|]); (split; [by left|done]) || (split; [by right|done]).
Qed.

(** A request that fits the socket is read whole. *)
Lemma handle_rpc_stream_run db h rdy req v t reply :
  utf8_valid req = true -> (length req <= RuntimeWorker.MAX_REQUEST_BYTES)%nat -> from_str req = Some v ->
  run db h (handle_rpc_stream (Some req) rdy) = (t, Returned reply) ->
  reply = to_string (rpc_answer rdy t)
  /\ issued t `sublist_of` [rpc_call req]
  /\ (rdy = true -> forallb drop_ok t = true -> issued t = [rpc_call req]).
Proof.
  intros Hu Hl Hv. unfold handle_rpc_stream. rewrite take_ge by done. rewrite Hu, Hv. cbn [andb].
  destruct rdy.
  - intros Hr. destruct (dashboard_rpc_run db h req t reply Hr) as (-> & Hi & Hd). ands; [done| |done].
    destruct Hi as [-> | ->]; [apply sublist_nil_l|done].
  - intros [= <- <-]. ands; [done|apply sublist_nil_l|done].
Qed.

(** ** In the web worker *)

Lemma events_forward_nothing r : route r = EVENTS_ROUTE -> route_request r = NoRoute.
Proof. intros Hr. unfold route_request, is_route. rewrite Hr. by rewrite !andb_false_r. Qed.

(** The response to a request that reached the runtime. *)
Lemma forwarded_response html cfg st c r req st' q qs e :
  request c = Some r -> route_request r = Forward req ->
  handle_web_connection html cfg st c = (st', q :: qs, e) ->
  q = req /\ qs = [] /\ e = respond_json (answer_status (rpc (backend c req))) (to_string (rpc (backend c req))).
Proof.
  intros Hc Hf. destruct (route r == EVENTS_ROUTE) eqn:He.
  { breflect. by rewrite events_forward_nothing in Hf. }
  unfold handle_web_connection, gate_api, serve_api, api_route. rewrite Hc, Hf, He.
  fold (answer_status (rpc (backend c req))).
  repeat case_match; intros; by simplify_eq.
Qed.

(** C10: the dashboard shows what the database says.  When a request the web worker
    forwards reaches the runtime worker, is served there to its end and its text fits
    the socket, the only statement this causes besides the privilege drop is
    [dashboard_rpc] on exactly the text of the request the route stands for, issued
    once if the extension is installed and the privileges drop; and, where printing
    and parsing the answer give it back, the HTTP client reads a response whose body
    is the value the database returned (or names the reason there is none), with
    status 400 exactly if that value says so. *)
Theorem dashboard_end_to_end html cfg st c r req st' q qs text db h rdy parsed t reply :
  request c = Some r -> route_request r = Forward req ->
  handle_web_connection html cfg st c = (st', q :: qs, Wrote text) ->
  from_str (to_string req) = Some parsed ->
  utf8_valid (to_string req) = true -> (length (to_string req) <= RuntimeWorker.MAX_REQUEST_BYTES)%nat ->
  run db h (handle_rpc_stream (Some (to_string req)) rdy) = (t, Returned reply) ->
  backend c q = Reply reply ->
  from_str (to_string (rpc_answer rdy t)) = Some (rpc_answer rdy t) ->
  (Z.of_nat (length text) <= usize_max)%Z ->
  q = req /\ qs = []
  /\ issued t `sublist_of` [rpc_call (to_string req)]
  /\ (rdy = true -> forallb drop_ok t = true -> issued t = [rpc_call (to_string req)])
  /\ exists headers,
       client_read text = Some (status_line (str (answer_status (rpc_answer rdy t))), headers,
                                to_string (rpc_answer rdy t)).
Proof.
  intros Hc Hf Hh Hp Hu Hl Hr Hb Hs Ht.
  destruct (forwarded_response _ _ _ _ _ _ _ _ _ _ Hc Hf Hh) as (-> & -> & [= ->]).
  destruct (handle_rpc_stream_run _ _ _ _ _ _ _ Hu Hl Hp Hr) as (-> & Hi & Hd).
  rewrite Hb in Ht |- *. cbn [rpc] in Ht |- *. rewrite Hs in Ht |- *. cbn [default] in Ht |- *.
  ands; [done|done|done|done|]. eexists.
  apply (client_reads_response _ (str "application/json") _ []); [|done|done|].
  - unfold answer_status. by case_match.
  - unfold respond in Ht. rewrite !length_app in Ht. lia.
Qed.
End dashboard.

(** JSON text of which only the empty object is recognised, and a database that answers
    with it. *)
#[local] Instance tiny_json : SerdeJson :=
  {| from_str := fun s => if s == str "{}" then Some (JObj []) else None; to_string := fun _ => str "{}" |}.

#[local] Instance plain_env : WorkerEnv := {| env_drop_privileges := None |}.

Definition sample_db : server := fun _ c =>
  match c with
  | Spi sql _ => if sql == DASHBOARD_RPC then Done (Some (DJson (JObj []))) else Done (Some (DBool true))
  | _ => Done None
  end.

Definition sample_run : trace * outcome bytes := run sample_db [] (handle_rpc_stream (Some (str "{}")) true).

Definition sample_status : HttpRequest :=
  mk_request (str "GET") (str "/api/v1/status") [(str "x-allgres-client", str "1")] [].

Definition sample_response : bytes :=
  respond (str "200 OK") (str "application/json") (str "{}") [].

Lemma dashboard_end_to_end_witness :
  issued sample_run.1 = [rpc_call (str "{}")]
  /\ exists headers, client_read sample_response = Some (str "HTTP/1.1 200 OK", headers, str "{}").
Proof.
  pose (c := sample_conn sample_status).
  pose (st' := (handle_web_connection [] open_config web_init c).1.1).
  destruct (dashboard_end_to_end [] open_config web_init c sample_status (action_request "overview") st'
              (action_request "overview") [] sample_response sample_db [] true (JObj []) sample_run.1 (str "{}"))
    as (_ & _ & _ & Hi & Hr).
  6: change (2 <= RuntimeWorker.MAX_REQUEST_BYTES)%nat; unfold RuntimeWorker.MAX_REQUEST_BYTES; lia.
  9: vm_compute; discriminate.
  9: split; [by apply Hi|exact Hr].
  1-2, 4: reflexivity.
  all: vm_compute; reflexivity.
Defined.
