(* ===== verification/CallTables.v ===== *)
(** * The call tables of the control plane

    Everything the runtime worker does for an agent starts as a row of one of seven
    tables of [src/sql/control_plane.sql], queued by the control plane, claimed by the
    worker and completed with its result; the watchdog and operators can take a call
    back at any time.  Here are the rows and the SQL functions that move them, as far as
    they concern a row's status. *)

From stdpp Require Import gmap sorting.
From S2P Require Import Prelude RustStr Net Privilege.

#[local] Arguments str : simpl never.

(** ** Rows *)

(** [CHECK (status IN ('queued', 'in_flight', 'harvested', 'lost'))] *)
Inductive call_status := Queued | In_flight | Harvested | Lost.

#[export] Instance call_status_eq_dec : EqDecision call_status.
Proof. solve_decision. Defined.

Inductive call_table :=
| outbound_calls | oauth_calls | embedding_calls | provider_probes
| sql_calls | function_calls | procedure_calls.

#[export] Instance call_table_eq_dec : EqDecision call_table.
Proof. solve_decision. Defined.

Inductive task_status :=
| task_queued | task_running | task_waiting_human | task_waiting_children
| task_completed | task_failed | task_cancelled.

#[export] Instance task_status_eq_dec : EqDecision task_status.
Proof. solve_decision. Defined.

Record Task := mk_task { t_session : bytes; t_status : task_status }.

(** A row of any of the tables: the columns that decide its way. *)
Record call_row := mk_row {
  row_table : call_table;
  row_id : bytes;
  row_task : option bytes;            (* the tables without the column: [None] *)
  row_status : call_status;
  created_at : Z;
  updated_at : Z
}.

(** The tables and the tasks; [known] are the ids [gen_random_uuid] has handed out. *)
Record Plane := mk_plane {
  tasks : gmap bytes Task;
  calls : list call_row;
  known : list bytes
}.

Definition plane_init : Plane := mk_plane ∅ [] [].

(** [UPDATE .. SET status = .., updated_at = now() WHERE ..] *)
Definition touch (st : call_status) (now : Z) (r : call_row) : call_row :=
  mk_row (row_table r) (row_id r) (row_task r) st (created_at r) now.

Definition set_rows (which : call_row -> bool) (st : call_status) (now : Z) (P : Plane) : Plane :=
  mk_plane (tasks P) (map (fun r => if which r then touch st now r else r) (calls P)) (known P).

Definition set_tasks (f : Task -> Task) (P : Plane) : Plane := mk_plane (f <$> tasks P) (calls P) (known P).

(** [status IN ('queued', 'in_flight')] *)
Definition unended (st : call_status) : bool := (st == Queued) || (st == In_flight).

(** ** Claims *)

(** [GREATEST(1, LEAST(COALESCE(p_limit, 4), 16))] *)
Definition clamp_limit (p_limit : option Z) : Z := Z.max 1 (Z.min (default 4%Z p_limit) 16).

(** The rows a claim may take: queued, of a running task where the table has tasks.
    [open] stands for what else the joins demand (an unexpired token, a built function)
    and for [SKIP LOCKED]. *)
Definition claimable (open : bytes -> bool) (tb : call_table) (P : Plane) (r : call_row) : bool :=
  (row_table r == tb) && (row_status r == Queued) && open (row_id r)
  && match row_task r with
     | None => true
     | Some t => (t_status <$> tasks P !! t) == Some task_running
     end.

(** [ORDER BY created_at] *)
Definition older (r r' : call_row) : Prop := (created_at r <= created_at r')%Z.

#[export] Instance older_dec r r' : Decision (older r r').
Proof. unfold older. apply _. Defined.

#[export] Instance older_total : Total older.
Proof. intros r r'. unfold older. lia. Qed.

#[export] Instance older_trans : Transitive older.
Proof. intros r r' r''. unfold older. lia. Qed.

Definition claim_rows (tb : call_table) (p_limit : option Z) (open : bytes -> bool) (P : Plane) : list call_row :=
  take (Z.to_nat (clamp_limit p_limit)) (merge_sort older (List.filter (claimable open tb P) (calls P))).

(** [fn_claim_outbound], [fn_claim_oauth], [fn_claim_agent_embedding],
    [fn_claim_provider_probe], [fn_claim_sql], [fn_claim_function_calls] and
    [fn_claim_procedure_calls]: the tables they leave and the ids they hand out. *)
Definition fn_claim (tb : call_table) (p_limit : option Z) (open : bytes -> bool) (now : Z) (P : Plane)
  : Plane * list bytes :=
  let ids := map row_id (claim_rows tb p_limit open P) in
  (set_rows (fun r => (row_table r == tb) && bool_decide (row_id r ∈ ids)) In_flight now P, ids).

(** ** Completions *)

Definition row_of (tb : call_table) (id : bytes) (P : Plane) : option call_row :=
  find_first (fun r => (row_table r == tb) && (row_id r == id)) (calls P).

(** [fn_complete_outbound], [fn_complete_oauth], [fn_complete_agent_embedding],
    [fn_complete_provider_probe], [fn_complete_sql], [fn_complete_function_call] and
    [fn_complete_procedure_call], up to what they make of the result: [None] where they
    raise, and otherwise whether they accepted the result or found the call stale. *)
Definition fn_complete (tb : call_table) (id : bytes) (now : Z) (P : Plane) : option (Plane * bool) :=
  match row_of tb id P with
  | None => None
  | Some r =>
    if row_status r != In_flight then Some (P, false)
    else Some (set_rows (fun r => (row_table r == tb) && (row_id r == id)) Harvested now P, true)
  end.

(** ** Taking calls back *)

(** The grace a claimed call has, in seconds. *)
Definition grace (tb : call_table) (p_timeout_seconds : option Z) : Z :=
  Z.max (match tb with procedure_calls => 150 | _ => 15 end) (default 90%Z p_timeout_seconds).

(** The loops of [fn_watchdog] over calls that were claimed too long ago; [locked] rows
    are skipped. *)
Definition reclaim_overdue (p_timeout_seconds : option Z) (locked : bytes -> bool) (now : Z) (P : Plane) : Plane :=
  set_rows (fun r => (row_status r == In_flight) && negb (locked (row_id r))
                     && (updated_at r <? now - from_secs (grace (row_table r) p_timeout_seconds))%Z)
    Lost now P.

(** The tables with tasks whose calls are given up with their task. *)
Definition given_up (tb : call_table) : bool := (tb == outbound_calls) || (tb == sql_calls).

(** The loop of [fn_watchdog] over tasks that exceed their wall clock, [expired]. *)
Definition fail_expired (expired : bytes -> bool) (now : Z) (P : Plane) : Plane :=
  let over t := expired t && match tasks P !! t with
                             | Some tk => bool_decide (t_status tk ∈ [task_running; task_waiting_human; task_waiting_children])
                             | None => false
                             end in
  let P' := set_rows (fun r => given_up (row_table r) && unended (row_status r)
                               && match row_task r with Some t => over t | None => false end) Lost now P in
  mk_plane (map_imap (fun t tk => Some (if over t then mk_task (t_session tk) task_failed else tk)) (tasks P'))
    (calls P') (known P').

(** [fn_watchdog], as far as it concerns calls. *)
Definition fn_watchdog (p_timeout_seconds : option Z) (locked expired : bytes -> bool) (now : Z) (P : Plane) : Plane :=
  fail_expired expired now (reclaim_overdue p_timeout_seconds locked now P).

Definition in_session (sid : bytes) (P : Plane) (r : call_row) : bool :=
  match row_task r with
  | Some t => (t_session <$> tasks P !! t) == Some sid
  | None => false
  end.

(** [fn_cancel_session] *)
Definition fn_cancel_session (sid : bytes) (now : Z) (P : Plane) : Plane :=
  let P1 := set_tasks (fun tk =>
      if (t_session tk == sid)
         && bool_decide (t_status tk ∈ [task_queued; task_running; task_waiting_human; task_waiting_children])
      then mk_task (t_session tk) task_cancelled else tk) P in
  set_rows (fun r => given_up (row_table r) && unended (row_status r) && in_session sid P1 r) Lost now P1.

(** [fn_check_lost_outbound] *)
Definition fn_check_lost_outbound (p_call_ids : list bytes) (P : Plane) : list bytes :=
  map row_id (List.filter (fun r => (row_table r == outbound_calls) && bool_decide (row_id r ∈ p_call_ids)
                                    && (row_status r == Lost)) (calls P)).

(** ** What others do to the tables *)

(** Who claims: the worker, or an operator through [fn_pump]. *)
Inductive claimant := Worker | Pump.

(** What happens to a call, for the record. *)
Inductive call_event :=
| Claimed (by_ : claimant) (tb : call_table) (id : bytes)
| Accepted (tb : call_table) (id : bytes).

Definition event_id (e : call_event) : bytes :=
  match e with Claimed _ _ id => id | Accepted _ id => id end.

(** The tables whose unfinished rows a newer request of the same provider supersedes. *)
Definition superseded_as (tb : call_table) : option call_status :=
  match tb with
  | provider_probes => Some Lost           (* fn_provider_probe_start *)
  | oauth_calls => Some Harvested          (* fn_oauth_device_start *)
  | _ => None
  end.

(** The transactions of dashboards, agents and operators between two statements of the
    worker.  Tasks change status in many places; nothing is assumed of that. *)
Inductive others : Plane -> list call_event -> Plane -> Prop :=
| others_enqueue P tb id task now :
    id ∉ known P -> valid_uuid id = true ->
    others P [] (mk_plane (tasks P) (calls P ++ [mk_row tb id task Queued now now]) (id :: known P))
| others_tasks P ts : others P [] (mk_plane ts (calls P) (known P))
| others_cancel P sid now : others P [] (fn_cancel_session sid now P)
| others_watchdog P secs locked expired now : others P [] (fn_watchdog secs locked expired now P)
| others_supersede P tb st (ids : list bytes) now :
    superseded_as tb = Some st ->
    others P [] (set_rows (fun r => (row_table r == tb) && unended (row_status r)
                                    && bool_decide (row_id r ∈ ids)) st now P)
| others_discard P (ids : list bytes) :       (* queue_agent_embedding, queue_memory_embedding: the queued
                                                ones; a deleted memory takes its calls with it *)
    others P [] (mk_plane (tasks P)
      (List.filter (fun r => negb ((row_table r == embedding_calls) && bool_decide (row_id r ∈ ids)))
                   (calls P)) (known P))
| others_pump P tb open now :              (* fn_pump *)
    tb ∈ [outbound_calls; sql_calls; oauth_calls] ->
    others P (map (Claimed Pump tb) (fn_claim tb (Some 4%Z) open now P).2)
      (fn_claim tb (Some 4%Z) open now P).1.

(** ** The life of a call *)

(** What the record says of a call. *)
Definition life (id : bytes) (es : list call_event) : list call_event :=
  List.filter (fun e => event_id e == id) es.

(** A call is claimed at most once, and its result accepted at most once, after that. *)
Inductive one_life (id : bytes) : list call_event -> Prop :=
| unborn : one_life id []
| taken who tb : one_life id [Claimed who tb id]
| answered who tb : one_life id [Claimed who tb id; Accepted tb id].

(** The tables and the record of what happened to them agree. *)
Record recorded (es : list call_event) (P : Plane) : Prop := {
  rec_nodup : NoDup (map row_id (calls P));
  rec_known : Forall (fun r => row_id r ∈ known P /\ valid_uuid (row_id r) = true) (calls P);
  rec_queued : Forall (fun r => row_status r = Queued -> life (row_id r) es = []) (calls P);
  rec_flight : Forall (fun r => row_status r = In_flight ->
                         exists who, life (row_id r) es = [Claimed who (row_table r) (row_id r)]) (calls P);
  rec_lives : forall id, one_life id (life id es);
  rec_unknown : forall id, id ∉ known P -> life id es = []
}.

Lemma life_app id es es' : life id (es ++ es') = life id es ++ life id es'.
Proof. apply filter_app. Qed.

Lemma set_rows_ids which st now P : map row_id (calls (set_rows which st now P)) = map row_id (calls P).
Proof. simpl. rewrite map_map. apply map_ext. intros r. by destruct (which r). Qed.

Lemma recorded_init : recorded [] plane_init.
Proof. by split; try constructor. Qed.

(** What a change of statuses does to a property of the rows. *)
Lemma set_rows_Forall (Q Q' : call_row -> Prop) which st now P :
  Forall Q (calls P) ->
  (forall r, r ∈ calls P -> Q r -> which r = false -> Q' r) ->
  (forall r, r ∈ calls P -> Q r -> which r = true -> Q' (touch st now r)) ->
  Forall Q' (calls (set_rows which st now P)).
Proof.
  intros HQ Hn Hy. simpl. apply Forall_map, list.Forall_forall. intros r Hr. simpl.
  assert (Q r) by by eapply list.Forall_forall in HQ. destruct (which r) eqn:Hw; auto.
Qed.

(** Ending calls, or changing tasks, leaves the record true. *)
Lemma recorded_end es which st now P :
  unended st = false -> recorded es P -> recorded es (set_rows which st now P).
Proof.
  intros Hst [H1 H2 H3 H4 H5 H6]. split; [by rewrite set_rows_ids|..|done|done].
  - by eapply set_rows_Forall; [exact H2|..].
  - eapply set_rows_Forall; [exact H3|done|]. intros r _ _ _ Hq. simpl in Hq. by rewrite Hq in Hst.
  - eapply set_rows_Forall; [exact H4|done|]. intros r _ _ _ Hq. simpl in Hq. by rewrite Hq in Hst.
Qed.

Lemma recorded_tasks es ts P : recorded es P -> recorded es (mk_plane ts (calls P) (known P)).
Proof. by intros [H1 H2 H3 H4 H5 H6]. Qed.

#[export] Hint Resolve recorded_end recorded_tasks : allgres.

Lemma recorded_watchdog es secs locked expired now P :
  recorded es P -> recorded es (fn_watchdog secs locked expired now P).
Proof.
  intros Hr. unfold fn_watchdog, fail_expired.
  apply (recorded_tasks _ _ (set_rows _ _ _ _)). by apply recorded_end, recorded_end.
Qed.

Lemma recorded_cancel es sid now P : recorded es P -> recorded es (fn_cancel_session sid now P).
Proof. intros Hr. unfold fn_cancel_session. by apply recorded_end, recorded_tasks. Qed.

(** *** Claiming *)

Lemma clamp_limit_bounds p : (1 <= clamp_limit p <= 16)%Z.
Proof. unfold clamp_limit. lia. Qed.

Lemma claim_rows_sub tb p open P :
  exists rest, claim_rows tb p open P ++ rest ≡ₚ List.filter (claimable open tb P) (calls P).
Proof.
  exists (drop (Z.to_nat (clamp_limit p)) (merge_sort older (List.filter (claimable open tb P) (calls P)))).
  unfold claim_rows. by rewrite take_drop, merge_sort_Permutation.
Qed.

Lemma claim_rows_elem tb p open P r :
  r ∈ claim_rows tb p open P -> r ∈ calls P /\ claimable open tb P r = true.
Proof.
  intros Hr. destruct (claim_rows_sub tb p open P) as [rest Hp].
  assert (r ∈ List.filter (claimable open tb P) (calls P)) as Hf by (rewrite <- Hp; apply elem_of_app; by left).
  apply list_elem_of_In, filter_In in Hf as [Hf ?]. by split; [apply list_elem_of_In|].
Qed.

Lemma NoDup_map_filter {A B} (f : A -> B) p l : NoDup (map f l) -> NoDup (map f (List.filter p l)).
Proof.
  induction l as [|x l IH]; [done|]. cbn [map List.filter]. rewrite list.NoDup_cons. intros [Hx Hl].
  destruct (p x); [|auto]. cbn [map]. apply list.NoDup_cons. split; [|auto].
  intros (y & Hy & Hin)%list_elem_of_fmap. apply Hx. apply list_elem_of_fmap. exists y. split; [done|].
  apply list_elem_of_In, filter_In in Hin as [Hin _]. by apply list_elem_of_In.
Qed.

Lemma claim_rows_nodup tb p open P : NoDup (map row_id (calls P)) -> NoDup (map row_id (claim_rows tb p open P)).
Proof.
  intros Hn. destruct (claim_rows_sub tb p open P) as [rest Hp].
  apply (NoDup_map_filter row_id (claimable open tb P)) in Hn. rewrite <- Hp, map_app in Hn.
  by apply list.NoDup_app in Hn as (? & _ & _).
Qed.

(** Two rows with one id are one row. *)
Lemma row_unique P r r' :
  NoDup (map row_id (calls P)) -> r ∈ calls P -> r' ∈ calls P -> row_id r = row_id r' -> r = r'.
Proof.
  intros Hn [i Hi]%list_elem_of_lookup [j Hj]%list_elem_of_lookup He.
  assert (i = j) as <-; [|congruence]. eapply NoDup_lookup; [exact Hn| |].
  - by rewrite list_lookup_fmap, Hi.
  - by rewrite list_lookup_fmap, Hj, He.
Qed.

Lemma life_map_claimed who tb ids id :
  NoDup ids -> life id (map (Claimed who tb) ids) = if bool_decide (id ∈ ids) then [Claimed who tb id] else [].
Proof.
  induction ids as [|i ids IH]; [done|]. rewrite list.NoDup_cons. intros [Hi Hn]. cbn [map life List.filter event_id].
  unfold life in IH. rewrite (IH Hn). destruct (decide (i = id)) as [->|Hne].
  - rewrite (bool_decide_eq_true_2 (id = id)) by done.
    rewrite (bool_decide_eq_false_2 (id ∈ ids)) by done. by rewrite bool_decide_eq_true_2 by left.
  - rewrite (bool_decide_eq_false_2 (i = id)) by done. apply (f_equal (fun b : bool => if b then _ else _)).
    apply bool_decide_ext. rewrite elem_of_cons. naive_solver.
Qed.

Lemma life_map_notin who tb ids id : id ∉ ids -> life id (map (Claimed who tb) ids) = [].
Proof.
  induction ids as [|i ids IH]; [done|]. intros [Hi Hn]%not_elem_of_cons. cbn [map life List.filter event_id].
  rewrite bool_decide_eq_false_2 by done. by apply IH.
Qed.

Lemma recorded_claim es who tb p open now P :
  recorded es P ->
  recorded (es ++ map (Claimed who tb) (fn_claim tb p open now P).2) (fn_claim tb p open now P).1.
Proof.
  intros [H1 H2 H3 H4 H5 H6]. unfold fn_claim. cbn [fst snd].
  set (ids := map row_id (claim_rows tb p open P)).
  assert (NoDup ids) as Hn by by apply claim_rows_nodup.
  assert (forall r, r ∈ calls P -> row_id r ∈ ids -> row_table r = tb /\ row_status r = Queued) as Hids.
  { intros r Hr (r' & He & [Hr' Hc]%claim_rows_elem)%list_elem_of_fmap.
    assert (r = r') as -> by by eapply row_unique. unfold claimable in Hc. breflect. done. }
  assert (forall id, id ∈ ids -> life id es = []) as Hlife.
  { intros id (r & -> & [Hr Hc]%claim_rows_elem)%list_elem_of_fmap.
    eapply list.Forall_forall in H3; [|exact Hr]. apply H3. unfold claimable in Hc. by breflect. }
  split; [by rewrite set_rows_ids|by eapply set_rows_Forall; [exact H2|..]| | | |].
  - eapply set_rows_Forall; [exact H3| |done]. intros r Hr Hq Hw Hst.
    rewrite life_app, (Hq Hst), life_map_claimed by done.
    rewrite bool_decide_eq_false_2; [done|]. intros Hin. destruct (Hids r Hr Hin) as [Ht _].
    apply andb_false_iff in Hw as [Hw|Hw]; by breflect.
  - eapply set_rows_Forall; [exact H4| |].
    + intros r Hr Hf Hw Hst. destruct (Hf Hst) as [w Hl]. exists w. rewrite life_app, Hl, life_map_claimed by done.
      rewrite bool_decide_eq_false_2; [done|]. intros Hin. destruct (Hids r Hr Hin) as [_ Hq]. congruence.
    + intros r Hr _ [Ht Hin]%andb_true_iff _. breflect. exists who. cbn [row_id row_table touch].
      rewrite life_app, (Hlife _ Hin), life_map_claimed, bool_decide_eq_true_2 by done. by subst tb.
  - intros id. rewrite life_app, life_map_claimed by done. case_bool_decide as Hin.
    + rewrite (Hlife id Hin). apply taken.
    + rewrite app_nil_r. apply H5.
  - intros id Hid. cbn [known set_rows] in Hid. rewrite life_app, (H6 id Hid), life_map_claimed by done.
    rewrite bool_decide_eq_false_2; [done|]. intros (r & -> & [Hr _]%claim_rows_elem)%list_elem_of_fmap.
    apply Hid. eapply list.Forall_forall in H2; [|exact Hr]. by destruct H2.
Qed.

(** *** Completing *)

Lemma row_of_Some tb id P r : row_of tb id P = Some r -> r ∈ calls P /\ row_table r = tb /\ row_id r = id.
Proof. intros [Hr Hc]%find_first_Some. by breflect. Qed.

Lemma life_accepted tb id id' : life id' [Accepted tb id] = if bool_decide (id = id') then [Accepted tb id] else [].
Proof. unfold life. cbn [List.filter event_id]. by case_bool_decide. Qed.

Lemma recorded_complete es tb id now P P' accepted :
  recorded es P -> fn_complete tb id now P = Some (P', accepted) ->
  recorded (es ++ if accepted then [Accepted tb id] else []) P'.
Proof.
  intros Hr. unfold fn_complete. destruct (row_of tb id P) as [r|] eqn:Hrow; [|done].
  destruct (row_status r == In_flight) eqn:Hst; cbn [negb]; intros [= <- <-]; [|by rewrite app_nil_r].
  apply row_of_Some in Hrow as (Hin & Ht & Hid). breflect. pose proof Hr as [H1 H2 H3 H4 H5 H6].
  destruct (recorded_end es (fun r => (row_table r == tb) && (row_id r == id)) Harvested now P) as [E1 E2 E3 E4 _ _];
    [done|done|].
  assert (exists who, life id es = [Claimed who tb id]) as [who Hl].
  { eapply list.Forall_forall in H4; [|exact Hin]. rewrite Ht, Hid in H4. by apply H4. }
  assert (forall r', r' ∈ calls P -> row_id r' = id -> r' = r) as Hone.
  { intros r' Hr' He. eapply row_unique; [exact H1|done|done|congruence]. }
  split; [done|done| | | |].
  - eapply set_rows_Forall; [exact H3| |done]. intros r' Hr' Hq Hw Hs. rewrite life_app, (Hq Hs), life_accepted.
    rewrite bool_decide_eq_false_2; [done|]. intros He. rewrite (Hone r') in Hs by done. congruence.
  - eapply set_rows_Forall; [exact H4| |done]. intros r' Hr' Hf Hw Hs. destruct (Hf Hs) as [w Hw'].
    exists w. rewrite life_app, Hw', life_accepted. rewrite bool_decide_eq_false_2; [done|]. intros He.
    rewrite (Hone r') in Hw by done. rewrite Ht, Hid in Hw. by rewrite !bool_decide_eq_true_2 in Hw.
  - intros id'. rewrite life_app, life_accepted. case_bool_decide as He; [|rewrite app_nil_r; apply H5].
    subst id'. rewrite Hl. apply answered.
  - intros id' Hid'. rewrite life_app, (H6 id' Hid'), life_accepted. rewrite bool_decide_eq_false_2; [done|].
    intros <-. apply Hid'. eapply list.Forall_forall in H2; [|exact Hin]. destruct H2 as [Hk _]. by rewrite Hid in Hk.
Qed.

(** *** The others *)

Lemma recorded_enqueue es tb id task now P :
  id ∉ known P -> valid_uuid id = true -> recorded es P ->
  recorded es (mk_plane (tasks P) (calls P ++ [mk_row tb id task Queued now now]) (id :: known P)).
Proof.
  intros Hid Hv [H1 H2 H3 H4 H5 H6]. split; cbn [calls known]; [|..|done|].
  - rewrite map_app. apply list.NoDup_app. ands; [done| |apply NoDup_singleton].
    intros i (r & -> & Hr)%list_elem_of_fmap [He|[]%not_elem_of_nil]%elem_of_cons. simpl in He.
    apply Hid. rewrite <- He. eapply list.Forall_forall in H2; [|exact Hr]. by destruct H2.
  - apply Forall_app. split.
    + eapply Forall_impl; [|exact H2]. intros r [? ?]. split; [by right|done].
    + repeat constructor; done.
  - apply Forall_app. split; [done|]. repeat constructor. intros _. by apply H6.
  - apply Forall_app. split; [done|]. by repeat constructor.
  - intros i [_ Hi]%not_elem_of_cons. by apply H6.
Qed.

Lemma Forall_List_filter {A} (Q : A -> Prop) p l : Forall Q l -> Forall Q (List.filter p l).
Proof. induction 1 as [|x l Hx _ IH]; simpl; [done|]. destruct (p x); [by constructor|done]. Qed.

Lemma recorded_others es P es' P' : others P es' P' -> recorded es P -> recorded (es ++ es') P'.
Proof.
  intros Ho Hr. destruct Ho as [P tb id task now Hid Hv|P ts|P sid now|P secs locked expired now
                               |P tb st ids now Hs|P ids|P tb open now _]; rewrite ?app_nil_r.
  - by apply recorded_enqueue.
  - by apply recorded_tasks.
  - by apply recorded_cancel.
  - by apply recorded_watchdog.
  - apply recorded_end; [|done]. destruct tb; try done; by injection Hs as <-.
  - destruct Hr as [H1 H2 H3 H4 H5 H6]. split; cbn [calls]; [by apply NoDup_map_filter|..|done|done];
      by apply Forall_List_filter.
  - by apply recorded_claim.
Qed.

(** ** What is over stays over *)

(** The call is no longer queued or in flight, whether its row is kept or not. *)
Definition ended (id : bytes) (P : Plane) : Prop :=
  id ∈ known P /\ Forall (fun r => row_id r = id -> unended (row_status r) = false) (calls P).

Lemma ended_set_rows id which st now P :
  (forall r, which r = true -> row_id r = id -> unended (row_status r) = false -> unended st = false) ->
  ended id P -> ended id (set_rows which st now P).
Proof.
  intros Hst [Hk He]. split; [done|]. eapply set_rows_Forall; [exact He|done|].
  intros r _ Hr Hw Hid. simpl. by eapply Hst; [exact Hw|exact Hid|apply Hr].
Qed.

Lemma ended_tasks id ts P : ended id P -> ended id (mk_plane ts (calls P) (known P)).
Proof. by intros [Hk He]. Qed.

Lemma ended_claim id who tb p open now P :
  ended id P ->
  ended id (fn_claim tb p open now P).1 /\ life id (map (Claimed who tb) (fn_claim tb p open now P).2) = [].
Proof.
  intros [Hk He]. assert (id ∉ map row_id (claim_rows tb p open P)) as Hid.
  { intros (r & -> & [Hr Hc]%claim_rows_elem)%list_elem_of_fmap. unfold claimable in Hc. breflect.
    eapply list.Forall_forall in He; [|exact Hr]. specialize (He eq_refl).
    match goal with H : row_status r = Queued |- _ => by rewrite H in He end. }
  unfold fn_claim. cbn [fst snd]. split.
  - apply ended_set_rows; [|done]. intros r Hw <- _. breflect. done.
  - by apply life_map_notin.
Qed.

Lemma ended_complete id tb id' now P P' accepted :
  NoDup (map row_id (calls P)) -> ended id P -> fn_complete tb id' now P = Some (P', accepted) ->
  ended id P' /\ life id (if accepted then [Accepted tb id'] else []) = [].
Proof.
  intros Hn He. unfold fn_complete. destruct (row_of tb id' P) as [r|] eqn:Hr; [|done].
  destruct (row_status r == In_flight) eqn:Hs; cbn [negb]; intros [= <- <-]; [|done].
  split; [by apply ended_set_rows|]. rewrite life_accepted. rewrite bool_decide_eq_false_2; [done|].
  intros ->. apply row_of_Some in Hr as (Hin & _ & Hid). destruct He as [_ He].
  eapply list.Forall_forall in He; [|exact Hin]. specialize (He Hid). breflect. by rewrite Hs in He.
Qed.

Lemma ended_others id P es P' : others P es P' -> ended id P -> ended id P' /\ life id es = [].
Proof.
  intros Ho He. destruct Ho as [P tb id' task now Hid Hv|P ts|P sid now|P secs locked expired now
                               |P tb st ids now Hs|P ids|P tb open now _]; [..|by apply ended_claim]; (split; [|done]).
  - destruct He as [Hk He]. split; [by right|]. apply Forall_app. split; [done|].
    repeat constructor. intros <-. done.
  - done.
  - unfold fn_cancel_session. by apply ended_set_rows.
  - unfold fn_watchdog, fail_expired, reclaim_overdue.
    apply (ended_tasks _ _ (set_rows _ _ _ _)). by apply ended_set_rows, ended_set_rows.
  - apply ended_set_rows; [|done]. intros _ _ _ _. destruct tb; try done; by injection Hs as <-.
  - destruct He as [Hk He]. split; [done|]. by apply Forall_List_filter.
Qed.

(** Cancelling a session ends its calls of the tables that are given up with it. *)
Lemma cancel_ends sid now P r :
  NoDup (map row_id (calls P)) -> Forall (fun r => row_id r ∈ known P) (calls P) ->
  r ∈ calls P -> given_up (row_table r) = true -> in_session sid P r = true ->
  ended (row_id r) (fn_cancel_session sid now P).
Proof.
  intros Hn Hk Hr Hg Hs. split; [by eapply list.Forall_forall in Hk|].
  unfold fn_cancel_session. eapply set_rows_Forall; [apply list.Forall_forall; intros x Hx; exact Hx| |done].
  cbn [calls set_tasks]. intros r' _ Hr' Hw Hid. assert (r' = r) as -> by by eapply row_unique.
  rewrite Hg in Hw. cbn [andb] in Hw. destruct (unended (row_status r)); [|done]. exfalso.
  revert Hw. cbn [andb]. unfold in_session in *. destruct (row_task r) as [t|]; [|done]. breflect.
  cbn [tasks set_tasks]. rewrite lookup_fmap. destruct (tasks P !! t) as [tk|]; [|done]. simpl in *.
  injection Hs as Hs. destruct (_ && _); simpl; by rewrite Hs, bool_decide_eq_true_2.
Qed.

(** ** First come, first served *)

Lemma claim_rows_length tb p open P :
  length (claim_rows tb p open P)
  = Nat.min (Z.to_nat (clamp_limit p)) (length (List.filter (claimable open tb P) (calls P))).
Proof. unfold claim_rows. rewrite length_take. by rewrite merge_sort_Permutation. Qed.

(** No call is passed over for a younger one. *)
Lemma claim_rows_oldest tb p open P r r' :
  r ∈ claim_rows tb p open P -> r' ∈ calls P -> claimable open tb P r' = true ->
  r' ∉ claim_rows tb p open P -> older r r'.
Proof.
  unfold claim_rows. set (l := merge_sort older _). intros Hr Hr' Hc Hn.
  assert (r' ∈ l) as Hl by (unfold l; rewrite merge_sort_Permutation; by apply list_elem_of_In, filter_In; split; [apply list_elem_of_In|]).
  pose proof (StronglySorted_merge_sort older (List.filter (claimable open tb P) (calls P))) as Hs. fold l in Hs.
  rewrite <- (take_drop (Z.to_nat (clamp_limit p)) l) in Hl, Hs.
  apply elem_of_app in Hl as [?|Hl]; [done|]. by eapply StronglySorted_app_1_elem_of.
Qed.

(** The result of a call that is over is refused. *)
Lemma ended_refused id tb now P : ended id P -> fn_complete tb id now P = None \/ fn_complete tb id now P = Some (P, false).
Proof.
  intros [_ He]. unfold fn_complete. destruct (row_of tb id P) as [r|] eqn:Hr; [|by left]. right.
  apply row_of_Some in Hr as (Hin & _ & Hid). eapply list.Forall_forall in He; [|exact Hin]. specialize (He Hid).
  destruct (row_status r == In_flight) eqn:Hs; [|done]. breflect. by rewrite Hs in He.
Qed.

(** The row of a call that is over is not touched again, except that a deleted memory takes the
    rows of its embeddings with it. *)
Lemma frozen_set_rows which st now P r : which r = false -> r ∈ calls P -> r ∈ calls (set_rows which st now P).
Proof.
  intros Hw Hr. simpl. apply list_elem_of_fmap. exists r. by rewrite Hw.
Qed.

Lemma frozen_claim tb p open now P r :
  NoDup (map row_id (calls P)) -> r ∈ calls P -> unended (row_status r) = false -> r ∈ calls (fn_claim tb p open now P).1.
Proof.
  intros Hn Hr He. apply frozen_set_rows; [|done]. apply andb_false_iff. right. apply bool_decide_eq_false.
  intros (r' & Hid & [Hr' Hc]%claim_rows_elem)%list_elem_of_fmap.
  assert (r' = r) as -> by by eapply row_unique. unfold claimable in Hc. breflect.
  match goal with H : row_status r = Queued |- _ => by rewrite H in He end.
Qed.

Lemma frozen_complete tb id now P P' accepted r :
  NoDup (map row_id (calls P)) -> fn_complete tb id now P = Some (P', accepted) ->
  r ∈ calls P -> unended (row_status r) = false -> r ∈ calls P'.
Proof.
  intros Hn. unfold fn_complete. destruct (row_of tb id P) as [r'|] eqn:Hrow; [|done].
  destruct (row_status r' == In_flight) eqn:Hs; cbn [negb]; intros [= <- <-] Hr He; [|done].
  apply frozen_set_rows; [|done]. apply row_of_Some in Hrow as (Hr' & _ & Hid). breflect.
  destruct (row_id r == id) eqn:Hid'; [|by rewrite andb_false_r]. breflect.
  assert (r' = r) as -> by (eapply row_unique; [exact Hn|done|done|congruence]). by rewrite Hs in He.
Qed.

Lemma ended_not_flight st : unended st = false -> (st == In_flight) = false.
Proof. by destruct st. Qed.

Lemma frozen_others P es P' r :
  NoDup (map row_id (calls P)) -> others P es P' -> row_table r <> embedding_calls ->
  r ∈ calls P -> unended (row_status r) = false -> r ∈ calls P'.
Proof.
  intros Hn Ho Hd Hr He. destruct Ho as [P tb id' task now Hid Hv|P ts|P sid now|P secs locked expired now
                               |P tb st ids now Hs|P ids|P tb open now _].
  - apply elem_of_app. by left.
  - done.
  - unfold fn_cancel_session. apply frozen_set_rows; [by rewrite He, andb_false_r|done].
  - unfold fn_watchdog, fail_expired, reclaim_overdue. apply frozen_set_rows; [by rewrite He, andb_false_r|].
    apply frozen_set_rows; [by rewrite ended_not_flight|done].
  - apply frozen_set_rows; [by rewrite He, andb_false_r|done].
  - apply list_elem_of_In, filter_In. split; [by apply list_elem_of_In|]. by rewrite bool_decide_eq_false_2.
  - by apply frozen_claim.
Qed.

(** What a cancelled session leaves of a call: its row, lost. *)
Lemma cancel_loses sid now P r :
  r ∈ calls P -> given_up (row_table r) = true -> unended (row_status r) = true -> in_session sid P r = true ->
  touch Lost now r ∈ calls (fn_cancel_session sid now P).
Proof.
  intros Hr Hg Hu Hs. unfold fn_cancel_session. simpl. apply list_elem_of_fmap. exists r. split; [|done].
  rewrite Hg, Hu. cbn [andb]. replace (in_session sid _ r) with true; [done|].
  unfold in_session in *. destruct (row_task r) as [t|]; [|done]. breflect. symmetry. apply bool_decide_eq_true.
  cbn [tasks set_tasks]. rewrite lookup_fmap. destruct (tasks P !! t) as [tk|]; [|done]. simpl in *.
  injection Hs as Hs. destruct (_ && _); simpl; congruence.
Qed.
