(* ===== verification/ControlPlane.v ===== *)
(** * The runtime worker against the control plane

    The other files let the server answer anything.  Here it answers as the call tables
    of [CallTables.v] do, while dashboards, agents and operators change them between
    any two statements of the worker; and whole lifetimes of the worker ([System.v])
    are run against it, so that what the worker relies on is proved of the SQL. *)

From stdpp Require Import relations.
From S2P Require Import Prelude RustStr Net Json Spi Privilege Sandbox LocalWork Outbound Pool RuntimeWorker System CallTables.

#[local] Arguments str : simpl never.

(** ** The statements and the tables they are about *)

Definition claim_statement (tb : call_table) : bytes :=
  match tb with
  | outbound_calls => CLAIM_OUTBOUND
  | oauth_calls => CLAIM_OAUTH
  | embedding_calls => CLAIM_EMBEDDING
  | provider_probes => CLAIM_PROBE
  | sql_calls => str "SELECT allgres_public.fn_claim_sql($1)"
  | function_calls => str "SELECT allgres_public.fn_claim_function_calls($1)"
  | procedure_calls => str "SELECT allgres_public.fn_claim_procedure_calls($1)"
  end.

Definition complete_statement (tb : call_table) : bytes :=
  match tb with
  | outbound_calls => completion_sql Outbound
  | oauth_calls => completion_sql Oauth
  | embedding_calls => completion_sql AgentEmbedding
  | provider_probes => completion_sql ProviderProbe
  | sql_calls => completion Sql_calls
  | function_calls => completion Function_calls
  | procedure_calls => completion Procedure_calls
  end.

Definition WATCHDOG : bytes := str "SELECT allgres_public.fn_watchdog($1)".

Definition call_tables : list call_table :=
  [outbound_calls; oauth_calls; embedding_calls; provider_probes; sql_calls; function_calls; procedure_calls].

Definition about_calls (sql : bytes) : bool :=
  existsb (fun tb => (sql == claim_statement tb) || (sql == complete_statement tb)) call_tables
  || (sql == CHECK_LOST) || (sql == WATCHDOG).

(** The [call_id]s of a claim's reply. *)
Definition call_ids (v : json) : list (option bytes) := map (fun c => get_str c (str "call_id")) (claimed_calls v).

(** ** The server *)

(** What the control plane answers to a call, what that does to its tables and to the
    calls.  A statement that fails or raises changes nothing; any other statement does
    not touch the tables itself (what a dashboard request does to them is among the
    steps of [others]). *)
Inductive answers : Plane -> call -> reply -> list call_event -> Plane -> Prop :=
| answers_claim P tb n open now v :
    call_ids v = map Some (fn_claim tb (Some n) open now P).2 ->
    answers P (Spi (claim_statement tb) [AInt (Some n)]) (Done (Some (DJson v)))
      (map (Claimed Worker tb) (fn_claim tb (Some n) open now P).2) (fn_claim tb (Some n) open now P).1
| answers_complete P tb id rest now P' accepted v :
    fn_complete tb id now P = Some (P', accepted) ->
    answers P (Spi (complete_statement tb) (AStr (Some id) :: rest)) (Done v)
      (if accepted then [Accepted tb id] else []) P'
| answers_check P ids lost :
    lost ≡ₚ fn_check_lost_outbound ids P ->
    answers P (Spi CHECK_LOST [ATexts ids]) (Done (Some (DJson (JArr (map JStr lost))))) [] P
| answers_watchdog P n locked expired now v :
    answers P (Spi WATCHDOG [AInt (Some n)]) (Done v) [] (fn_watchdog (Some n) locked expired now P)
| answers_failed P sql args e : answers P (Spi sql args) (Failed e) [] P
| answers_raised P sql args m : answers P (Spi sql args) (Raised m) [] P
| answers_else P c r :
    (forall sql args, c = Spi sql args -> about_calls sql = false) -> answers P c r [] P.

(** A trace of the worker's calls that the control plane can account for. *)
Inductive plane_run : Plane -> trace -> list call_event -> Plane -> Prop :=
| plane_done P : plane_run P [] [] P
| plane_others P es1 P1 t es P2 : others P es1 P1 -> plane_run P1 t es P2 -> plane_run P t (es1 ++ es) P2
| plane_call P c r es1 P1 t es P2 :
    answers P c r es1 P1 -> plane_run P1 t es P2 -> plane_run P ((c, r) :: t) (es1 ++ es) P2.

(** ** One life per call *)

Lemma recorded_answers es P c r es' P' : answers P c r es' P' -> recorded es P -> recorded (es ++ es') P'.
Proof.
  intros Ha Hr. destruct Ha; rewrite ?app_nil_r; try done.
  - by apply recorded_claim.
  - by eapply recorded_complete.
  - by apply recorded_watchdog.
Qed.

Lemma recorded_run es P t es' P' : plane_run P t es' P' -> recorded es P -> recorded (es ++ es') P'.
Proof.
  intros Hr. revert es. induction Hr as [P|P es1 P1 t es2 P2 Ho _ IH|P c r es1 P1 t es2 P2 Ha _ IH]; intros es Hes.
  - by rewrite app_nil_r.
  - rewrite app_assoc. by apply IH, recorded_others with P.
  - rewrite app_assoc. by apply IH, recorded_answers with P c r.
Qed.

Lemma plane_run_recorded t es P : plane_run plane_init t es P -> recorded es P.
Proof. intros Hr. apply (recorded_run [] _ _ _ _ Hr), recorded_init. Qed.

(** C5: every call has one life.  Whatever the worker issues, in whatever order, and
    whatever dashboards, agents, operators and the watchdog do between its statements:
    a call is claimed at most once, by the worker or by [fn_pump], and its result is
    accepted at most once, only after that, and by the table that handed it out.  A
    queued call has not been claimed before and one in flight has been claimed and not
    answered; an id stays unique among all seven tables. *)
Theorem calls_live_once t es P :
  plane_run plane_init t es P ->
  (forall id, one_life id (life id es))
  /\ (forall r, r ∈ calls P -> row_status r = Queued -> life (row_id r) es = [])
  /\ (forall r, r ∈ calls P -> row_status r = In_flight ->
        exists who, life (row_id r) es = [Claimed who (row_table r) (row_id r)])
  /\ NoDup (map row_id (calls P)).
Proof.
  intros [H1 H2 H3 H4 H5 H6]%plane_run_recorded. ands; [done| | |done]; intros r Hr.
  - by eapply list.Forall_forall in H3.
  - by eapply list.Forall_forall in H4.
Qed.

(** ** The claims the worker sees *)

(** The ids a claim for the pool hands out, and those a check reports lost. *)
Definition claimed_in (cr : call * reply) : list bytes :=
  match cr with
  | (Spi sql _, Done (Some (DJson v))) => if is_claim sql then filter_map id (call_ids v) else []
  | _ => []
  end.

Definition lost_in (cr : call * reply) : list bytes :=
  match cr with
  | (Spi sql _, Done (Some (DJson v))) => if sql == CHECK_LOST then strings_of v else []
  | _ => []
  end.

Definition observed {X} (obs : call * reply -> list X) (t : trace) : list X := concat (map obs t).

Lemma observed_app {X} (obs : call * reply -> list X) t t' : observed obs (t ++ t') = observed obs t ++ observed obs t'.
Proof. unfold observed. by rewrite map_app, concat_app. Qed.

(** The calls handed to the worker. *)
Definition claims (es : list call_event) : list bytes :=
  omap (fun e => match e with Claimed _ _ id => Some id | _ => None end) es.

Lemma claims_app es es' : claims (es ++ es') = claims es ++ claims es'.
Proof. apply omap_app. Qed.

Lemma claims_map who tb ids : claims (map (Claimed who tb) ids) = ids.
Proof. induction ids as [|i ids IH]; [done|]. simpl. by rewrite IH. Qed.

Lemma one_life_claims es : (forall id, one_life id (life id es)) -> NoDup (claims es).
Proof.
  intros Hl. assert (forall id, (length (claims (life id es)) <= 1)%nat) as Hc
    by (intros id; destruct (Hl id); simpl; lia).
  clear Hl. induction es as [|e es IH]; [constructor|].
  assert (forall id, (length (claims (life id es)) <= 1)%nat) as Hc'.
  { intros id. specialize (Hc id). unfold life in *. cbn [List.filter] in Hc.
    destruct (event_id e == id); [|done]. destruct e; simpl in Hc; lia. }
  specialize (IH Hc'). destruct e as [who tb id|tb id]; [|exact IH]. cbn [claims omap list_omap].
  apply list.NoDup_cons. split; [|exact IH]. intros Hin.
  specialize (Hc id). unfold life in Hc. cbn [List.filter event_id] in Hc. rewrite bool_decide_eq_true_2 in Hc by done.
  simpl in Hc. assert (id ∈ claims (List.filter (fun e => event_id e == id) es)) as Hx.
  { clear -Hin. induction es as [|e es IH]; [done|]. destruct e as [w t i|t i]; cbn [claims omap list_omap] in Hin.
    - cbn [List.filter event_id]. apply elem_of_cons in Hin as [->|Hin].
      + rewrite bool_decide_eq_true_2 by done. left.
      + case_bool_decide; [right|]; by apply IH.
    - cbn [List.filter event_id]. case_bool_decide; by apply IH. }
  destruct (claims (List.filter _ es)); [by apply not_elem_of_nil in Hx|simpl in Hc; lia].
Qed.

Lemma filter_map_Some {A} (l : list A) : filter_map id (map Some l) = l.
Proof. induction l as [|x l IH]; [done|]. change (x :: filter_map id (map Some l) = x :: l). by rewrite IH. Qed.

Lemma claim_statement_inj tb tb' : claim_statement tb = claim_statement tb' -> tb = tb'.
Proof. by destruct tb, tb'. Qed.

(** A statement about calls is what it is. *)
Lemma about_claim tb : about_calls (claim_statement tb) = true.
Proof. by destruct tb. Qed.

Lemma is_claim_about sql : is_claim sql = true -> about_calls sql = true.
Proof.
  unfold is_claim. rewrite !orb_true_iff. intros [[[H|H]|H]|H]; apply bool_decide_eq_true in H as ->; reflexivity.
Qed.

(** Every claim the worker sees in the trace is on the record. *)
Lemma claimed_recorded P c r es P' : answers P c r es P' -> claimed_in (c, r) `sublist_of` claims es.
Proof.
  intros Ha. destruct Ha as [P tb n open now v Hv|P tb i rest now P' acc v Hc|P ids lost Hl|P n locked expired now v
                            |P sql args e|P sql args m|P c r Hn]; try apply sublist_nil_l.
  - cbn [claimed_in]. destruct (is_claim _); [|apply sublist_nil_l]. by rewrite Hv, filter_map_Some, claims_map.
  - cbn [claimed_in]. destruct v as [[]|]; try apply sublist_nil_l. destruct tb; apply sublist_nil_l.
  - cbn [claimed_in]. destruct v as [[]|]; apply sublist_nil_l.
  - destruct c as [sql args| | | | | | | | | | | | |]; try apply sublist_nil_l. destruct r as [[[]|]| |]; try apply sublist_nil_l.
    cbn [claimed_in]. destruct (is_claim sql) eqn:Hc; [|apply sublist_nil_l].
    apply is_claim_about in Hc. by rewrite (Hn sql args eq_refl) in Hc.
Qed.

Lemma run_claims P t es P' : plane_run P t es P' -> observed claimed_in t `sublist_of` claims es.
Proof.
  induction 1 as [P|P es1 P1 t es2 P2 _ _ IH|P c r es1 P1 t es2 P2 Ha _ IH]; [done|..]; rewrite claims_app.
  - by apply sublist_inserts_l.
  - apply sublist_app; [by apply claimed_recorded in Ha|done].
Qed.

Lemma honours_other sql args r : is_claim sql = false -> honours (Spi sql args, r) = true.
Proof. intros Hc. unfold honours. rewrite Hc. by repeat case_match. Qed.

(** The claims keep to their limit: [honours] is what the SQL does. *)
Lemma answers_honours P c r es P' : answers P c r es P' -> honours (c, r) = true.
Proof.
  intros Ha. destruct Ha as [P tb n open now v Hv|P tb i rest now P' acc v Hc|P ids lost Hl|P n locked expired now v
                            |P sql args e|P sql args m|P c r Hn].
  - unfold honours. apply orb_true_iff. right. apply Z.leb_le.
    apply (f_equal length) in Hv. unfold call_ids, fn_claim in Hv. cbn [snd] in Hv. rewrite !length_map in Hv.
    rewrite Hv, claim_rows_length. unfold clamp_limit. simpl. lia.
  - apply honours_other. by destruct tb.
  - by apply honours_other.
  - by apply honours_other.
  - unfold honours. by repeat case_match.
  - unfold honours. by repeat case_match.
  - destruct c as [sql args| | | | | | | | | | | | |]; try done. apply honours_other.
    destruct (is_claim sql) eqn:Hc; [|done]. apply is_claim_about in Hc. by rewrite (Hn _ _ eq_refl) in Hc.
Qed.

Lemma run_honours P t es P' : plane_run P t es P' -> forallb honours t = true.
Proof.
  induction 1 as [P|P es1 P1 t es2 P2 _ _ IH|P c r es1 P1 t es2 P2 Ha _ IH]; [done..|].
  cbn [forallb]. by rewrite (answers_honours _ _ _ _ _ Ha).
Qed.

(** ** What a turn makes of the replies *)

(** The monitor that keeps what it observes. *)
Definition observing {X} (obs : call * reply -> list X) : Monitor :=
  {| mstate := list X; mstep := fun s c r => s ++ obs (c, r); mallowed := fun _ _ => True |}.

Section observing.
Context `{WorkerEnv} {X : Type} (obs : call * reply -> list X).

(** The value a program returns is related to what was observed meanwhile. *)
Definition gains {A} (p : prog A) (Q : A -> list X -> Prop) : Prop :=
  forall s, wp (M := observing obs) s p (fun o s' => exists new, s' = s ++ new /\ forall a, o = Returned a -> Q a new).

Lemma gains_ret {A} (a : A) (Q : A -> list X -> Prop) : Q a [] -> gains (Ret a) Q.
Proof. intros Ha s. exists []. rewrite app_nil_r. split; [done|]. by intros a' [= <-]. Qed.

Lemma gains_throw {A} m (Q : A -> list X -> Prop) : gains (Throw m) Q.
Proof. intros s. exists []. by rewrite app_nil_r. Qed.

Lemma gains_do {A} c (k : reply -> prog A) (Q : A -> list X -> Prop) :
  (forall r, gains (k r) (fun a new => Q a (obs (c, r) ++ new))) -> gains (Do c k) Q.
Proof.
  intros Hk s. split; [done|]. intros r. eapply (wp_mono (M := observing obs)); [apply Hk|].
  intros o s' (new & -> & Hn). exists (obs (c, r) ++ new). split; [by rewrite app_assoc|done].
Qed.

Lemma gains_mono {A} (p : prog A) (P Q : A -> list X -> Prop) :
  gains p P -> (forall a new, P a new -> Q a new) -> gains p Q.
Proof.
  intros Hp HPQ s. eapply (wp_mono (M := observing obs)); [apply Hp|].
  intros o s' (new & -> & Hn). exists new. split; [done|]. eauto.
Qed.

Lemma gains_any {A} (p : prog A) : gains p (fun _ _ => True).
Proof.
  induction p as [a|m|c k IH]; [by apply gains_ret|apply gains_throw|]. by apply gains_do.
Qed.

Lemma gains_bind {A B} (p : prog A) (f : A -> prog B) (P : A -> list X -> Prop) (Q : B -> list X -> Prop) :
  gains p P -> (forall a new, P a new -> gains (f a) (fun b new' => Q b (new ++ new'))) -> gains (bind p f) Q.
Proof.
  intros Hp Hf s. apply wp_bind. eapply (wp_mono (M := observing obs)); [apply Hp|].
  intros [a|m] s' (new & -> & Hn); [|by exists new].
  eapply (wp_mono (M := observing obs)); [by apply Hf, Hn|].
  intros o s'' (new' & -> & Hn'). exists (new ++ new'). split; [by rewrite app_assoc|done].
Qed.

(** Binding a program nothing is known of. *)
Lemma gains_after {A B} (p : prog A) (f : A -> prog B) (Q : B -> list X -> Prop) :
  (forall b new new', Q b new -> Q b (new' ++ new)) -> (forall a, gains (f a) Q) -> gains (bind p f) Q.
Proof.
  intros HQ Hf. eapply gains_bind; [apply gains_any|]. intros a new _. eapply gains_mono; [apply Hf|]. auto.
Qed.

Lemma gains_transaction {A} (p : prog A) (Q : A -> list X -> Prop) :
  (forall c r, (forall sql args, c <> Spi sql args) -> obs (c, r) = []) -> gains p Q -> gains (transaction p) Q.
Proof.
  intros Hobs Hp. apply gains_do. intros r. rewrite Hobs by done. apply (gains_bind _ _ Q); [exact Hp|].
  intros a new Ha. apply gains_do. intros r'. rewrite Hobs by done. apply gains_ret. by rewrite !app_nil_r.
Qed.

Lemma observing_after t s : mstate_after (M := observing obs) s t = s ++ observed obs t.
Proof.
  unfold mstate_after. revert s. induction t as [|[c r] t IH]; intros s; [by rewrite app_nil_r|].
  cbn [fold_left]. rewrite IH. cbn [mstep observing fst snd]. by rewrite <- app_assoc.
Qed.

Lemma gains_run {A} db h (p : prog A) (Q : A -> list X -> Prop) t a :
  gains p Q -> run db h p = (t, Returned a) -> Q a (observed obs t).
Proof.
  intros Hp Hr. destruct (wp_run (M := observing obs) db p _ [] h (Hp [])) as [_ (new & Hs & Hn)].
  rewrite Hr in Hs, Hn. rewrite observing_after in Hs. cbn [fst snd app] in *. rewrite Hs. by apply Hn.
Qed.
End observing.

(** *** The jobs sent are calls claimed *)

Section turn.
Context `{WorkerEnv} `{SerdeJson}.

Definition ids_of (v : json) : list bytes := filter_map id (call_ids v).

Definition hands_out (v : json) (new : list bytes) : Prop := ids_of v `sublist_of` new.
Definition sends_claimed (js : list OutboundJob) (new : list bytes) : Prop := map j_id js `sublist_of` new.

Lemma claimed_control c r : (forall sql args, c <> Spi sql args) -> claimed_in (c, r) = [].
Proof. intros Hc. destruct c as [sql args| | | | | | | | | | | | |]; [by destruct (Hc sql args)|done..]. Qed.

Lemma lost_control c r : (forall sql args, c <> Spi sql args) -> lost_in (c, r) = [].
Proof. intros Hc. destruct c as [sql args| | | | | | | | | | | | |]; [by destruct (Hc sql args)|done..]. Qed.

Lemma sublist_after {A} (l : list A) new new' : l `sublist_of` new -> l `sublist_of` new' ++ new.
Proof. apply sublist_inserts_l. Qed.

#[local] Hint Resolve sublist_after : allgres.

Lemma claim_statement_gains sql n :
  is_claim sql = true ->
  gains claimed_in (let* r := spi_get_json sql [AInt (Some n)] in
                    Ret (default (nothing_claimed (str "calls")) (ok_flatten r))) hands_out.
Proof.
  intros Hc. apply gains_do. intros [[[b|v|s|z]|]|e|m]; cbn [bind]; try apply gains_throw;
    apply gains_ret; cbn [claimed_in ok_flatten default]; try rewrite Hc; rewrite app_nil_r; try apply sublist_nil_l.
  unfold hands_out. reflexivity.
Qed.

Lemma claim_gains sql n : is_claim sql = true -> gains claimed_in (claim sql (str "calls") n) hands_out.
Proof.
  intros Hc. apply gains_transaction; [apply claimed_control|]. apply gains_after; [unfold hands_out; auto with allgres|].
  intros []; cbn [negb]; [by apply claim_statement_gains|apply gains_ret, sublist_nil_l].
Qed.

Lemma dispatch_gains n : gains claimed_in (dispatch_and_claim n) hands_out.
Proof.
  apply gains_transaction; [apply claimed_control|]. 
  apply gains_after; [unfold hands_out; auto with allgres|].
  intros []; cbn [negb]; [|apply gains_ret, sublist_nil_l].
  do 2 (apply gains_after; [unfold hands_out; auto with allgres|]; intros _).
  by apply claim_statement_gains.
Qed.

Lemma enqueue_ids q kind open cs :
  map j_id (enqueue q kind open cs) `sublist_of` filter_map id (map (fun c => get_str c (str "call_id")) cs).
Proof.
  induction cs as [|c cs IH]; [done|]. cbn [enqueue map].
  destruct (get_str c (str "call_id")) as [i|] eqn:Hi; [|exact IH].
  change (filter_map id (Some i :: ?l)) with (i :: filter_map id l).
  destruct (valid_uuid i); cbn [negb]; [|by apply sublist_cons]. destruct open; cbn [negb]; [|apply sublist_nil_l].
  by apply sublist_skip.
Qed.

Lemma pump_queue_gains rdy open q kind claim_jobs n :
  (forall m, gains claimed_in (claim_jobs m) hands_out) ->
  gains claimed_in (pump_queue rdy open q kind claim_jobs n) sends_claimed.
Proof.
  intros Hc. unfold pump_queue. destruct (rdy && _); [|apply gains_ret, sublist_nil_l].
  eapply gains_bind; [apply Hc|]. intros v new Hv. apply gains_ret. rewrite app_nil_r.
  unfold hands_out, sends_claimed, ids_of, call_ids, claimed_calls in *.
  destruct (get_array v (str "calls")) as [cs|]; [|apply sublist_nil_l]. simpl in Hv.
  etrans; [apply enqueue_ids|exact Hv].
Qed.

Lemma pump_gains ls t n : gains claimed_in (pump ls t n) (fun r new => sends_claimed r.2 new).
Proof.
  apply gains_after; [unfold sends_claimed; auto with allgres|]. intros rdy.
  eapply gains_bind; [apply pump_queue_gains; intros; apply dispatch_gains|]. intros j1 new1 H1.
  eapply gains_bind; [apply pump_queue_gains; intros; by apply claim_gains|]. intros j2 new2 H2.
  eapply gains_bind; [apply pump_queue_gains; intros; by apply claim_gains|]. intros j3 new3 H3.
  eapply gains_bind; [apply pump_queue_gains; intros; by apply claim_gains|]. intros j4 new4 H4.
  do 5 (eapply gains_bind; [apply gains_any|]; intros ? ? _).
  cbv zeta. destruct (reschedule _ _ _) as [next idle]. apply gains_ret. unfold sends_claimed. cbn [snd].
  rewrite !map_app. repeat (apply sublist_app; [done|]). by apply sublist_inserts_r.
Qed.

Lemma loop_turn_gains ls ids t : gains claimed_in (loop_turn ls ids t) (fun r new => sends_claimed r.2 new).
Proof.
  do 3 (apply gains_after; [unfold sends_claimed; auto with allgres|]; intros ?).
  destruct (_ <? _)%Z; [apply gains_ret, sublist_nil_l|].
  eapply gains_bind; [apply pump_gains|]. intros r new Hr. apply gains_ret. by rewrite app_nil_r.
Qed.

(** *** The ids to mark were reported lost *)

Lemma propagate_gains ids : gains lost_in (propagate_outbound_cancellations ids) (fun lost new => lost `sublist_of` new).
Proof.
  unfold propagate_outbound_cancellations. destruct ids as [|i ids]; [by apply gains_ret|].
  apply gains_transaction; [apply lost_control|]. apply gains_after; [auto with allgres|].
  intros []; cbn [negb]; [|apply gains_ret, sublist_nil_l].
  apply gains_do. intros [[[b|v|s|z]|]|e|m]; cbn [bind]; try apply gains_throw; apply gains_ret; try apply sublist_nil_l.
  cbn [lost_in]. by rewrite bool_decide_eq_true_2, app_nil_r.
Qed.

Lemma loop_turn_lost ls ids t : gains lost_in (loop_turn ls ids t) (fun r new => r.1.2 `sublist_of` new).
Proof.
  do 2 (apply gains_after; [auto with allgres|]; intros ?).
  eapply gains_bind; [apply propagate_gains|]. intros lost new Hl.
  destruct (_ <? _)%Z; [apply gains_ret; by rewrite app_nil_r|].
  eapply gains_bind; [apply gains_any|]. intros r new' _. apply gains_ret. rewrite app_nil_r. by apply sublist_inserts_r.
Qed.
End turn.

(** ** Whole lifetimes *)

(** The calls made since the process started. *)
Definition since_birth (s : Sys) : trace := drop (length (s_born s)) (s_trace s).

Record served (s : Sys) : Prop := {
  served_born : s_trace s = s_born s ++ since_birth s;
  served_sent : map j_id (s_sent s) `sublist_of` observed claimed_in (since_birth s);
  served_lost : forall ids id, ids ∈ marks (s_events s) -> id ∈ ids -> id ∈ observed lost_in (since_birth s)
}.

Lemma served_start h now threads : served (sys_start h now threads).
Proof.
  split; unfold since_birth; simpl; [by rewrite drop_all, app_nil_r|apply sublist_nil_l|].
  by intros ids id []%not_elem_of_nil.
Qed.

Lemma marks_app es es' : marks (es ++ es') = marks es ++ marks es'.
Proof. apply omap_app. Qed.

(** The calls since the birth grow by those of the turn. *)
Lemma since_birth_app (s : Sys) (tr : trace) :
  s_trace s = s_born s ++ since_birth s -> drop (length (s_born s)) (s_trace s ++ tr) = since_birth s ++ tr.
Proof. intros Hb. rewrite Hb at 1. by rewrite <- app_assoc, drop_app_length. Qed.

Lemma served_step `{WorkerEnv} `{SerdeJson} db threads s s' : sys_step db threads s s' -> served s -> served s'.
Proof.
  intros Hs [Hb Hsent Hlost].
  destruct Hs as [s t tr ls' lost jobs es1 p1 es2 p2 es3 p3 H1 _ _ Hm1 Hrun H2 _ _ Hm2 H3 _ Hs3 Hm3| |]; [|apply served_start..].
  pose proof (gains_run _ _ _ _ _ _ _ (loop_turn_gains (s_loop s) (registered p1) t) Hrun) as Hj.
  pose proof (gains_run _ _ _ _ _ _ _ (loop_turn_lost (s_loop s) (registered p1) t) Hrun) as Hl. cbn [fst snd] in *.
  assert (since_birth (mk_sys (s_trace s ++ tr) ls' p3 (s_sent s ++ jobs) (s_harvested s ++ results t)
            (s_events s ++ es1 ++ es2 ++ Marked lost :: es3) (s_born s)) = since_birth s ++ tr) as Hsb.
  { exact (since_birth_app s tr Hb). }
  split; cbn [s_trace s_born s_sent s_events]; rewrite ?Hsb, ?observed_app.
  - by rewrite app_assoc, <- Hb.
  - rewrite map_app. by apply sublist_app.
  - intros ids id Hin Hid. rewrite !marks_app, Hm1, Hm2 in Hin. cbn [app marks omap list_omap] in Hin.
    change (omap _ es3) with (marks es3) in Hin. rewrite Hm3 in Hin.
    apply elem_of_app in Hin as [Hin|Hin]; apply elem_of_app; [left; by eapply Hlost|right].
    apply list_elem_of_singleton in Hin as ->. by eapply elem_of_sublist.
Qed.

(** ** What is reported lost is over *)

Lemma ended_answers id es0 P c r es P' :
  recorded es0 P -> answers P c r es P' -> ended id P -> ended id P' /\ life id es = [].
Proof.
  intros Hrec Ha He. destruct Ha; try done.
  - by apply ended_claim.
  - eapply ended_complete; [apply Hrec|done..].
  - by eapply ended_others; [apply others_watchdog|].
Qed.

Lemma ended_run id es0 P t es P' :
  recorded es0 P -> plane_run P t es P' -> ended id P -> ended id P' /\ life id es = [].
Proof.
  intros Hrec Hr. revert es0 Hrec. induction Hr as [P|P es1 P1 t es2 P2 Ho _ IH|P c r es1 P1 t es2 P2 Ha _ IH];
    intros es0 Hrec He; [done|..]; rewrite life_app.
  - destruct (ended_others _ _ _ _ Ho He) as [He1 ->]. eapply IH; [by eapply recorded_others|done].
  - destruct (ended_answers _ _ _ _ _ _ _ Hrec Ha He) as [He1 ->]. eapply IH; [by eapply recorded_answers|done].
Qed.

Lemma check_lost_ended id es ids P : recorded es P -> id ∈ fn_check_lost_outbound ids P -> ended id P.
Proof.
  intros [H1 H2 _ _ _ _] (r & -> & Hr)%list_elem_of_fmap. apply list_elem_of_In, filter_In in Hr as [Hin Hc].
  apply list_elem_of_In in Hin. breflect. split; [by eapply list.Forall_forall in H2 as [? _]|].
  apply list.Forall_forall. intros r' Hr' He. assert (r' = r) as -> by by eapply row_unique. by rewrite H0.
Qed.

Lemma strings_of_strs l : strings_of (JArr (map JStr l)) = l.
Proof.
  change (filter_map as_str (map JStr l) = l). induction l as [|x l IH]; [done|].
  change (x :: filter_map as_str (map JStr l) = x :: l). by rewrite IH.
Qed.

Lemma lost_answers id es0 P c r es P' :
  recorded es0 P -> answers P c r es P' -> id ∈ lost_in (c, r) -> ended id P.
Proof.
  intros Hrec Ha. destruct Ha as [P tb n open now v Hv|P tb i rest now P' acc v Hc|P ids lost Hl|P n locked expired now v
                            |P sql args e|P sql args m|P c r Hn]; try by intros []%not_elem_of_nil.
  - destruct tb; by intros []%not_elem_of_nil.
  - destruct v as [[]|]; try by intros []%not_elem_of_nil. destruct tb; by intros []%not_elem_of_nil.
  - cbn [lost_in]. rewrite bool_decide_eq_true_2, strings_of_strs, Hl by done. by apply check_lost_ended with es0.
  - destruct v as [[]|]; by intros []%not_elem_of_nil.
  - destruct c as [sql args| | | | | | | | | | | | |]; try by intros []%not_elem_of_nil.
    destruct r as [[[]|]| |]; try by intros []%not_elem_of_nil. cbn [lost_in]. case_bool_decide as Hs; [|by intros []%not_elem_of_nil].
    specialize (Hn _ _ eq_refl). by rewrite Hs in Hn.
Qed.

Lemma run_lost id es0 P t es P' :
  recorded es0 P -> plane_run P t es P' -> id ∈ observed lost_in t -> ended id P'.
Proof.
  intros Hrec Hr. revert es0 Hrec. induction Hr as [P|P es1 P1 t es2 P2 Ho _ IH|P c r es1 P1 t es2 P2 Ha Hr IH];
    intros es0 Hrec; [by intros []%not_elem_of_nil|..].
  - eapply IH. by eapply recorded_others.
  - change (observed lost_in ((c, r) :: t)) with (lost_in (c, r) ++ observed lost_in t).
    assert (recorded (es0 ++ es1) P1) as Hrec1 by by eapply recorded_answers.
    intros [Hid|Hid]%elem_of_app; [|by eapply IH].
    pose proof (lost_answers _ _ _ _ _ _ _ Hrec Ha Hid) as He.
    destruct (ended_answers _ _ _ _ _ _ _ Hrec Ha He) as [He1 _].
    by destruct (ended_run _ _ _ _ _ _ Hrec1 Hr He1).
Qed.

(** ** The theorems *)

Lemma served_reach `{WorkerEnv} `{SerdeJson} db threads now s :
  rtc (sys_step db threads) (sys_start [] now threads) s -> served s.
Proof.
  intros Hr. eapply (rtc_ind_r served (sys_start [] now threads)); [apply served_start| |exact Hr].
  intros s1 s2 _. apply served_step.
Qed.

(** The claims of a process follow those of the processes before it. *)
Lemma sent_once `{WorkerEnv} `{SerdeJson} s es P :
  served s -> plane_run plane_init (s_trace s) es P ->
  NoDup (observed claimed_in (s_born s) ++ map j_id (s_sent s)).
Proof.
  intros [Hb Hs _] Hp. apply (sublist_NoDup _ (claims es)).
  - apply one_life_claims, (rec_lives es P), (plane_run_recorded _ _ _ Hp).
  - etrans; [|exact (run_claims _ _ _ _ Hp)]. rewrite Hb, observed_app. by apply sublist_app.
Qed.

Lemma unique_of_sent s :
  NoDup (map j_id (s_sent s)) -> map job_call (s_sent s) ≡ₚ map result_call (s_harvested s) ++ pool_calls (s_pool s) ->
  unique (s_pool s).
Proof.
  intros Hn Hp. eapply unique_sub; [symmetry; exact Hp|]. by rewrite map_map.
Qed.

(** C4: no call is sent twice.  The worker's lifetimes against the control plane, any
    number of turns, restarts and deaths, with anything done to the tables in between:
    the calls the running process has sent are distinct, and none of them was ever
    handed to a process before it, so nothing an agent asked for is requested twice
    of the outside world; each was handed out by a claim of this process, no id is with
    the pool twice, the calls sent are those harvested and those still in the pool,
    and the pool holds no more than its capacity. *)
Theorem no_call_sent_twice `{WorkerEnv} `{SerdeJson} db threads now s es P :
  rtc (sys_step db threads) (sys_start [] now threads) s ->
  plane_run plane_init (s_trace s) es P ->
  NoDup (map j_id (s_sent s))
  /\ (forall id, id ∈ observed claimed_in (s_born s) -> id ∉ map j_id (s_sent s))
  /\ map j_id (s_sent s) `sublist_of` observed claimed_in (since_birth s)
  /\ unique (s_pool s)
  /\ map job_call (s_sent s) ≡ₚ map result_call (s_harvested s) ++ pool_calls (s_pool s)
  /\ (length (pool_calls (s_pool s)) <= capacity)%nat.
Proof.
  intros Hr Hp. pose proof (served_reach _ _ _ _ Hr) as Hs.
  destruct (books_reach _ _ _ _ Hr (run_honours _ _ _ _ Hp)) as [Hc Hcap _ Hb _].
  pose proof (sent_once s es P Hs Hp) as Hn. apply list.NoDup_app in Hn as (_ & Hd & Hn).
  ands; [done|done|apply Hs|by apply unique_of_sent|done|by rewrite <- Hc].
Qed.

Lemma frozen_run es0 P t es P' r :
  recorded es0 P -> plane_run P t es P' -> row_table r <> embedding_calls ->
  r ∈ calls P -> unended (row_status r) = false -> r ∈ calls P'.
Proof.
  intros Hrec Hr Hd. revert es0 Hrec. induction Hr as [P|P es1 P1 t es2 P2 Ho _ IH|P c rep es1 P1 t es2 P2 Ha _ IH];
    intros es0 Hrec Hin He; [done|..].
  - eapply IH; [by eapply recorded_others| |done]. eapply frozen_others; [apply Hrec|done..].
  - eapply IH; [by eapply recorded_answers| |done]. destruct Ha; try done.
    + apply frozen_claim; [apply Hrec|done..].
    + eapply frozen_complete; [apply Hrec|done..].
    + eapply frozen_others; [apply Hrec|apply others_watchdog|done..].
Qed.

(** A call that was not over when its session was cancelled is a lost row from then on, and
    a check that names a lost outbound row is told so. *)
Lemma cancelled_row_lost es1 P sid now t2 es2 P2 r :
  recorded es1 P -> plane_run (fn_cancel_session sid now P) t2 es2 P2 ->
  r ∈ calls P -> given_up (row_table r) = true -> in_session sid P r = true -> unended (row_status r) = true ->
  touch Lost now r ∈ calls P2.
Proof.
  intros Hrec Hr Hin Hg Hs Hu. eapply frozen_run; [apply recorded_cancel, Hrec|exact Hr| |by apply cancel_loses|done].
  intros Hx. simpl in Hx. by rewrite Hx in Hg.
Qed.

Lemma lost_row_told ids P r :
  r ∈ calls P -> row_table r = outbound_calls -> row_status r = Lost -> row_id r ∈ ids ->
  row_id r ∈ fn_check_lost_outbound ids P.
Proof.
  intros Hin Ho Hl Hid. apply list_elem_of_fmap. exists r. split; [done|].
  apply list_elem_of_In, filter_In. split; [by apply list_elem_of_In|]. by rewrite Ho, Hl, !bool_decide_eq_true_2.
Qed.

(** C6: a cancelled session is over.  From the moment [fn_cancel_session] has run, whatever
    the worker and everybody else do, no outbound or SQL call of the session is claimed
    again and no result of one is accepted, and each that was queued or in flight stays
    lost for good, which for an outbound call every check of the worker is told. *)
Theorem cancelled_session_stays_cancelled t1 es1 P sid now t2 es2 P2 r :
  plane_run plane_init t1 es1 P ->
  plane_run (fn_cancel_session sid now P) t2 es2 P2 ->
  r ∈ calls P -> given_up (row_table r) = true -> in_session sid P r = true ->
  life (row_id r) es2 = []
  /\ (forall tb now', fn_complete tb (row_id r) now' P2 = None \/ fn_complete tb (row_id r) now' P2 = Some (P2, false))
  /\ (unended (row_status r) = true -> touch Lost now r ∈ calls P2
      /\ (row_table r = outbound_calls -> forall ids, row_id r ∈ ids -> row_id r ∈ fn_check_lost_outbound ids P2)).
Proof.
  intros Hrec%plane_run_recorded Hr Hin Hg Hs.
  assert (recorded es1 (fn_cancel_session sid now P)) as Hrec' by by apply recorded_cancel.
  destruct (ended_run (row_id r) _ _ _ _ _ Hrec' Hr) as [He Hl].
  { apply cancel_ends; [apply Hrec| |done..]. eapply Forall_impl; [|apply Hrec]. by intros ? [? _]. }
  ands; [done|by intros; apply ended_refused|]. intros Hu.
  pose proof (cancelled_row_lost _ _ _ _ _ _ _ _ Hrec Hr Hin Hg Hs Hu) as Ht.
  split; [done|]. intros Ho ids Hid. by apply (lost_row_told ids P2 (touch Lost now r)).
Qed.

(** *** Prefixes of a trace *)

Lemma plane_run_app P t1 t2 es P2 :
  plane_run P (t1 ++ t2) es P2 ->
  exists es1 P1 es2, plane_run P t1 es1 P1 /\ plane_run P1 t2 es2 P2 /\ es = es1 ++ es2.
Proof.
  remember (t1 ++ t2) as t eqn:Ht. intros Hr. revert t1 Ht.
  induction Hr as [P|P es1 P1 t es2 P2 Ho Hr IH|P c r es1 P1 t es2 P2 Ha Hr IH]; intros t1 Ht.
  - symmetry in Ht. apply app_eq_nil in Ht as [-> ->]. exists [], P, []. ands; [constructor|constructor|done].
  - destruct (IH t1 Ht) as (es1' & P' & es2' & H1 & H2 & ->). exists (es1 ++ es1'), P', es2'.
    ands; [by eapply plane_others|done|by rewrite app_assoc].
  - destruct t1 as [|cr t1]; simpl in Ht.
    + exists [], P, (es1 ++ es2). ands; [constructor| |done]. rewrite <- Ht. by eapply plane_call.
    + injection Ht as <- Ht. destruct (IH t1 Ht) as (es1' & P' & es2' & H1 & H2 & ->).
      exists (es1 ++ es1'), P', es2'. ands; [by eapply plane_call|done|by rewrite app_assoc].
Qed.

Lemma unique_reach `{WorkerEnv} `{SerdeJson} db threads now s es P :
  rtc (sys_step db threads) (sys_start [] now threads) s -> plane_run plane_init (s_trace s) es P ->
  unique (s_pool s).
Proof.
  intros Hr Hp. pose proof (served_reach _ _ _ _ Hr) as Hs.
  destruct (books_reach _ _ _ _ Hr (run_honours _ _ _ _ Hp)) as [_ _ _ Hb _].
  pose proof (sent_once s es P Hs Hp) as Hn. apply list.NoDup_app in Hn as (_ & _ & Hn). by apply unique_of_sent.
Qed.

(** The pool of a lifetime against the control plane never holds an id twice. *)
Lemma lifetime_unique `{WorkerEnv} `{SerdeJson} db threads now s es P :
  rtc (sys_step db threads) (sys_start [] now threads) s -> plane_run plane_init (s_trace s) es P ->
  rtc (fun s s' => sys_step db threads s s' /\ unique (s_pool s')) (sys_start [] now threads) s.
Proof.
  intros Hr. revert es P. eapply (rtc_ind_r (fun s => forall es P, plane_run plane_init (s_trace s) es P ->
    rtc (fun s s' => sys_step db threads s s' /\ unique (s_pool s')) (sys_start [] now threads) s)
    (sys_start [] now threads)); [by intros; apply rtc_refl| |exact Hr].
  intros s1 s2 H1 Hs IH es P Hp. destruct (step_extends _ _ _ _ Hs) as [tr Ht].
  rewrite Ht in Hp. destruct (plane_run_app _ _ _ _ _ Hp) as (es1 & P1 & es2 & Hp1 & _ & _). rewrite <- Ht in Hp.
  eapply rtc_r; [by eapply IH|]. split; [done|]. eapply unique_reach; [by eapply rtc_r|exact Hp].
Qed.

Lemma marked_in_events id es : marked_since id (flag_ops es) -> exists ids, ids ∈ marks es /\ id ∈ ids.
Proof.
  intros (pre & ids & post & He & Hid & _). exists ids. split; [|done].
  assert (OpLost ids ∈ flag_ops es) as Hin by (rewrite He; apply elem_of_app; right; left).
  apply list_elem_of_omap in Hin as (e & Hin & Hf). destruct e; try done. injection Hf as <-.
  apply list_elem_of_omap. by eexists.
Qed.

(** C34: cancellations reach the calls that are over, and no others.  Over whole lifetimes
    against the control plane, with the threads registering and dropping their guards
    at any moment: the map the worker asks the server about holds exactly the ids of
    the calls being performed; the flag such a call polls is set exactly when a check
    since it registered reported its id; and then the call is over in the control
    plane, which refuses whatever result the thread still brings. *)
Theorem cancelled_calls_are_over `{WorkerEnv} `{SerdeJson} db threads now s es P :
  rtc (sys_step db threads) (sys_start [] now threads) s ->
  plane_run plane_init (s_trace s) es P ->
  (forall id, id ∈ registered (s_pool s) <-> exists g, performs (s_pool s) id g)
  /\ (forall id g, performs (s_pool s) id g ->
        is_cancelled (flags (s_pool s)) g = true <-> marked_since id (flag_ops (s_events s)))
  /\ (forall id g tb now', performs (s_pool s) id g -> is_cancelled (flags (s_pool s)) g = true ->
        ended id P /\ (fn_complete tb id now' P = None \/ fn_complete tb id now' P = Some (P, false))).
Proof.
  intros Hr Hp. destruct (cancel_flags_in_step _ _ _ _ (lifetime_unique _ _ _ _ _ _ Hr Hp)) as [H1 H2].
  ands; [done|done|]. intros id g tb now' Hg Hc. assert (ended id P) as He; [|split; [done|by apply ended_refused]].
  apply (H2 id g Hg), marked_in_events in Hc as (ids & Hm & Hid).
  pose proof (served_reach _ _ _ _ Hr) as [Hb _ Hl].
  eapply run_lost; [exact recorded_init|exact Hp|]. rewrite Hb, observed_app. apply elem_of_app. right. by eapply Hl.
Qed.

(** ** A control plane that runs *)

Definition table_of (f : call_table -> bytes) (sql : bytes) : option call_table :=
  find_first (fun tb => sql == f tb) call_tables.

Definition sample_session : bytes := str "session".
Definition nothing_said : reply := Done (Some (DJson JNull)).

(** A server with tables, nothing locked and the clock at 0, where any dashboard request
    cancels the sample session. *)
Definition serve (P : Plane) (c : call) : Plane * reply :=
  match c with
  | Spi sql args =>
    match table_of claim_statement sql, table_of complete_statement sql, args with
    | Some tb, _, [AInt (Some n)] =>
      let out := fn_claim tb (Some n) (fun _ => true) 0 P in
      (out.1, Done (Some (DJson (jobj [(str "calls",
        JArr (map (fun id => jobj [(str "call_id", JStr id)]) out.2))]))))
    | _, Some tb, AStr (Some id) :: _ =>
      match fn_complete tb id 0 P with
      | Some (P', _) => (P', nothing_said)
      | None => (P, Raised (str "not found"))
      end
    | _, _, _ =>
      if sql == CHECK_LOST then
        match args with
        | [ATexts ids] => (P, Done (Some (DJson (JArr (map JStr (fn_check_lost_outbound ids P))))))
        | _ => (P, Raised (str "no such function"))
        end
      else if sql == WATCHDOG then
        match args with
        | [AInt (Some n)] => (fn_watchdog (Some n) (fun _ => false) (fun _ => false) 0 P, nothing_said)
        | _ => (P, Raised (str "no such function"))
        end
      else if about_calls sql then (P, Raised (str "no such function"))
      else if sql == DASHBOARD_RPC then (fn_cancel_session sample_session 0 P, nothing_said)
      else if (sql == ASSUME_WORKER_ROLE) || (sql == EXTENSION_INSTALLED) then (P, Done (Some (DBool true)))
      else (P, nothing_said)
    end
  | _ => (P, Done None)
  end.

Definition after (P : Plane) (h : trace) : Plane := fold_left (fun P cr => (serve P cr.1).1) h P.
Definition serving (P : Plane) : server := fun h c => (serve (after P h) c).2.

Lemma table_of_Some f sql tb : table_of f sql = Some tb -> sql = f tb.
Proof. intros [_ H]%find_first_Some. by breflect. Qed.

Lemma plane_one P c r es P' : answers P c r es P' -> exists es, plane_run P [(c, r)] es P'.
Proof. intros Ha. eexists. eapply plane_call; [exact Ha|apply plane_done]. Qed.

Lemma serve_other P sql args r : about_calls sql = false -> exists es, plane_run P [(Spi sql args, r)] es P.
Proof. intros Hs. eapply plane_one, answers_else. by intros ? ? [= <- <-]. Qed.

Lemma serve_raised P sql args m : exists es, plane_run P [(Spi sql args, Raised m)] es P.
Proof. eapply plane_one, answers_raised. Qed.

#[local] Hint Resolve serve_raised : allgres.

Lemma claimed_calls_of l : claimed_calls (jobj [(str "calls", JArr l)]) = l.
Proof. reflexivity. Qed.

(** What it answers, the model of the control plane can answer. *)
Lemma serve_accounted P c : exists es, plane_run P [(c, (serve P c).2)] es (serve P c).1.
Proof.
  destruct c as [sql args| | | | | | | | | | | | |]; try by eapply plane_one, answers_else.
  unfold serve. destruct (table_of claim_statement sql) as [tb|] eqn:Hc.
  { apply table_of_Some in Hc as ->. assert (table_of complete_statement (claim_statement tb) = None) as -> by by destruct tb.
    assert ((claim_statement tb == CHECK_LOST) = false) as -> by by destruct tb.
    assert ((claim_statement tb == WATCHDOG) = false) as -> by by destruct tb.
    rewrite about_claim. destruct args as [|[| |[n|]| |] [|]]; eauto with allgres.
    eapply plane_one, answers_claim. unfold call_ids. rewrite claimed_calls_of, map_map. by apply map_ext. }
  destruct (table_of complete_statement sql) as [tb|] eqn:Hd.
  { apply table_of_Some in Hd as ->. assert ((complete_statement tb == CHECK_LOST) = false) as -> by by destruct tb.
    assert ((complete_statement tb == WATCHDOG) = false) as -> by by destruct tb.
    assert (about_calls (complete_statement tb) = true) as -> by by destruct tb.
    destruct args as [|[[id|]| | | |] rest]; eauto with allgres.
    destruct (fn_complete tb id 0 P) as [[P' acc]|] eqn:Hf; [|eauto with allgres].
    by eapply plane_one, answers_complete. }
  destruct (sql == CHECK_LOST) eqn:Hk; [breflect; subst sql|destruct (sql == WATCHDOG) eqn:Hw;
    [breflect; subst sql|destruct (about_calls sql) eqn:Ha]].
  - destruct args as [|[|ids| | |] [|]]; eauto with allgres. by eapply plane_one, answers_check.
  - destruct args as [|[| |[n|]| |] [|]]; eauto with allgres. by eapply plane_one, answers_watchdog.
  - destruct args as [|[[]| |[]| |] [|]]; eauto with allgres.
  - destruct (sql == DASHBOARD_RPC).
    + destruct (serve_other (fn_cancel_session sample_session 0 P) sql args nothing_said Ha) as [es Hes].
      exists ([] ++ es).
      destruct args as [|[[]| |[]| |] [|]]; (eapply plane_others; [apply others_cancel|exact Hes]).
    + destruct (_ || _); destruct args as [|[[]| |[]| |] [|]]; by apply serve_other.
Qed.

Lemma plane_run_trans P t1 es1 P1 t2 es2 P2 :
  plane_run P t1 es1 P1 -> plane_run P1 t2 es2 P2 -> plane_run P (t1 ++ t2) (es1 ++ es2) P2.
Proof.
  intros H1 H2. induction H1 as [P|P es0 P0 t es P1 Ho _ IH|P c r es0 P0 t es P1 Ha _ IH]; [done|..]; rewrite <- app_assoc.
  - eapply plane_others; [exact Ho|by apply IH].
  - eapply plane_call; [exact Ha|by apply IH].
Qed.

Lemma plane_run_prepared P P1 t es P2 : plane_run P [] [] P1 -> plane_run P1 t es P2 -> plane_run P t es P2.
Proof. intros H1 H2. exact (plane_run_trans _ [] [] _ _ _ _ H1 H2). Qed.

Lemma after_app P h t : after P (h ++ t) = after (after P h) t.
Proof. unfold after. apply fold_left_app. Qed.

Lemma serving_run {A} P h (p : prog A) :
  exists es, plane_run (after P h) (run (serving P) h p).1 es (after P (h ++ (run (serving P) h p).1)).
Proof.
  revert h. induction p as [a|m|c k IH]; intros h; [rewrite app_nil_r; by exists []; apply plane_done..|].
  cbn [run]. destruct (IH (serving P h c) (h ++ [(c, serving P h c)])) as [es Hes].
  destruct (run (serving P) (h ++ [(c, serving P h c)]) (k (serving P h c))) as [t o]. cbn [fst] in *.
  destruct (serve_accounted (after P h) c) as [es0 H0]. exists (es0 ++ es).
  rewrite <- app_assoc in Hes. cbn [app] in Hes.
  rewrite after_app in Hes. change (after (after P h) [(c, serving P h c)]) with (serve (after P h) c).1 in Hes.
  exact (plane_run_trans _ [(c, serving P h c)] _ _ _ _ _ H0 Hes).
Qed.

(** Every lifetime against it is one the control plane accounts for. *)
Lemma serving_lifetime `{WorkerEnv} `{SerdeJson} P threads now s :
  rtc (sys_step (serving P) threads) (sys_start [] now threads) s ->
  exists es, plane_run P (s_trace s) es (after P (s_trace s)).
Proof.
  intros Hr. eapply (rtc_ind_r (fun s => exists es, plane_run P (s_trace s) es (after P (s_trace s)))
    (sys_start [] now threads)); [exists []; apply plane_done| |exact Hr].
  intros s1 s2 _ Hs [es1 H1].
  assert (forall (A : Type) (p : prog A) tr o, run (serving P) (s_trace s1) p = (tr, o) ->
    exists es, plane_run P (s_trace s1 ++ tr) es (after P (s_trace s1 ++ tr))) as Hx.
  { intros A p tr o Hp. destruct (serving_run P (s_trace s1) p) as [es2 H2]. rewrite Hp in H2.
    exists (es1 ++ es2). by eapply plane_run_trans. }
  destruct Hs as [s1 t tr ls' lost jobs es p1 es' p2 es'' p3 _ _ _ _ Hrun
                |s1 t tr m now' es p1 _ _ _ _ Hrun|s1 now']; [by eapply Hx..|by exists es1].
Qed.

(** ** A sample lifetime *)

#[local] Instance plain_env : WorkerEnv := {| env_drop_privileges := None |}.
#[local] Existing Instance tiny_json.

(** A running task has an outbound call queued. *)
Definition sample_task : bytes := str "task".
Definition sample_row : call_row := mk_row outbound_calls sample_agent (Some sample_task) Queued 0 0.
Definition sample_tasks : gmap bytes Task := {[sample_task := mk_task sample_session task_running]}.
Definition sample_plane : Plane := mk_plane sample_tasks [sample_row] [sample_agent].

Lemma sample_plane_reached : plane_run plane_init [] [] sample_plane.
Proof.
  change (@nil call_event) with ([] ++ @nil call_event). eapply plane_others; [apply (others_tasks _ sample_tasks)|].
  change (@nil call_event) with ([] ++ @nil call_event). eapply plane_others; [|apply plane_done].
  apply (others_enqueue (mk_plane sample_tasks [] []) outbound_calls sample_agent (Some sample_task) 0);
    [apply not_elem_of_nil|reflexivity].
Qed.

Definition cp_turn (h : trace) (ls : LoopState) (ids : list bytes) (t : Turn) :=
  run (serving sample_plane) h (loop_turn ls ids t).

(** In the first turn the worker claims the call; a thread performs it when, in the
    second, a dashboard request cancels the session. *)
Definition cp_trace1 : trace := (cp_turn [] (loop_init 0) [] turn1).1.
Definition cp_trace2 : trace := (cp_turn cp_trace1 loop1 [sample_agent] turn2).1.
Definition cp_s1 : Sys := mk_sys cp_trace1 loop1 pool1 [sample_job] [] events1 [].
Definition cp_s2 : Sys := mk_sys (cp_trace1 ++ cp_trace2) loop1 pool2 [sample_job] [] events2 [].

Lemma cp_turn1 :
  cp_turn [] (loop_init 0) (registered (spawn_http_pool 1)) turn1 = (cp_trace1, Returned (loop1, [], [sample_job])).
Proof. vm_compute. reflexivity. Qed.

Lemma cp_turn2 : cp_turn cp_trace1 loop1 (registered pool1') turn2 = (cp_trace2, Returned (loop1, [sample_agent], [])).
Proof. vm_compute. reflexivity. Qed.

Lemma cp_step1 : sys_step (serving sample_plane) 1 sample_s0 cp_s1.
Proof.
  refine (sys_turn (serving sample_plane) 1 sample_s0 turn1 cp_trace1 loop1 [] [sample_job]
            [] (spawn_http_pool 1) [] (spawn_http_pool 1) [Sent sample_job] pool1
            (pool_done _) eq_refl eq_refl eq_refl cp_turn1 (pool_done _) eq_refl eq_refl eq_refl
            _ eq_refl eq_refl eq_refl).
  eapply pool_more; [apply pool_mark|]. eapply pool_more; [apply pool_send|]. apply pool_done.
Qed.

Lemma cp_step2 : sys_step (serving sample_plane) 1 cp_s1 cp_s2.
Proof.
  refine (sys_turn (serving sample_plane) 1 cp_s1 turn2 cp_trace2 loop1 [sample_agent] []
            [Taken; Registered sample_agent] pool1' [] pool1' [] pool2
            _ eq_refl eq_refl eq_refl cp_turn2 (pool_done _) eq_refl eq_refl eq_refl
            _ eq_refl eq_refl eq_refl).
  - eapply pool_more; [by eapply (pool_take _ sample_job [] 0)|].
    eapply pool_more; [by eapply (pool_register _ 0 sample_job)|]. apply pool_done.
  - eapply pool_more; [apply pool_mark|]. apply pool_done.
Qed.

Lemma cp_reach : rtc (sys_step (serving sample_plane) 1) sample_s0 cp_s2.
Proof. eapply rtc_l; [exact cp_step1|]. eapply rtc_l; [exact cp_step2|apply rtc_refl]. Qed.

Lemma cp_accounted : exists es, plane_run plane_init (s_trace cp_s2) es (after sample_plane (s_trace cp_s2)).
Proof.
  destruct (serving_lifetime sample_plane 1 0 cp_s2 cp_reach) as [es Hes]. exists es.
  exact (plane_run_prepared _ _ _ _ _ sample_plane_reached Hes).
Qed.

Lemma calls_live_once_witness :
  exists es P, plane_run plane_init (cp_trace1 ++ cp_trace2) es P /\ one_life sample_agent (life sample_agent es).
Proof.
  destruct cp_accounted as [es Hes]. exists es, (after sample_plane (s_trace cp_s2)).
  split; [exact Hes|]. exact (proj1 (calls_live_once _ _ _ Hes) sample_agent).
Defined.

Lemma no_call_sent_twice_witness :
  NoDup (map j_id (s_sent cp_s2)) /\ map j_id (s_sent cp_s2) `sublist_of` observed claimed_in (since_birth cp_s2)
  /\ map j_id (s_sent cp_s2) = [sample_agent].
Proof.
  destruct cp_accounted as [es Hes].
  destruct (no_call_sent_twice (serving sample_plane) 1 0 cp_s2 es _ cp_reach Hes) as (H1 & _ & H3 & _).
  split; [exact H1|]. split; [exact H3|reflexivity].
Defined.

(** A worker that starts after the session was cancelled does not get the call. *)
Lemma cancelled_session_stays_cancelled_witness :
  let P1 := fn_cancel_session sample_session 0 sample_plane in
  exists t2 es2 P2, plane_run P1 t2 es2 P2 /\ t2 <> [] /\ life sample_agent es2 = []
    /\ sample_agent ∈ fn_check_lost_outbound [sample_agent] P2.
Proof.
  intros P1. pose (p := loop_turn (loop_init 0) [] turn1).
  destruct (serving_run P1 [] p) as [es2 H2].
  destruct (cancelled_session_stays_cancelled [] [] sample_plane sample_session 0 _ _ _ sample_row
              sample_plane_reached H2) as (Hl & _ & Hu).
  - left.
  - reflexivity.
  - vm_compute. reflexivity.
  - eexists _, _, _. split; [exact H2|]. split; [vm_compute; discriminate|]. split; [exact Hl|].
    apply (Hu eq_refl); [reflexivity|left].
Defined.

Lemma cancelled_calls_are_over_witness : ended sample_agent (after sample_plane (s_trace cp_s2)).
Proof.
  destruct cp_accounted as [es Hes].
  destruct (cancelled_calls_are_over (serving sample_plane) 1 0 cp_s2 es _ cp_reach Hes) as (_ & _ & H).
  apply (H sample_agent guard1 outbound_calls 0%Z).
  - exists 0%nat, sample_job. split; reflexivity.
  - reflexivity.
Defined.
