(* ===== verification/CancelPath.v ===== *)
(** * From the stop button to the socket

    [fn_cancel_session] of the control plane, [propagate_outbound_cancellations] of
    [src/runtime_worker.rs] and the transport of [src/outbound.rs] put together: what
    [ControlPlane.v] knows of the tables and [Stop.v] of the flags, over one turn of a
    lifetime. *)

From stdpp Require Import relations.
From S2P Require Import Prelude Utf8 RustStr Net Json Spi Privilege Sandbox LocalWork Outbound Pool RuntimeWorker System.
From S2P Require Import Stop CallTables ControlPlane.

#[local] Arguments str : simpl never.

(** ** What a turn asks *)

(** The check succeeds wherever it is made. *)
Definition check_ok (cr : call * reply) : bool :=
  match cr with
  | (Spi sql _, r) => (sql != CHECK_LOST) || match r with Done _ => true | _ => false end
  | _ => true
  end.

(** The ids a reply to the check stands for. *)
Definition said_lost (v : option datum) : list bytes :=
  match v with Some (DJson v) => strings_of v | _ => [] end.

(** A trace with the check in it, answered, and what the worker makes of the answer. *)
Definition asked (ids : list bytes) (lost : list bytes) (t : trace) : Prop :=
  exists t1 v t2, t = t1 ++ (Spi CHECK_LOST [ATexts ids], Done v) :: t2 /\ lost = said_lost v.

Lemma asked_app_l ids lost t t' : asked ids lost t -> asked ids lost (t ++ t').
Proof. intros (t1 & v & t2 & -> & ->). exists t1, v, (t2 ++ t'). by rewrite <- app_assoc. Qed.
Lemma asked_app_r ids lost t t' : asked ids lost t' -> asked ids lost (t ++ t').
Proof. intros (t1 & v & t2 & -> & ->). exists (t ++ t1), v, t2. by rewrite <- app_assoc. Qed.

Definition goes_well (t : trace) : bool := forallb drop_ok t && forallb check_ok t.

Lemma goes_well_app t t' : goes_well (t ++ t') = true -> goes_well t = true /\ goes_well t' = true.
Proof. unfold goes_well. rewrite !forallb_app, !andb_true_iff. tauto. Qed.

Lemma check_asked `{WorkerEnv} db h ids t lost :
  run db h (let* r := spi_get_json CHECK_LOST [ATexts ids] in
            Ret (match r with Ok (Some v) => strings_of v | _ => [] end)) = (t, Returned lost) ->
  goes_well t = true -> asked ids lost t.
Proof.
  unfold spi_get_json. cbn [bind run]. destruct (db h _) as [v|e|m] eqn:Hd.
  - destruct v as [[b|v| |]|]; cbn [bind run]; intros [= <- <-] _; by eexists [], _, [].
  - cbn [bind run]. intros [= <- <-]. unfold goes_well. cbn [forallb check_ok].
    rewrite bool_decide_eq_true_2 by done. by rewrite andb_false_r.
  - done.
Qed.

Lemma lost_calls_asked `{WorkerEnv} db h ids t lost :
  run db h (lost_calls ids) = (t, Returned lost) -> goes_well t = true -> asked ids lost t.
Proof.
  unfold lost_calls, transaction. cbn [do_ bind run]. rewrite run_bind.
  set (h1 := h ++ _). destruct (run db h1 _) as [t1 [a|m]] eqn:Hb; [|done]. cbn [bind run].
  intros [= <- <-]. intros Hw. change (?x :: t1 ++ ?y) with ([x] ++ t1 ++ y) in Hw |- *.
  apply goes_well_app in Hw as [_ [Hw _]%goes_well_app]. apply asked_app_r, asked_app_l.
  revert Hb. unfold drop_privileges. destruct (env_drop_privileges == Some (str "0")).
  - cbn [bind negb]. intros Hb. by apply (check_asked _ _ _ _ _ Hb).
  - unfold spi_get_bool. cbn [bind run].
    destruct (db h1 (Spi ASSUME_WORKER_ROLE [])) as [[[[]| | |]|]|e|m] eqn:Hd; cbn [bind run negb warning do_];
      try (intros [= <- <-]; unfold goes_well in Hw; cbn [forallb drop_ok] in Hw;
           rewrite bool_decide_eq_true_2 in Hw by done; done).
    destruct (run db _ _) as [t2 o] eqn:Hc. intros [= <- ->].
    change ((?c, ?r) :: t2) with ([(c, r)] ++ t2) in Hw |- *.
    apply goes_well_app in Hw as [_ Hw]. apply asked_app_r. by apply (check_asked _ _ _ _ _ Hc).
Qed.

(** A turn that comes to its end asks about the calls that were registered, and the ids it
    marks are those of the answer. *)
Lemma loop_turn_asked `{WorkerEnv} `{SerdeJson} db h ls ids t tr ls' lost jobs :
  run db h (loop_turn ls ids t) = (tr, Returned (ls', lost, jobs)) -> ids <> [] -> goes_well tr = true ->
  asked ids lost tr.
Proof.
  unfold loop_turn. intros Hr Hne Hw. revert Hr. unfold do_. rewrite run_bind.
  destruct (run db h _) as [t1 [u|m]]; [|done]. rewrite run_bind.
  destruct (run db (h ++ t1) _) as [t2 [n|m]]; [|done]. rewrite run_bind.
  destruct (run db ((h ++ t1) ++ t2) (propagate_outbound_cancellations ids)) as [t3 [l|m]] eqn:Hp; [|done].
  destruct (run db (((h ++ t1) ++ t2) ++ t3) _) as [t4 o] eqn:Ho. intros [= <- ->].
  apply goes_well_app in Hw as [_ [_ [Hw _]%goes_well_app]%goes_well_app].
  assert (l = lost) as ->.
  { revert Ho. destruct (_ <? _)%Z; [by intros [= <- <- <- <-]|]. rewrite run_bind.
    destruct (run db _ (pump ls t n)) as [t5 [r|m]]; [|done]. by intros [= <- <- <- <-]. }
  apply asked_app_r, asked_app_r, asked_app_l. unfold propagate_outbound_cancellations in Hp.
  destruct ids as [|i ids]; [done|]. by apply (lost_calls_asked _ _ _ _ _ Hp).
Qed.

(** ** What the control plane answers *)

Lemma plane_run_head P c r t es P2 :
  plane_run P ((c, r) :: t) es P2 -> exists es1 P1 es2 P', plane_run P [] es1 P1 /\ answers P1 c r es2 P'.
Proof.
  remember ((c, r) :: t) as t0 eqn:Ht. intros Hr. revert Ht.
  induction Hr as [P|P es1 P1 t1 es2 P2 Ho _ IH|P c' r' es1 P1 t1 es2 P2 Ha _ _]; intros Ht; [done|..].
  - destruct (IH Ht) as (es' & P' & es'' & P'' & H1 & H2). exists (es1 ++ es'), P', es'', P''.
    split; [by eapply plane_others|done].
  - injection Ht as -> -> _. exists [], P, es1, P1. split; [constructor|done].
Qed.

Lemma check_answer P ids v es P' :
  answers P (Spi CHECK_LOST [ATexts ids]) (Done v) es P' -> said_lost v ≡ₚ fn_check_lost_outbound ids P.
Proof.
  remember (Spi CHECK_LOST [ATexts ids]) as c eqn:Hc. remember (Done v) as r eqn:Hr. intros Ha.
  destruct Ha as [P tb n open now w Hv|P tb i rest now P' acc w Hf|P ids' lost Hl|P n locked expired now w
                 |P sql args e|P sql args m|P c r He]; try done.
  - injection Hc as [= <-]. injection Hr as <-. simpl. by rewrite strings_of_strs.
  - by specialize (He _ _ Hc).
Qed.

(** After the cancellation of its session, a turn that asks about the call marks it. *)
Lemma cancelled_marked es1 P sid now t es2 P2 r ids lost :
  recorded es1 P -> plane_run (fn_cancel_session sid now P) t es2 P2 -> asked ids lost t ->
  r ∈ calls P -> row_table r = outbound_calls -> in_session sid P r = true -> unended (row_status r) = true ->
  row_id r ∈ ids -> row_id r ∈ lost.
Proof.
  intros Hrec Hr (t1 & v & t2 & -> & ->) Hin Ho Hs Hu Hid.
  destruct (plane_run_app _ _ _ _ _ Hr) as (ea & Pa & eb & Ha & Hb & _).
  destruct (plane_run_head _ _ _ _ _ _ Hb) as (ec & Pc & ed & Pd & Hc & Hans).
  rewrite (check_answer _ _ _ _ _ Hans). pose proof (plane_run_trans _ _ _ _ _ _ _ Ha Hc) as Hac.
  apply (lost_row_told ids Pc (touch Lost now r)); [|done..].
  eapply cancelled_row_lost; [exact Hrec|exact Hac|done| |done..]. by rewrite Ho.
Qed.

(** ** What the pool keeps *)

Lemma set_flags_next fl lost : next_cell (set_flags fl lost) = next_cell fl.
Proof. revert fl. induction lost as [|id lost IH]; intros fl; [done|]. simpl. rewrite IH. by destruct (_ !! id). Qed.

(** Marking sets the flag the map has for an id. *)
Lemma set_flags_marks fl lost id l :
  by_call fl !! id = Some l -> l < next_cell fl -> id ∈ lost -> flag_set (set_flags fl lost) l.
Proof.
  revert fl. induction lost as [|id' lost IH]; intros fl Hm Hl; [by intros []%not_elem_of_nil|].
  intros [<-|Hin]%elem_of_cons; simpl.
  - rewrite Hm. apply set_flags_set. split; [done|]. simpl. apply lookup_insert_eq.
  - by apply IH; destruct (by_call fl !! id').
Qed.

(** A guard registered before is that of a call performed since. *)
Lemma pool_step_old p e p' id g :
  pool_step p e p' -> flag g < next_cell (flags p) ->
  flag g < next_cell (flags p') /\ (performs p' id g -> performs p id g).
Proof.
  intros Hs Hg.
  assert (forall i w, (forall j g', w = Performing j g' -> g' <> g) ->
    (exists k j, <[i := w]> (workers p) !! k = Some (Performing j g) /\ j_id j = id) -> performs p id g) as Hw.
  { intros i w Hw (k & j & Hk & Hj). exists k, j. split; [|done].
    apply list_lookup_insert_Some in Hk as [(_ & E & _)|[_ Hk]]; [|done]. by destruct (Hw j g E). }
  destruct Hs as [p j|p j rest i Hwt Hi|p i j Hi|p i j g' st bd Hi|p i r Hi|p r rest Hf|p ids]; cbn [flags];
    (split; [|try by apply Hw]); try done.
  - simpl. lia.
  - apply Hw. intros j' g' [= <- <-] E. rewrite <- E in Hg. simpl in Hg. lia.
  - by rewrite set_flags_next.
Qed.

Lemma pool_run_old p es p' id g :
  pool_run p es p' -> flag g < next_cell (flags p) ->
  flag g < next_cell (flags p') /\ (performs p' id g -> performs p id g).
Proof.
  intros Hr. induction Hr as [p|p e p1 es p' Hs _ IH]; [done|]. intros Hg.
  destruct (pool_step_old _ _ _ id _ Hs Hg) as [H1 H2]. destruct (IH H1) as [H3 H4]. auto.
Qed.

Lemma performed_entry p t id g : flags_track p t -> performs p id g -> by_call (flags p) !! id = Some (flag g).
Proof. intros (guards & (Hm & _) & Hg) Hp%Hg. by rewrite Hm, lookup_fmap, Hp. Qed.

Lemma idle_performs h now threads id g : ~ performs (s_pool (sys_start h now threads)) id g.
Proof.
  intros (i & j & Hi & _). simpl in Hi.
  apply list_elem_of_lookup_2, list_elem_of_In, repeat_spec in Hi. done.
Qed.

(** Over one turn: a call performed through it whose id the turn asks about and finds
    lost has its flag set at the end. *)
Lemma turn_sets_flag p tb es1 p1 es2 p2 lost es3 p3 id g :
  unique p -> flags_track p tb -> unique p3 ->
  pool_run p es1 p1 -> sends es1 = [] -> pool_run p1 es2 p2 -> receives es2 = [] ->
  pool_run p2 (Marked lost :: es3) p3 -> receives es3 = [] ->
  performs p id g -> performs p3 id g ->
  id ∈ registered p1 /\ (id ∈ lost -> flag_set (flags p3) (flag g)).
Proof.
  intros Hu Ht Hu3 H1 S1 H2 R2 H3 R3 Hg Hg3.
  destruct (turn_unique_runs _ _ _ _ _ _ _ Hu H1 S1 H2 R2 H3 R3 Hu3) as (U1 & U2 & U3).
  pose proof (flags_track_run _ _ _ U1 _ Ht) as Ht1. pose proof (flags_track_run _ _ _ U2 _ Ht1) as Ht2.
  destruct (performed_flag _ _ _ _ Ht Hg) as [Hl _].
  destruct (pool_run_old _ _ _ id _ H1 Hl) as [Hl1 _]. destruct (pool_run_old _ _ _ id _ H2 Hl1) as [Hl2 Hb2].
  destruct (pool_run_old _ _ _ id _ H3 Hl2) as [_ Hb3]. pose proof (Hb3 Hg3) as Hg2. pose proof (Hb2 Hg2) as Hg1.
  split; [apply (registered_performs _ _ _ Ht1); by exists g|]. intros Hid.
  inversion H3 as [|q e q' es q'' Hs Hr]; subst. inversion Hs; subst.
  eapply pool_run_set; [exact Hr|]. cbn [flags].
  apply (set_flags_marks _ _ id); [|done|done]. by eapply performed_entry.
Qed.

(** C36: the stop button reaches the socket.  An outbound call is being performed when
    [fn_cancel_session] cancels its session, over whole lifetimes against the control
    plane, with whatever the dashboards, agents and operators do before and after.
    After the next turn of the main loop whose privilege drop and check succeed, if the
    thread is then still at it: the check of the call's transport fails; whatever the
    threads and the loop do from there, every load finds the flag set; a wait under way
    ends without asking the client's transport again, with the cancellation unless the
    transport had already answered; and a wait that begins later is cancelled at once. *)
Theorem cancel_reaches_socket `{WorkerEnv} `{SerdeJson} {T} db threads now s es P sid now' s' tr es2 P2 r g
    (made : error + option T) tp A wait again start after earlier later ws o :
  rtc (sys_step db threads) (sys_start [] now threads) s -> plane_run plane_init (s_trace s) es P ->
  r ∈ calls P -> row_table r = outbound_calls -> in_session sid P r = true -> unended (row_status r) = true ->
  performs (s_pool s) (row_id r) g -> connect (flag g) made = inr (Some tp) ->
  sys_step db threads s s' -> s_trace s' = s_trace s ++ tr ->
  plane_run (fn_cancel_session sid now' P) tr es2 P2 -> goes_well tr = true ->
  performs (s_pool s') (row_id r) g ->
  check_cancelled (flags (s_pool s')) tp = inl Cancelled
  /\ (transport_wait A wait again -> polls tp (s_pool s') later -> later <> [] ->
      wait start after (earlier ++ later) = Some (ws, o) ->
      Forall (fun t => t_cancel t = true) later
      /\ length ws <= length earlier
      /\ exists r, o = Some r /\ (r = inl Cancelled \/ exists t, t ∈ earlier /\ r = t_inner t)).
Proof.
  intros Hr Hp Hin Ho Hses Hu Hg Htp Hs Htr Hp2 Hw Hg'.
  assert (flag_set (flags (s_pool s')) (flag g)) as Hset.
  { assert (plane_run plane_init (s_trace s') (es ++ [] ++ es2) P2) as Hp'.
    { rewrite Htr. eapply plane_run_trans; [exact Hp|]. by eapply plane_others; [apply others_cancel|]. }
    pose proof (lifetime_unique _ _ _ _ _ _ Hr Hp) as Hru.
    destruct (cancel_inv_reach _ _ _ _ Hru) as [Hun Htk].
    pose proof (unique_reach _ _ _ _ _ _ (rtc_r _ _ _ Hr Hs) Hp') as Hun'.
    destruct Hs as [s t tr' ls' lost jobs es1 p1 es2' p2 es3 p3 H1 _ S1 _ Hrun H2 R2 _ _ H3 R3 _ _| |];
      [|by apply idle_performs in Hg'..].
    cbn [s_pool s_trace] in *. apply app_inv_head in Htr as ->.
    destruct (turn_sets_flag _ _ _ _ _ _ _ _ _ _ _ Hun Htk Hun' H1 S1 H2 R2 H3 R3 Hg Hg') as [Hreg Hset].
    apply Hset. eapply cancelled_marked; [exact (plane_run_recorded _ _ _ Hp)|exact Hp2| |done..].
    eapply loop_turn_asked; [exact Hrun| |done]. intros E. rewrite E in Hreg. by apply not_elem_of_nil in Hreg. }
  rewrite <- (connect_flag _ _ _ Htp) in Hset. split; [by apply set_check|by apply stopped_wait].
Qed.

#[local] Instance plain_env : WorkerEnv := {| env_drop_privileges := None |}.
#[local] Existing Instance tiny_json.

(** ** A sample lifetime *)

(** The call of the lifetime of [ControlPlane.v], taken by the thread in the first turn;
    the session is cancelled before the second. *)
Definition path_events1 : list pool_event := events1 ++ [Taken; Registered sample_agent].
Definition path_s1 : Sys := mk_sys cp_trace1 loop1 pool1' [sample_job] [] path_events1 [].
Definition path_s2 : Sys :=
  mk_sys (cp_trace1 ++ cp_trace2) loop1 pool2 [sample_job] [] (path_events1 ++ [Marked [sample_agent]]) [].

Lemma path_step1 : sys_step (serving sample_plane) 1 sample_s0 path_s1.
Proof.
  eapply sys_step_eq; [|vm_compute; reflexivity].
  refine (sys_turn (serving sample_plane) 1 sample_s0 turn1 cp_trace1 loop1 [] [sample_job]
            [] (spawn_http_pool 1) [] (spawn_http_pool 1) [Sent sample_job; Taken; Registered sample_agent] pool1'
            (pool_done _) eq_refl eq_refl eq_refl cp_turn1 (pool_done _) eq_refl eq_refl eq_refl
            _ eq_refl eq_refl eq_refl).
  eapply pool_more; [apply pool_mark|]. eapply pool_more; [apply pool_send|].
  eapply pool_more; [by eapply (pool_take _ sample_job [] 0)|].
  eapply pool_more; [by eapply (pool_register _ 0 sample_job)|]. apply pool_done.
Qed.

Lemma path_step2 : sys_step (serving sample_plane) 1 path_s1 path_s2.
Proof.
  eapply sys_step_eq; [|vm_compute; reflexivity].
  refine (sys_turn (serving sample_plane) 1 path_s1 turn2 cp_trace2 loop1 [sample_agent] []
            [] pool1' [] pool1' [] pool2
            (pool_done _) eq_refl eq_refl eq_refl cp_turn2 (pool_done _) eq_refl eq_refl eq_refl
            _ eq_refl eq_refl eq_refl).
  eapply pool_more; [apply pool_mark|]. apply pool_done.
Qed.

Lemma path_reach : rtc (sys_step (serving sample_plane) 1) sample_s0 path_s1.
Proof. eapply rtc_l; [exact path_step1|apply rtc_refl]. Qed.

(** Before the second turn, and that turn against the tables of the cancelled session. *)
Definition path_plane : Plane := after sample_plane cp_trace1.
Definition path_row : call_row := mk_row outbound_calls sample_agent (Some sample_task) In_flight 0 0.

Lemma path_accounted : exists es, plane_run plane_init cp_trace1 es path_plane.
Proof.
  destruct (serving_lifetime sample_plane 1 0 path_s1 path_reach) as [es Hes]. exists es.
  exact (plane_run_prepared _ _ _ _ _ sample_plane_reached Hes).
Qed.

Lemma path_turn2 : exists es P2, plane_run (fn_cancel_session sample_session 0 path_plane) cp_trace2 es P2.
Proof.
  destruct (serving_run (fn_cancel_session sample_session 0 path_plane) [] (loop_turn loop1 [sample_agent] turn2))
    as [es H]. exists es. eexists. cbn [after fold_left] in H.
  assert ((run (serving (fn_cancel_session sample_session 0 path_plane)) [] (loop_turn loop1 [sample_agent] turn2)).1
    = cp_trace2) as E by (vm_compute; reflexivity). rewrite E in H. exact H.
Qed.

Definition path_transport : CancellableTransport unit := mk_cancellable tt (flag guard1).

Lemma cancel_reaches_socket_witness :
  check_cancelled (flags (s_pool path_s2)) path_transport = inl Cancelled
  /\ exists r : error + bool, Some (inl Cancelled) = Some r /\ (r = inl Cancelled \/ exists t, t ∈ [slow_turn 0 false] /\ r = t_inner t).
Proof.
  destruct path_accounted as [es Hes]. destruct path_turn2 as (es2 & P2 & H2).
  destruct (cancel_reaches_socket (serving sample_plane) 1 0 path_s1 es path_plane sample_session 0 path_s2 cp_trace2
    es2 P2 path_row guard1 (inr (Some tt)) path_transport bool await_input await_again 0 (from_secs 45)
    [slow_turn 0 false] [slow_turn (from_millis 150) true] [CANCEL_POLL_INTERVAL] (Some (inl Cancelled))
    path_reach Hes) as [Hc Hwait].
  - vm_compute. left.
  - reflexivity.
  - vm_compute. reflexivity.
  - reflexivity.
  - by exists 0, sample_job.
  - reflexivity.
  - exact path_step2.
  - reflexivity.
  - exact H2.
  - vm_compute. reflexivity.
  - by exists 0, sample_job.
  - split; [exact Hc|]. refine (proj2 (proj2 (Hwait waits_for_input _ _ _))); [|done|vm_compute; reflexivity].
    eapply (polls_turn path_transport (s_pool path_s2) []); [apply pool_done|exact Hc|apply polls_end].
Defined.
