(* ===== verification/CallCustody.v ===== *)
(** * The custody of calls

    A call is in the worker's hands from the claim that yields it to the completion
    that reports it: with the main loop, in the pool, or with one of the pumps.  Who
    holds which calls is tracked here through the programs of the worker by an affine
    ownership judgement: a program consumes some calls, may let go of any, and yields
    others.  Reporting a call takes owning it, and only claims make new ones. *)

From stdpp Require Import relations.
From S2P Require Import Prelude RustStr Json Spi Privilege Sandbox FunctionExec ProcedureExec LocalWork.
From S2P Require Import Outbound Pool RuntimeWorker System CallTables ControlPlane.

#[local] Arguments str : simpl never.
Create HintDb custody.

(** ** What a trace takes and reports *)

(** A call by its table and id. *)
Definition filed : Type := call_table * bytes.

Inductive deal := Took (c : filed) | Reported (c : filed).

Definition deals_in (cr : call * reply) : list deal :=
  match cr with
  | (Spi sql args, r) =>
    match table_of claim_statement sql, table_of complete_statement sql with
    | Some tb, _ =>
      match r with Done (Some (DJson v)) => map (fun id => Took (tb, id)) (ids_of v) | _ => [] end
    | None, Some tb => match args with AStr (Some id) :: _ => [Reported (tb, id)] | _ => [] end
    | None, None => []
    end
  | _ => []
  end.

Definition deals (t : trace) : list deal := observed deals_in t.

Definition taken (ds : list deal) : list filed := omap (fun d => match d with Took c => Some c | _ => None end) ds.
Definition reported (ds : list deal) : list filed := omap (fun d => match d with Reported c => Some c | _ => None end) ds.

Lemma taken_app ds ds' : taken (ds ++ ds') = taken ds ++ taken ds'.
Proof. apply omap_app. Qed.

Lemma reported_app ds ds' : reported (ds ++ ds') = reported ds ++ reported ds'.
Proof. apply omap_app. Qed.

(** At every moment, what has been reported was held at the start or taken before. *)
Definition balanced (X : list filed) (ds : list deal) : Prop :=
  forall pre, pre `prefix_of` ds -> reported pre ⊆+ X ++ taken pre.

Lemma balanced_nil X : balanced X [].
Proof. intros pre ->%prefix_nil_inv. apply submseteq_nil_l. Qed.

Lemma prefix_app_cases {A} (pre l l' : list A) :
  pre `prefix_of` l ++ l' -> pre `prefix_of` l \/ exists pre', pre = l ++ pre' /\ pre' `prefix_of` l'.
Proof.
  intros Hp. destruct (prefix_weak_total pre l (l ++ l') Hp) as [?|[k ->]]; [by apply prefix_app_r|by left|].
  right. exists k. split; [done|]. by apply prefix_app_inv in Hp.
Qed.

(** Holding [Y] after [ds], it can go on from there. *)
Lemma balanced_app X Y ds ds' :
  balanced X ds -> Y ++ reported ds ⊆+ X ++ taken ds -> balanced Y ds' -> balanced X (ds ++ ds').
Proof.
  intros H1 HY H2 pre [Hp|(pre' & -> & Hp)]%prefix_app_cases; [by apply H1|].
  rewrite reported_app, taken_app, app_assoc. etrans; [|by apply submseteq_skips_r, HY].
  rewrite (comm app Y), <- app_assoc. by apply submseteq_skips_l, H2.
Qed.

Lemma balanced_weaken X Y ds : X ⊆+ Y -> balanced X ds -> balanced Y ds.
Proof. intros HX H pre Hp. etrans; [by apply H|by apply submseteq_skips_r]. Qed.

(** ** Programs that own calls *)

Section owns.
Context `{WorkerEnv}.

(** The program, holding [X], keeps its balance, and holds [V a] when it returns [a]. *)
Definition owns {A} (X : list filed) (p : prog A) (V : A -> list filed) : Prop :=
  forall s, wp (M := observing deals_in) s p (fun o s' => exists new, s' = s ++ new /\ balanced X new
    /\ forall a, o = Returned a -> V a ++ reported new ⊆+ X ++ taken new).

Lemma owns_ret {A} X (a : A) V : V a ⊆+ X -> owns X (Ret a) V.
Proof.
  intros Ha s. exists []. ands; [by rewrite app_nil_r|apply balanced_nil|].
  intros a' [= <-]. by rewrite !app_nil_r.
Qed.

Lemma owns_throw {A} X m (V : A -> list filed) : owns X (Throw m) V.
Proof. intros s. exists []. ands; [by rewrite app_nil_r|apply balanced_nil|done]. Qed.

(** Two stretches of a run, [Y] being held between them. *)
Lemma owns_glue {A} X Y (V : A -> list filed) ds ds' (o : outcome A) :
  balanced X ds -> Y ++ reported ds ⊆+ X ++ taken ds ->
  balanced Y ds' -> (forall a, o = Returned a -> V a ++ reported ds' ⊆+ Y ++ taken ds') ->
  balanced X (ds ++ ds') /\ forall a, o = Returned a -> V a ++ reported (ds ++ ds') ⊆+ X ++ taken (ds ++ ds').
Proof.
  intros H1 HY H2 Hv. split; [by eapply balanced_app|]. intros a Ha.
  rewrite reported_app, taken_app, (comm app (reported ds)), !app_assoc.
  etrans; [by apply submseteq_skips_r, Hv|]. etrans; [|by apply submseteq_skips_r, HY].
  by rewrite <- !app_assoc, (comm app (reported ds)).
Qed.

Lemma owns_bind {A B} X (p : prog A) (f : A -> prog B) W V :
  owns X p W -> (forall a, owns (W a) (f a) V) -> owns X (bind p f) V.
Proof.
  intros Hp Hf s. apply wp_bind. eapply wp_mono; [apply Hp|].
  intros [a|m] s' (new & -> & Hb & Hn); [|by exists new; ands].
  eapply wp_mono; [apply Hf|]. intros o s'' (new' & -> & Hb' & Hn'). exists (new ++ new').
  split; [by rewrite app_assoc|]. by eapply owns_glue; [|apply Hn| |].
Qed.

Lemma owns_do {A} X c (k : reply -> prog A) Y V :
  (forall r, balanced X (deals_in (c, r)) /\ Y r ++ reported (deals_in (c, r)) ⊆+ X ++ taken (deals_in (c, r))) ->
  (forall r, owns (Y r) (k r) V) -> owns X (Do c k) V.
Proof.
  intros Hc Hk s. split; [done|]. intros r. destruct (Hc r) as [Hb HY].
  eapply (wp_mono (M := observing deals_in)); [apply (Hk r)|].
  intros o s' (new & -> & Hb' & Hn). exists (deals_in (c, r) ++ new).
  split; [by rewrite app_assoc|]. by eapply owns_glue.
Qed.

Lemma owns_weaken {A} X X' (p : prog A) V V' :
  owns X p V -> X ⊆+ X' -> (forall a, V' a ⊆+ V a) -> owns X' p V'.
Proof.
  intros Hp HX HV s. eapply wp_mono; [apply Hp|]. intros o s' (new & -> & Hb & Hn). exists new.
  ands; [done|by eapply balanced_weaken|]. intros a Ha. etrans; [by apply submseteq_skips_r, HV|].
  etrans; [by apply Hn|]. by apply submseteq_skips_r.
Qed.

(** Calls held beside the program are held afterwards. *)
Lemma owns_frame {A} X F (p : prog A) V : owns X p V -> owns (X ++ F) p (fun a => V a ++ F).
Proof.
  intros Hp s. eapply wp_mono; [apply Hp|]. intros o s' (new & -> & Hb & Hn). exists new.
  ands; [done|eapply balanced_weaken; [|exact Hb]; by apply submseteq_inserts_r|].
  intros a Ha. rewrite (comm app (V a) F), (comm app X F), <- !app_assoc. by apply submseteq_skips_l, Hn.
Qed.

(** A call to the server that is about no call. *)
Lemma owns_plain {A} X c (k : reply -> prog A) V :
  (forall r, deals_in (c, r) = []) -> (forall r, owns X (k r) V) -> owns X (Do c k) V.
Proof.
  intros Hc Hk. apply (owns_do X c k (fun _ => X)); [|done]. intros r. rewrite Hc.
  split; [apply balanced_nil|by rewrite !app_nil_r].
Qed.

Lemma owns_transaction {A} X (p : prog A) V : owns X p V -> owns X (transaction p) V.
Proof.
  intros Hp. apply owns_plain; [done|]. intros r. eapply owns_bind; [exact Hp|].
  intros a. apply owns_plain; [done|]. intros r'. by apply owns_ret.
Qed.

(** A program without control statements passes on what it is given. *)
Lemma table_of_control (f : call_table -> bytes) sql :
  (forall tb, control_statement (f tb) = true) -> control_statement sql = false -> table_of f sql = None.
Proof.
  intros Hf Hs. destruct (table_of f sql) as [tb|] eqn:Ht; [|done].
  apply table_of_Some in Ht as ->. by rewrite Hf in Hs.
Qed.

Lemma claim_control tb : control_statement (claim_statement tb) = true.
Proof. by destruct tb. Qed.

Lemma complete_control tb : control_statement (complete_statement tb) = true.
Proof. by destruct tb. Qed.

#[local] Hint Resolve claim_control complete_control : allgres.

Lemma silent_deals sql args r : control_statement sql = false -> deals_in (Spi sql args, r) = [].
Proof. intros Hs. unfold deals_in. rewrite !table_of_control by auto with allgres. done. Qed.

Lemma owns_silent {A} X (p : prog A) Q : wp (M := silent) tt p Q -> owns X p (fun _ => X).
Proof.
  induction p as [a|m|c k IH]; [by intros; apply owns_ret|intros; apply owns_throw|].
  intros [Hc Hk]. apply owns_plain; [|by intros r; eapply IH, Hk].
  intros r. destruct c; try done. by apply silent_deals.
Qed.

Lemma owns_any {A} (p : prog A) X Q V : wp (M := silent) tt p Q -> (forall a, V a ⊆+ X) -> owns X p V.
Proof. intros Hp HV. eapply owns_weaken; [by eapply owns_silent|done|done]. Qed.

(** ** Claims make calls, completions use them up *)

(** The calls a claim's reply hands over, and the call a completion is about. *)
Definition handed (sql : bytes) (v : json) : list filed :=
  match table_of claim_statement sql with Some tb => map (pair tb) (ids_of v) | None => [] end.

Definition filed_as (sql id : bytes) : list filed :=
  match table_of complete_statement sql with Some tb => [(tb, id)] | None => [] end.

Lemma taken_took tb ids : taken (map (fun id => Took (tb, id)) ids) = map (pair tb) ids.
Proof. induction ids as [|i ids IH]; [done|]. simpl. by rewrite IH. Qed.

Lemma reported_took tb ids : reported (map (fun id => Took (tb, id)) ids) = [].
Proof. induction ids as [|i ids IH]; [done|]. exact IH. Qed.

Lemma balanced_took tb ids X : balanced X (map (fun id => Took (tb, id)) ids).
Proof.
  intros pre [k Hk]. assert (reported pre ++ reported k = []) as Hr by (rewrite <- reported_app, <- Hk; apply reported_took).
  apply app_eq_nil in Hr as [-> _]. apply submseteq_nil_l.
Qed.

Lemma owns_claim_statement sql field n :
  table_of complete_statement sql = None -> ids_of (nothing_claimed field) = [] ->
  owns [] (let* r := spi_get_json sql [AInt (Some n)] in
           Ret (default (nothing_claimed field) (ok_flatten r))) (handed sql).
Proof.
  intros Hc Hn. assert (handed sql (nothing_claimed field) = []) as Hh by (unfold handed; rewrite Hn; by case_match).
  apply (owns_do _ _ _ (fun r => taken (deals_in (Spi sql [AInt (Some n)], r)))).
  - intros r. unfold deals_in. rewrite Hc. destruct (table_of claim_statement sql) as [tb|].
    + destruct r as [[[]|]| |]; rewrite ?reported_took, ?app_nil_r; split;
        try apply balanced_nil; try apply balanced_took; done.
    + split; [apply balanced_nil|done].
  - intros r. unfold deals_in. rewrite Hc.
    destruct r as [[[b|v|x|z]|]|e|m]; cbn [bind ok_flatten default]; try apply owns_throw;
      apply owns_ret; cbn [ok_flatten default]; rewrite ?Hh; try apply submseteq_nil_l.
    unfold handed. case_match; [by rewrite taken_took|done].
Qed.

(** Behind a privilege drop. *)
Lemma owns_behind_drop {A} X (p q : prog A) V :
  owns X p V -> owns X q V -> owns X (let* dropped := drop_privileges in if negb dropped then p else q) V.
Proof.
  intros Hp Hq. eapply owns_bind; [by eapply owns_silent, drop_silent|]. by intros [].
Qed.

Lemma owns_claim sql field n :
  table_of complete_statement sql = None -> ids_of (nothing_claimed field) = [] ->
  owns [] (claim sql field n) (handed sql).
Proof.
  intros Hc Hn. apply owns_transaction, owns_behind_drop; [|by apply owns_claim_statement].
  apply owns_ret. unfold handed. rewrite Hn. by case_match.
Qed.

Lemma owns_record {A} skipped failed sql id rest (k : reply -> prog (result A)) :
  table_of claim_statement sql = None ->
  (forall r, (exists x, k r = Ret x) \/ exists m, k r = Throw m) ->
  owns (filed_as sql id) (record skipped failed (Do (Spi sql (AStr (Some id) :: rest)) k)) (fun _ => []).
Proof.
  intros Hc Hk. apply owns_transaction, owns_behind_drop.
  { apply owns_plain; [done|]. intros r. apply owns_ret, submseteq_nil_l. }
  apply (owns_do _ _ _ (fun _ => [])).
  - intros r. unfold deals_in, filed_as. rewrite Hc. destruct (table_of complete_statement sql) as [tb|].
    + split; [|done]. intros pre Hp. destruct pre as [|d pre]; [apply submseteq_nil_l|].
      apply prefix_cons_inv_1 in Hp as Hd. subst d. apply prefix_cons_inv_2, prefix_nil_inv in Hp as ->. done.
    + split; [apply balanced_nil|done].
  - intros r. apply (owns_bind _ _ _ (fun _ => [])).
    + destruct (Hk r) as [[x ->]|[m ->]]; [by apply owns_ret|apply owns_throw].
    + intros x. eapply (owns_any _ _ (fun _ _ => True)); [by destruct x|done].
Qed.

(** ** The worker's own work *)

Context (clock : nat -> Z).

Lemma owns_submit w id o : owns (filed_as (completion w) id) (submit w id o) (fun _ => []).
Proof. destruct w; apply owns_record; try done; intros [[[]|]| |]; eauto. Qed.

(** The call a claimed item stands for; a build stands for none. *)
Definition item_filed (w : local_work) (item : json) : list filed :=
  match get_str item (str "call_id") with Some id => filed_as (completion w) id | None => [] end.

Lemma runnable_filed w item id j : runnable w item = Some (id, j) -> filed_as (completion w) id ⊆+ item_filed w item.
Proof.
  unfold item_filed. destruct w; cbn [runnable]; try (intros; apply submseteq_nil_l);
    repeat case_match; intros Hr; by simplify_eq.
Qed.

Lemma owns_pump_loop w n items : owns (concat (map (item_filed w) items)) (pump_loop clock w n items) (fun _ => []).
Proof.
  revert n. induction items as [|item items IH]; intros n; [destruct w; by apply owns_ret|].
  rewrite pump_loop_cons. cbn [map concat]. destruct (runnable w item) as [[id j]|] eqn:Hr.
  - eapply owns_bind; [by eapply owns_silent, run_job_silent|]. intros o.
    set (X := concat (map (item_filed w) items)). apply (owns_bind _ _ _ (fun _ => X)); [|by intros []].
    apply (owns_weaken (filed_as (completion w) id ++ X) _ _ (fun _ => [] ++ X)); [|..|done].
    + apply (owns_frame _ X _ (fun _ => [])), owns_submit.
    + apply submseteq_skips_r. by eapply runnable_filed.
  - eapply owns_weaken; [apply IH|by apply submseteq_inserts_l|done].
Qed.

Lemma handed_items w tb items v :
  table_of complete_statement (completion w) = Some tb -> get_array v (str "calls") = Some items ->
  concat (map (item_filed w) items) = map (pair tb) (ids_of v).
Proof.
  intros Hw Hv. unfold ids_of, call_ids, claimed_calls. rewrite Hv. simpl. clear Hv.
  induction items as [|item items IH]; [done|]. cbn [map concat]. rewrite IH. unfold item_filed, filed_as.
  rewrite Hw. by destruct (get_str item (str "call_id")).
Qed.

Lemma item_filed_build w items : table_of complete_statement (completion w) = None -> concat (map (item_filed w) items) = [].
Proof.
  intros Hw. induction items as [|item items IH]; [done|]. cbn [map concat]. rewrite IH.
  unfold item_filed, filed_as. rewrite Hw. by case_match.
Qed.

(** A pump: claim, then the loop. *)
Lemma owns_local_pump w sql field :
  table_of complete_statement sql = None -> ids_of (nothing_claimed field) = [] ->
  (table_of claim_statement sql = table_of complete_statement (completion w)) ->
  (field = str "calls" \/ table_of complete_statement (completion w) = None) ->
  owns [] (let* claimed := claim sql field SQL_CLAIM_LIMIT in
           match get_array claimed field with None => Ret 0%nat | Some items => pump_loop clock w 0 items end)
    (fun _ => []).
Proof.
  intros Hc Hn Ht Hf. eapply owns_bind; [by apply owns_claim|]. intros v. unfold handed. rewrite Ht.
  destruct (get_array v field) as [items|] eqn:Hv; [|apply owns_ret, submseteq_nil_l].
  eapply owns_weaken; [apply owns_pump_loop| |done].
  destruct (table_of complete_statement (completion w)) as [tb|] eqn:Hw; [|by rewrite item_filed_build].
  destruct Hf as [->|Hf]; [|done]. by erewrite handed_items.
Qed.

Lemma owns_pump_sql : owns [] pump_sql (fun _ => []).
Proof. apply (owns_local_pump Sql_calls); try done; by left. Qed.

Lemma owns_pump_function_builds : owns [] (pump_function_builds clock) (fun _ => []).
Proof. apply (owns_local_pump Function_builds); try done; by right. Qed.

Lemma owns_pump_function_calls : owns [] pump_function_calls (fun _ => []).
Proof. apply (owns_local_pump Function_calls); try done; by left. Qed.

Lemma owns_pump_procedure_builds : owns [] (pump_procedure_builds clock) (fun _ => []).
Proof. apply (owns_local_pump Procedure_builds); try done; by right. Qed.

Lemma owns_pump_procedure_calls : owns [] pump_procedure_calls (fun _ => []).
Proof. apply (owns_local_pump Procedure_calls); try done; by left. Qed.
End owns.

(** ** A turn of the loop *)

Definition queue_table (q : OutboundQueue) : call_table :=
  match q with
  | Outbound => outbound_calls
  | Oauth => oauth_calls
  | AgentEmbedding => embedding_calls
  | ProviderProbe => provider_probes
  end.

(** The call of a job, of a result, of an entry of the pool. *)
Definition filed_call (c : bytes * OutboundQueue) : filed := (queue_table c.2, c.1).
Definition job_filed (j : OutboundJob) : filed := filed_call (job_call j).
Definition result_filed (r : OutboundResult) : filed := filed_call (result_call r).

Section turn.
Context `{WorkerEnv} `{SerdeJson}.

Lemma dashboard_rpc_silent body : wp (M := silent) tt (dashboard_rpc body) (fun _ _ => True).
Proof.
  apply (wp_transaction (M := silent)); [done|]. intros r. apply (wp_bind (M := silent)).
  eapply (wp_mono (M := silent)); [apply drop_silent|]. intros [[]|m] []; [|done..].
  cbn [negb]. split; [done|]. by intros [[[]|]| |].
Qed.

Lemma serve_rpc_silent rdy ss : wp (M := silent) tt (serve_rpc rdy ss) (fun _ _ => True).
Proof.
  induction ss as [|s ss IH]; [done|]. apply (wp_bind (M := silent)).
  eapply (wp_mono (M := silent) _ (fun _ _ => True)); [|by intros [] []].
  destruct s as [data|]; [|done]. unfold handle_rpc_stream. destruct (_ && _), rdy; try done.
  apply dashboard_rpc_silent.
Qed.

Lemma installed_silent : wp (M := silent) tt extension_is_installed (fun _ _ => True).
Proof. split; [done|]. intros r. split; [done|]. by intros [[[]|]| |]. Qed.

Lemma propagate_silent ids : wp (M := silent) tt (propagate_outbound_cancellations ids) (fun _ _ => True).
Proof.
  destruct ids as [|i ids]; [done|]. apply (wp_transaction (M := silent)); [done|]. intros r.
  apply (wp_bind (M := silent)). eapply (wp_mono (M := silent)); [apply drop_silent|]. intros [[]|m] []; [|done..].
  cbn [negb]. split; [done|]. by intros [[[]|]| |].
Qed.

Lemma owns_submit_result r : owns [result_filed r] (submit_result r) (fun _ => []).
Proof.
  unfold result_filed, filed_call, submit_result. destruct r as [i q st b]. simpl.
  destruct q; (apply owns_record; [done|]); intros [[[]|]| |]; eauto.
Qed.

Lemma owns_harvest n rs : owns (map result_filed rs) (harvest n rs) (fun _ => []).
Proof.
  revert n. induction rs as [|r rs IH]; intros n; [by apply owns_ret|]. cbn [harvest map].
  apply (owns_bind _ _ _ (fun _ => map result_filed rs)); [|by intros []].
  apply (owns_frame [result_filed r] _ _ (fun _ => [])), owns_submit_result.
Qed.

(** The jobs sent are among the calls claimed. *)
Lemma enqueue_filed q kind open cs :
  map job_filed (enqueue q kind open cs)
  `sublist_of` map (pair (queue_table q)) (filter_map id (map (fun c => get_str c (str "call_id")) cs)).
Proof.
  induction cs as [|c cs IH]; [done|]. cbn [enqueue map].
  destruct (get_str c (str "call_id")) as [i|] eqn:Hi; [|exact IH].
  change (filter_map id (Some i :: ?l)) with (i :: filter_map id l).
  destruct (valid_uuid i); cbn [negb]; [|by apply sublist_cons]. destruct open; cbn [negb]; [|apply sublist_nil_l].
  by apply sublist_skip.
Qed.

Lemma owns_dispatch n : owns [] (dispatch_and_claim n) (handed CLAIM_OUTBOUND).
Proof.
  apply owns_transaction, owns_behind_drop; [by apply owns_ret|].
  do 2 (apply (owns_bind _ _ _ (fun _ => []));
    [eapply (owns_any _ _ (fun _ _ => True)); [split; [done|]; by intros [[[]|]| |]|done]|intros []]).
  by apply owns_claim_statement.
Qed.

Lemma owns_pump_queue rdy open q kind claim_jobs n :
  (forall m, owns [] (claim_jobs m) (handed (claim_statement (queue_table q)))) ->
  owns [] (pump_queue rdy open q kind claim_jobs n) (map job_filed).
Proof.
  intros Hc. unfold pump_queue. destruct (rdy && _); [|by apply owns_ret].
  eapply owns_bind; [apply Hc|]. intros v. apply owns_ret.
  destruct (get_array v (str "calls")) as [cs|] eqn:Hv; [|apply submseteq_nil_l].
  apply sublist_submseteq. etrans; [apply enqueue_filed|]. unfold handed, ids_of, call_ids, claimed_calls. rewrite Hv.
  by destruct q.
Qed.

(** Keeping what is held while one more part of the pump runs. *)
Lemma owns_also {A B} X (p : prog A) (f : A -> prog B) W V :
  owns [] p W -> (forall a, owns (X ++ W a) (f a) V) -> owns X (bind p f) V.
Proof.
  intros Hp Hf. eapply owns_bind; [|exact Hf].
  eapply owns_weaken; [exact (owns_frame [] X _ _ Hp)|done|]. intros a. by rewrite (comm app).
Qed.

Lemma owns_when c p : owns [] p (fun _ => []) -> owns [] (when c p) (fun _ => []).
Proof. intros Hp. destruct c; [done|by apply owns_ret]. Qed.

#[local] Hint Resolve owns_pump_function_builds owns_pump_procedure_builds : custody.
#[local] Hint Extern 1 (owns [] pump_sql _) => exact (owns_pump_sql (fun _ => 0%Z)) : custody.
#[local] Hint Extern 1 (owns [] pump_function_calls _) => exact (owns_pump_function_calls (fun _ => 0%Z)) : custody.
#[local] Hint Extern 1 (owns [] pump_procedure_calls _) => exact (owns_pump_procedure_calls (fun _ => 0%Z)) : custody.

Lemma owns_pump ls t n : owns [] (pump ls t n) (fun r => map job_filed r.2).
Proof.
  eapply owns_also; [eapply owns_silent, installed_silent|]. intros rdy.
  eapply owns_also; [apply owns_pump_queue; intros; apply owns_dispatch|]. intros j1.
  do 3 (eapply owns_also; [apply owns_pump_queue; intros; by apply owns_claim|]; intros ?).
  do 5 (eapply owns_also; [apply owns_when; auto with custody|]; intros ?).
  cbv zeta. destruct (reschedule _ _ _) as [next idle]. apply owns_ret. cbn [snd]. rewrite !map_app.
  by rewrite !app_nil_r, <- !app_assoc.
Qed.

Lemma owns_loop_turn ls ids t : owns (map result_filed (results t)) (loop_turn ls ids t) (fun r => map job_filed r.2).
Proof.
  eapply owns_bind; [eapply owns_silent, serve_rpc_silent|]. intros [].
  eapply owns_bind; [apply owns_harvest|]. intros n.
  eapply owns_bind; [eapply owns_silent, propagate_silent|]. intros lost.
  destruct (_ <? _)%Z; [by apply owns_ret|].
  eapply owns_bind; [apply owns_pump|]. intros r. by apply owns_ret.
Qed.
End turn.

(** ** Whole lifetimes *)

Lemma owns_run `{WorkerEnv} {A} db h X (p : prog A) V t o :
  owns X p V -> run db h p = (t, o) ->
  balanced X (deals t) /\ forall a, o = Returned a -> V a ++ reported (deals t) ⊆+ X ++ taken (deals t).
Proof.
  intros Hp Hr. destruct (wp_run (M := observing deals_in) db p _ [] h (Hp [])) as [_ (new & Hs & Hn)].
  rewrite Hr in Hs, Hn. rewrite observing_after in Hs. cbn [fst snd app] in *. by subst new.
Qed.

(** The pool holds calls taken and not reported yet. *)
Record custody (s : Sys) : Prop := {
  custody_pool : map filed_call (pool_calls (s_pool s)) ++ reported (deals (s_trace s)) ⊆+ taken (deals (s_trace s));
  custody_balanced : balanced [] (deals (s_trace s))
}.

Lemma deals_app t t' : deals (t ++ t') = deals t ++ deals t'.
Proof. apply observed_app. Qed.

Lemma custody_start s now threads : balanced [] (deals s) -> custody (sys_start s now threads).
Proof.
  intros Hb. split; [|done]. simpl. rewrite pool_calls_init. by apply Hb.
Qed.

(** A turn from a pool from which the results it harvests have come. *)
Lemma custody_turn `{WorkerEnv} `{SerdeJson} db s t ids tr o es1 p1 :
  custody s -> pool_run (s_pool s) es1 p1 -> receives es1 = results t -> sends es1 = [] ->
  run db (s_trace s) (loop_turn (s_loop s) ids t) = (tr, o) ->
  balanced [] (deals (s_trace s ++ tr))
  /\ forall r, o = Returned r ->
       (map filed_call (pool_calls p1) ++ map job_filed r.2) ++ reported (deals (s_trace s ++ tr))
       ⊆+ taken (deals (s_trace s ++ tr)).
Proof.
  intros [Hp Hb] H1 Hr Hs Hrun. apply pool_run_conserves in H1. rewrite Hr, Hs, app_nil_r in H1.
  apply (fmap_Permutation filed_call) in H1. rewrite fmap_app in H1. unfold fmap in H1.
  change (list_fmap ?A ?B ?f ?l) with (map f l) in H1. rewrite map_map in H1. fold result_filed in H1.
  pose proof (owns_run _ _ _ _ _ _ _ (owns_loop_turn (s_loop s) ids t) Hrun) as Ho.
  rewrite deals_app. rewrite H1 in Hp.
  destruct Ho as [Hbt Ho]. split.
  - eapply (balanced_app [] (map result_filed (results t))); [done| |done]. etrans; [|exact Hp].
    apply submseteq_skips_r. by apply submseteq_inserts_r.
  - intros r Hret. specialize (Ho r Hret). rewrite reported_app, taken_app.
    etrans; [|by apply submseteq_skips_r, Hp]. 
    rewrite <- !app_assoc, (Permutation_app_swap_app (map result_filed _)). apply submseteq_skips_l.
    rewrite (comm app (reported (deals (s_trace s)))), app_assoc.
    etrans; [by apply submseteq_skips_r, Ho|]. by rewrite <- !app_assoc, (comm app (taken _)).
Qed.

Lemma custody_step `{WorkerEnv} `{SerdeJson} db threads s s' : sys_step db threads s s' -> custody s -> custody s'.
Proof.
  intros Hs Hc. destruct Hs as [s t tr ls' lost jobs es1 p1 es2 p2 es3 p3 H1 Hr1 Hs1 _ Hrun H2 Hr2 Hs2 _ H3 Hr3 Hs3 _
                               |s t tr m now es1 p1 H1 Hr1 Hs1 _ Hrun|s now].
  - destruct (custody_turn _ _ _ _ _ _ _ _ Hc H1 Hr1 Hs1 Hrun) as [Hb Ho]. split; [|done].
    specialize (Ho _ eq_refl). cbn [s_pool s_trace snd] in *.
    apply pool_run_conserves in H2, H3. rewrite Hr2, Hs2, app_nil_r in H2.
    rewrite sends_cons, receives_cons in H3. cbn [sends receives omap list_omap app] in H3.
    rewrite Hr3, Hs3 in H3. cbn [map app] in H2, H3. rewrite <- H2 in H3. rewrite <- H3, map_app, map_map. exact Ho.
  - apply custody_start. by destruct (custody_turn _ _ _ _ _ _ _ _ Hc H1 Hr1 Hs1 Hrun).
  - apply custody_start, Hc.
Qed.

Lemma custody_reach `{WorkerEnv} `{SerdeJson} db threads now s :
  rtc (sys_step db threads) (sys_start [] now threads) s -> custody s.
Proof.
  intros Hr. eapply (rtc_ind_r custody (sys_start [] now threads)); [apply custody_start, balanced_nil| |exact Hr].
  intros s1 s2 _. apply custody_step.
Qed.

(** What the worker takes, the control plane has on record. *)
Lemma taken_recorded P c r es P' : answers P c r es P' -> map snd (taken (deals_in (c, r))) `sublist_of` claims es.
Proof.
  intros Ha. destruct Ha as [P tb n open now v Hv|P tb i rest now P' acc v Hc|P ids lost Hl|P n locked expired now v
                            |P sql args e|P sql args m|P c r Hn]; unfold deals_in.
  - assert (table_of claim_statement (claim_statement tb) = Some tb) as -> by by destruct tb.
    unfold ids_of. rewrite Hv, filter_map_Some, taken_took, map_map, claims_map. simpl. by rewrite map_id.
  - assert (table_of claim_statement (complete_statement tb) = None) as -> by by destruct tb.
    repeat case_match; apply sublist_nil_l.
  - done.
  - done.
  - repeat case_match; apply sublist_nil_l.
  - repeat case_match; apply sublist_nil_l.
  - destruct c as [sql args| | | | | | | | | | | | |]; try apply sublist_nil_l. specialize (Hn _ _ eq_refl).
    destruct (table_of claim_statement sql) as [tb|] eqn:Ht.
    + apply table_of_Some in Ht as ->. by rewrite about_claim in Hn.
    + repeat case_match; apply sublist_nil_l.
Qed.

Lemma run_taken P t es P' : plane_run P t es P' -> map snd (taken (deals t)) `sublist_of` claims es.
Proof.
  induction 1 as [P|P es1 P1 t es2 P2 _ _ IH|P c r es1 P1 t es2 P2 Ha _ IH]; [done|..]; rewrite claims_app.
  - by apply sublist_inserts_l.
  - change (deals ((c, r) :: t)) with (deals_in (c, r) ++ deals t). rewrite taken_app, map_app.
    apply sublist_app; [by eapply taken_recorded|done].
Qed.

(** C7: every call is reported at most once, after it was taken, by who holds it.  Over
    the worker's lifetimes against the control plane, any number of turns, restarts and
    deaths: no two completions the worker issues, to any of the seven tables and by
    whatever process, are about one call, and none is about a call still in the pool;
    and at every moment the completions issued so far are about calls that claims of
    the same table have handed out by then, so no result is ever filed under another
    table or made up. *)
Theorem results_reported_once `{WorkerEnv} `{SerdeJson} db threads now s es P :
  rtc (sys_step db threads) (sys_start [] now threads) s ->
  plane_run plane_init (s_trace s) es P ->
  NoDup (map fst (pool_calls (s_pool s)) ++ map snd (reported (deals (s_trace s))))
  /\ (forall pre post, s_trace s = pre ++ post -> reported (deals pre) ⊆+ taken (deals pre)).
Proof.
  intros Hr Hp. destruct (custody_reach _ _ _ _ Hr) as [Hc Hb]. split.
  - assert (NoDup (map snd (taken (deals (s_trace s))))) as Hn.
    { eapply sublist_NoDup; [|by eapply run_taken]. apply one_life_claims, (rec_lives es P), (plane_run_recorded _ _ _ Hp). }
    apply (fmap_submseteq snd) in Hc. change (list_fmap ?A ?B ?f ?l) with (map f l) in Hc. unfold fmap in Hc.
    change (list_fmap ?A ?B ?f ?l) with (map f l) in Hc. rewrite map_app, map_map in Hc. cbn [snd filed_call] in Hc.
    apply submseteq_Permutation in Hc as [k Hk]. rewrite Hk in Hn. by apply list.NoDup_app in Hn as [? _].
  - intros pre post Ht. apply (Hb (deals pre)). rewrite Ht, deals_app. by apply prefix_app_r.
Qed.

(** ** The sample lifetime, with its result harvested *)

#[local] Instance plain_env : WorkerEnv := {| env_drop_privileges := None |}.
#[local] Existing Instance tiny_json.

Definition cp_turn3 : trace :=
  (cp_turn (cp_trace1 ++ cp_trace2) loop1 (registered pool3) turn3).1.
Definition cp_s3 : Sys :=
  mk_sys ((cp_trace1 ++ cp_trace2) ++ cp_turn3) loop3 pool3 [sample_job] [sample_result] events3 [].

Lemma cp_turn3_run :
  cp_turn (cp_trace1 ++ cp_trace2) loop1 (registered pool3) turn3 = (cp_turn3, Returned (loop3, [], [])).
Proof. vm_compute. reflexivity. Qed.

Lemma cp_step3 : sys_step (serving sample_plane) 1 cp_s2 cp_s3.
Proof.
  refine (sys_turn (serving sample_plane) 1 cp_s2 turn3 cp_turn3 loop3 [] []
            [Dropped sample_agent; Completed; Received sample_result] pool3 [] pool3 [] pool3
            _ eq_refl eq_refl eq_refl cp_turn3_run (pool_done _) eq_refl eq_refl eq_refl
            _ eq_refl eq_refl eq_refl).
  - eapply pool_more; [by eapply (pool_drop _ 0 sample_job guard1 200 (str "ok"))|].
    eapply pool_more; [by eapply (pool_finish _ 0 sample_result)|].
    eapply pool_more; [by eapply pool_recv|]. apply pool_done.
  - eapply pool_more; [apply pool_mark|]. apply pool_done.
Qed.

Lemma cp_reach3 : rtc (sys_step (serving sample_plane) 1) sample_s0 cp_s3.
Proof. eapply rtc_r; [exact cp_reach|exact cp_step3]. Qed.

Lemma results_reported_once_witness :
  reported (deals (s_trace cp_s3)) = [(outbound_calls, sample_agent)]
  /\ reported (deals (s_trace cp_s3)) ⊆+ taken (deals (s_trace cp_s3)).
Proof.
  destruct (serving_lifetime sample_plane 1 0 cp_s3 cp_reach3) as [es Hes].
  destruct (results_reported_once (serving sample_plane) 1 0 cp_s3 es _ cp_reach3
    (plane_run_prepared _ _ _ _ _ sample_plane_reached Hes)) as [_ H].
  split; [vm_compute; reflexivity|]. apply (H (s_trace cp_s3) []). symmetry. apply app_nil_r.
Defined.
