(* ===== verification/JobOrigin.v ===== *)
(** * Where the jobs of the pool come from

    Every job a thread performs is a call object of a reply the process got to a claim,
    with nothing changed but the [kind] its queue demands.  So what the control plane
    queued decides what the thread may do, and the address guard of [Outbound.v] holds
    over whole lifetimes. *)

From stdpp Require Import relations.
From S2P Require Import Prelude RustStr Net Json Spi Privilege Sandbox Outbound Pool RuntimeWorker System JobTypes.
From S2P Require Import CallTables ControlPlane CallCustody.

#[local] Arguments str : simpl never.

(** The call objects the claims of a trace handed out, by table. *)
Definition handed_out (cr : call * reply) : list (call_table * json) :=
  match cr with
  | (Spi sql _, Done (Some (DJson v))) =>
    match table_of claim_statement sql with Some tb => map (pair tb) (claimed_calls v) | None => [] end
  | _ => []
  end.

(** A job made from one of them. *)
Definition from_claims (given : list (call_table * json)) (j : OutboundJob) : Prop :=
  exists c, (queue_table (j_queue j), c) ∈ given /\ get_str c (str "call_id") = Some (j_id j)
    /\ j_call j = with_kind (forced_kind (j_queue j)) c.

Lemma from_claims_mono l l' js : l ⊆ l' -> Forall (from_claims l) js -> Forall (from_claims l') js.
Proof. intros Hl. apply Forall_impl. intros j (c & Hc & Hj). exists c. split; [by apply Hl|done]. Qed.

Section turn.
Context `{WorkerEnv} `{SerdeJson}.

Definition yields (tb : call_table) (v : json) (new : list (call_table * json)) : Prop :=
  map (pair tb) (claimed_calls v) ⊆ new.

Lemma subseteq_after {A} (l new new' : list A) : l ⊆ new -> l ⊆ new' ++ new.
Proof. intros Hl x Hx. apply elem_of_app. right. by apply Hl. Qed.

Lemma handed_control c r : (forall sql args, c <> Spi sql args) -> handed_out (c, r) = [].
Proof. intros Hc. destruct c as [sql args| | | | | | | | | | | | |]; [by destruct (Hc sql args)|done..]. Qed.

Lemma nothing_yields tb new : yields tb (nothing_claimed (str "calls")) new.
Proof. by intros x ?%not_elem_of_nil. Qed.

Lemma claim_statement_yields tb n :
  gains handed_out (let* r := spi_get_json (claim_statement tb) [AInt (Some n)] in
                    Ret (default (nothing_claimed (str "calls")) (ok_flatten r))) (yields tb).
Proof.
  assert (table_of claim_statement (claim_statement tb) = Some tb) as Ht by by destruct tb.
  apply gains_do. intros [[[b|v|s|z]|]|e|m]; cbn [bind]; try apply gains_throw;
    apply gains_ret; cbn [handed_out ok_flatten default]; rewrite ?Ht, app_nil_r; try apply nothing_yields.
  by unfold yields.
Qed.

Lemma claim_yields tb n : gains handed_out (claim (claim_statement tb) (str "calls") n) (yields tb).
Proof.
  apply gains_transaction; [apply handed_control|].
  apply gains_after; [intros; by apply subseteq_after|].
  intros []; cbn [negb]; [apply claim_statement_yields|apply gains_ret, nothing_yields].
Qed.

Lemma dispatch_yields n : gains handed_out (dispatch_and_claim n) (yields outbound_calls).
Proof.
  apply gains_transaction; [apply handed_control|].
  apply gains_after; [intros; by apply subseteq_after|].
  intros []; cbn [negb]; [|apply gains_ret, nothing_yields].
  do 2 (apply gains_after; [intros; by apply subseteq_after|]; intros []).
  apply (claim_statement_yields outbound_calls).
Qed.

Lemma enqueue_origin q open cs given :
  map (pair (queue_table q)) cs ⊆ given -> Forall (from_claims given) (enqueue q (forced_kind q) open cs).
Proof.
  induction cs as [|c cs IH]; [done|]. cbn [enqueue map]. intros Hg.
  assert (map (pair (queue_table q)) cs ⊆ given) as Hcs by (intros x Hx; apply Hg; by right).
  destruct (get_str c (str "call_id")) as [i|] eqn:Hi; [|auto].
  destruct (valid_uuid i); cbn [negb]; [|auto]. destruct open; cbn [negb]; [|done].
  constructor; [|auto]. exists c. ands; [apply Hg; left|done|done].
Qed.

Lemma pump_queue_origin rdy open q claim_jobs n :
  (forall m, gains handed_out (claim_jobs m) (yields (queue_table q))) ->
  gains handed_out (pump_queue rdy open q (forced_kind q) claim_jobs n) (fun js new => Forall (from_claims new) js).
Proof.
  intros Hc. unfold pump_queue. destruct (rdy && _); [|by apply gains_ret].
  eapply gains_bind; [apply Hc|]. intros v new Hv. apply gains_ret. rewrite app_nil_r.
  destruct (get_array v (str "calls")) as [cs|] eqn:Hcs; [|done].
  apply enqueue_origin. unfold yields, claimed_calls in Hv. by rewrite Hcs in Hv.
Qed.

Lemma pump_origin ls t n : gains handed_out (pump ls t n) (fun r new => Forall (from_claims new) r.2).
Proof.
  apply gains_after; [intros b new new'; apply from_claims_mono; by apply subseteq_after|]. intros rdy.
  eapply gains_bind; [apply (pump_queue_origin _ _ Outbound); intros; apply dispatch_yields|]. intros j1 new1 H1.
  eapply gains_bind; [apply (pump_queue_origin _ _ Oauth); intros; apply (claim_yields oauth_calls)|]. intros j2 new2 H2.
  eapply gains_bind; [apply (pump_queue_origin _ _ AgentEmbedding); intros; apply (claim_yields embedding_calls)|]. intros j3 new3 H3.
  eapply gains_bind; [apply (pump_queue_origin _ _ ProviderProbe); intros; apply (claim_yields provider_probes)|]. intros j4 new4 H4.
  do 5 (eapply gains_bind; [apply gains_any|]; intros ? ? _).
  cbv zeta. destruct (reschedule _ _ _) as [next idle]. apply gains_ret. cbn [snd].
  cbv beta in *. rewrite !Forall_app. split_and!; (eapply from_claims_mono; [|eassumption]); set_solver.
Qed.

Lemma loop_turn_origin ls ids t : gains handed_out (loop_turn ls ids t) (fun r new => Forall (from_claims new) r.2).
Proof.
  do 3 (apply gains_after; [intros b new new'; apply from_claims_mono; by apply subseteq_after|]; intros ?).
  destruct (_ <? _)%Z; [by apply gains_ret|].
  eapply gains_bind; [apply pump_origin|]. intros r new Hr. apply gains_ret. by rewrite app_nil_r.
Qed.
End turn.

(** ** Whole lifetimes *)

Lemma handed_out_elem t tb c :
  (tb, c) ∈ observed handed_out t ->
  exists args v, let answered := (Spi (claim_statement tb) args, Done (Some (DJson v))) in
    answered ∈ t /\ (tb, c) ∈ handed_out answered.
Proof.
  unfold observed. induction t as [|cr t IH]; [by intros ?%not_elem_of_nil|]. cbn [map concat].
  intros [Hin|Hin]%elem_of_app; [|destruct (IH Hin) as (args & v & Ht & Hc); exists args, v; split; [by right|done]].
  destruct cr as [[sql args| | | | | | | | | | | | |] r]; try by apply not_elem_of_nil in Hin.
  destruct r as [[[b|v|x|z]|]|e|m]; try by apply not_elem_of_nil in Hin.
  pose proof Hin as Hin'. cbn [handed_out] in Hin'.
  destruct (table_of claim_statement sql) as [tb'|] eqn:Ht; [|by apply not_elem_of_nil in Hin'].
  apply table_of_Some in Ht as ->. apply list_elem_of_fmap in Hin' as (c' & [= -> ->] & Hc).
  exists args, v. split; [left|done].
Qed.

(** The jobs in the pool come from claims of this process. *)
Definition origin (s : Sys) : Prop :=
  s_trace s = s_born s ++ since_birth s /\ pool_all (from_claims (observed handed_out (since_birth s))) (s_pool s).

Lemma origin_start h now threads : origin (sys_start h now threads).
Proof. split; [unfold since_birth; simpl; by rewrite drop_all, app_nil_r|apply pool_start_all]. Qed.

Lemma origin_step `{WorkerEnv} `{SerdeJson} db threads s s' : sys_step db threads s s' -> origin s -> origin s'.
Proof.
  intros Hs [Hb Hp].
  destruct Hs as [s t tr ls' lost jobs es1 p1 es2 p2 es3 p3 H1 _ Hs1 _ Hrun H2 _ Hs2 _ H3 _ Hs3 _| |]; [|apply origin_start..].
  pose proof (gains_run _ _ _ _ _ _ _ (loop_turn_origin (s_loop s) (registered p1) t) Hrun) as Hj. cbn [snd] in Hj.
  unfold origin, since_birth. cbn [s_trace s_born s_pool]. rewrite (since_birth_app s tr Hb). split.
  { by rewrite app_assoc, <- Hb. }
  rewrite observed_app. eapply turn_pool_all; [exact H1|done|exact H2|done|exact H3| |].
  - rewrite Hs3. eapply from_claims_mono; [|exact Hj]. set_solver.
  - destruct Hp as [Hw Ht]. split; (eapply from_claims_mono; [|eassumption]); set_solver.
Qed.

Lemma with_kind_get k c f : f <> str "kind" -> get (with_kind k c) f = get c f.
Proof.
  intros Hf. destruct k as [k|]; [|done]. destruct c as [| | | | | |m]; try done. unfold with_kind, get.
  by rewrite obj_get_insert_ne.
Qed.

(** C3: no server-side request forgery, over whole lifetimes.  Any number of turns and
    restarts, against every server: when a thread of the pool performs a call, that
    call is an object some claim of this process was answered with, on the statement of
    the call's own queue, filed under the id it carries there and changed in nothing but
    the [kind] its queue demands; its URL is [http] or [https]; and whatever name the
    URL carries and whatever the resolver answers for it, the thread connects to an
    address in the blocked ranges only if that object came with [allow_private] set. *)
Theorem worker_never_dials_blocked `{WorkerEnv} `{SerdeJson} `{C : HttpClient} `{!HttpClientLaws C}
    db threads now s i j g a :
  rtc (sys_step db threads) (sys_start [] now threads) s ->
  workers (s_pool s) !! i = Some (Performing j g) ->
  a ∈ (perform_call (j_call j)).1 ->
  exists args v c, let answered := (Spi (claim_statement (queue_table (j_queue j))) args, Done (Some (DJson v))) in
    answered ∈ since_birth s /\ (queue_table (j_queue j), c) ∈ handed_out answered
    /\ get_str c (str "call_id") = Some (j_id j)
    /\ j_call j = with_kind (forced_kind (j_queue j)) c
    /\ (exists url, get_str c (str "url") = Some url /\ scheme_allowed url = true)
    /\ (is_blocked_ip (ip a) = true -> get_bool c (str "allow_private") = Some true).
Proof.
  intros Hr Hi Ha. assert (origin s) as [_ [_ Hp]].
  { eapply (rtc_ind_r origin (sys_start [] now threads)); [apply origin_start| |exact Hr].
    intros s1 s2 _. apply origin_step. }
  destruct (omap_lookup_Forall _ thread_job _ _ _ _ Hi eq_refl Hp) as (c & Hc & Hid & Hj).
  apply handed_out_elem in Hc as (args & v & Ht & Hc). exists args, v, c. cbv zeta. ands; [done..| |].
  - destruct (perform_call_never_dials_blocked _ _ Ha) as [(url & Hu & Hs) _]. exists url.
    unfold get_str in Hu. by rewrite Hj, with_kind_get in Hu by discriminate.
  - intros Hb. destruct (perform_call_never_dials_blocked _ _ Ha) as [_ Hn].
    destruct (get_bool c (str "allow_private") == Some true) eqn:He; [by breflect|]. breflect.
    rewrite Hn in Hb; [done|]. unfold get_bool in *. by rewrite Hj, with_kind_get by discriminate.
Qed.

(** ** A sample lifetime *)

#[local] Instance plain_env : WorkerEnv := {| env_drop_privileges := None |}.
#[local] Existing Instance tiny_json.
#[local] Existing Instance sample_client.

(** A server with one call to hand out, to a host with a public address. *)
Definition fetch_call : json :=
  jobj [(str "call_id", JStr sample_agent); (str "url", JStr (str "https://api.example.com/v1"))].
Definition fetch_job : OutboundJob := mk_job sample_agent Outbound fetch_call.

Definition fetch_db : server := fun h c =>
  match c with
  | Spi sql _ =>
    if sql == CLAIM_OUTBOUND then Done (Some (DJson (jobj [(str "calls", JArr [fetch_call])])))
    else if sql == EXTENSION_INSTALLED then Done (Some (DBool true))
    else obliging h c
  | _ => Done None
  end.

Definition fetch_turn (h : trace) (ls : LoopState) (ids : list bytes) (t : Turn) := run fetch_db h (loop_turn ls ids t).
Definition fetch_trace1 : trace := (fetch_turn [] (loop_init 0) [] turn1).1.
Definition fetch_trace2 : trace := (fetch_turn fetch_trace1 loop1 [sample_agent] turn2).1.
Definition fetch_pool1 : Pool := mk_pool [fetch_job] [Idle] [] OUTBOUND_CANCEL_FLAGS_init.
Definition fetch_pool2 : Pool := mk_pool [] [Performing fetch_job guard1] [] flags1.
Definition fetch_s1 : Sys :=
  mk_sys fetch_trace1 loop1 fetch_pool1 [fetch_job] [] [Marked []; Sent fetch_job] [].
Definition fetch_s2 : Sys :=
  mk_sys (fetch_trace1 ++ fetch_trace2) loop1 fetch_pool2 [fetch_job] []
    [Marked []; Sent fetch_job; Taken; Registered sample_agent; Marked []] [].

Lemma fetch_turn1 :
  run fetch_db (s_trace sample_s0) (loop_turn (s_loop sample_s0) (registered (spawn_http_pool 1)) turn1) = (fetch_trace1, Returned (loop1, [], [fetch_job])).
Proof. vm_compute. reflexivity. Qed.

Lemma fetch_turn2 :
  run fetch_db (s_trace fetch_s1) (loop_turn (s_loop fetch_s1) (registered fetch_pool2) turn2) = (fetch_trace2, Returned (loop1, [], [])).
Proof. vm_compute. reflexivity. Qed.

Lemma fetch_step1 : sys_step fetch_db 1 sample_s0 fetch_s1.
Proof.
  eapply sys_step_eq; [|vm_compute; reflexivity].
  refine (sys_turn fetch_db 1 sample_s0 turn1 fetch_trace1 loop1 [] [fetch_job]
            [] (spawn_http_pool 1) [] (spawn_http_pool 1) [Sent fetch_job] fetch_pool1
            (pool_done _) eq_refl eq_refl eq_refl fetch_turn1 (pool_done _) eq_refl eq_refl eq_refl
            _ eq_refl eq_refl eq_refl).
  eapply pool_more; [apply pool_mark|]. eapply pool_more; [apply pool_send|]. apply pool_done.
Qed.

Lemma fetch_step2 : sys_step fetch_db 1 fetch_s1 fetch_s2.
Proof.
  eapply sys_step_eq; [|vm_compute; reflexivity].
  refine (sys_turn fetch_db 1 fetch_s1 turn2 fetch_trace2 loop1 [] []
            [Taken; Registered sample_agent] fetch_pool2 [] fetch_pool2 [] fetch_pool2
            _ eq_refl eq_refl eq_refl fetch_turn2 (pool_done _) eq_refl eq_refl eq_refl
            _ eq_refl eq_refl eq_refl).
  - eapply pool_more; [by eapply (pool_take _ fetch_job [] 0)|].
    eapply pool_more; [by eapply (pool_register _ 0 fetch_job)|]. apply pool_done.
  - eapply pool_more; [apply pool_mark|]. apply pool_done.
Qed.

(** The thread connects to the public address. *)
Lemma worker_never_dials_blocked_witness :
  exists a, a ∈ (perform_call (j_call fetch_job)).1 /\ is_blocked_ip (ip a) = false.
Proof.
  exists (mk_addr (V4 x08 x08 x08 x08) 443).
  assert (mk_addr (V4 x08 x08 x08 x08) 443 ∈ (perform_call (j_call fetch_job)).1) as Ha by (left).
  split; [exact Ha|].
  destruct (worker_never_dials_blocked fetch_db 1 0 fetch_s2 0 fetch_job guard1 _
    (rtc_l _ _ _ _ fetch_step1 (rtc_once _ _ fetch_step2)) eq_refl Ha)
    as (args & v & c & _ & _ & _ & Hj & _ & Hb).
  destruct (is_blocked_ip _) eqn:He; [|reflexivity]. specialize (Hb eq_refl).
  change (fetch_call = c) in Hj. subst c. discriminate Hb.
Defined.
