(* ===== verification/RuntimeMain.v ===== *)
(** * The runtime worker's process

    How [allgres_runtime_main] of [src/runtime_worker.rs] starts and ends around its
    main loop ([System.v]): it binds the RPC socket or gives up, and removes it when the
    loop is over. *)

From S2P Require Import Prelude RustStr Config WebAuth Web.

#[local] Arguments str : simpl never.

Section main.
Context (env : environment) (data_dir : option bytes) (temp_dir : bytes).

(** The worker gives up with a warning where the socket cannot be bound or not be made
    non-blocking, and the loop runs otherwise. *)
Inductive main_start :=
| Bind_failed
| Nonblocking_failed (fs : FileSystem)
| Serving (fs : FileSystem).

Definition runtime_main_start (fs : FileSystem) (set_nonblocking : bool) : main_start :=
  match bind_rpc_socket fs (socket_dir env data_dir temp_dir) with
  | None => Bind_failed
  | Some fs' => if set_nonblocking then Serving fs' else Nonblocking_failed fs'
  end.

(** After the loop. *)
Definition runtime_main_stop (fs : FileSystem) : FileSystem :=
  remove_file fs (rpc_socket_path env data_dir temp_dir).
End main.

(** ** What a bound socket is good for *)

Record bound (fs : FileSystem) (dir : bytes) : Prop := {
  bound_dir : exists mode, entries fs !! dir = Some (Directory mode) /\ Z.land mode 63 = 0%Z;
  bound_socket : entries fs !! join dir (str "runtime.sock") = Some (SocketFile 384);
  bound_allowed : denied fs (join dir (str "runtime.sock")) = false
}.

Lemma socket_path_ne dir : dir <> join dir (str "runtime.sock").
Proof. intros E. by apply (join_ne dir (str "runtime.sock")). Qed.

(** [bind_rpc_socket] up to the directory. *)
Lemma bind_in_private fs dir mode :
  entries fs !! dir = Some (Directory mode) -> Z.land mode 63 = 0%Z ->
  denied fs (join dir (str "runtime.sock")) = false ->
  (forall e, entries fs !! join dir (str "runtime.sock") = Some e -> exists m, e = SocketFile m) ->
  exists fs', bind_rpc_socket fs dir = Some fs'
    /\ entries fs' = <[join dir (str "runtime.sock") := SocketFile 384]> (entries fs) /\ denied fs' = denied fs.
Proof.
  intros Hd Hm Hden Hs. unfold bind_rpc_socket, ensure_socket_dir. rewrite Hd, Hd, (proj2 (Z.eqb_eq _ _) Hm). cbv zeta.
  set (path := join dir (str "runtime.sock")) in *. unfold bind_socket, set_permissions. rewrite remove_file_denied, Hden.
  assert (entries (remove_file fs path) = delete path (entries fs)) as He.
  { unfold remove_file. destruct (entries fs !! path) as [e|] eqn:Hp.
    - destruct (Hs e eq_refl) as [m ->]. by rewrite Hden.
    - by rewrite delete_id. }
  assert (denied (remove_file fs path) = denied fs) as Hd' by (unfold remove_file; by repeat case_match).
  rewrite He, lookup_delete_eq. simpl. rewrite Hd', Hden, lookup_insert_eq. eexists. split; [done|]. simpl.
  split; [|done]. by rewrite insert_insert_eq, insert_delete_eq.
Qed.

(** Binding leaves everything bound. *)
Lemma bind_rpc_bound fs dir fs' : bind_rpc_socket fs dir = Some fs' -> bound fs' dir.
Proof.
  intros Hb. unfold bind_rpc_socket in Hb. destruct (ensure_socket_dir fs dir) as [fs1|] eqn:He; [|done].
  pose proof (ensure_socket_dir_private _ _ _ He) as (mode & Hd & Hm). cbv zeta in Hb.
  set (path := join dir (str "runtime.sock")) in *. set (fs2 := remove_file fs1 path) in *.
  unfold bind_socket in Hb. destruct (denied fs2 path) eqn:Hden; [done|].
  destruct (entries fs2 !! path); [done|]. unfold set_permissions in Hb. simpl in Hb. rewrite Hden, lookup_insert_eq in Hb.
  injection Hb as <-. split; simpl; fold path.
  - exists mode. rewrite !lookup_insert_ne by (intros E; symmetry in E; by apply socket_path_ne in E).
    unfold fs2. by rewrite remove_file_dir by apply socket_path_ne.
  - by rewrite lookup_insert_eq.
  - exact Hden.
Qed.

Lemma rebind fs dir fs' : bind_rpc_socket fs dir = Some fs' ->
  (exists fs'', bind_rpc_socket fs' dir = Some fs'' /\ entries fs'' = entries fs')
  /\ (exists fs'', bind_rpc_socket (remove_file fs' (join dir (str "runtime.sock"))) dir = Some fs'' /\ entries fs'' = entries fs').
Proof.
  intros [(mode & Hd & Hm) Hs Hden]%bind_rpc_bound. split.
  - destruct (bind_in_private fs' dir mode) as (fs'' & Hb & He & _); [done..| |].
    { intros e [= <-]%(eq_trans (eq_sym Hs)). by eexists. }
    exists fs''. split; [done|]. by rewrite He, insert_id.
  - set (path := join dir (str "runtime.sock")) in *.
    assert (entries (remove_file fs' path) = delete path (entries fs')) as Hr
      by (unfold remove_file; rewrite Hs; by rewrite Hden).
    destruct (bind_in_private (remove_file fs' path) dir mode) as (fs'' & Hb & He & _).
    + by rewrite remove_file_dir by apply socket_path_ne.
    + done.
    + by rewrite remove_file_denied.
    + fold path. rewrite Hr, lookup_delete_eq. done.
    + exists fs''. split; [done|]. fold path in He. rewrite He, Hr, insert_delete_eq. by rewrite insert_id.
Qed.

(** C40: the RPC socket is the worker's own, from start to stop, on a file system without
    symbolic links.  Where the system denies nothing, the root and the working directory
    exist, nothing but directories is on the way to the socket's directory and no
    directory is in the socket's place, the worker gets to its loop.  Whenever it does,
    on whatever file system it found: the socket is where the web worker looks for it,
    it and its directory carry no permission for group or others, even where the
    directory existed with wider ones, and a directory path held by another kind of
    file was refused; nothing else that was there changed, and what else is new is a
    directory the socket's directory lies in, as private.  Stopping removes the socket
    and nothing else; and a worker started afterwards, or over the socket of one that
    died, binds again and ends up with the same files. *)
Theorem runtime_socket_lifecycle env data_dir temp_dir fs nb fs' :
  let dir := socket_dir env data_dir temp_dir in
  let path := socket (web_config env data_dir temp_dir) in
  let stop := runtime_main_stop env data_dir temp_dir in
  let start := runtime_main_start env data_dir temp_dir in
  (rooted fs -> (forall p, denied fs p = false) -> way_free fs dir -> look fs path <> Some true ->
   exists fs1, start fs true = Serving fs1)
  /\ (start fs nb = Serving fs' ->
  (exists mode, entries fs' !! dir = Some (Directory mode) /\ Z.land mode 63 = 0%Z)
  /\ entries fs' !! path = Some (SocketFile 384)
  /\ owner_only (SocketFile 384)
  /\ (forall e, entries fs !! dir = Some e -> exists mode, e = Directory mode)
  /\ (forall p, p <> dir -> p <> path ->
       (forall e, entries fs !! p = Some e -> entries fs' !! p = Some e)
       /\ (forall e, entries fs !! p = None -> entries fs' !! p = Some e ->
            on_the_way p dir /\ exists m, e = Directory m /\ owner_only e))
  /\ entries (stop fs') = delete path (entries fs')
  /\ (exists fs'', start fs' true = Serving fs'' /\ entries fs'' = entries fs')
  /\ (exists fs'', start (stop fs') true = Serving fs'' /\ entries fs'' = entries fs')).
Proof.
  cbv zeta. unfold runtime_main_start, runtime_main_stop, rpc_socket_path. simpl. unfold rpc_socket_path.
  set (dir := socket_dir env data_dir temp_dir). split.
  { intros H1 H2 H3 H4. destruct (bind_rpc_succeeds fs dir) as [fs1 ->]; [apply socket_dir_nonempty|done..|]. by eexists. }
  destruct (bind_rpc_socket fs dir) as [fs1|] eqn:Hb; [|done]. destruct nb; [|done]. intros [= ->].
  pose proof (bind_rpc_bound _ _ _ Hb) as [Hd Hs Hden].
  destruct (rebind _ _ _ Hb) as [(fs2 & -> & H2) (fs3 & Hr & H3)]. ands; [done|done|done| | | | |].
  - apply (rpc_socket_private fs dir fs' Hb).
  - intros p Hp1 Hp2. by apply (bind_rpc_rest fs dir).
  - unfold remove_file. rewrite Hs. by rewrite Hden.
  - by eexists.
  - rewrite Hr. by eexists.
Qed.

(** A start over a directory open to everybody, with nothing configured. *)
Definition sample_env : environment := fun _ => None.
Definition sample_start (fs : FileSystem) : main_start :=
  runtime_main_start sample_env (Some (str "/srv/pg")) (str "/tmp") fs true.

Lemma sample_serves : exists fs', sample_start sample_fs = Serving fs'.
Proof. vm_compute. by eexists. Qed.

(** A start where two directories have to be made first. *)
Definition nested_env : environment := fun key =>
  if key == str "ALLGRES_SOCKET_DIR" then Some (str "/run/allgres/rpc") else None.
Definition bare_fs : FileSystem :=
  mk_fs {[str "/" := Directory 493; [] := Directory 493; str "/run" := Directory 493]} 18 (fun _ => false).

Lemma bare_way_free p : look bare_fs p <> Some false.
Proof.
  unfold look. intros Hp. apply fmap_Some in Hp as (e & He & Hk). simpl in He.
  repeat (apply lookup_insert_Some in He as [[_ <-]|[_ He]]; [done|]). by apply lookup_singleton_Some in He as [_ <-].
Qed.

Example nested_start :
  match runtime_main_start nested_env None (str "/tmp") bare_fs true with
  | Serving fs' => entries fs' !! str "/run/allgres" = Some (Directory 448)
                   /\ entries fs' !! str "/run" = Some (Directory 493)
  | _ => False
  end.
Proof. vm_compute. done. Qed.

Lemma runtime_socket_lifecycle_witness :
  (exists fs1, runtime_main_start nested_env None (str "/tmp") bare_fs true = Serving fs1) /\
  exists fs' fs'', sample_start sample_fs = Serving fs' /\ sample_start fs' = Serving fs'' /\ entries fs'' = entries fs'.
Proof.
  destruct sample_serves as [fs' Hs]. split.
  { apply (runtime_socket_lifecycle nested_env None (str "/tmp") bare_fs true bare_fs);
      [done|done|intros p _; apply bare_way_free|]. vm_compute. done. }
  destruct (runtime_socket_lifecycle sample_env (Some (str "/srv/pg")) (str "/tmp") sample_fs true fs') as [_ Hl].
  destruct (Hl Hs) as (_ & _ & _ & _ & _ & _ & (fs'' & H1 & H2) & _).
  exists fs', fs''. split; [exact Hs|]. split; [exact H1|exact H2].
Defined.
