(* ===== verification/Builds.v ===== *)
(** * Building what the control plane holds

    A PL/pgSQL function or procedure is text in a table of [src/sql/control_plane.sql]
    until the worker has created it.  Its [build_status] goes from pending over building
    to built or failed, and back to pending whenever its body is edited; edits and the
    watchdog come at any moment, also between the worker's statement that creates the
    object and the one that reports it.  Here is the table, the pump that works it off
    ([FunctionExec.v], [ProcedureExec.v]), and what [built] is worth. *)

From stdpp Require Import gmap sorting relations.
From S2P Require Import Prelude RustStr Net Json Spi Privilege Sandbox FunctionExec ProcedureExec LocalWork CallTables.

#[local] Arguments str : simpl never.
#[local] Arguments format_radix : simpl never.

(** ** The table *)

(** [CHECK (build_status IN ('pending', 'building', 'built', 'failed'))] *)
Inductive build_status := Pending | Building | Built | Failed_build.

#[export] Instance build_status_eq_dec : EqDecision build_status.
Proof. solve_decision. Defined.

(** A row of [functions] with the [plpgsql] handler, or of [procedures] with a body. *)
Record build_row := mk_build {
  b_id : bytes;
  b_ident : bytes;            (* sql_ident *)
  b_body : bytes;
  b_status : build_status;
  b_updated : Z
}.

(** The table, and the schema [allgres_functions]: by name, the text behind the name in
    the statement that created the object. *)
Record Workshop := mk_shop { builds : list build_row; objects : gmap bytes bytes }.

Definition rebuild (st : build_status) (now : Z) (r : build_row) : build_row :=
  mk_build (b_id r) (b_ident r) (b_body r) st now.

Definition set_builds (which : build_row -> bool) (f : build_row -> build_row) (W : Workshop) : Workshop :=
  mk_shop (map (fun r => if which r then f r else r) (builds W)) (objects W).

(** [ORDER BY updated_at] *)
Definition earlier (r r' : build_row) : Prop := (b_updated r <= b_updated r')%Z.

#[export] Instance earlier_dec r r' : Decision (earlier r r').
Proof. unfold earlier. apply _. Defined.

(** [fn_claim_function_builds] and [fn_claim_procedure_builds]: the rows claimed; [open]
    stands for [SKIP LOCKED]. *)
Definition claimed_builds (p_limit : option Z) (open : bytes -> bool) (W : Workshop) : list build_row :=
  take (Z.to_nat (clamp_limit p_limit))
    (merge_sort earlier (List.filter (fun r => (b_status r == Pending) && open (b_id r)) (builds W))).

Definition fn_claim_builds (p_limit : option Z) (open : bytes -> bool) (now : Z) (W : Workshop)
  : Workshop * list build_row :=
  let rs := claimed_builds p_limit open W in
  (set_builds (fun r => bool_decide (b_id r ∈ map b_id rs)) (rebuild Building now) W, rs).

(** [fn_complete_function_build] and [fn_complete_procedure_build] *)
Definition fn_complete_build (id : bytes) (ok : bool) (now : Z) (W : Workshop) : Workshop :=
  set_builds (fun r => (b_id r == id) && (b_status r == Building))
    (rebuild (if ok then Built else Failed_build) now) W.

(** The loops of [fn_watchdog] over builds the worker never came back from. *)
Definition reclaim_builds (p_timeout_seconds : option Z) (locked : bytes -> bool) (now : Z) (W : Workshop) : Workshop :=
  set_builds (fun r => (b_status r == Building) && negb (locked (b_id r))
                       && (b_updated r <? now - from_secs (Z.max 15 (default 90%Z p_timeout_seconds)))%Z)
    (rebuild Pending now) W.

(** Whether an edit has a routine built anew: a function whenever a body is given, a
    procedure only when it is another one. *)
Definition built_anew (k : routine) (p_body : option bytes) (r : build_row) : bool :=
  match k with
  | Function => bool_decide (is_Some p_body)
  | Procedure => default (b_body r) p_body != b_body r
  end.

(** [fn_update_function] and [fn_set_procedure], the latter also by way of
    [fn_rollback_procedure]. *)
Definition fn_update_body (k : routine) (id : bytes) (p_body : option bytes) (now : Z) (W : Workshop) : Workshop :=
  set_builds (fun r => b_id r == id)
    (fun r => mk_build (b_id r) (b_ident r) (default (b_body r) p_body)
                (if built_anew k p_body r then Pending else b_status r) now) W.

(** [CREATE OR REPLACE] *)
Definition create_object (name text : bytes) (W : Workshop) : Workshop :=
  mk_shop (builds W) (<[name := text]> (objects W)).

(** What operators, agents and the watchdog do: a new row comes under a new id and, the
    column being UNIQUE, a new name. *)
Inductive build_others (k : routine) : Workshop -> Workshop -> Prop :=
| build_new W id ident body now :
    id ∉ map b_id (builds W) -> ident ∉ map b_ident (builds W) ->
    build_others k W (mk_shop (builds W ++ [mk_build id ident body Pending now]) (objects W))
| build_edit W id p_body now : build_others k W (fn_update_body k id p_body now W)
| build_reclaim W secs locked now : build_others k W (reclaim_builds secs locked now W).

(** ** The server *)

Definition build_work (k : routine) : local_work := match k with Function => Function_builds | Procedure => Procedure_builds end.
Definition id_key (k : routine) : bytes := match k with Function => str "function_id" | Procedure => str "procedure_id" end.

Definition claim_builds_sql (k : routine) : bytes :=
  match k with
  | Function => str "SELECT allgres_public.fn_claim_function_builds($1)"
  | Procedure => str "SELECT allgres_public.fn_claim_procedure_builds($1)"
  end.

(** What stands before and behind the name in the statement that creates an object. *)
Definition ddl_head (k : routine) : bytes :=
  match k with
  | Function => str "CREATE OR REPLACE FUNCTION allgres_functions."
  | Procedure => str "CREATE OR REPLACE PROCEDURE allgres_functions."
  end.

Definition ddl_text (k : routine) (quoted_body : bytes) : bytes :=
  match k with
  | Function => str "(p_args jsonb) RETURNS jsonb LANGUAGE plpgsql SECURITY INVOKER AS " ++ quoted_body ++ str ";"
  | Procedure => str "(p_args jsonb, INOUT p_result jsonb) LANGUAGE plpgsql SECURITY INVOKER AS " ++ quoted_body ++ str ";"
  end.

(** The names have one length: the prefix and 32 digits. *)
Definition name_length (k : routine) : nat := length (routine_prefix k) + 32.

(** The name and the text of such a statement. *)
Definition creates (k : routine) (sql : bytes) : option (bytes * bytes) :=
  match strip_prefix (ddl_head k) sql with
  | Some rest => Some (take (name_length k) rest, drop (name_length k) rest)
  | None => None
  end.

(** The items of a claim's reply. *)
Definition build_item (k : routine) (item : json) : option (bytes * bytes * bytes) :=
  match get_str item (id_key k), get_str item (str "sql_ident"), get_str item (str "body") with
  | Some id, Some name, Some body => Some (id, name, body)
  | _, _, _ => None
  end.

Definition build_items (k : routine) (v : json) : list (bytes * bytes * bytes) :=
  omap (build_item k) (default [] (get_array v (str "builds"))).

Definition row_item (r : build_row) : bytes * bytes * bytes := (b_id r, b_ident r, b_body r).

(** The answers to the statements of a build pump and what they do to the workshop;
    statements that fail or raise do nothing. *)
Inductive shop_answers (k : routine) : Workshop -> call -> reply -> Workshop -> Prop :=
| shop_claim W n open now v :
    build_items k v = map row_item (fn_claim_builds (Some n) open now W).2 ->
    shop_answers k W (Spi (claim_builds_sql k) [AInt (Some n)]) (Done (Some (DJson v)))
      (fn_claim_builds (Some n) open now W).1
| shop_create W sql name text v :
    creates k sql = Some (name, text) -> shop_answers k W (Spi sql []) (Done v) (create_object name text W)
| shop_complete W id ok err v now :
    shop_answers k W (Spi (completion (build_work k)) [AStr (Some id); ABool ok; err]) (Done v)
      (fn_complete_build id ok now W)
| shop_failed W sql args e : shop_answers k W (Spi sql args) (Failed e) W
| shop_raised W sql args m : shop_answers k W (Spi sql args) (Raised m) W
| shop_else W c r :
    (forall sql args, c = Spi sql args ->
       sql <> claim_builds_sql k /\ sql <> completion (build_work k) /\ creates k sql = None) ->
    shop_answers k W c r W.

Inductive shop_run (k : routine) : Workshop -> trace -> Workshop -> Prop :=
| shop_done W : shop_run k W [] W
| shop_others W W1 t W2 : build_others k W W1 -> shop_run k W1 t W2 -> shop_run k W t W2
| shop_call W c r W1 t W2 : shop_answers k W c r W1 -> shop_run k W1 t W2 -> shop_run k W ((c, r) :: t) W2.

Definition build_pump `{WorkerEnv} (k : routine) : (nat -> Z) -> prog nat :=
  match k with Function => pump_function_builds | Procedure => pump_procedure_builds end.

(** What a workshop can come to: builds pumped one after the other by the one worker
    there is, which may die anywhere in between, with the others at any time. *)
Inductive worked `{WorkerEnv} (k : routine) : Workshop -> Prop :=
| worked_start : worked k (mk_shop [] ∅)
| worked_others W W' : worked k W -> build_others k W W' -> worked k W'
| worked_pump W db h clock t W' :
    worked k W -> t `prefix_of` (run db h (build_pump k clock)).1 -> shop_run k W t W' -> worked k W'.

(** ** What a pump may do *)

(** The statement text that quotes a body. *)
Definition quotes (body quoted : bytes) : Prop := exists nanos tag, dollar_quote nanos body = Some (tag, quoted).

Definition item_id (i : bytes * bytes * bytes) : bytes := i.1.1.

(** The monitor knows the items of the last claim that are not reported yet, and what
    has been created since; it gives up on a server that claims one row twice. *)
Definition builder (k : routine) : Monitor :=
  {| mstate := option (list (bytes * bytes * bytes) * gmap bytes bytes);
     mstep := fun s c r =>
       match s, c with
       | Some (cl, dn), Spi sql args =>
         if sql == claim_builds_sql k then
           match r with
           | Done (Some (DJson v)) =>
             if bool_decide (NoDup (map item_id (build_items k v))) then Some (build_items k v, ∅) else None
           | _ => s
           end
         else if sql == completion (build_work k) then
           match args with
           | AStr (Some id) :: _ => Some (List.filter (fun i => item_id i != id) cl, dn)
           | _ => s
           end
         else match creates k sql, r with
              | Some (name, text), Done _ => Some (cl, <[name := text]> dn)
              | _, _ => s
              end
       | _, _ => s
       end;
     mallowed := fun s c =>
       match s, c with
       | Some (cl, dn), Spi sql args =>
         (forall name text, creates k sql = Some (name, text) -> exists id body, (id, name, body) ∈ cl)
         /\ (forall id rest, sql = completion (build_work k) -> args = AStr (Some id) :: ABool true :: rest ->
               exists name body quoted, (id, name, body) ∈ cl /\ quotes body quoted
                 /\ dn !! name = Some (ddl_text k quoted))
       | _, _ => True
       end |}.

(** ** What built is worth *)

(** The object of the row's name was created from the row's body. *)
Definition current (k : routine) (W : Workshop) (r : build_row) : Prop :=
  exists quoted, quotes (b_body r) quoted /\ objects W !! b_ident r = Some (ddl_text k quoted).

Record sound (k : routine) (W : Workshop) : Prop := {
  sound_ids : NoDup (map b_id (builds W));
  sound_idents : NoDup (map b_ident (builds W));
  sound_built : forall r, r ∈ builds W -> b_status r = Built -> current k W r
}.

(** While a pump is at work. *)
Record in_work (k : routine) (W : Workshop) (cl : list (bytes * bytes * bytes)) (dn : gmap bytes bytes) : Prop := {
  work_sound : sound k W;
  work_objects : forall name text, dn !! name = Some text -> objects W !! name = Some text;
  work_rows : forall id name body, (id, name, body) ∈ cl ->
    exists r, r ∈ builds W /\ b_id r = id /\ b_ident r = name /\ b_status r <> Built
      /\ (b_status r = Building -> b_body r = body)
}.

Lemma by_key {A} (f : build_row -> A) l r r' : NoDup (map f l) -> r ∈ l -> r' ∈ l -> f r = f r' -> r = r'.
Proof.
  induction l as [|x l IH]; [by intros _ ?%not_elem_of_nil|]. cbn [map]. intros [Hx Hl]%list.NoDup_cons.
  assert (forall y, y ∈ l -> f y <> f x) as Hne by (intros y Hy E; apply Hx; rewrite <- E; by apply list_elem_of_fmap_2).
  intros [->|Hr]%elem_of_cons [->|Hr']%elem_of_cons E; [done|by edestruct Hne|by edestruct Hne|by apply IH].
Qed.

Lemma set_builds_elem which f W r : r ∈ builds (set_builds which f W) <-> exists r0, r0 ∈ builds W /\ r = if which r0 then f r0 else r0.
Proof.
  simpl. rewrite list_elem_of_fmap. split; intros (r0 & H1 & H2); by exists r0.
Qed.

Section work.
Context (k : routine).

(** A change of rows that keeps their keys, makes nothing built that is not current, and
    does to the rows at work what it may. *)
Lemma work_set_builds which f W cl dn :
  (forall r, b_id (f r) = b_id r /\ b_ident (f r) = b_ident r) ->
  (forall r, r ∈ builds W -> which r = true -> b_status (f r) = Built -> current k W (f r)) ->
  (forall r id name body, (id, name, body) ∈ cl -> r ∈ builds W -> b_id r = id -> which r = true ->
     b_status (f r) <> Built /\ (b_status (f r) = Building -> (b_status r = Building -> b_body r = body) -> b_body (f r) = body)) ->
  in_work k W cl dn -> in_work k (set_builds which f W) cl dn.
Proof.
  intros Hf Hb Hw [[H1 H2 H3] H4 H5]. split; [split|done|].
  - simpl. rewrite map_map. erewrite map_ext; [exact H1|]. intros r. destruct (which r); [apply Hf|done].
  - simpl. rewrite map_map. erewrite map_ext; [exact H2|]. intros r. destruct (which r); [apply Hf|done].
  - intros r (r0 & Hr & ->)%set_builds_elem Hs. destruct (which r0) eqn:E; [by apply Hb|by apply H3].
  - intros id name body Hin. destruct (H5 id name body Hin) as (r & Hr & Hi & Hn & Hs & Hy).
    exists (if which r then f r else r). split; [apply set_builds_elem; by exists r|].
    destruct (which r) eqn:E; [|done]. destruct (Hf r) as [-> ->]. destruct (Hw r id name body Hin Hr Hi E) as [Hs' Hy'].
    ands; [done|done|done|]. intros Hst. by apply Hy'.
Qed.

Lemma work_fewer W cl cl' dn : cl' ⊆ cl -> in_work k W cl dn -> in_work k W cl' dn.
Proof. intros Hc [H1 H2 H3]. split; [done|done|]. intros id name body Hin. by apply H3, Hc. Qed.

Lemma rebuild_keys st now r : b_id (rebuild st now r) = b_id r /\ b_ident (rebuild st now r) = b_ident r.
Proof. done. Qed.

Lemma kept_body p_body r : built_anew k p_body r = false -> default (b_body r) p_body = b_body r.
Proof. unfold built_anew. destruct k, p_body; simpl; try case_bool_decide; try done. Qed.

Lemma work_others W W' cl dn : build_others k W W' -> in_work k W cl dn -> in_work k W' cl dn.
Proof.
  intros [W0 id ident body now Hid Hident|W0 id p_body now|W0 secs locked now] Hw.
  - destruct Hw as [[H1 H2 H3] H4 H5]. split; [split|done|]; cbn [builds].
    + rewrite map_app. apply list.NoDup_app. ands; [done| |apply NoDup_singleton].
      intros x Hx Hx'. by apply list_elem_of_singleton in Hx' as ->.
    + rewrite map_app. apply list.NoDup_app. ands; [done| |apply NoDup_singleton].
      intros x Hx Hx'. by apply list_elem_of_singleton in Hx' as ->.
    + intros r [Hr|Hr]%elem_of_app Hs; [by apply H3|]. by apply list_elem_of_singleton in Hr as ->.
    + intros i n b Hin. destruct (H5 i n b Hin) as (r & Hr & Hi). exists r. split; [apply elem_of_app; by left|done].
  - apply work_set_builds; [done|..]; cbn [b_status b_body]; [intros r Hr _ Hs|intros r i n b Hin Hr Hi _|done].
    + destruct (built_anew k p_body r) eqn:Ha; [done|]. rename Hs into Hst.
      destruct (sound_built _ _ (work_sound _ _ _ _ Hw) r Hr Hst) as (q & Hq & Ho). exists q. cbn [b_body b_ident].
      by rewrite kept_body.
    + destruct (work_rows _ _ _ _ Hw _ _ _ Hin) as (r' & Hr' & Hi' & _ & Hs & _).
      assert (r' = r) as -> by (eapply (by_key b_id); [apply Hw|done|done|congruence]). split.
      * by case_match.
      * destruct (built_anew k p_body r) eqn:Ha; [done|]. intros Hst Hb. rewrite kept_body by done. by apply Hb.
  - by apply work_set_builds.
Qed.

(** *** The answers *)

Lemma claimed_builds_elem p open W r : r ∈ claimed_builds p open W -> r ∈ builds W /\ b_status r = Pending.
Proof.
  unfold claimed_builds. set (l := List.filter _ _). intros Hr.
  assert (r ∈ merge_sort earlier l) as Hl.
  { rewrite <- (take_drop (Z.to_nat (clamp_limit p)) (merge_sort earlier l)). apply elem_of_app. by left. }
  rewrite merge_sort_Permutation in Hl. apply list_elem_of_In, filter_In in Hl as [Hl Hc]. breflect.
  split; [by apply list_elem_of_In|done].
Qed.

Lemma claimed_builds_nodup p open W : NoDup (map b_id (builds W)) -> NoDup (map b_id (claimed_builds p open W)).
Proof.
  intros Hn. apply (NoDup_map_filter b_id (fun r => (b_status r == Pending) && open (b_id r))) in Hn.
  unfold claimed_builds. set (l := List.filter _ _) in *.
  assert (map b_id (merge_sort earlier l) ≡ₚ map b_id l) as Hp by by rewrite merge_sort_Permutation.
  rewrite <- Hp, <- (take_drop (Z.to_nat (clamp_limit p)) (merge_sort earlier l)), map_app in Hn.
  by apply list.NoDup_app in Hn as (? & _ & _).
Qed.

Lemma work_claim W cl dn n open now :
  in_work k W cl dn -> in_work k (fn_claim_builds n open now W).1 (map row_item (fn_claim_builds n open now W).2) ∅.
Proof.
  intros [Hs _ _]. assert (in_work k W [] ∅) as H0 by (split; [done|done|by intros ? ? ? ?%not_elem_of_nil]).
  unfold fn_claim_builds. cbn [fst snd]. set (rs := claimed_builds n open W).
  destruct (work_set_builds (fun r => bool_decide (b_id r ∈ map b_id rs)) (rebuild Building now) W [] ∅) as [S O _];
    [done|done|by intros ? ? ? ? ?%not_elem_of_nil|done|].
  split; [exact S|done|]. intros id name body (r & [= -> -> ->] & Hr)%list_elem_of_fmap.
  destruct (claimed_builds_elem _ _ _ _ Hr) as [Hin Hst]. exists (rebuild Building now r). ands; try done.
  apply set_builds_elem. exists r. split; [done|]. rewrite bool_decide_eq_true_2; [done|]. by apply list_elem_of_fmap_2.
Qed.

Lemma work_create W cl dn name text id body :
  (id, name, body) ∈ cl -> in_work k W cl dn -> in_work k (create_object name text W) cl (<[name := text]> dn).
Proof.
  intros Hcl [[H1 H2 H3] H4 H5]. split; [split|..]; try done.
  - intros r Hr Hst. destruct (H3 r Hr Hst) as (q & Hq & Ho). exists q. split; [done|]. simpl.
    rewrite lookup_insert_ne; [done|]. intros E. destruct (H5 _ _ _ Hcl) as (r' & Hr' & _ & Hn & Hs & _).
    apply Hs. rewrite (by_key b_ident _ r' r H2 Hr' Hr) by congruence. done.
  - intros n t. simpl. destruct (decide (n = name)) as [->|Hne].
    + by rewrite !lookup_insert_eq.
    + rewrite !lookup_insert_ne by done. apply H4.
Qed.

Lemma work_complete W cl dn id ok now :
  (ok = true -> exists name body quoted, (id, name, body) ∈ cl /\ quotes body quoted /\ dn !! name = Some (ddl_text k quoted)) ->
  in_work k W cl dn -> in_work k (fn_complete_build id ok now W) (List.filter (fun i => item_id i != id) cl) dn.
Proof.
  intros Hok Hw. assert (List.filter (fun i => item_id i != id) cl ⊆ cl) as Hsub.
  { intros x Hx. by apply list_elem_of_In, filter_In in Hx as [Hx%list_elem_of_In _]. }
  apply work_set_builds; [done| | |by eapply work_fewer].
  - intros r Hr Hc Hst. destruct ok; [|done]. breflect. destruct (Hok eq_refl) as (name & body & q & Hin & Hq & Hd).
    destruct Hw as [[H1 H2 H3] H4 H5]. destruct (H5 _ _ _ Hin) as (r' & Hr' & Hi & Hn & _ & Hb).
    assert (r' = r) as -> by (eapply (by_key b_id); [exact H1|done|done|congruence]). exists q. cbn [b_body b_ident rebuild].
    rewrite Hb by done. split; [done|]. rewrite Hn. by apply H4.
  - intros r i n b Hin Hr Hi Hc. exfalso. apply list_elem_of_In, filter_In in Hin as [_ Hne]. breflect.
    unfold item_id in Hne. simpl in Hne. congruence.
Qed.
End work.

(** *** Runs *)

Lemma creates_claim k : creates k (claim_builds_sql k) = None.
Proof. by destruct k. Qed.

Lemma creates_completion k : creates k (completion (build_work k)) = None.
Proof. by destruct k. Qed.

Lemma claim_not_completion k : (claim_builds_sql k == completion (build_work k)) = false.
Proof. by destruct k. Qed.

(** A reply that does nothing leaves the monitor where it is, but for the item reported. *)
Lemma builder_nothing k cl dn sql args r :
  (forall v, r <> Done v) ->
  exists cl', mstep (Monitor := builder k) (Some (cl, dn)) (Spi sql args) r = Some (cl', dn) /\ cl' ⊆ cl.
Proof.
  intros Hr. simpl. destruct (sql == claim_builds_sql k).
  { destruct r as [v|e|m]; [by destruct (Hr v)|by exists cl..]. }
  destruct (sql == completion (build_work k)).
  { destruct args as [|[[id|]| | | |] args]; try by exists cl. exists (List.filter (fun i => item_id i != id) cl).
    split; [done|]. intros x Hx. by apply list_elem_of_In, filter_In in Hx as [Hx%list_elem_of_In _]. }
  destruct (creates k sql) as [[name text]|]; [|by exists cl]. destruct r as [v|e|m]; [by destruct (Hr v)|by exists cl..].
Qed.

Lemma shop_run_sound k W t W' : shop_run k W t W' -> forall cl dn,
  monitored (M := builder k) (Some (cl, dn)) t -> in_work k W cl dn -> sound k W'.
Proof.
  induction 1 as [W|W W1 t W2 Ho _ IH|W c r W1 t W2 Ha _ IH]; intros cl dn Hm Hw; [apply Hw| |].
  { eapply IH; [exact Hm|by eapply work_others]. }
  destruct Hm as [Hal Hm].
  destruct Ha as [W n open now v Hv|W sql name text v Hc|W id ok err v now|W sql args e|W sql args m|W c r Hn].
  - cbn [mstep builder] in Hm. rewrite bool_decide_eq_true_2 in Hm by done. rewrite Hv, map_map in Hm.
    rewrite bool_decide_eq_true_2 in Hm by (apply claimed_builds_nodup, Hw).
    eapply IH; [exact Hm|by eapply work_claim].
  - cbn [mstep builder] in Hm. rewrite Hc in Hm.
    assert ((sql == claim_builds_sql k) = false) as E1 by (apply bool_decide_eq_false; intros ->; by rewrite creates_claim in Hc).
    assert ((sql == completion (build_work k)) = false) as E2
      by (apply bool_decide_eq_false; intros ->; by rewrite creates_completion in Hc).
    rewrite E1, E2 in Hm. destruct Hal as [Hal _]. destruct (Hal name text Hc) as (id & body & Hin).
    eapply IH; [exact Hm|by eapply work_create].
  - cbn [mstep builder] in Hm. rewrite (bool_decide_eq_true_2 (completion _ = completion _)) in Hm by done.
    assert ((completion (build_work k) == claim_builds_sql k) = false) as E by by destruct k.
    rewrite E in Hm. eapply IH; [exact Hm|]. apply work_complete; [|done]. intros ->. destruct Hal as [_ Hal].
    by eapply Hal.
  - destruct (builder_nothing k cl dn sql args (Failed e)) as (cl' & E & Hsub); [done|]. rewrite E in Hm.
    eapply IH; [exact Hm|by eapply work_fewer].
  - destruct (builder_nothing k cl dn sql args (Raised m)) as (cl' & E & Hsub); [done|]. rewrite E in Hm.
    eapply IH; [exact Hm|by eapply work_fewer].
  - assert (mstep (Monitor := builder k) (Some (cl, dn)) c r = Some (cl, dn)) as E.
    { destruct c as [sql args| | | | | | | | | | | | |]; try done. destruct (Hn sql args eq_refl) as (N1 & N2 & N3).
      cbn [mstep builder]. by rewrite !bool_decide_eq_false_2, N3. }
    rewrite E in Hm. by eapply IH.
Qed.

(** *** The pump keeps to it *)

Section pump.
Context `{WorkerEnv} (k : routine) (clock : nat -> Z).

Local Abbreviation wpb s p Q := (wp (M := builder k) s p Q).

(** Once given up, it allows everything. *)
Lemma given_up_any {A} (p : prog A) : wpb None p (fun _ _ => True).
Proof. induction p as [a|m|c kk IH]; [done..|]. split; [done|]. intros r. apply IH. Qed.

(** A statement that is neither a claim, a completion nor a creation. *)
Definition unrelated (sql : bytes) : Prop :=
  sql <> claim_builds_sql k /\ sql <> completion (build_work k) /\ creates k sql = None.

Lemma unrelated_allowed s sql args : unrelated sql -> mallowed (Monitor := builder k) s (Spi sql args).
Proof.
  intros (H1 & H2 & H3). destruct s as [[cl dn]|]; [|done]. simpl. split; [by rewrite H3|by intros id rest ->].
Qed.

Lemma unrelated_step s sql args r : unrelated sql -> mstep (Monitor := builder k) s (Spi sql args) r = s.
Proof.
  intros (H1 & H2 & H3). destruct s as [[cl dn]|]; [|done]. simpl. by rewrite !bool_decide_eq_false_2, H3.
Qed.

Lemma assume_unrelated : unrelated ASSUME_WORKER_ROLE.
Proof. unfold unrelated. destruct k; ands; try discriminate; reflexivity. Qed.

Lemma admin_unrelated : unrelated SET_FUNCTION_ADMIN.
Proof. unfold unrelated. destruct k; ands; try discriminate; reflexivity. Qed.

Lemma control_step s c r : (forall sql args, c <> Spi sql args) -> mstep (Monitor := builder k) s c r = s.
Proof. intros Hc. destruct s as [[cl dn]|]; [|done]. destruct c; try done. by edestruct Hc. Qed.

Lemma drop_builder s Q :
  (forall b, Q (Returned b) s) -> (forall m, Q (Raising m) s) -> wpb s drop_privileges Q.
Proof.
  intros H1 H2. unfold drop_privileges. destruct (env_drop_privileges == _); [apply H1|].
  split; [apply unrelated_allowed, assume_unrelated|]. intros r. rewrite unrelated_step by apply assume_unrelated.
  destruct r as [[[[]|v|x|z]|]|e|m]; cbn [bind ok_flatten]; try apply H1; try apply H2;
    (split; [by destruct s as [[]|]|]; intros r; rewrite control_step by done; apply H1).
Qed.

Lemma control_allowed s c : (forall sql args, c <> Spi sql args) -> mallowed (Monitor := builder k) s c.
Proof. intros Hc. destruct s as [[cl dn]|]; [|done]. destruct c; try done. by edestruct Hc. Qed.

Lemma do_control {A} s c (kk : reply -> prog A) Q :
  (forall sql args, c <> Spi sql args) -> (forall r, wpb s (kk r) Q) -> wpb s (Do c kk) Q.
Proof. intros Hc Hk. split; [by apply control_allowed|]. intros r. rewrite control_step by done. apply Hk. Qed.

Ltac controls := repeat (apply do_control; [done|]; intros ?).

Lemma subtransaction_builder s f Q :
  wpb s f (fun o s' => match o with Returned r => Q r s' | Raising m => forall e, Q (Err e) s' end) ->
  wpb s (transaction (run_in_subtransaction f)) (fun o s' => exists r, o = Returned r /\ Q r s').
Proof.
  intros Hf. controls. apply (wp_bind (M := builder k)).
  eapply (wp_mono (M := builder k) _ (fun o s' => exists r, o = Returned r /\ Q r s')).
  - apply (wp_bind (M := builder k) (catch_others f _)), (wp_catch (M := builder k)).
    eapply (wp_mono (M := builder k)); [exact Hf|]. intros [[v|e]|m] s' Hq; controls; (eexists; split; [done|apply Hq]).
  - intros o s' (res & -> & Hq). controls. by eexists.
Qed.

Lemma run_ddl_builder cl dn sql name text id body :
  creates k sql = Some (name, text) -> (id, name, body) ∈ cl ->
  wpb (Some (cl, dn)) (run_ddl sql) (fun o s => exists r, o = Returned r
    /\ exists dn', s = Some (cl, dn') /\ (is_ok r = true -> dn' !! name = Some text)).
Proof.
  intros Hc Hin. apply subtransaction_builder, (wp_bind (M := builder k)).
  eapply (wp_mono (M := builder k) _ (fun _ s => s = Some (cl, dn))).
  { apply (wp_bind (M := builder k)). apply drop_builder; [|done]. intros []; [|done].
    split; [apply unrelated_allowed, admin_unrelated|]. intros r. rewrite unrelated_step by apply admin_unrelated.
    by destruct r. }
  intros [[]|m] s ->; cbn [negb]; [|by exists dn..].
  assert ((sql == claim_builds_sql k) = false) as E1 by (apply bool_decide_eq_false; intros ->; by rewrite creates_claim in Hc).
  assert ((sql == completion (build_work k)) = false) as E2
    by (apply bool_decide_eq_false; intros ->; by rewrite creates_completion in Hc).
  split.
  - split; [intros name' text' Hc'; simplify_eq; by exists id, body|]. intros ? ? ->. by rewrite creates_completion in Hc.
  - intros r. cbn [mstep builder]. rewrite E1, E2, Hc. destruct r as [v|e|m]; cbn [bind spi_run].
    + eexists. split; [done|]. intros _. by rewrite lookup_insert_eq.
    + by exists dn.
    + intros e. by exists dn.
Qed.

Lemma creates_routine name q :
  valid_sql_ident name (routine_prefix k) = true -> creates k (routine_ddl k name q) = Some (name, ddl_text k q).
Proof.
  intros (hex & -> & Hh)%valid_sql_ident_spec.
  assert (routine_ddl k (routine_prefix k ++ hex) q = ddl_head k ++ (routine_prefix k ++ hex) ++ ddl_text k q) as ->
    by by destruct k.
  unfold creates. rewrite strip_prefix_app.
  assert (name_length k = length (routine_prefix k ++ hex)) as ->.
  { unfold name_length, hex32 in *. rewrite length_app. by apply andb_true_iff in Hh as [->%Nat.eqb_eq _]. }
  by rewrite take_app_length, drop_app_length.
Qed.

Lemma run_build_builder cl dn nanos id name body :
  (id, name, body) ∈ cl ->
  wpb (Some (cl, dn)) (run_routine_build k nanos name body) (fun o s => forall r, o = Returned r ->
    exists dn', s = Some (cl, dn')
      /\ (is_ok r = true -> exists q, quotes body q /\ dn' !! name = Some (ddl_text k q))).
Proof.
  intros Hin. assert (run_routine_build k nanos name body = run_build (routine_prefix k) (routine_ddl k) nanos name body)
    as -> by by destruct k.
  unfold run_build. destruct (valid_sql_ident name (routine_prefix k)) eqn:Hv; cbn [negb].
  - destruct (dollar_quote nanos body) as [[tag q]|] eqn:Hq; [|done]. apply (wp_bind (M := builder k)).
    eapply (wp_mono (M := builder k)).
    { eapply run_ddl_builder; [by apply creates_routine|exact Hin]. }
    intros o s (r & -> & dn' & -> & Hd) r' [= <-]. exists dn'. split; [done|].
    intros Hr. exists q. split; [by exists nanos, tag|]. apply Hd. by destruct r.
  - intros r [= <-]. by exists dn.
Qed.

(** Both kinds in one. *)
Definition submit_build : bytes -> result unit -> prog unit :=
  match k with Function => submit_function_build_result | Procedure => submit_procedure_build_result end.

Lemma build_loop_cons n item rest :
  pump_loop clock (build_work k) n (item :: rest) =
  match build_item k item with
  | Some (id, name, body) =>
    if valid_uuid id then
      let* o := run_routine_build k (clock n) name body in
      submit_build id o ;; pump_loop clock (build_work k) (S n) rest
    else pump_loop clock (build_work k) n rest
  | None => pump_loop clock (build_work k) n rest
  end.
Proof.
  rewrite pump_loop_cons. unfold build_item, submit_build.
  destruct k; cbn [build_work runnable id_key]; repeat (case_match; simplify_eq; try done).
Qed.

Lemma submit_builder cl dn id name body o :
  (is_ok o = true -> (id, name, body) ∈ cl /\ exists q, quotes body q /\ dn !! name = Some (ddl_text k q)) ->
  wpb (Some (cl, dn)) (submit_build id o) (fun _ s =>
    exists cl', s = Some (cl', dn) /\ forall i, i ∈ cl -> item_id i <> id -> i ∈ cl').
Proof.
  intros Ho. assert (exists skipped failed, submit_build id o
    = record skipped failed (spi_run (completion (build_work k)) (AStr (Some id) :: build_completion o)))
    as (skipped & failed & ->) by (unfold submit_build; destruct k; by eexists _, _).
  controls. apply (wp_bind (M := builder k)), (wp_bind (M := builder k)).
  apply drop_builder; [|by intros m; exists cl]. intros []; cbn [negb].
  - split.
    + split; [by rewrite creates_completion|]. intros id' rest _ Hr. destruct o as [[]|e]; [|done].
      injection Hr as <- _. destruct (Ho eq_refl) as (Hin & q & Hq & Hd). by exists name, body, q.
    + intros rep. cbn [mstep builder]. rewrite (bool_decide_eq_true_2 (completion _ = completion _)) by done.
      assert ((completion (build_work k) == claim_builds_sql k) = false) as -> by by destruct k.
      set (cl' := List.filter _ cl).
      assert (forall i, i ∈ cl -> item_id i <> id -> i ∈ cl') as Hk.
      { intros i Hi Hne. apply list_elem_of_In, filter_In. split; [by apply list_elem_of_In|].
        by rewrite bool_decide_eq_false_2. }
      destruct rep as [v|e|m]; cbn [bind spi_run]; controls; by exists cl'.
  - controls. by exists cl.
Qed.

Lemma loop_builder items n cl dn :
  (forall i, i ∈ omap (build_item k) items -> i ∈ cl) -> NoDup (map item_id (omap (build_item k) items)) ->
  wpb (Some (cl, dn)) (pump_loop clock (build_work k) n items) (fun _ _ => True).
Proof.
  revert n cl dn. induction items as [|item items IH]; intros n cl dn Hcl Hn; [by destruct k|].
  rewrite build_loop_cons. cbn [omap list_omap] in Hcl, Hn.
  destruct (build_item k item) as [[[id name] body]|]; [|by apply IH].
  cbn [map] in Hn. apply list.NoDup_cons in Hn as [Hid Hn].
  destruct (valid_uuid id); [|apply IH; [|done]; intros i Hi; apply Hcl; by right].
  assert ((id, name, body) ∈ cl) as Hin by (apply Hcl; left).
  apply (wp_bind (M := builder k)). eapply (wp_mono (M := builder k)); [by eapply run_build_builder|].
  intros [o|m] s Ho; [|done]. destruct (Ho o eq_refl) as (dn' & -> & Hd).
  apply (wp_bind (M := builder k)). eapply (wp_mono (M := builder k)).
  { apply (submit_builder cl dn' id name body). intros Hok. split; [done|by apply Hd]. }
  intros [[]|m] s (cl' & -> & Hcl'); [|done]. apply IH; [|done]. intros i Hi. apply Hcl'; [apply Hcl; by right|].
  intros E. apply Hid, list_elem_of_fmap. exists i. split; [by rewrite E|done].
Qed.

(** From a claim's reply: given up, or with the items it runs. *)
Lemma claim_builder cl dn :
  wpb (Some (cl, dn)) (claim (claim_builds_sql k) (str "builds") SQL_CLAIM_LIMIT) (fun o s => forall v, o = Returned v ->
    s = None \/ exists cl' dn', s = Some (cl', dn') /\ forall i, i ∈ build_items k v -> i ∈ cl' /\ NoDup (map item_id (build_items k v))).
Proof.
  controls. apply (wp_bind (M := builder k)), (wp_bind (M := builder k)).
  assert (forall s : mstate (Monitor := builder k), s = None \/ (exists cl' dn', s = Some (cl', dn')
            /\ forall i, i ∈ build_items k (nothing_claimed (str "builds")) -> i ∈ cl'
               /\ NoDup (map item_id (build_items k (nothing_claimed (str "builds")))))) as Hnone.
  { intros [[c d]|]; [right; exists c, d|by left]. split; [done|]. by destruct k; intros i Hi%not_elem_of_nil. }
  apply drop_builder; [|done]. intros []; cbn [negb]; [|controls; intros v [= <-]; apply Hnone].
  split.
  - split; [by rewrite creates_claim|]. intros ? ? E. pose proof (claim_not_completion k) as Hx. by rewrite E, bool_decide_eq_true_2 in Hx.
  - intros rep. destruct rep as [[[b|v|x|z]|]|e|m]; cbn [bind spi_get_json ok_flatten default]; try done; controls; intros v' [= <-]; try apply Hnone.
    cbn [ok_flatten default mstep builder]. rewrite bool_decide_eq_true_2 by done. case_bool_decide as Hn; [right|by left].
    exists (build_items k v), ∅. done.
Qed.

Lemma pump_builder cl dn : wpb (Some (cl, dn)) (build_pump k clock) (fun _ _ => True).
Proof.
  assert (build_pump k clock = let* claimed := claim (claim_builds_sql k) (str "builds") SQL_CLAIM_LIMIT in
    match get_array claimed (str "builds") with
    | None => Ret 0%nat
    | Some items => pump_loop clock (build_work k) 0 items
    end) as -> by by destruct k.
  apply (wp_bind (M := builder k)). eapply (wp_mono (M := builder k)); [apply claim_builder|].
  intros [v|m] s Hs; [|done]. destruct (Hs v eq_refl) as [->|(cl' & dn' & -> & Hi)]; [apply given_up_any|].
  unfold build_items in Hi. destruct (get_array v (str "builds")) as [items|]; [|done].
  change (default [] (Some items)) with items in Hi.
  destruct (omap (build_item k) items) as [|i0 l] eqn:Hl; rewrite ?Hl in Hi.
  - apply loop_builder; rewrite Hl; [by intros i ?%not_elem_of_nil|constructor].
  - apply loop_builder; rewrite Hl; [intros i Hx; by destruct (Hi i Hx)|].
    destruct (Hi i0) as [_ Hn]; [left|exact Hn].
Qed.
End pump.

(** ** The theorem *)

Lemma monitored_prefix {M : Monitor} st t t' : t `prefix_of` t' -> monitored st t' -> monitored st t.
Proof. intros [l ->] Hm. by apply monitored_app in Hm as [? _]. Qed.

Lemma worked_sound `{WorkerEnv} k W : worked k W -> sound k W.
Proof.
  induction 1 as [|W W' _ IH Ho|W db h clock t W' _ IH Hp Hr].
  - split; [constructor|constructor|by intros r ?%not_elem_of_nil].
  - assert (in_work k W [] ∅) as Hw by (split; [done|done|by intros ? ? ? ?%not_elem_of_nil]).
    by destruct (work_others k W W' [] ∅ Ho Hw).
  - assert (in_work k W [] ∅) as Hw by (split; [done|done|by intros ? ? ? ?%not_elem_of_nil]).
    eapply shop_run_sound; [exact Hr| |exact Hw]. eapply monitored_prefix; [exact Hp|].
    apply (wp_run (M := builder k) db (build_pump k clock) (fun _ _ => True)), pump_builder.
Qed.

(** C8: built means built from the current text.  The worker's build pumps against the
    table of functions or of procedures, with new rows, edits of bodies and the watchdog
    between any two of its statements, any number of pumps one after the other and the
    worker dying anywhere in them: the object that a row marked built names was created
    by a statement with exactly the row's present body in its dollar quote; an edit made
    between the statement that creates the object and the one that reports it is never
    passed off as built.  The names of the rows stay distinct. *)
Theorem built_is_current `{WorkerEnv} k W r :
  worked k W -> r ∈ builds W -> b_status r = Built ->
  (exists nanos tag, dollar_quote nanos (b_body r) = Some (tag, dollar_quoted tag (b_body r))
     /\ objects W !! b_ident r = Some (ddl_text k (dollar_quoted tag (b_body r))))
  /\ (forall r', r' ∈ builds W -> b_ident r' = b_ident r -> r' = r).
Proof.
  intros [H1 H2 H3]%worked_sound Hr Hs. split; [|intros r' Hr' He; by eapply by_key].
  destruct (H3 r Hr Hs) as (q & (nanos & tag & Hq) & Ho). exists nanos, tag.
  assert (q = dollar_quoted tag (b_body r)) as -> by (unfold dollar_quote in Hq; case_match; congruence).
  done.
Qed.

(** ** A sample build *)

#[local] Instance plain_env : WorkerEnv := {| env_drop_privileges := None |}.

Definition sample_text : bytes := str "BEGIN RETURN p_args; END".
Definition sample_new : build_row := mk_build sample_agent sample_fn sample_text Pending 0.
Definition sample_shop : Workshop := mk_shop [sample_new] ∅.

(** A server with the row to build. *)
Definition shop_db : server := fun h c =>
  match c with
  | Spi sql _ =>
    if sql == claim_builds_sql Function then
      Done (Some (DJson (jobj [(str "builds", JArr [jobj [(str "function_id", JStr sample_agent);
        (str "sql_ident", JStr sample_fn); (str "body", JStr sample_text)]])])))
    else if sql == completion Function_builds then Done None
    else obliging h c
  | _ => Done None
  end.

(** What the server does to the workshop, with nothing locked and the clock at 0. *)
Definition shop_effect (W : Workshop) (c : call) (r : reply) : option Workshop :=
  match c with
  | Spi sql args =>
    if sql == claim_builds_sql Function then
      match args, r with
      | [AInt (Some n)], Done (Some (DJson v)) =>
        let out := fn_claim_builds (Some n) (fun _ => true) 0 W in
        if bool_decide (build_items Function v = map row_item out.2) then Some out.1 else None
      | _, _ => None
      end
    else if sql == completion Function_builds then
      match args, r with
      | [AStr (Some id); ABool ok; _], Done _ => Some (fn_complete_build id ok 0 W)
      | _, _ => None
      end
    else match creates Function sql, args, r with
         | Some (name, text), [], Done _ => Some (create_object name text W)
         | Some _, _, _ => None
         | None, _, _ => Some W
         end
  | _ => Some W
  end.

Lemma shop_effect_answers W c r W' : shop_effect W c r = Some W' -> shop_answers Function W c r W'.
Proof.
  destruct c as [sql args| | | | | | | | | | | | |]; cbn [shop_effect];
    try (intros [= <-]; apply shop_else; by intros).
  case_bool_decide as E1; [subst|case_bool_decide as E2; [subst|]].
  - repeat (case_match; try done). case_bool_decide; [|done]. intros [= <-]. by apply (shop_claim Function).
  - repeat (case_match; try done). intros [= <-]. by apply (shop_complete Function).
  - destruct (creates Function sql) as [[name text]|] eqn:E3.
    + repeat (case_match; try done). intros [= <-]. by apply shop_create.
    + intros [= <-]. apply shop_else. by intros ? ? [= <- <-].
Qed.

Definition shop_fold (W : Workshop) (t : trace) : option Workshop :=
  fold_left (fun o cr => o ≫= fun W => shop_effect W cr.1 cr.2) t (Some W).

Lemma shop_fold_run t : forall W W', shop_fold W t = Some W' -> shop_run Function W t W'.
Proof.
  induction t as [|[c r] t IH]; intros W W'; [intros [= <-]; constructor|].
  unfold shop_fold. cbn [fold_left mbind option_bind fst snd].
  destruct (shop_effect W c r) as [W1|] eqn:E.
  - intros Hf. eapply shop_call; [by apply shop_effect_answers|by apply IH].
  - intros Hf. exfalso. revert Hf. clear. induction t as [|x t IH]; [done|apply IH].
Qed.

Definition shop_trace : trace := (run shop_db [] (build_pump Function (fun _ => 0%Z))).1.

Definition shop_final : Workshop := default (mk_shop [] ∅) (shop_fold sample_shop shop_trace).

Definition sample_built : build_row := mk_build sample_agent sample_fn sample_text Built 0.

Lemma built_is_current_witness :
  exists nanos tag, dollar_quote nanos sample_text = Some (tag, dollar_quoted tag sample_text)
    /\ objects shop_final !! sample_fn = Some (ddl_text Function (dollar_quoted tag sample_text)).
Proof.
  apply (built_is_current Function shop_final sample_built).
  - apply (worked_pump Function sample_shop shop_db [] (fun _ => 0%Z) shop_trace).
    + apply (worked_others Function (mk_shop [] ∅)); [constructor|].
      apply (build_new Function (mk_shop [] ∅) sample_agent sample_fn sample_text 0); apply not_elem_of_nil.
    + done.
    + apply shop_fold_run. vm_compute. reflexivity.
  - assert (builds shop_final = [sample_built]) as -> by (vm_compute; reflexivity). left.
  - reflexivity.
Defined.
