(* ===== verification/Validation.v ===== *)
(** * What an agent's SQL may name

    The worker runs an agent's statement only after [fn_validate_sql] of
    [src/sql/control_plane.sql] let it pass, and [fn_validate_sql] decides by the analysis
    of [sql_parser.rs].  Here are the SQL function and the permission check it calls, on
    top of the analysis of [SqlParser.v]; and what the two together promise of a
    statement the sandbox of [Sandbox.v] gets to run. *)

From stdpp Require Import gmap relations.
From S2P Require Import Prelude Utf8 RustStr SqlParser.

#[local] Arguments str : simpl never.

(** ** The tables *)

Inductive volatility := Immutable_fn | Stable_fn | Volatile_fn.

#[export] Instance volatility_eq_dec : EqDecision volatility.
Proof. solve_decision. Defined.

(** A row of [pg_proc], with the name of its namespace. *)
Record proc := mk_proc { nspname : bytes; proname : bytes; provolatile : volatility; prosecdef : bool }.

(** [agents] by id with [parent_agent_id], [permissions] (agent, type, reference), the two
    allowlists, and the server's functions. *)
Record Catalog := mk_catalog {
  agents : gmap bytes (option bytes);
  permissions : list (bytes * bytes * bytes);
  sql_sandbox_allowlist : list bytes;
  sql_function_allowlist : list bytes;
  pg_proc : list proc
}.

(** ** The engine *)

(** What is PostgreSQL's: [lower] under the database's collation; whether its parser
    raises on a text, and the tree it returns and prints otherwise; and the total cost
    [EXPLAIN] reports, in hundredths, [None] where it raises. *)
Class Engine := {
  lower : bytes -> bytes;
  parser_raises : bytes -> bool;
  Node : Type;
  raw_parser : bytes -> option Node;
  nodeToString : Node -> option bytes;
  explain_cost : bytes -> option (option Z)
}.

(** ** Permissions *)

(** The recursive [chain] of [agent_has_permission]: an agent and its ancestors; [None]
    when the recursion is not over after [fuel] rows. *)
Fixpoint chain (ags : gmap bytes (option bytes)) (fuel : nat) (a : bytes) : option (list bytes) :=
  match ags !! a with
  | None => Some []
  | Some parent =>
    match fuel with
    | O => None
    | S f => cons a <$> match parent with Some p => chain ags f p | None => Some [] end
    end
  end.

Definition agent_has_permission `{Eng : Engine} (C : Catalog) (agent type ref : bytes) : option bool :=
  match chain (agents C) (size (agents C)) agent with
  | None => None
  | Some ids => Some (existsb (fun '(a, t, r) => bool_decide (a ∈ ids) && (t == type) && (lower r == lower ref)) (permissions C))
  end.

(** ** The text *)

(** [btrim(s)] *)
Definition btrim (s : bytes) : bytes :=
  rev (drop_while (fun b => b == x20) (rev (drop_while (fun b => b == x20) s))).

(** [regexp_replace(s, ';+\s*$', '')], [\s] being the ASCII white space. *)
Definition strip_terminator (s : bytes) : bytes :=
  let t := drop_while ascii_space (rev s) in
  match t with
  | b :: _ => if b == ";"%byte then rev (drop_while (fun b => b == ";"%byte) t) else s
  | [] => s
  end.

(** [length(s)], in characters. *)
Definition char_length (s : bytes) : nat := length (List.filter (fun b => negb (is_cont b)) s).

(** ** [fn_validate_sql] *)

Inductive validation_error :=
| Empty_sql
| Too_long
| Not_parseable
| Not_analysed
| Expected_one (found : nat)
| Only_select
| Statement_writes
| Too_many_tables
| Unqualified (name : bytes)
| Schema_not_readable (schema : bytes)
| Not_in_allowlist (ref : bytes)
| Function_denied (name : bytes)
| Function_not_listed (name : bytes)
| Unknown_function (name : bytes)
| Unsafe_function (name : bytes)
| Engine_rejected
| Too_costly
| Interrupted.   (* the permission query does not end *)

#[export] Instance validation_error_eq_dec : EqDecision validation_error.
Proof. solve_decision. Defined.

(** [c_reserved] and [c_denied_fns] *)
Definition reserved : list bytes :=
  [str "allgres_private"; str "allgres"; str "pg_catalog"; str "pg_toast"; str "information_schema"].

Definition denied_fns : list bytes :=
  [str "current_setting"; str "set_config"; str "current_database"; str "current_catalog"; str "current_schema";
   str "current_schemas"; str "current_user"; str "session_user"; str "inet_client_addr"; str "inet_client_port";
   str "inet_server_addr"; str "inet_server_port"; str "pg_backend_pid"; str "pg_postmaster_start_time";
   str "pg_conf_load_time"; str "pg_trigger_depth"; str "pg_is_in_recovery"; str "version"; str "txid_current";
   str "txid_current_snapshot"; str "txid_status"; str "txid_snapshot_xmin"; str "txid_snapshot_xmax";
   str "txid_snapshot_xip"; str "pg_current_xact_id"; str "pg_current_xact_id_if_assigned"; str "pg_current_snapshot";
   str "pg_last_wal_receive_lsn"; str "pg_last_wal_replay_lsn"; str "pg_last_xact_replay_timestamp"].

(** The first exception a loop over [l] raises. *)
Definition first_error {A} (check : A -> option validation_error) (l : list A) : option validation_error :=
  head (filter_map check l).

Definition c_max_tables : nat := 10.
Definition c_max_cost : Z := 2000000000.   (* 20000000.00 *)

Section validate.
Context `{Eng : Engine} (C : Catalog) (p_agent_id : bytes).

Definition schema_reserved (v_schema : bytes) : bool :=
  bool_decide (lower v_schema ∈ reserved) || starts_with (str "pg_") (lower v_schema).

(** The body of the loop over [relations]. *)
Definition check_relation (v_ctes : list bytes) (v_rel : option bytes * bytes) : option validation_error :=
  match v_rel with
  | (None, name) => if bool_decide (name ∈ v_ctes) then None else Some (Unqualified name)
  | (Some v_schema, name) =>
    if schema_reserved v_schema then Some (Schema_not_readable v_schema)
    else
      let v_ref := v_schema ++ str "." ++ name in
      match agent_has_permission C p_agent_id (str "view") v_ref with
      | None => Some Interrupted
      | Some permitted =>
        if bool_decide (v_ref ∈ sql_sandbox_allowlist C) && permitted then None else Some (Not_in_allowlist v_ref)
      end
  end.

(** The rows a name is looked up in: those of its schema, or of [pg_catalog]. *)
Definition overloads (schema : option bytes) (name : bytes) : list proc :=
  List.filter (fun p => (proname p == name) && (nspname p == default (str "pg_catalog") schema)) (pg_proc C).

Definition safe_fn (p : proc) : bool := (provolatile p != Volatile_fn) && negb (prosecdef p).

(** The body of the loop over [functions]. *)
Definition check_function (v_fn : option bytes * bytes) : option validation_error :=
  let (schema, name) := v_fn in
  if bool_decide (lower name ∈ denied_fns) then Some (Function_denied name)
  else if negb (bool_decide (lower name ∈ sql_function_allowlist C)) then Some (Function_not_listed name)
  else
    let v_all_fns := length (overloads schema name) in
    let v_safe_fns := length (List.filter safe_fn (overloads schema name)) in
    if (v_all_fns =? 0)%nat then Some (Unknown_function name)
    else if negb (v_safe_fns =? v_all_fns)%nat then Some (Unsafe_function name)
    else None.

(** [allgres.analyze_sql] behind the parser, which raises on a syntax error; a panic
    raises too. *)
Definition analyze_or_raise (v_sql : bytes) : option dump_result :=
  if parser_raises v_sql then None else analyze_sql raw_parser nodeToString v_sql.

Definition fn_validate_sql (p_sql : option bytes) : validation_error + bytes :=
  let v_sql := strip_terminator (btrim (default [] p_sql)) in
  if v_sql == [] then inl Empty_sql
  else if (8000 <? Z.of_nat (char_length v_sql))%Z then inl Too_long
  else
    match analyze_or_raise v_sql with
    | None => inl Not_parseable
    | Some Unparseable => inl Not_analysed
    | Some (Analyzed v_tree) =>
      if negb (statements v_tree =? 1)%nat then inl (Expected_one (statements v_tree))
      else if kind v_tree != str "select" then inl Only_select
      else if writes v_tree then inl Statement_writes
      else if (c_max_tables <? length (relations v_tree))%nat then inl Too_many_tables
      else
        match first_error (check_relation (ctes v_tree)) (relations v_tree) with
        | Some e => inl e
        | None =>
          match first_error check_function (functions v_tree) with
          | Some e => inl e
          | None =>
            match explain_cost v_sql with
            | None => inl Engine_rejected
            | Some (Some v_cost) => if (c_max_cost <? v_cost)%Z then inl Too_costly else inr v_sql
            | Some None => inr v_sql
            end
          end
        end
    end.
End validate.

(** ** The chain of ancestors *)

Definition parent_of (ags : gmap bytes (option bytes)) (a p : bytes) : Prop := ags !! a = Some (Some p).

(** How the table of agents comes about: an agent is inserted under a new id and, if it
    has a parent, one that exists; the foreign key keeps a parent from being deleted. *)
Inductive agents_made : gmap bytes (option bytes) -> Prop :=
| no_agents : agents_made ∅
| new_agent ags id parent :
    agents_made ags -> ags !! id = None -> (forall p, parent = Some p -> is_Some (ags !! p)) ->
    agents_made (<[id := parent]> ags)
| agent_deleted ags id :
    agents_made ags -> (forall a, ~ parent_of ags a id) -> agents_made (delete id ags).

(** Ranks that fall from an agent to its parent. *)
Definition ranked (ags : gmap bytes (option bytes)) (rank : bytes -> nat) : Prop :=
  forall a p, parent_of ags a p -> (rank p < rank a)%nat /\ is_Some (ags !! p).

Lemma agents_made_ranked ags : agents_made ags -> exists rank, ranked ags rank.
Proof.
  unfold ranked, parent_of. induction 1 as [|ags id parent _ [rank IH] Hid Hp|ags id _ [rank IH] Hc].
  - by exists (fun _ => O).
  - exists (fun x => if decide (x = id) then match parent with Some p => S (rank p) | None => O end else rank x).
    intros a p [[<- Ha]|[Hne Ha]]%lookup_insert_Some.
    + subst parent. destruct (Hp p eq_refl) as [v Hv]. assert (p <> id) as Hpi by congruence.
      destruct (decide (p = id)) as [?|_]; [done|]. rewrite decide_True by done. split; [lia|]. by rewrite lookup_insert_ne.
    + destruct (IH a p Ha) as [Hr [v Hv]]. assert (p <> id) by congruence.
      destruct (decide (p = id)) as [?|_]; [done|]. destruct (decide (a = id)) as [?|_]; [done|]. split; [done|]. by rewrite lookup_insert_ne.
  - exists rank. intros a p [Hne Ha]%lookup_delete_Some. destruct (IH a p Ha) as [Hr Hv].
    split; [done|]. rewrite lookup_delete_ne; [done|]. intros ->. by apply (Hc a).
Qed.

Lemma ranked_acyclic ags rank a b : ranked ags rank -> tc (parent_of ags) a b -> (rank b < rank a)%nat.
Proof. intros Hr. induction 1 as [x y Hxy|x y z Hxy _ IH]; apply Hr in Hxy as [? _]; lia. Qed.

(** The rows come to an end: those behind are distinct from those to come. *)
Lemma chain_ends ags rank fuel : forall (seen : gset bytes) a,
  ranked ags rank -> seen ⊆ dom ags -> (forall v, v ∈ seen -> (rank a < rank v)%nat) ->
  (size ags <= size seen + fuel)%nat -> is_Some (chain ags fuel a).
Proof.
  induction fuel as [|fuel IH]; intros seen a Hr Hs Hv Hf; simpl.
  - destruct (ags !! a) as [parent|] eqn:Ha; [|done]. exfalso.
    assert (size (seen ∪ {[a]}) <= size (dom ags))%nat as Hle.
    { apply subseteq_size. intros x [Hx|Hx]%elem_of_union; [by apply Hs|].
      apply elem_of_singleton in Hx as ->. by apply elem_of_dom. }
    rewrite size_union, size_singleton, size_dom in Hle; [lia|].
    intros x Hx ->%elem_of_singleton. apply Hv in Hx. lia.
  - destruct (ags !! a) as [[p|]|] eqn:Ha; [|done..]. destruct (Hr a p Ha) as [Hp _].
    assert (a ∉ seen) as Hns by (intros Hx; apply Hv in Hx; lia).
    destruct (IH (seen ∪ {[a]}) p Hr) as [l ->]; [| | |by eexists].
    + intros x [Hx|Hx]%elem_of_union; [by apply Hs|]. apply elem_of_singleton in Hx as ->. by apply elem_of_dom.
    + intros v [Hx|Hx]%elem_of_union; [apply Hv in Hx; lia|]. by apply elem_of_singleton in Hx as ->.
    + rewrite size_union, size_singleton by set_solver. lia.
Qed.

Lemma chain_elem ags x fuel : forall a l,
  chain ags fuel a = Some l -> x ∈ l <-> rtc (parent_of ags) a x /\ is_Some (ags !! x).
Proof.
  assert (forall a, ags !! a = None -> ~ (rtc (parent_of ags) a x /\ is_Some (ags !! x))) as Hno.
  { intros a Ha [Hrt Hx]. inversion Hrt as [|? y ? Hay]; simplify_eq; [by rewrite Ha in Hx; destruct Hx|].
    unfold parent_of in Hay. congruence. }
  induction fuel as [|fuel IH]; intros a l; simpl; destruct (ags !! a) as [parent|] eqn:Ha; try done.
  - intros [= <-]. split; [by intros ?%not_elem_of_nil|]. intros Hx. by edestruct Hno.
  - intros (l' & Hl & ->)%fmap_Some. rewrite elem_of_cons. split.
    + intros [->|Hx]; [by split; [constructor|eexists]|]. destruct parent as [p|]; [|by simplify_eq; apply not_elem_of_nil in Hx].
      apply (IH p l' Hl) in Hx as [Hrt Hs]. split; [by eapply rtc_l|done].
    + intros [Hrt Hs]. inversion Hrt as [|? y ? Hay]; simplify_eq; [by left|]. right.
      unfold parent_of in Hay. assert (parent = Some y) as -> by congruence. by apply (IH y l' Hl).
  - intros [= <-]. split; [by intros ?%not_elem_of_nil|]. intros Hx. by edestruct Hno.
Qed.

(** What a permission means: a grant to the agent or to one of its ancestors. *)
Definition granted `{Eng : Engine} (C : Catalog) (agent type ref : bytes) : Prop :=
  exists b r, rtc (parent_of (agents C)) agent b /\ is_Some (agents C !! b)
    /\ (b, type, r) ∈ permissions C /\ lower r = lower ref.

Lemma permission_granted `{Eng : Engine} C agent type ref b :
  agent_has_permission C agent type ref = Some b -> b = true <-> granted C agent type ref.
Proof.
  unfold agent_has_permission, granted. destruct (chain _ _ agent) as [ids|] eqn:Hc; [|done]. intros [= <-].
  rewrite existsb_exists. split.
  - intros ([[a t] r] & Hin & Hb).
    apply andb_true_iff in Hb as [[Ha%bool_decide_eq_true Ht%bool_decide_eq_true]%andb_true_iff Hl%bool_decide_eq_true].
    subst t. apply (chain_elem _ _ _ _ _ Hc) in Ha as [Hrt Hs].
    exists a, r. ands; [done|done|by apply list_elem_of_In|done].
  - intros (a & r & Hrt & Hs & Hin & Hl). exists (a, type, r). split; [by apply list_elem_of_In|].
    apply andb_true_iff; split; [apply andb_true_iff; split|]; apply bool_decide_eq_true_2; [|done|done].
    by apply (chain_elem _ _ _ _ _ Hc).
Qed.

(** The permission query ends on every table of agents there can be, and answers whether
    the agent or an ancestor of it holds the grant. *)
Theorem permission_decided `{Eng : Engine} C agent type ref :
  agents_made (agents C) ->
  exists b, agent_has_permission C agent type ref = Some b /\ (b = true <-> granted C agent type ref).
Proof.
  intros [rank Hr]%agents_made_ranked.
  destruct (chain_ends (agents C) rank (size (agents C)) ∅ agent Hr) as [ids Hc];
    [by apply empty_subseteq|by intros v ?%not_elem_of_empty|lia|].
  destruct (agent_has_permission C agent type ref) as [b|] eqn:Hb.
  - exists b. split; [done|]. by apply permission_granted.
  - unfold agent_has_permission in Hb. by rewrite Hc in Hb.
Qed.

(** ** What passes *)

Lemma first_error_none {A} (check : A -> option validation_error) l x :
  first_error check l = None -> x ∈ l -> check x = None.
Proof.
  unfold first_error, filter_map. induction l as [|y l IH]; [by intros _ ?%not_elem_of_nil|].
  simpl. destruct (check y) eqn:E; [done|]. intros Hl [->|Hx]%elem_of_cons; [done|by apply IH].
Qed.

Section passes.
Context `{Eng : Engine} (C : Catalog) (agent : bytes).

(** The exits of [fn_validate_sql] that were not taken. *)
Lemma validate_inv p_sql q :
  fn_validate_sql C agent p_sql = inr q ->
  q = strip_terminator (btrim (default [] p_sql)) /\ q <> [] /\ (Z.of_nat (char_length q) <= 8000)%Z
  /\ exists a, analyze_dump (raw_parse_dump raw_parser nodeToString q) = Some (Analyzed a)
    /\ parser_raises q = false
    /\ statements a = 1%nat /\ kind a = str "select" /\ writes a = false /\ (length (relations a) <= 10)%nat
    /\ (forall r, r ∈ relations a -> check_relation C agent (ctes a) r = None)
    /\ (forall f, f ∈ functions a -> check_function C f = None)
    /\ exists cost, explain_cost q = Some cost /\ (forall c, cost = Some c -> (c <= 2000000000)%Z).
Proof.
  unfold fn_validate_sql. set (v := strip_terminator _). clearbody v.
  case_bool_decide as E1; [done|]. destruct (8000 <? Z.of_nat (char_length v))%Z eqn:E2; [done|].
  unfold analyze_or_raise, analyze_sql. destruct (parser_raises v) eqn:E3; [done|].
  destruct (analyze_dump _) as [[|a]|] eqn:E4; [done| |done].
  destruct (statements a =? 1)%nat eqn:E5; [|done]. case_bool_decide as E6; [|done]. cbn [negb].
  destruct (writes a) eqn:E7; [done|]. destruct (c_max_tables <? length (relations a))%nat eqn:E8; [done|].
  destruct (first_error (check_relation _ _ _) _) as [e|] eqn:E9; [done|].
  destruct (first_error (check_function _) _) as [e|] eqn:E10; [done|].
  destruct (explain_cost v) as [cost|] eqn:E11; [|done]. intros Hq.
  assert (q = v /\ forall c, cost = Some c -> (c <= 2000000000)%Z) as [-> Hcost].
  { destruct cost as [c|]; [|by simplify_eq]. destruct (c_max_cost <? c)%Z eqn:E12; [done|]. simplify_eq.
    split; [done|]. intros ? [= <-]. unfold c_max_cost in E12. lia. }
  apply Nat.eqb_eq in E5. apply Nat.ltb_ge in E8. ands; [done|done|lia|]. exists a.
  ands; [done|done|done|done|done|done| | |].
  - intros r Hr. by eapply first_error_none.
  - intros f Hf. by eapply first_error_none.
  - by exists cost.
Qed.

(** What the checks of one relation and one function establish. *)
Lemma relation_checked cs s n :
  check_relation C agent cs (Some s, n) = None ->
  (lower s ∉ reserved) /\ ~ str "pg_" `prefix_of` lower s
  /\ (s ++ str "." ++ n) ∈ sql_sandbox_allowlist C /\ granted C agent (str "view") (s ++ str "." ++ n).
Proof.
  cbn [check_relation]. unfold schema_reserved. case_bool_decide as E1; [done|]. cbn [orb].
  destruct (starts_with (str "pg_") (lower s)) eqn:E2; [done|].
  destruct (agent_has_permission _ _ _ _) as [[|]|] eqn:E3; [|by rewrite andb_false_r|done].
  case_bool_decide as E4; [|done]. intros _. ands; [done| |done|].
  - intros Hp%starts_with_spec. congruence.
  - by apply (permission_granted _ _ _ _ _ E3).
Qed.

Lemma function_checked s n :
  check_function C (s, n) = None ->
  (lower n ∉ denied_fns) /\ lower n ∈ sql_function_allowlist C
  /\ (exists p, p ∈ overloads C s n)
  /\ (forall p, p ∈ overloads C s n -> provolatile p <> Volatile_fn /\ prosecdef p = false).
Proof.
  cbn [check_function]. case_bool_decide as E1; [done|]. case_bool_decide as E2; [|done]. cbn [negb].
  destruct (overloads C s n) as [|p ps] eqn:E3; [done|]. rewrite <- E3.
  destruct (length (overloads C s n) =? 0)%nat eqn:E4; [done|].
  destruct (length (List.filter _ _) =? length (overloads C s n))%nat eqn:E5; [|done]. intros _.
  apply Nat.eqb_eq in E5. ands; [done|done|exists p; rewrite E3; left|].
  intros p' Hp'. assert (safe_fn p' = true) as Hs.
  { apply filter_length_forallb in E5. rewrite forallb_forall in E5. by apply E5, list_elem_of_In. }
  unfold safe_fn in Hs. apply andb_true_iff in Hs as [Hv Hd]. breflect. by destruct (prosecdef p').
Qed.
End passes.

(** ** The promise *)

(** A [RangeVar] with plain names printed anywhere in a dump: schema and catalog spelled
    without a colon, schema and relation without carriage return and form feed. *)
Definition prints_plain_relation (dump : bytes) (schema : option bytes) (name : bytes) : Prop :=
  exists pre post vc ec es er tail,
    dump = pre ++ str "{RANGEVAR " ++ rangevar_text ec es er tail ++ str "}" ++ post
    /\ spells vc ec /\ spells schema es /\ spells (Some name) er
    /\ readable_opt schema = true /\ readable name = true
    /\ (":"%byte ∉ ec) /\ (":"%byte ∉ es) /\ balanced "{"%byte "}"%byte tail = true.

(** A function with a plain name printed anywhere in a dump: no part of it holds a quote. *)
Definition prints_plain_function (dump : bytes) (schema : option bytes) (name : bytes) : Prop :=
  exists pre post ns es,
    dump = pre ++ str ":funcname (" ++ quoted_list es ++ str ")" ++ post
    /\ Forall2 quoted_name (ns ++ [name]) es /\ schema = list.last ns.

(** A name behind [:ctename ]. *)
Definition names_cte (dump name : bytes) : Prop :=
  exists pre post k, dump = pre ++ str ":ctename " ++ post /\ read_token post = Some (Some name, k).

Lemma collect_elem {A} (f : bytes -> option (option A)) tag dump rs r :
  collect f tag dump = Some rs -> r ∈ rs -> exists x, x ∈ occurrences tag 0 dump /\ f x = Some (Some r).
Proof.
  unfold collect, filter_map. generalize (occurrences tag 0 dump). intros xs Hc Hr.
  destruct (sequence _) as [l|] eqn:Hs; [|done]. simplify_eq. revert l Hs Hr.
  induction xs as [|x xs IH]; intros l Hs Hr; simpl in Hs; [simplify_eq; by apply not_elem_of_nil in Hr|].
  destruct (f x) as [o|] eqn:Hf; [|done]. apply fmap_Some in Hs as (l' & Hl & ->).
  destruct o as [r'|]; simpl in Hr.
  - apply elem_of_cons in Hr as [->|Hr]; [exists x; split; [left|done]|].
    destruct (IH l' Hl Hr) as (y & Hy & He). exists y. split; [by right|done].
  - destruct (IH l' Hl Hr) as (y & Hy & He). exists y. split; [by right|done].
Qed.

(** C11: what an agent's statement may name.  When [fn_validate_sql] lets a text through,
    the text it returns, which is the one that gets to run, is the given one without the
    blanks around it and the semicolons behind it, at most 8000 characters long, and
    PostgreSQL's dump of its parse tree holds exactly one statement, a [SELECT] that
    neither selects into a table nor modifies data.  Every relation printed anywhere in
    that dump with plain names (schema and catalog without a colon, schema and relation
    without carriage return and form feed) either has no schema and the name of one of
    the statement's own CTEs, or lies outside the reserved schemas, is on the sandbox's
    allowlist and granted to the agent or an ancestor of it.  Every function printed
    there with a plain name (without a quote character) is on the function allowlist and
    not denied, exists in the schema it names (in [pg_catalog] when it names none), and
    all its overloads there are non-volatile and not security-definer.  The other names
    are those the analysis misreads ([colon_in_schema_misread], [cr_in_name_misread],
    [quotes_in_name_misread]). *)
Theorem validated_sql_confined `{Eng : Engine} C agent p_sql q :
  fn_validate_sql C agent p_sql = inr q ->
  let dump := raw_parse_dump raw_parser nodeToString q in
  (q = strip_terminator (btrim (default [] p_sql)) /\ (Z.of_nat (char_length q) <= 8000)%Z)
  /\ (kinds_of dump = [str "SELECTSTMT"] /\ has_into dump = false /\ has_dml dump = false)
  /\ (forall n, prints_plain_relation dump None n -> names_cte dump n)
  /\ (forall s n, prints_plain_relation dump (Some s) n ->
        (lower s ∉ reserved) /\ ~ str "pg_" `prefix_of` lower s
        /\ (s ++ str "." ++ n ∈ sql_sandbox_allowlist C) /\ granted C agent (str "view") (s ++ str "." ++ n))
  /\ (forall s n, prints_plain_function dump s n ->
        (lower n ∉ denied_fns) /\ (lower n ∈ sql_function_allowlist C)
        /\ (exists p, p ∈ overloads C s n)
        /\ (forall p, p ∈ overloads C s n -> provolatile p <> Volatile_fn /\ prosecdef p = false)).
Proof.
  intros (Hq & _ & Hlen & a & Ha & _ & _ & Hk & Hw & _ & Hrel & Hfn & _)%validate_inv dump. fold dump in Ha.
  apply analyze_dump_inv in Ha as (Hrels & Hctes & Hfns & _ & Hkind & Hwr).
  rewrite Hw in Hwr. symmetry in Hwr. apply orb_false_iff in Hwr as [Hinto Hdml].
  assert (forall s n, prints_plain_relation dump s n -> check_relation C agent (ctes a) (s, n) = None) as Hr.
  { intros s n (pre & post & vc & ec & es & er & tail & -> & Hc & Hs & Hn & Hvs & Hvn & Hcc & Hcs & Ht). apply Hrel.
    eapply collect_complete; [|exact Hrels|]; [done|]. by eapply relation_of_rangevar. }
  ands; [done|done| |done|done| | |].
  - rewrite Hk in Hkind. by case_bool_decide.
  - intros n Hn%Hr. simpl in Hn. case_bool_decide as Hin; [|done].
    destruct (collect_elem _ _ _ _ _ Hctes Hin) as (x & [pre Hx]%occurrences_suffix & He).
    unfold cte_of in He. destruct (read_token x) as [[o k]|] eqn:Ht; [|done]. simplify_eq/=.
    by exists pre, x, k.
  - intros s n Hn%Hr. by eapply relation_checked.
  - intros s n (pre & post & ns & es & Hd & Hes & ->). apply function_checked, Hfn.
    rewrite Hd in Hfns. eapply collect_complete; [|exact Hfns|]; [done|]. by apply function_of_list.
Qed.

(** ** A sample *)

(** An engine whose parser prints [dump] for every text. *)
Definition printing (dump : bytes) : Engine :=
  {| lower := to_ascii_lowercase; parser_raises := fun _ => false; Node := bytes;
     raw_parser := Some; nodeToString := fun _ => Some dump; explain_cost := fun _ => Some (Some 1250%Z) |}.

Definition analyst : bytes := str "0f6f1b7c-3c2e-4f5a-9a1b-2c3d4e5f6a7b".
Definition root_agent : bytes := str "1f6f1b7c-3c2e-4f5a-9a1b-2c3d4e5f6a7b".

(** The grant is the parent's; [sum] has two overloads, and a namesake elsewhere. *)
Definition sales_catalog : Catalog :=
  {| agents := <[analyst := Some root_agent]> (<[root_agent := None]> ∅);
     permissions := [(root_agent, str "view", str "Allgres_Public.v_sales")];
     sql_sandbox_allowlist := [str "allgres_public.v_sales"];
     sql_function_allowlist := [str "sum"; str "format"];
     pg_proc := [mk_proc (str "pg_catalog") (str "sum") Immutable_fn false; mk_proc (str "pg_catalog") (str "sum") Immutable_fn false;
                 mk_proc (str "app") (str "sum") Volatile_fn true; mk_proc (str "app") (str "format") Stable_fn false] |}.

Definition in_quotes (s : bytes) : bytes := [QUOTE] ++ s ++ [QUOTE].

Definition calling (name : bytes) (from : bytes) : bytes :=
  str "({RAWSTMT :stmt {SELECTSTMT :intoClause <> :targetList ({RESTARGET :val {FUNCCALL :funcname (" ++ name
    ++ str ") :args <>}}) :fromClause (" ++ from ++ str ")}})".

Definition sales_relation : bytes :=
  str "{RANGEVAR :catalogname <> :schemaname allgres_public :relname v_sales :inh true}".

Definition sales_dump : bytes := calling (in_quotes (str "sum")) sales_relation.

Lemma validated_sql_confined_witness :
  fn_validate_sql (Eng := printing sales_dump) sales_catalog analyst (Some (str " select sum(amount) from allgres_public.v_sales; "))
    = inr (str "select sum(amount) from allgres_public.v_sales")
  /\ granted (Eng := printing sales_dump) sales_catalog analyst (str "view") (str "allgres_public.v_sales").
Proof.
  assert (fn_validate_sql (Eng := printing sales_dump) sales_catalog analyst
            (Some (str " select sum(amount) from allgres_public.v_sales; "))
          = inr (str "select sum(amount) from allgres_public.v_sales")) as Hv by (vm_compute; reflexivity).
  split; [exact Hv|].
  destruct (validated_sql_confined (Eng := printing sales_dump) _ _ _ _ Hv) as (_ & _ & _ & Hr & _).
  apply (Hr (str "allgres_public") (str "v_sales")).
  exists (str "({RAWSTMT :stmt {SELECTSTMT :intoClause <> :targetList ({RESTARGET :val {FUNCCALL :funcname (" ++ in_quotes (str "sum")
          ++ str ") :args <>}}) :fromClause ("), (str ")}})"), None, (str "<>"), (str "allgres_public"), (str "v_sales"), (str ":inh true").
  split_and!; try (vm_compute; reflexivity).
  - constructor.
  - apply sp_token; [|done|done]. repeat (apply te_plain; [done|done|done|]). constructor.
  - apply sp_token; [|done|done]. repeat (apply te_plain; [done|done|done|]). constructor.
  - apply (bool_decide_eq_false_1 (":"%byte ∈ str "<>")). reflexivity.
  - apply (bool_decide_eq_false_1 (":"%byte ∈ str "allgres_public")). reflexivity.
Defined.

(** ** Where it departs from what it intends *)

(** A function of a user's schema passes when its bare name is on the allowlist and it is
    neither volatile nor security-definer: the schema a call names is never compared with
    [pg_catalog]. *)
Example qualified_user_function_accepted :
  let dump := calling (in_quotes (str "app") ++ str " " ++ in_quotes (str "format")) sales_relation in
  fn_validate_sql (Eng := printing dump) sales_catalog analyst (Some (str "select app.format() from allgres_public.v_sales"))
    = inr (str "select app.format() from allgres_public.v_sales")
  /\ overloads sales_catalog None (str "format") = [].
Proof. vm_compute. done. Qed.

(** Two terminators with a blank between them: one of them stays, and the text no longer
    fits into the subquery it is run in. *)
Example terminator_left : strip_terminator (btrim (str "select 1; ; ")) = str "select 1; ".
Proof. vm_compute. reflexivity. Qed.
