(* ===== verification/AgentSql.v ===== *)
(** * The way of an agent's statement

    From the text an agent answers with ([Validation.v]) over the table [sql_calls] of
    [src/sql/control_plane.sql] and the worker's claim to the sandbox ([Sandbox.v]): over
    whole lifetimes of the worker nothing runs there but what was validated, and it runs as
    the agent it was validated for. *)

From stdpp Require Import gmap relations.
From S2P Require Import Prelude Utf8 RustStr Net Json Spi SqlParser Privilege Sandbox FunctionExec ProcedureExec.
From S2P Require Import Outbound Pool RuntimeWorker System CallTables ControlPlane JobOrigin Validation.

#[local] Arguments str : simpl never.
#[local] Arguments format_radix : simpl never.

(** ** Programs that leave the sandbox alone *)

Fixpoint free {A} (p : prog A) : Prop :=
  match p with
  | Ret _ | Throw _ => True
  | Do c k => match c with Spi sql _ => starts_with RUN_SANDBOXED sql = false | _ => True end
              /\ forall r, free (k r)
  end.

Lemma free_bind {A B} (p : prog A) (f : A -> prog B) : free p -> (forall a, free (f a)) -> free (bind p f).
Proof. intros Hp Hf. induction p as [a|m|c k IH]; [apply Hf|done|]. destruct Hp as [Hc Hk]. split; [done|auto]. Qed.

Lemma free_catch {A} (p : prog A) h : free p -> (forall m, free (h m)) -> free (catch_others p h).
Proof. intros Hp Hh. induction p as [a|m|c k IH]; [done|apply Hh|]. destruct Hp as [Hc Hk]. split; [done|auto]. Qed.

Lemma free_control {A} c (k : reply -> prog A) :
  (forall sql args, c <> Spi sql args) -> (forall r, free (k r)) -> free (Do c k).
Proof. intros Hc Hk. split; [|done]. destruct c; try done. by edestruct Hc. Qed.

Lemma free_transaction {A} (p : prog A) : free p -> free (transaction p).
Proof. intros Hp. apply free_control; [done|]. intros r. by apply free_bind. Qed.

Lemma free_and_then (p q : prog bool) : free p -> free q -> free (and_then p q).
Proof. intros Hp Hq. apply free_bind; [done|]. by intros []. Qed.

Lemma free_json sql args : starts_with RUN_SANDBOXED sql = false -> free (spi_get_json sql args).
Proof. intros Hs. split; [done|]. by intros [[[]|]| |]. Qed.

Lemma free_run sql args : starts_with RUN_SANDBOXED sql = false -> free (spi_run sql args).
Proof. intros Hs. split; [done|]. by intros []. Qed.

Lemma free_run_ok sql args : starts_with RUN_SANDBOXED sql = false -> free (spi_run_ok sql args).
Proof. intros Hs. apply free_bind; [by apply free_run|done]. Qed.

Section free_programs.
Context `{WorkerEnv}.

Lemma free_drop : free drop_privileges.
Proof.
  unfold drop_privileges. destruct (env_drop_privileges == _); [done|].
  split; [done|]. by intros [[[[]| | |]|]|e|m].
Qed.

(** The body of a transaction that drops its privileges first. *)
Lemma free_dropped {A} (no yes : prog A) : free no -> free yes -> free (let* d := drop_privileges in if negb d then no else yes).
Proof. intros Hn Hy. apply free_bind; [apply free_drop|]. by intros []. Qed.

Lemma free_claim sql field n : starts_with RUN_SANDBOXED sql = false -> free (claim sql field n).
Proof.
  intros Hs. apply free_transaction, free_dropped; [done|]. apply free_bind; [by apply free_json|done].
Qed.

Lemma free_record {A} skipped failed (p : prog (result A)) : free p -> free (record skipped failed p).
Proof.
  intros Hp. apply free_transaction, free_dropped; [done|]. apply free_bind; [done|]. by intros [].
Qed.

Lemma free_subtransaction guards unavailable (work : prog (result json)) :
  free guards -> free work ->
  free (transaction (run_in_subtransaction (
          let* dropped := guards in if negb dropped then Ret (Err unavailable) else work))).
Proof.
  intros Hg Hw. apply free_transaction. do 2 (apply free_control; [done|]; intros ?). apply free_bind.
  - apply free_catch; [|done]. apply free_bind; [done|]. by intros [].
  - by intros [v|e].
Qed.

Lemma free_timed ms sql args none : starts_with RUN_SANDBOXED sql = false -> free (with_statement_timeout ms sql args none).
Proof. intros Hs. apply free_control; [done|]. intros r. apply free_bind; [by apply free_json|done]. Qed.

Lemma free_run_as_agent role ms unavailable sql args :
  starts_with RUN_SANDBOXED sql = false -> free (run_as_agent role ms unavailable sql args).
Proof.
  intros Hs. apply free_subtransaction; [|by apply free_timed].
  apply free_and_then; [apply free_drop|]. do 2 (apply free_and_then; [by apply free_run_ok|]). by apply free_run_ok.
Qed.

Lemma free_run_build prefix mk_ddl nanos name body :
  (forall q, starts_with RUN_SANDBOXED (mk_ddl name q) = false) -> free (run_build prefix mk_ddl nanos name body).
Proof.
  intros Hd. unfold run_build. destruct (negb _); [done|]. destruct (dollar_quote nanos body) as [[? q]|]; [|done].
  apply free_bind; [|done]. apply free_subtransaction.
  - apply free_and_then; [apply free_drop|by apply free_run_ok].
  - apply free_bind; [by apply free_run|done].
Qed.

(** The loops of the executors. *)
Lemma free_pump_builds key clock build submit n bs :
  (forall z i b, free (build z i b)) -> (forall i o, free (submit i o)) -> free (pump_builds key clock build submit n bs).
Proof.
  intros Hb Hs. revert n. induction bs as [|b bs IH]; intros n; [done|]. cbn [pump_builds].
  repeat (case_match; [|apply IH]). destruct (negb _); [apply IH|].
  apply free_bind; [apply Hb|]. intros o. apply free_bind; [apply Hs|]. intros ?. apply IH.
Qed.

Lemma free_pump_calls run_call submit n cs :
  (forall i a r, free (run_call i a r)) -> (forall i o, free (submit i o)) -> free (pump_calls run_call submit n cs).
Proof.
  intros Hc Hs. revert n. induction cs as [|c cs IH]; intros n; [done|]. cbn [pump_calls].
  repeat (case_match; [|apply IH]). destruct (negb _); [apply IH|].
  apply free_bind; [apply Hc|]. intros o. apply free_bind; [apply Hs|]. intros ?. apply IH.
Qed.

Lemma free_function_pumps clock : free (pump_function_builds clock) /\ free pump_function_calls.
Proof.
  split; (apply free_bind; [by apply free_claim|]; intros v; destruct (get_array v _) as [l|]; [|done]).
  - apply free_pump_builds; [intros; by apply free_run_build|]. intros. by apply free_record, free_run.
  - apply free_pump_calls; [|intros; by apply free_record, free_json].
    intros i a r. unfold run_function_call. destruct (negb _); [done|by apply free_run_as_agent].
Qed.

Lemma free_procedure_pumps clock : free (pump_procedure_builds clock) /\ free pump_procedure_calls.
Proof.
  split; (apply free_bind; [by apply free_claim|]; intros v; destruct (get_array v _) as [l|]; [|done]).
  - apply free_pump_builds; [intros; by apply free_run_build|]. intros. by apply free_record, free_run.
  - apply free_pump_calls; [|intros; by apply free_record, free_json].
    intros i a r. unfold run_procedure_call. destruct (negb _); [done|by apply free_run_as_agent].
Qed.

Lemma free_dispatch n : free (dispatch_and_claim n).
Proof.
  apply free_transaction, free_dropped; [done|].
  do 2 (apply free_bind; [apply free_bind; [by apply free_json|by intros []]|intros ?]).
  apply free_bind; [by apply free_json|done].
Qed.

Lemma free_pump_queue rdy open q kind claim_jobs n : (forall m, free (claim_jobs m)) -> free (pump_queue rdy open q kind claim_jobs n).
Proof. intros Hc. unfold pump_queue. destruct (_ && _); [|done]. by apply free_bind. Qed.

Lemma free_installed : free extension_is_installed.
Proof. apply free_transaction, free_bind; [|done]. split; [done|]. by intros [[[]|]| |]. Qed.

Lemma free_harvest n rs : free (harvest n rs).
Proof.
  revert n. induction rs as [|r rs IH]; intros n; [done|]. apply free_bind; [|intros ?; apply IH].
  unfold submit_result. destruct (r_queue r); by apply free_record, free_json.
Qed.

Lemma free_propagate ids : free (propagate_outbound_cancellations ids).
Proof.
  unfold propagate_outbound_cancellations. case_match; [done|]. apply free_transaction, free_dropped; [done|].
  apply free_bind; [by apply free_json|done].
Qed.

Lemma free_serve_rpc `{SerdeJson} rdy ss : free (serve_rpc rdy ss).
Proof.
  induction ss as [|s ss IH]; [done|]. apply free_bind; [|done]. unfold handle_rpc_stream.
  destruct s as [data|]; [|done]. destruct (_ && _); [|done]. destruct rdy; [|done].
  apply free_transaction, free_dropped; [done|]. apply free_bind; [by apply free_json|done].
Qed.
End free_programs.

(** ** What may run in the sandbox *)

(** At a call [c] behind the calls [h] of all the worker's processes: a sandboxed statement
    is the text of a call some claim handed out, behind the full prologue for that call's
    agent and role, in the transaction that is open. *)
Definition sourced `{WorkerEnv} (h : trace) (c : call) : Prop :=
  forall args, c = Spi RUN_SANDBOXED args ->
    exists item agent sql before prologue,
      (sql_calls, item) ∈ observed handed_out h
      /\ get_str item (str "agent_id") = Some agent /\ get_str item (str "sql") = Some sql
      /\ args = [AStr (Some sql)] /\ h = before ++ prologue
      /\ map fst prologue = sandbox_prologue agent (sandbox_role (get_str item (str "pg_role")))
      /\ Forall succeeded prologue.

Abbreviation wps h p Q := (wp (M := history sourced) h p Q).

(** Histories only grow. *)
Lemma wp_extends {A} allowed (p : prog A) Q : forall h,
  wp (M := history allowed) h p Q -> wp (M := history allowed) h p (fun o s => h `prefix_of` s /\ Q o s).
Proof.
  induction p as [a|m|c k IH]; intros h Hp; [done..|]. destruct Hp as [Hc Hk]. split; [done|]. intros r.
  eapply (wp_mono (M := history allowed)); [apply IH, Hk|]. intros o s [Hs Hq]. split; [|done].
  etrans; [|exact Hs]. by apply prefix_app_r.
Qed.

(** What is shown of a program alone holds behind any history. *)
Lemma wp_behind {A} (allowed allowed' : trace -> call -> Prop) h (p : prog A) Q : forall t,
  (forall t c, allowed t c -> allowed' (h ++ t) c) ->
  wp (M := history allowed) t p Q -> wp (M := history allowed') (h ++ t) p (fun _ _ => True).
Proof.
  intros t Ha. revert t. induction p as [a|m|c k IH]; intros t Hp; [done..|]. destruct Hp as [Hc Hk].
  split; [by apply Ha|]. intros r. cbn [mstep history]. rewrite <- app_assoc. apply IH, Hk.
Qed.

Lemma free_sourced `{WorkerEnv} {A} (p : prog A) : forall h, free p -> wps h p (fun _ _ => True).
Proof.
  induction p as [a|m|c k IH]; intros h Hp; [done..|]. destruct Hp as [Hc Hk]. split; [|intros r; apply IH, Hk].
  intros args ->. by vm_compute in Hc.
Qed.

Lemma observed_prefix {X} (obs : call * reply -> list X) h h' x : h `prefix_of` h' -> x ∈ observed obs h -> x ∈ observed obs h'.
Proof. intros [t ->] Hx. rewrite observed_app. apply elem_of_app. by left. Qed.

Section sourced_programs.
Context `{WorkerEnv}.

Lemma run_sourced h item agent sql :
  (sql_calls, item) ∈ observed handed_out h ->
  get_str item (str "agent_id") = Some agent -> get_str item (str "sql") = Some sql ->
  wps h (run_sandboxed_sql agent sql (get_str item (str "pg_role"))) (fun _ _ => True).
Proof.
  intros Hi Ha Hs. rewrite <- (app_nil_r h).
  eapply wp_behind; [|apply run_sandboxed_sql_wp]. intros t c Ho args ->.
  destruct (Ho args eq_refl) as (-> & Hp & Hok). exists item, agent, sql, h, t.
  ands; try done. rewrite observed_app. apply elem_of_app. by left.
Qed.

Lemma pump_sql_calls_sourced cs : forall n h,
  (forall c, c ∈ cs -> (sql_calls, c) ∈ observed handed_out h) -> wps h (pump_sql_calls n cs) (fun _ _ => True).
Proof.
  induction cs as [|c cs IH]; intros n h Hc; [done|]. cbn [pump_sql_calls].
  assert (forall n h', h `prefix_of` h' -> wps h' (pump_sql_calls n cs) (fun _ _ => True)) as Hrest.
  { intros n' h' Hp. apply IH. intros c' Hc'. eapply observed_prefix; [exact Hp|]. apply Hc. by right. }
  destruct (get_str c (str "call_id")) as [id|]; [|by apply Hrest].
  destruct (get_str c (str "agent_id")) as [agent|] eqn:Ha; [|by apply Hrest].
  destruct (get_str c (str "sql")) as [sql|] eqn:Hs; [|by apply Hrest].
  destruct (_ || _); [by apply Hrest|].
  apply (wp_bind (M := history sourced)). eapply (wp_mono (M := history sourced)).
  { apply wp_extends, (run_sourced h c agent sql); [apply Hc; left|done|done]. }
  intros [o|m] h1 [Hp1 _]; [|done]. apply (wp_bind (M := history sourced)). eapply (wp_mono (M := history sourced)).
  { apply wp_extends, free_sourced. by apply free_record, free_json. }
  intros [[]|m] h2 [Hp2 _]; [|done]. apply Hrest. by etrans.
Qed.

(** The claim's reply is in the history by the time it is worked off. *)
Lemma claim_sql_sourced h n :
  wps h (claim_sql_jobs n) (fun o s => forall v, o = Returned v -> forall c, c ∈ claimed_calls v -> (sql_calls, c) ∈ observed handed_out s).
Proof.
  apply (wp_transaction (M := history sourced)); [by intros ? [=]|]. intros r.
  assert (forall s c, c ∈ claimed_calls (nothing_claimed (str "calls")) -> (sql_calls, c) ∈ observed handed_out s) as Hn
    by by intros s c ?%not_elem_of_nil.
  apply (wp_bind (M := history sourced)). eapply (wp_mono (M := history sourced)); [apply free_sourced, free_drop|].
  intros [[]|m] s _; [|split; [by intros ? [=]|]; intros r' v [= <-]; apply Hn|done].
  split; [by intros ? [=]|]. intros rep.
  destruct rep as [[[b|v|x|z]|]|e|m]; cbn [bind spi_get_json]; try done;
    (split; [by intros ? [=]|]; intros r' v' [= <-]; cbn [ok_flatten default]); try apply Hn.
  intros c Hc. cbn [mstep history]. rewrite !observed_app. apply elem_of_app. left. apply elem_of_app. right.
  unfold observed. cbn [map concat handed_out]. rewrite app_nil_r.
  assert (table_of claim_statement (str "SELECT allgres_public.fn_claim_sql($1)") = Some sql_calls) as -> by (vm_compute; reflexivity).
  by apply list_elem_of_fmap_2.
Qed.

Lemma pump_sql_sourced h : wps h pump_sql (fun _ _ => True).
Proof.
  apply (wp_bind (M := history sourced)). eapply (wp_mono (M := history sourced)); [apply claim_sql_sourced|].
  intros [v|m] s Hv; [|done]. specialize (Hv v eq_refl). unfold claimed_calls in Hv.
  destruct (get_array v (str "calls")) as [cs|]; [|done]. by apply pump_sql_calls_sourced.
Qed.

(** In sequence behind a program that leaves the sandbox alone. *)
Lemma then_sourced {A B} (p : prog A) (f : A -> prog B) h :
  free p -> (forall a h', wps h' (f a) (fun _ _ => True)) -> wps h (bind p f) (fun _ _ => True).
Proof.
  intros Hp Hf. apply (wp_bind (M := history sourced)). eapply (wp_mono (M := history sourced)); [by apply free_sourced|].
  intros [a|m] s _; [apply Hf|done].
Qed.

Context `{SerdeJson}.

Lemma pump_sourced ls t n h : wps h (pump ls t n) (fun _ _ => True).
Proof.
  apply then_sourced; [apply free_installed|]. intros rdy h0.
  do 4 (apply then_sourced; [apply free_pump_queue; intros; (apply free_dispatch || by apply free_claim)|intros ? ?]).
  apply (wp_bind (M := history sourced)). eapply (wp_mono (M := history sourced) _ (fun _ _ => True)).
  { destruct rdy; [apply pump_sql_sourced|done]. }
  intros [ran|m] h5 _; [|done]. destruct (free_function_pumps (build_clock t)) as [F1 F2].
  destruct (free_procedure_pumps (build_clock t)) as [F3 F4].
  do 4 (apply then_sourced; [by destruct rdy|intros ? ?]).
  cbv zeta. by match goal with |- context [reschedule ?a ?b ?c] => destruct (reschedule a b c) end.
Qed.

Lemma loop_turn_sourced ls ids t h : wps h (loop_turn ls ids t) (fun _ _ => True).
Proof.
  apply then_sourced; [apply free_serve_rpc|]. intros _ h1.
  apply then_sourced; [apply free_harvest|]. intros n h2.
  apply then_sourced; [apply free_propagate|]. intros lost h3.
  destruct (_ <? _)%Z; [done|]. apply (wp_bind (M := history sourced)).
  eapply (wp_mono (M := history sourced)); [apply pump_sourced|]. by intros [].
Qed.
End sourced_programs.

(** ** Whole lifetimes *)

Lemma history_after_nil allowed t : mstate_after (M := history allowed) [] t = t.
Proof.
  unfold mstate_after. cbn. assert (forall s, fold_left (fun s cr => s ++ [(cr.1, cr.2)]) t s = s ++ t) as ->; [|done].
  induction t as [|[c r] t IH]; intros s; simpl; [by rewrite app_nil_r|]. by rewrite IH, <- app_assoc.
Qed.

Lemma step_sourced `{WorkerEnv} `{SerdeJson} db threads s s' :
  sys_step db threads s s' ->
  monitored (M := history sourced) [] (s_trace s) -> monitored (M := history sourced) [] (s_trace s').
Proof.
  intros Hs Hm.
  assert (forall ids t, monitored (M := history sourced) (s_trace s) (run db (s_trace s) (loop_turn (s_loop s) ids t)).1) as Ht.
  { intros ids t. apply (wp_run (M := history sourced) db _ (fun _ _ => True)), loop_turn_sourced. }
  destruct Hs as [s t tr ls' lost jobs es1 p1 es2 p2 es3 p3 _ _ _ _ Hr _ _ _ _ _ _ _ _
                 |s t tr m now es1 p1 _ _ _ _ Hr|s now]; [..|done];
    apply monitored_app; (split; [done|]); rewrite history_after_nil; specialize (Ht (registered p1) t); by rewrite Hr in Ht.
Qed.

(** Every statement the worker ever runs in the sandbox is the text of a call a claim
    handed out before, behind the prologue for that call's agent. *)
Lemma sandbox_runs_claimed `{WorkerEnv} `{SerdeJson} db threads now s before args r after :
  rtc (sys_step db threads) (sys_start [] now threads) s ->
  s_trace s = before ++ (Spi RUN_SANDBOXED args, r) :: after -> sourced before (Spi RUN_SANDBOXED args).
Proof.
  intros Hr Ht. assert (monitored (M := history sourced) [] (s_trace s)) as Hm.
  { eapply (rtc_ind_r (fun s => monitored (M := history sourced) [] (s_trace s)) (sys_start [] now threads)); [done| |exact Hr].
    intros s1 s2 _ Hs. by eapply step_sourced. }
  pose proof (monitored_at (M := history sourced) _ _ _ _ _ _ Hm Ht) as Ha. by rewrite history_after_nil in Ha.
Qed.

(** ** The table [sql_calls] and the agents' roles *)

Record sql_row := mk_sql { sc_call : bytes; sc_task : bytes; sc_agent : bytes; sc_sql : bytes }.

(** Rows as inserted, what [fn_validate_sql] reads, and the agents that have a role. *)
Record Desk := mk_desk { d_rows : list sql_row; d_catalog : Catalog; d_provisioned : list bytes }.

(** ['allgres_agent_' || replace(p_agent_id::text, '-', '')], the only value
    [fn_provision_agent_role] gives the column [pg_role]. *)
Definition own_role (agent : bytes) : bytes := str "allgres_agent_" ++ List.filter (fun b => b != "-"%byte) agent.

Definition pg_role_of (D : Desk) (agent : bytes) : option bytes :=
  if bool_decide (agent ∈ d_provisioned D) then Some (own_role agent) else None.

Definition provision_role (agent : bytes) (D : Desk) : Desk :=
  match pg_role_of D agent with
  | Some _ => D
  | None => mk_desk (d_rows D) (d_catalog D) (agent :: d_provisioned D)
  end.

(** The branch [execute_sql] of [fn_submit_result], for a task of [agent] and the fresh id
    of the row: an exception of the validation queues nothing. *)
Definition execute_sql `{Eng : Engine} (call task agent : bytes) (p_sql : option bytes) (D : Desk) : Desk :=
  match fn_validate_sql (d_catalog D) agent p_sql with
  | inl _ => D
  | inr v_valid_sql => mk_desk (d_rows D ++ [mk_sql call task agent v_valid_sql]) (d_catalog D) (d_provisioned D)
  end.

(** An item of [fn_claim_sql]'s reply. *)
Definition sql_item (D : Desk) (r : sql_row) : json :=
  jobj [(str "call_id", JStr (sc_call r)); (str "task_id", JStr (sc_task r)); (str "agent_id", JStr (sc_agent r));
        (str "sql", JStr (sc_sql r)); (str "pg_role", match pg_role_of D (sc_agent r) with Some p => JStr p | None => JNull end)].

(** The worker's statements, with whatever happens between them: answers of agents, roles
    given out, permissions, allowlists and functions changed.  Which rows a claim takes is
    the concern of [CallTables.v]; here it may take any. *)
Inductive desk_run `{Eng : Engine} : Desk -> trace -> Desk -> Prop :=
| desk_done D : desk_run D [] D
| desk_execute D call task agent p_sql t D' :
    desk_run (execute_sql call task agent p_sql D) t D' -> desk_run D t D'
| desk_provision D agent t D' : desk_run (provision_role agent D) t D' -> desk_run D t D'
| desk_change D C t D' : desk_run (mk_desk (d_rows D) C (d_provisioned D)) t D' -> desk_run D t D'
| desk_call D c r t D' :
    (forall item, (sql_calls, item) ∈ handed_out (c, r) -> exists row, row ∈ d_rows D /\ item = sql_item D row) ->
    desk_run D t D' -> desk_run D ((c, r) :: t) D'.

Definition desk_new (C : Catalog) : Desk := mk_desk [] C [].

Section desk.
Context `{Eng : Engine}.

(** What a row owes its place to. *)
Definition validated (r : sql_row) : Prop := exists C p_sql, fn_validate_sql C (sc_agent r) p_sql = inr (sc_sql r).

Definition desk_ok (D : Desk) : Prop := Forall validated (d_rows D).

(** A handed out item is a row's. *)
Definition from_desk (item : json) : Prop :=
  exists row D, validated row /\ item = sql_item D row.

Lemma execute_ok call task agent p_sql D : desk_ok D -> desk_ok (execute_sql call task agent p_sql D).
Proof.
  unfold execute_sql, desk_ok. intros Hd. destruct (fn_validate_sql _ _ _) as [e|q] eqn:Hv; [done|].
  apply Forall_app. split; [done|]. constructor; [|done]. by exists (d_catalog D), p_sql.
Qed.

Lemma provision_ok agent D : desk_ok D -> desk_ok (provision_role agent D).
Proof. unfold provision_role. by destruct (pg_role_of D agent). Qed.

Lemma desk_handed D t D' : desk_run D t D' -> desk_ok D ->
  forall item, (sql_calls, item) ∈ observed handed_out t -> from_desk item.
Proof.
  induction 1 as [D|D call task agent p_sql t D' _ IH|D agent t D' _ IH|D C t D' _ IH|D c r t D' Hc _ IH]; intros Hd item Hi.
  - by apply not_elem_of_nil in Hi.
  - eapply IH; [by apply execute_ok|done].
  - eapply IH; [by apply provision_ok|done].
  - by eapply IH.
  - change (observed handed_out ((c, r) :: t)) with (handed_out (c, r) ++ observed handed_out t) in Hi.
    apply elem_of_app in Hi as [Hi|Hi]; [|by apply IH].
    destruct (Hc item Hi) as (row & Hrow & ->). exists row, D. split; [|done].
    by eapply list.Forall_forall in Hd.
Qed.
End desk.

Lemma sql_item_fields D row :
  get_str (sql_item D row) (str "agent_id") = Some (sc_agent row)
  /\ get_str (sql_item D row) (str "sql") = Some (sc_sql row)
  /\ get_str (sql_item D row) (str "pg_role") = pg_role_of D (sc_agent row).
Proof. unfold sql_item. by destruct (pg_role_of D (sc_agent row)). Qed.

(** *** Roles *)

Lemma uuid_undashed a : forall b i,
  uuid_from i a = true -> uuid_from i b = true -> length a = length b ->
  List.filter (fun b => b != "-"%byte) a = List.filter (fun b => b != "-"%byte) b -> a = b.
Proof.
  induction a as [|x a IH]; intros [|y b] i Ha Hb Hl Hf; try done. cbn [uuid_from List.filter] in *.
  apply andb_true_iff in Ha as [Hx Ha]. apply andb_true_iff in Hb as [Hy Hb]. injection Hl as Hl.
  destruct ((i =? 8) || (i =? 13) || (i =? 18) || (i =? 23))%nat.
  - breflect. subst x y. f_equal. by apply (IH b (S i)).
  - assert (forall z, is_ascii_hexdigit z = true -> (z != "-"%byte) = true) as Hd.
    { intros z Hz. destruct (decide (z = "-"%byte)) as [->|Hne]; [done|]. by rewrite bool_decide_eq_false_2. }
    rewrite (Hd x Hx), (Hd y Hy) in Hf. injection Hf as -> Hf. f_equal. by apply (IH b (S i)).
Qed.

(** Agents do not share roles. *)
Lemma own_role_inj a b : valid_uuid a = true -> valid_uuid b = true -> own_role a = own_role b -> a = b.
Proof.
  unfold valid_uuid, own_role. intros [Hla Ha]%andb_true_iff [Hlb Hb]%andb_true_iff He%app_inv_head.
  apply Nat.eqb_eq in Hla, Hlb. apply (uuid_undashed a b 0 Ha Hb); [congruence|done].
Qed.

Lemma sandbox_role_own D agent :
  sandbox_role (pg_role_of D agent) = own_role agent \/ sandbox_role (pg_role_of D agent) = str "sandbox".
Proof.
  unfold pg_role_of. case_bool_decide; [|by right]. cbn [sandbox_role]. destruct (valid_pg_role _); [by left|by right].
Qed.

(** ** The theorem *)

(** C2: nothing runs in the sandbox but what was validated for the agent it runs as.
    Over the whole lifetime of the worker, any number of turns and processes, with the
    server answering claims of SQL from the table [sql_calls], while agents' answers are
    validated and queued, roles are given out and permissions, allowlists and functions
    change between any two statements: every statement the worker runs in the sandbox
    carries, as its only parameter, a text that [fn_validate_sql] returned for some agent,
    and it runs in a transaction that holds exactly the successful prologue for that agent
    (its id set, its role or the shared one taken, read-only, search path and timeout
    set); the role of another agent it never is. *)
Theorem sandbox_runs_validated `{WorkerEnv} `{SerdeJson} `{Eng : Engine} db threads now s C D before args r after :
  rtc (sys_step db threads) (sys_start [] now threads) s ->
  desk_run (desk_new C) (s_trace s) D ->
  s_trace s = before ++ (Spi RUN_SANDBOXED args, r) :: after ->
  exists agent sql role C' p_sql earlier prologue,
    fn_validate_sql C' agent p_sql = inr sql /\ args = [AStr (Some sql)]
    /\ before = earlier ++ prologue /\ map fst prologue = sandbox_prologue agent role /\ Forall succeeded prologue
    /\ (role = own_role agent \/ role = str "sandbox")
    /\ (forall other, valid_uuid agent = true -> valid_uuid other = true -> role = own_role other -> other = agent).
Proof.
  intros Hr Hd Ht.
  destruct (sandbox_runs_claimed _ _ _ _ _ _ _ _ Hr Ht args eq_refl)
    as (item & agent & sql & earlier & prologue & Hi & Ha & Hs & -> & -> & Hp & Hok).
  assert (from_desk item) as (row & D0 & (C' & p_sql & Hv) & ->).
  { eapply desk_handed; [exact Hd|by constructor|]. rewrite Ht, observed_app. apply elem_of_app. by left. }
  destruct (sql_item_fields D0 row) as (Fa & Fs & Fr). rewrite Fa in Ha. rewrite Fs in Hs. rewrite Fr in Hp.
  injection Ha as <-. injection Hs as <-. exists (sc_agent row), (sc_sql row), (sandbox_role (pg_role_of D0 (sc_agent row))), C', p_sql, earlier, prologue.
  ands; try done; [apply sandbox_role_own|]. intros other Hva Hvo Ho.
  destruct (sandbox_role_own D0 (sc_agent row)) as [E|E]; rewrite E in Ho; [by apply own_role_inj|].
  discriminate Ho.
Qed.

(** ** A sample lifetime *)

#[local] Instance plain_env : WorkerEnv := {| env_drop_privileges := None |}.
#[local] Existing Instance tiny_json.

Definition sales_sql : bytes := str "select sum(amount) from allgres_public.v_sales".
Definition sales_row : sql_row := mk_sql sample_agent sample_agent analyst sales_sql.

(** A role is given out, and the statement queued. *)
Definition sales_desk : Desk :=
  execute_sql (Eng := printing sales_dump) sample_agent sample_agent analyst (Some (sales_sql ++ str ";"))
    (provision_role analyst (desk_new sales_catalog)).

(** The server that hands it out. *)
Definition sales_db : server := fun h c =>
  match c with
  | Spi sql _ =>
    if sql == claim_statement sql_calls then Done (Some (DJson (jobj [(str "calls", JArr [sql_item sales_desk sales_row])])))
    else if sql == EXTENSION_INSTALLED then Done (Some (DBool true))
    else obliging h c
  | _ => Done None
  end.

Definition sales_turn := run sales_db [] (loop_turn (loop_init 0) [] turn1).
Definition sales_trace : trace := sales_turn.1.

Definition sales_loop : LoopState := mk_loop 0 true (1 + PUMP_BUSY) PUMP_IDLE_MIN.
Definition sales_s : Sys := mk_sys sales_trace sales_loop (spawn_http_pool 1) [] [] [Marked []] [].

Lemma sales_turn_run :
  run sales_db (s_trace sample_s0) (loop_turn (s_loop sample_s0) (registered (spawn_http_pool 1)) turn1)
  = (sales_trace, Returned (sales_loop, [], [])).
Proof. vm_compute. reflexivity. Qed.

Lemma sales_step : sys_step sales_db 1 sample_s0 sales_s.
Proof.
  eapply sys_step_eq; [|vm_compute; reflexivity].
  refine (sys_turn sales_db 1 sample_s0 turn1 sales_trace sales_loop [] []
            [] (spawn_http_pool 1) [] (spawn_http_pool 1) [] (spawn_http_pool 1)
            (pool_done _) eq_refl eq_refl eq_refl sales_turn_run (pool_done _) eq_refl eq_refl eq_refl
            _ eq_refl eq_refl eq_refl).
  eapply pool_more; [apply pool_mark|]. apply pool_done.
Qed.

(** Calls that hand out no statement. *)
Definition no_sql (cr : call * reply) : bool := forallb (fun x => x.1 != sql_calls) (handed_out cr).

Lemma desk_quiet `{Eng : Engine} D t t' D' : forallb no_sql t = true -> desk_run D t' D' -> desk_run D (t ++ t') D'.
Proof.
  intros Hq Hd. induction t as [|[c r] t IH]; [done|]. apply andb_true_iff in Hq as [Hc Hq].
  apply desk_call; [|by apply IH]. intros item Hi. exfalso.
  unfold no_sql in Hc. rewrite forallb_forall in Hc. apply list_elem_of_In, Hc in Hi. by breflect.
Qed.

Lemma sales_desk_run : desk_run (Eng := printing sales_dump) (desk_new sales_catalog) sales_trace sales_desk.
Proof.
  apply (desk_provision (Eng := printing sales_dump) _ analyst).
  apply (desk_execute (Eng := printing sales_dump) _ sample_agent sample_agent analyst (Some (sales_sql ++ str ";"))).
  fold sales_desk. rewrite <- (take_drop 23 sales_trace). apply desk_quiet; [vm_compute; reflexivity|].
  assert (drop 23 sales_trace = (Spi (claim_statement sql_calls) [AInt (Some SQL_CLAIM_LIMIT)],
            Done (Some (DJson (jobj [(str "calls", JArr [sql_item sales_desk sales_row])])))) :: drop 24 sales_trace) as ->
    by (vm_compute; reflexivity).
  apply desk_call.
  - intros item [Hi|Hi]%elem_of_cons; [|by apply not_elem_of_nil in Hi]. exists sales_row.
    split; [left|by injection Hi].
  - rewrite <- (app_nil_r (drop 24 sales_trace)). apply desk_quiet; [vm_compute; reflexivity|apply desk_done].
Qed.

Lemma sandbox_runs_validated_witness :
  exists agent role (prologue : trace),
    map fst prologue = sandbox_prologue agent role /\ (role = own_role agent \/ role = str "sandbox").
Proof.
  destruct (sandbox_runs_validated (Eng := printing sales_dump) sales_db 1 0 sales_s sales_catalog sales_desk
              (take 35 sales_trace) [AStr (Some sales_sql)] (Done (Some (DJson (jobj [(str "ok", JBool true)])))) (drop 36 sales_trace)
              (rtc_once _ _ sales_step) sales_desk_run)
    as (agent & sql & role & C' & p_sql & earlier & prologue & _ & _ & _ & Hp & _ & Hr & _).
  - vm_compute. reflexivity.
  - exists agent, role, prologue. split; [exact Hp|exact Hr].
Defined.
