(* ===== verification/UnitTests.v ===== *)
(** * The crate's unit tests, run on the model

    [src/src/tests.rs] tests the pure parts of the sources on concrete inputs.  Each of
    its tests is here under its own name, as an [Example] about the definitions that
    model the functions it calls: what the Rust code is known to answer the definitions
    answer.  (A test of the page's text is left out; the page is a parameter.) *)

From stdpp Require Import gmap.
From S2P Require Import Prelude Utf8 RustStr Net HttpProtocol RateLimit WebAuth SqlParser Privilege.

(** ** Requests *)

(** Lines with their line ends, and a text that is no line. *)
Definition wire (ls : list bytes) (rest : bytes) : bytes := concat (map (fun l => l ++ [x0d; x0a]) ls) ++ rest.

(** [parse_http_request(raw.as_bytes()).expect("parses")], with what the test then asks of
    the request; a request that does not parse fails every test. *)
Definition req (ls : list bytes) (rest : bytes) (test : HttpRequest -> bool) : bool :=
  match parse_http_request (wire ls rest) with Some r => test r | None => false end.

Example parses_method_path_headers_and_body :
  req [str "POST /api/v1/run?x=1 HTTP/1.1"; str "Host: a:8088"; str "Content-Length: 2"; []] (str "{}")
    (fun r => (method r == str "POST") && (route r == str "/api/v1/run") && (query r == str "x=1")
              && (header r (str "host") == Some (str "a:8088")) && (body r == str "{}")) = true.
Proof. vm_compute. reflexivity. Qed.

Example header_lookup_is_case_insensitive :
  req [str "GET / HTTP/1.1"; str "X-Allgres-Client: dashboard"; []] []
    (fun r => (header r (str "x-allgres-client") == Some (str "dashboard"))
              && (header r (str "X-ALLGRES-CLIENT") == Some (str "dashboard"))) = true.
Proof. vm_compute. reflexivity. Qed.

Example truncated_request_is_rejected : parse_http_request (wire [str "GET / HTTP/1.1"] (str "Host: a")) = None.
Proof. vm_compute. reflexivity. Qed.

Example constant_time_eq_matches_semantics_of_eq :
  constant_time_eq (str "secret") (str "secret") = true /\ constant_time_eq (str "secret") (str "secreT") = false
  /\ constant_time_eq (str "secret") (str "secret1") = false /\ constant_time_eq [] [] = true.
Proof. vm_compute. done. Qed.

Example csrf_requires_custom_header_on_api_calls :
  req [str "GET /api/v1/tasks HTTP/1.1"; str "Host: a"; []] [] (fun r => negb (csrf_ok r)) = true
  /\ req [str "GET /api/v1/tasks HTTP/1.1"; str "Host: a"; str "X-Allgres-Client: dashboard"; []] [] csrf_ok = true.
Proof. vm_compute. done. Qed.

Example csrf_rejects_foreign_origin_and_opaque_origin :
  let post origin := req [str "POST /api/v1/run HTTP/1.1"; str "Host: a"; origin; str "X-Allgres-Client: d"; []] [] in
  post (str "Origin: http://evil.test") (fun r => negb (csrf_ok r)) = true
  /\ post (str "Origin: null") (fun r => negb (csrf_ok r)) = true
  /\ post (str "Origin: http://a") csrf_ok = true.
Proof. vm_compute. done. Qed.

Example event_stream_is_exempt_from_the_custom_header :
  req [str "GET /api/v1/events HTTP/1.1"; str "Host: a"; []] [] csrf_ok = true.
Proof. vm_compute. reflexivity. Qed.

(** ** Authorization *)

(** The configuration is [token_config]; no ticket is out. *)
Example token_is_required_when_configured :
  let ask (extra : list bytes) answer :=
    req ([str "GET /api/v1/tasks HTTP/1.1"] ++ extra ++ [[]]) [] (fun r => (authorized r token_config ∅ 0).1 == answer) in
  ask [] false = true
  /\ ask [str "Authorization: Bearer nope"] false = true
  /\ ask [str "Authorization: Bearer s3cr3t"] true = true.
Proof. vm_compute. done. Qed.

(** What [authorized] answers to a request for [path], and the tickets after it. *)
Definition ask_with (path : bytes) (tickets : gmap bytes Z) : option bool * gmap bytes Z :=
  match parse_http_request (wire [str "GET " ++ path ++ str " HTTP/1.1"; []] []) with
  | Some r => let out := authorized r token_config tickets 0 in (Some out.1, out.2)
  | None => (None, tickets)
  end.

(** The durable token as a parameter; a ticket, and the same ticket again; and a fresh
    ticket on another route. *)
Definition ticket_answers : list (option bool) :=
  let ask0 := ask_with (str "/api/v1/events?token=s3cr3t") ∅ in
  let minted := mint_sse_ticket ask0.2 0 (from_urandom (repeat x0a 16)) in
  let ask1 := ask_with (str "/api/v1/events?ticket=" ++ minted.1) minted.2 in
  let ask2 := ask_with (str "/api/v1/events?ticket=" ++ minted.1) ask1.2 in
  let minted2 := mint_sse_ticket ask2.2 0 (from_urandom (repeat x0b 16)) in
  let ask3 := ask_with (str "/api/v1/tasks?ticket=" ++ minted2.1) minted2.2 in
  [ask0.1; ask1.1; ask2.1; ask3.1].

Example query_ticket_is_accepted_only_for_the_event_stream_and_only_once :
  ticket_answers = [Some false; Some true; Some false; Some false].
Proof. vm_compute. reflexivity. Qed.

(** The ticket was issued the test's [SSE_TICKET_TTL] and one second ago. *)
Example sse_ticket_expires :
  let now := (SSE_TICKET_TTL + from_secs 1)%Z in
  let (ticket, tickets) := mint_sse_ticket ∅ 0 (from_urandom (repeat x0a 16)) in
  (consume_sse_ticket tickets now ticket).1 = false.
Proof. vm_compute. reflexivity. Qed.

(** ** Limits *)

(** [n] requests of one address at one instant. *)
Definition burst (n : nat) (ip : IpAddr) (now : Z) (w : RateWindows) : RateWindows :=
  Nat.iter n (fun w => (rate_limited w ip now).2) w.

Example rate_limit_trips_after_the_general_cap_and_recovers_outside_the_window :
  let now := from_secs 1000 in
  forallb (fun n => negb (rate_limited (burst n ip_a now RATE_LIMIT_init) ip_a now).1) (seq 0 RATE_GENERAL_LIMIT) = true
  /\ (let full := burst RATE_GENERAL_LIMIT ip_a now RATE_LIMIT_init in
      (rate_limited full ip_a now).1 = true
      /\ (let old := (now - RATE_GENERAL_WINDOW - from_secs 1)%Z in
          (rate_limited (mk_windows (<[ip_a := repeat old RATE_GENERAL_LIMIT]> (general full)) (auth_fail full)) ip_a now).1 = false)).
Proof. split; [|split]; vm_compute; reflexivity. Qed.

Example auth_failure_lockout_is_independent_of_the_general_rate_limit :
  let other := V4 xcb x00 x71 x09 in
  let w0 := (auth_failures_exceeded RATE_LIMIT_init ip_b 0).2 in
  let w := Nat.iter RATE_AUTH_FAIL_LIMIT (fun w => record_auth_failure w ip_b 0) w0 in
  (auth_failures_exceeded RATE_LIMIT_init ip_b 0).1 = false
  /\ (auth_failures_exceeded w ip_b 0).1 = true /\ (auth_failures_exceeded w other 0).1 = false.
Proof. split; [|split]; vm_compute; reflexivity. Qed.

(** ** Small functions *)

Example percent_decoding_handles_escapes_and_plus :
  percent_decode (str "a%20b+c") = str "a b c" /\ percent_decode (str "%2F") = str "/"
  /\ percent_decode (str "100%") = str "100%".
Proof. vm_compute. done. Qed.

Example exposure_check_blocks_public_bind_without_token :
  check_exposure (str "127.0.0.1:8088") [] None = Exposure_ok
  /\ check_exposure (str "0.0.0.0:8088") (str "token") None = Exposure_ok
  /\ check_exposure (str "0.0.0.0:8088") [] None = Exposure_refused.
Proof. vm_compute. done. Qed.

Example uuid_shape_is_validated_before_it_reaches_a_cast :
  valid_uuid (str "0f6f1b7c-3c2e-4f5a-9a1b-2c3d4e5f6a7b") = true
  /\ valid_uuid (str "0f6f1b7c-3c2e-4f5a-9a1b-2c3d4e5f6a7") = false
  /\ valid_uuid (str "'; DROP TABLE agents; --") = false.
Proof. vm_compute. done. Qed.

Example truncation_keeps_utf8_boundaries :
  truncate_utf8 (str "h" ++ [xc3; xa9] ++ str "llo") 2 = str "h" /\ truncate_utf8 (str "hello") 99 = str "hello".
Proof. vm_compute. done. Qed.

(** ** The dump reader *)

Definition rangevar (schema rel : bytes) : bytes :=
  str "{RANGEVAR :schemaname " ++ schema ++ str " :relname " ++ rel
    ++ str " :inh true :relpersistence p :alias <> :location 14}".

Definition select_dump (inner : bytes) : bytes :=
  str "({RAWSTMT :stmt {SELECTSTMT :distinctClause <> :intoClause <> :targetList <> :fromClause (" ++ inner
    ++ str ") } :stmt_location 0 :stmt_len 40})".

(** What a test reads of the analysis; a panic and the empty dump fail every test. *)
Definition analyzed {A} (read : Analysis -> A) (dump : bytes) : option A :=
  match analyze_dump dump with Some (Analyzed a) => Some (read a) | _ => None end.

(** [\c] of a Rust string, where [c] is a quote, and the quoted string itself. *)
Definition quoted (s : bytes) : bytes := [QUOTE] ++ s ++ [QUOTE].

Definition maechul : bytes := [xeb; xa7; xa4; xec; xb6; x9c].
Definition ganada : bytes := [xea; xb0; x80; xeb; x82; x98; xeb; x8b; xa4].

Example reads_a_schema_qualified_relation :
  analyzed (fun a => (kind a, statements a, writes a, relations a)) (select_dump (rangevar (str "allgres_public") (str "v_sales")))
  = Some (str "select", 1%nat, false, [(Some (str "allgres_public"), str "v_sales")]).
Proof. vm_compute. reflexivity. Qed.

Example reads_every_relation_in_a_comma_join :
  analyzed relations (select_dump (rangevar (str "allgres_public") (str "v_sales") ++ str " "
                                   ++ rangevar (str "allgres_private") (str "sessions")))
  = Some [(Some (str "allgres_public"), str "v_sales"); (Some (str "allgres_private"), str "sessions")].
Proof. vm_compute. reflexivity. Qed.

Example unqualified_relation_reports_a_null_schema :
  analyzed relations (select_dump (rangevar (str "<>") (str "sessions"))) = Some [(None, str "sessions")].
Proof. vm_compute. reflexivity. Qed.

Example non_ascii_relation_name_is_read_correctly_end_to_end :
  analyzed relations (select_dump (rangevar (str "allgres_public") maechul)) = Some [(Some (str "allgres_public"), maechul)].
Proof. vm_compute. reflexivity. Qed.

Example collects_cte_names :
  analyzed ctes (select_dump (str "{COMMONTABLEEXPR :ctename x :aliascolnames <> :ctequery <> :location 5} "
                              ++ rangevar (str "<>") (str "x"))) = Some [str "x"].
Proof. vm_compute. reflexivity. Qed.

Example flags_select_into_and_data_modifying_ctes :
  analyzed writes (str "({RAWSTMT :stmt {SELECTSTMT :intoClause {INTOCLAUSE :rel <>} }})") = Some true
  /\ analyzed writes (str "({RAWSTMT :stmt {SELECTSTMT :intoClause <> :withClause {INSERTSTMT :relation <>} }})") = Some true.
Proof. vm_compute. done. Qed.

Example counts_statements_and_rejects_non_select_kinds :
  let one := str "{RAWSTMT :stmt {SELECTSTMT :intoClause <>}}" in
  analyzed (fun a => (statements a, kind a)) (str "(" ++ one ++ str " " ++ one ++ str ")") = Some (2%nat, str "other")
  /\ analyzed kind (str "({RAWSTMT :stmt {UPDATESTMT :relation <>}})") = Some (str "other").
Proof. vm_compute. done. Qed.

Example token_reader_handles_escapes_null_and_empty :
  map (fun s => fst <$> read_token s)
    [str "<> :relname x"; quoted [] ++ str " :x"; str "plain rest"; str "odd\ name rest"; str "\2fast rest"; str "last}"]
  = map Some [None; Some []; Some (str "plain"); Some (str "odd name"); Some (str "2fast"); Some (str "last")].
Proof. vm_compute. reflexivity. Qed.

Example token_reader_decodes_multibyte_utf8_instead_of_mangling_it :
  fst <$> read_token (ganada ++ str " :x") = Some (Some ganada)
  /\ fst <$> read_token (str "caf" ++ [xc3; xa9] ++ str "\}bar}") = Some (Some (str "caf" ++ [xc3; xa9] ++ str "}bar")).
Proof. vm_compute. done. Qed.

Example collects_function_names_from_a_funcname_list :
  analyzed functions (str "({RAWSTMT :stmt {SELECTSTMT :intoClause <> :targetList ({RESTARGET :val {FUNCCALL :funcname ("
                      ++ quoted (str "pg_sleep") ++ str ") :args ({A_CONST :val 30})}})}})")
  = Some [(None, str "pg_sleep")].
Proof. vm_compute. reflexivity. Qed.

Example keeps_the_schema_of_a_qualified_function :
  analyzed functions (str "({RAWSTMT :stmt {SELECTSTMT :intoClause <> :fromClause ({FUNCCALL :funcname ("
                      ++ quoted (str "pg_catalog") ++ str " " ++ quoted (str "generate_series") ++ str ") :args <>})}})")
  = Some [(Some (str "pg_catalog"), str "generate_series")].
Proof. vm_compute. reflexivity. Qed.

Example paren_body_stops_at_its_own_closing_paren :
  paren_body (quoted (str "a") ++ str " " ++ quoted (str "b") ++ str ") :args (x)") = quoted (str "a") ++ str " " ++ quoted (str "b")
  /\ paren_body (str "(nested) tail) rest") = str "(nested) tail".
Proof. vm_compute. done. Qed.

Example quoted_strings_unescapes :
  quoted_strings (quoted (str "a") ++ str " " ++ quoted (str "b")) = Some [str "a"; str "b"]
  /\ quoted_strings (quoted (str "od\" ++ [QUOTE] ++ str "d")) = Some [str "od" ++ [QUOTE] ++ str "d"]
  /\ quoted_strings (str "no quotes here") = Some [].
Proof. vm_compute. done. Qed.

Example node_body_stops_at_its_own_closing_brace :
  let s := str " :alias {ALIAS :aliasname a} :location 3} :trailing" in
  contains (node_body s) (str ":aliasname a") = true /\ contains (node_body s) (str ":trailing") = false.
Proof. vm_compute. done. Qed.

Example unparseable_input_is_reported_rather_than_silently_empty : analyze_dump [] = Some Unparseable.
Proof. vm_compute. reflexivity. Qed.
